(* ===== verification/_CoqProject ===== *)
-Q . S2P
Prelude.v
Text.v
Double.v
Grisu.v
GrisuDigits.v
GrisuRound.v
Protocol.v
BlockQueue.v
Notifier.v
ControlTypes.v
Stats.v
Json.v
JsonLexer.v
JsonParser.v
JsonAccept.v
JsonDump.v
JsonRound.v
JsonPretty.v
RuntimeConfig.v
Logger.v
HttpParser.v
Socket.v
Client.v
Handlers.v
Server.v
Hooks.v
Invariant.v
Auth.v
Threads.v
Reactor.v
System.v
Conservation.v
Limits.v
Identity.v
Lifecycle.v
Progress.v
Metrics.v
Startup.v
Main.v
