(* ===== verification/Prelude.v ===== *)
(** * gateway-system: a verification development for the C++ TCP gateway

    The program under [src/cpp-gateway] is a single-reactor TCP gateway.
    Clients speak a length-prefixed binary protocol over TCP; an edge-triggered
    epoll loop reads, decodes and queues their requests, worker threads answer
    them, and AUTH requests go through a second queue to threads that ask an
    HTTP control plane.  A further thread pulls a runtime configuration.  A
    stop request or a signal starts a drain with a deadline.  This library
    models these parts as executable definitions and proves what makes them
    correct, under every behaviour of the peers, of the kernel, of the control
    plane and of the scheduler.

    ** Parts, files and sources

    - [Prelude]: bytes, machine integers, record update, tactics, shared lemmas.
    - [Text]: the parts of [std::string] and [<cctype>] that are used.
      [Double]: [double] as its 64 bits, with [std::strtod].
    - [Protocol]: [include/protocol/*.hpp], [src/protocol/ProtocolCodec.cpp].
    - [BlockQueue]: [include/concurrent/BlockQueue.hpp].
    - [Notifier]: [include/net/ReactorNotifier.hpp], [src/net/ReactorNotifier.cpp]
      with the kernel's eventfd counter.
    - [Stats]: [src/business/StatsManager.cpp].
    - [Json]: the value type and accessors of the vendored [nlohmann/json.hpp];
      the class [JsonLib] states what the gateway needs of [json::parse] and
      [dump].  [JsonLexer], [JsonParser] and [JsonDump] model [class lexer],
      [class parser] with [json_sax_dom_parser], and [class serializer];
      [JsonRound] proves the laws and gives the instance [nlohmann];
      [JsonPretty] adds indented output, [JsonAccept] the checking of a text
      without a value ([json::accept]) and comments.
    - [Grisu], [GrisuDigits], [GrisuRound]: the conversion of a [double] to text
      ([dtoa_impl], [to_chars], [dump_float]); what its steps compute; what
      the text is worth.
    - [RuntimeConfig], [Logger]: [src/control/RuntimeConfig.cpp],
      [src/common/Logger.cpp].
    - [ControlTypes], [HttpParser], [Socket], [Client]: the control-plane client,
      [src/control/HttpResponseParser.cpp], [SocketDeadline.cpp] and
      [ControlPlaneClient.cpp]; [Socket] also holds [SocketUtil.hpp].
    - [Handlers]: [src/business/Handlers.cpp], [Dispatcher.cpp], [LogStorage.cpp].
      The class [ControlPlane] is what the AUTH handler needs of the client;
      [Auth] discharges it with [Client].
    - [Server]: [src/net/TcpServer.cpp] and its headers.  The record [Server] is
      the state of [TcpServer] with the kernel's side ([k_open], [k_interest])
      and a trace of what the reactor did; one definition per member function.
      The reactor runs as a function; the other threads run as lists of
      [Action]s, their atomic steps, which [sync] performs before each access of
      the reactor to shared state, as the environment's schedule says.
      [Hooks]: the test hooks of a debug build.
    - [Invariant], [Threads], [Reactor]: the invariant [Inv] of the running
      server and that every action of every thread and every operation of the
      reactor preserves it.
    - [System]: the states reachable from a started server, and the properties
      that hold in all of them.  [Conservation]: the invariant [Flow], which
      follows the input of every connection through the reactor.
      [Limits], [Lifecycle]: the rate and connection limits; failed start,
      termination of the workers, shutdown.  [Progress]: what the reactor does
      to the shared state, as elementary changes, and that work completes.
      [Identity]: the invariant [One], which follows AUTH checks from the
      decoder to the verdict, for any policy of the control plane.
      [Metrics]: the invariant [Tidy] of counters and gauges.
    - [Startup], [Main]: [src/control/StartupConfig.cpp] and [src/main.cpp].

    ** What the theorems show

    - [System]: exactly-once accounting of admitted work; isolation across
      descriptor reuse; authentication before admission; the bytes sent are the
      encoded responses in order; memory bounds; exact epoll interest; no lost
      wake-up.
    - [Conservation]: the bytes received on a connection are complete frames and
      one incomplete frame, and every request in them is answered exactly once
      or still outstanding, unless a full response queue refused a response; a
      connection that is closed for drain has been served completely; nothing
      is admitted that was not received.
    - [Identity]: a connection is authenticated only as a client whose approved
      credentials it has sent itself, at most once, and keeps that identity; no
      client ever has more connections than the configurations allow, and
      rate-limit windows exist only for clients that are connected.  The
      control-plane client satisfies what is assumed of it.  [Hooks]: a debug
      build differs from a release build only where a variable asks for it.
    - [Progress]: the workers never run out of step with the queues, so that
      every admitted request is answered; the life cycle of the loop with its
      shutdown deadline.  [Metrics]: the gauges are exact in every reachable
      state, and every member of a STATS answer has the value its counter or
      gauge had when the handler read it (the reads are separate actions).
      [Main]: the program as a whole ends clean, whichever way it ends.
    - [Lifecycle], [Limits], [Startup]: a failed start releases everything, the
      workers end, shutdown can always complete and leaves nothing open; the
      limits per client, also when its connections come and go; exactly which
      startup configurations are accepted, with which values, and that an
      accepted one starts a server within the bounds the rest relies on.
    - [Protocol]: chunk independence, round trip and bounds of the codec.
      [BlockQueue]: refinement of a bounded FIFO.  [Notifier]: wake-ups.
      [Stats], [RuntimeConfig], [Handlers]: the contracts the server uses.
      [Logger]: which lines a process writes, under the level last set.
    - [JsonParser]: the iterative parser always ends and accepts exactly the JSON
      grammar.
      [JsonAccept]: so does the acceptor; comments are white space where they
      are allowed.
      [JsonDump]: the UTF-8 automaton accepts exactly RFC 3629 and escaping stays
      in its buffer.  [JsonRound], [JsonPretty]: what is dumped, compact or
      indented, parses back, and what was parsed can be dumped.  [GrisuRound]: Grisu2 ends, its digits are within
      the rounding interval, and the text of a [double] reads back as the same
      bits.  [Handlers] uses these: which requests raise an exception, and that
      the STATS report says what the counters hold.
    - [HttpParser]: chunk independence, soundness and completeness of the
      framing, bounds.  [Socket], [Client]: every operation returns by its
      deadline and holds no descriptor afterwards, whole requests that nothing
      can be injected into, and answers only on wire evidence.  [Auth]: from the
      bytes on the wire to the authenticated client.

    ** Conventions, bounds and fuel

    Integers are [Z] with the wrap-around of their width written where the
    source can wrap.  A loop whose length the kernel decides takes the kernel's
    answers as a list and is [None] if the list is too short.  Loops that need
    fuel have a theorem that some amount is enough: [decode] and [header_lines]
    use one more than the length of the input, since every iteration advances;
    so does the loop of [scan_string], and the parser's loop twice the length
    plus four, since a token costs at most two iterations ([parse_run] is [None]
    when the fuel runs out, which is told apart from a syntax error); counting and writing the digits
    of a 64-bit integer takes at most 6 rounds of four and 10 rounds of two;
    the loops of Grisu2 take at most 63 shifts, 10 integral and 20 fractional
    digits, and 9 corrections of the last digit;
    the loops of [Socket] and [Client] use more than the nanoseconds of their
    deadline, since every system call takes time ([Lawful] states this and that
    a call takes at most [δ] beyond what it was asked to wait).  An exception is
    [None].

    ** Not modelled

    Of the vendored JSON library, what the gateway does not reach: binary
    values and formats, callbacks, iterators, JSON pointers and patches.
    [std::strtod] belongs to the C library and is taken to round correctly, to
    nearest with ties to even, as IEEE 754 asks.  Further: the calls that write
    log lines from the other components (they do not affect them); the
    registration of signal handlers (their effect is an [Action]); memory
    allocation failure; the failure of [std::thread] to create a thread in
    [start] (the exception then ends [main], or the process where a thread
    already runs); the Go control plane, of which every answer is
    allowed. *)

From Stdlib Require Export ZArith Lia Ascii String.
From stdpp Require Export base option list gmap strings.

#[local] Open Scope Z_scope.

(** ** Notation and conventions *)

Declare Scope gateway_scope.
Delimit Scope gateway_scope with gw.

(** A [std::string] (or a [char] buffer) is the list of its bytes; an [ascii]
    is exactly one 8-bit byte. *)
Abbreviation bytes := (list ascii).

(** [s.size()], as the unbounded value of the [size_t]. *)
Definition zlen {A} (l : list A) : Z := Z.of_nat (length l).
#[global] Arguments zlen : simpl never.

(** A C++ string literal.  The raw literals of the source are JSON texts full
    of double quotes, so a literal is written here with single quotes, which
    no literal of the source contains, in their place. *)
Definition unquote (c : ascii) : ascii :=
  if Ascii.eqb c (ascii_of_nat 39) then ascii_of_nat 34 else c.

Definition lit (s : string) : bytes := map unquote (list_ascii_of_string s).

(** ** Machine integers

    A w-bit unsigned integer is a [Z] together with the wrap-around of its
    width, written where the source performs an operation that can wrap. *)

Definition u8 (z : Z) : Z := z mod 2 ^ 8.
Definition u32 (z : Z) : Z := z mod 2 ^ 32.
Definition u64 (z : Z) : Z := z mod 2 ^ 64.

Definition INT_MAX : Z := 2 ^ 31 - 1.
Definition INT64_MAX : Z := 2 ^ 63 - 1.
Definition UINT64_MAX : Z := 2 ^ 64 - 1.

(** The value of a byte as [unsigned char], and the byte of a [uint8_t]. *)
Definition byte_val (c : ascii) : Z := Z.of_N (N_of_ascii c).
Definition byte_of (z : Z) : ascii := ascii_of_N (Z.to_N (u8 z)).

(** Network byte order ([htonl]/[htobe64] followed by copying the object
    representation): the [n] bytes of [z], most significant first, and the
    value of such a sequence ([memcpy] followed by [ntohl]/[be64toh]). *)
Fixpoint be_bytes (n : nat) (z : Z) : bytes :=
  match n with
  | O => []
  | S k => byte_of (Z.shiftr z (8 * Z.of_nat k)) :: be_bytes k z
  end.

Fixpoint be_val (l : bytes) : Z :=
  match l with
  | [] => 0
  | c :: t => byte_val c * 2 ^ (8 * zlen t) + be_val t
  end.

(** ** Record update

    [setter f] builds the function that replaces field [f] of a record whose
    eta expansion is declared as an [Eta] instance. *)
Class Eta (R : Type) := eta : R → R.

Ltac setter p :=
  lazymatch type of p with
  | ?R → ?T =>
      let e := constr:(eta : R → R) in
      let e := eval hnf in e in
      let e := eval pattern p in e in
      lazymatch e with
      | ?F _ =>
          let b := eval cbv beta in (fun (v : T) (s : R) => F (fun _ => v) s) in
          exact b
      end
  end.

(** ** Automation *)

Create HintDb gateway.

(** Splits every [if] and [match] on a boolean or decidable test and turns
    the boolean tests into arithmetic facts. *)
Ltac bool_facts :=
  repeat match goal with
  | H : andb _ _ = true |- _ => apply andb_true_iff in H as [? ?]
  | H : orb _ _ = false |- _ => apply orb_false_iff in H as [? ?]
  | H : negb _ = true |- _ => apply negb_true_iff in H
  | H : negb _ = false |- _ => apply negb_false_iff in H
  | H : Z.ltb _ _ = true |- _ => apply Z.ltb_lt in H
  | H : Z.ltb _ _ = false |- _ => apply Z.ltb_ge in H
  | H : Z.leb _ _ = true |- _ => apply Z.leb_le in H
  | H : Z.leb _ _ = false |- _ => apply Z.leb_gt in H
  | H : Z.eqb _ _ = true |- _ => apply Z.eqb_eq in H
  | H : Z.eqb _ _ = false |- _ => apply Z.eqb_neq in H
  | H : bool_decide _ = true |- _ => apply bool_decide_eq_true in H
  | H : bool_decide _ = false |- _ => apply bool_decide_eq_false in H
  end.

Ltac case_bool :=
  match goal with
  | |- context [if ?b then _ else _] =>
      lazymatch type of b with
      | bool => let E := fresh "E" in destruct b eqn:E
      end
  | H : context [if ?b then _ else _] |- _ =>
      lazymatch type of b with
      | bool => let E := fresh "E" in destruct b eqn:E
      end
  end.

(** Divisions and remainders by constants. *)
Ltac euclid := Z.to_euclidean_division_equations; lia.

(** Permutations of concatenations, by counting occurrences. *)
Ltac perm_solve :=
  match goal with
  | |- @Permutation ?A _ _ =>
      apply (Permutation_count_occ (decide_rel (=@{A}))); intros ?x;
      repeat (rewrite ?count_occ_app; cbn [count_occ]); repeat case_match; lia
  end.

(** ** Shared lemmas: integers *)

Lemma u8_range z : 0 ≤ u8 z < 2 ^ 8.
Proof. apply Z.mod_pos_bound. lia. Qed.

Lemma u32_range z : 0 ≤ u32 z < 2 ^ 32.
Proof. apply Z.mod_pos_bound. lia. Qed.

Lemma u64_range z : 0 ≤ u64 z < 2 ^ 64.
Proof. apply Z.mod_pos_bound. lia. Qed.

Lemma u8_small z : 0 ≤ z < 2 ^ 8 → u8 z = z.
Proof. apply Z.mod_small. Qed.

Lemma u32_small z : 0 ≤ z < 2 ^ 32 → u32 z = z.
Proof. apply Z.mod_small. Qed.

Lemma u64_small z : 0 ≤ z < 2 ^ 64 → u64 z = z.
Proof. apply Z.mod_small. Qed.

Lemma byte_val_range c : 0 ≤ byte_val c < 256.
Proof.
  unfold byte_val. pose proof (N_ascii_bounded c). lia.
Qed.

Lemma byte_val_of z : byte_val (byte_of z) = u8 z.
Proof.
  unfold byte_val, byte_of. pose proof (u8_range z).
  rewrite N_ascii_embedding by lia. lia.
Qed.

Lemma byte_of_val c : byte_of (byte_val c) = c.
Proof.
  unfold byte_of. rewrite u8_small by apply byte_val_range.
  unfold byte_val. rewrite N2Z.id. apply ascii_N_embedding.
Qed.

(** ** Shared lemmas: lists and their lengths *)

Lemma zlen_nonneg {A} (l : list A) : 0 ≤ zlen l.
Proof. unfold zlen. lia. Qed.

Lemma zlen_nil {A} : zlen (@nil A) = 0.
Proof. reflexivity. Qed.

Lemma zlen_cons {A} (x : A) l : zlen (x :: l) = 1 + zlen l.
Proof. unfold zlen. simpl length. lia. Qed.

Lemma zlen_app {A} (l k : list A) : zlen (l ++ k) = zlen l + zlen k.
Proof. unfold zlen. rewrite length_app. lia. Qed.

Lemma zlen_drop {A} (l : list A) n : 0 ≤ n ≤ zlen l → zlen (drop (Z.to_nat n) l) = zlen l - n.
Proof. unfold zlen. rewrite length_drop. lia. Qed.

Lemma zlen_take {A} (l : list A) n : 0 ≤ n ≤ zlen l → zlen (take (Z.to_nat n) l) = n.
Proof. unfold zlen. rewrite length_take. lia. Qed.

Lemma zlen_0 {A} (l : list A) : zlen l = 0 ↔ l = [].
Proof. unfold zlen. destruct l; simpl; split; intros; [done|done|lia|done]. Qed.

Create Rewrite HintDb zlen.
#[export] Hint Rewrite @zlen_nil @zlen_cons @zlen_app : zlen.

(** Network byte order is a bijection between the [n]-byte strings and the
    integers below [2^(8n)]. *)

Lemma be_bytes_length n z : length (be_bytes n z) = n.
Proof. induction n; simpl; congruence. Qed.

Lemma zlen_be_bytes n z : zlen (be_bytes n z) = Z.of_nat n.
Proof. unfold zlen. by rewrite be_bytes_length. Qed.

Lemma be_val_bytes n z : be_val (be_bytes n z) = z mod 2 ^ (8 * Z.of_nat n).
Proof.
  induction n as [|n IH]; [by rewrite Z.mod_1_r|].
  cbn [be_bytes be_val]. rewrite IH, byte_val_of, zlen_be_bytes. unfold u8.
  rewrite Z.shiftr_div_pow2 by lia.
  replace (8 * Z.of_nat (S n)) with (8 * Z.of_nat n + 8) by lia.
  rewrite Z.pow_add_r by lia.
  assert (0 < 2 ^ (8 * Z.of_nat n)) by (apply Z.pow_pos_nonneg; lia).
  rewrite (Z.rem_mul_r z (2 ^ (8 * Z.of_nat n)) (2 ^ 8)) by lia. lia.
Qed.

Lemma be_val_range l : 0 ≤ be_val l < 2 ^ (8 * zlen l).
Proof.
  induction l as [|c t IH]; [by split|].
  cbn [be_val]. rewrite zlen_cons.
  replace (8 * (1 + zlen t)) with (8 * zlen t + 8) by lia.
  rewrite Z.pow_add_r by (pose proof (zlen_nonneg t); lia).
  pose proof (byte_val_range c). change (2 ^ 8) with 256. nia.
Qed.

Lemma take_app_exact {A} (l k : list A) n : n = length l → take n (l ++ k) = l.
Proof. intros ->. by rewrite take_app_length. Qed.

Lemma drop_app_exact {A} (l k : list A) n : n = length l → drop n (l ++ k) = k.
Proof. intros ->. by rewrite drop_app_length. Qed.
