(* ===== verification/Text.v ===== *)
(** * Text: searching and character classes

    The parts of [std::string], [std::string_view] and [<cctype>] that the
    control-plane client and the startup configuration use, in the "C"
    locale. *)

From S2P Require Import Prelude.
From stdpp Require Import pretty.
#[local] Open Scope Z_scope.

(** [std::to_string] and [operator<<] of an integer. *)
Definition dec (z : Z) : bytes := list_ascii_of_string (pretty z).

(** [s.find(pat)]: the leftmost occurrence. *)
Fixpoint find (pat s : bytes) : option nat :=
  if bool_decide (pat `prefix_of` s) then Some 0%nat
  else match s with [] => None | _ :: s => S <$> find pat s end.

(** [s.find(pat, cursor)] *)
Definition find_from (pat s : bytes) (cursor : nat) : option nat :=
  (λ i, (cursor + i)%nat) <$> find pat (drop cursor s).

Definition CR : ascii := ascii_of_nat 13.
Definition LF : ascii := ascii_of_nat 10.
Definition CRLF : bytes := [CR; LF].

(** [std::tolower], [std::isspace] *)
Definition tolower (c : ascii) : ascii :=
  if (65 <=? byte_val c) && (byte_val c <=? 90) then byte_of (byte_val c + 32) else c.

Definition isspace (c : ascii) : bool :=
  ((9 <=? byte_val c) && (byte_val c <=? 13)) || (byte_val c =? 32).

Definition is_digit (c : ascii) : bool := (48 <=? byte_val c) && (byte_val c <=? 57).
Definition digit_val (c : ascii) : Z := byte_val c - 48.

Definition lowerAscii (value : bytes) : bytes := map tolower value.

(** Removing the characters of a class from both ends. *)
Fixpoint drop_leading (p : ascii → bool) (s : bytes) : bytes :=
  match s with
  | c :: t => if p c then drop_leading p t else s
  | [] => []
  end.

Definition strip (p : ascii → bool) (s : bytes) : bytes :=
  reverse (drop_leading p (reverse (drop_leading p s))).

(** ** Lemmas *)

Lemma find_Some pat s i :
  find pat s = Some i →
  (i ≤ length s)%nat ∧ pat `prefix_of` drop i s ∧ ∀ j, (j < i)%nat → ¬ pat `prefix_of` drop j s.
Proof.
  revert i. induction s as [|c s IH]; intros i; simpl; case_bool; bool_facts.
  - intros [= <-]. split_and!; [lia|done|lia].
  - done.
  - intros [= <-]. split_and!; [lia|done|lia].
  - intros (k & Hk & ->)%fmap_Some. destruct (IH k Hk) as (? & ? & Hmin).
    split_and!; [simpl; lia|done|]. intros [|j] Hj; [done|]. simpl. apply Hmin. lia.
Qed.

Lemma find_intro pat s i :
  pat `prefix_of` drop i s → (i ≤ length s)%nat → (∀ j, (j < i)%nat → ¬ pat `prefix_of` drop j s) →
  find pat s = Some i.
Proof.
  revert i. induction s as [|c s IH]; intros i Hp Hi Hmin; simpl.
  - assert (i = 0%nat) as -> by (simpl in Hi; lia). by rewrite bool_decide_eq_true_2.
  - destruct i as [|i]; [by rewrite bool_decide_eq_true_2|].
    rewrite bool_decide_eq_false_2 by (apply (Hmin 0%nat); lia).
    rewrite (IH i); [done|done|simpl in Hi; lia|]. intros j Hj. apply (Hmin (S j)). lia.
Qed.

Lemma find_None pat s : find pat s = None → ∀ j, (j ≤ length s)%nat → ¬ pat `prefix_of` drop j s.
Proof.
  induction s as [|c s IH]; simpl; case_bool; bool_facts; try done.
  - intros _ j Hj. assert (j = 0%nat) as -> by lia. done.
  - intros Hn%fmap_None [|j] Hj; [done|]. apply IH; [done|lia].
Qed.

Lemma prefix_drop_app (pat s t : bytes) j :
  (j + length pat ≤ length s)%nat → pat `prefix_of` drop j (s ++ t) ↔ pat `prefix_of` drop j s.
Proof.
  intros Hj. rewrite drop_app_le by lia. split.
  - intros [k Hk]. exists (drop (length pat) (drop j s)).
    rewrite <- (take_drop (length pat) (drop j s)) at 1. f_equal.
    assert (Ht : take (length pat) (drop j s ++ t) = take (length pat) (pat ++ k)) by (by rewrite Hk).
    rewrite take_app_le in Ht by (rewrite length_drop; lia). by rewrite take_app_length in Ht.
  - intros Hp. by apply prefix_app_r.
Qed.

(** An occurrence is found again when more text follows. *)
Lemma find_app pat s t i : find pat s = Some i → find pat (s ++ t) = Some i.
Proof.
  intros (Hi & [k Hk] & Hmin)%find_Some.
  assert (Hlen : (i + length pat ≤ length s)%nat).
  { assert (length (drop i s) = length (pat ++ k)) as Hl by (by rewrite Hk).
    rewrite length_drop, length_app in Hl. lia. }
  apply find_intro.
  - rewrite prefix_drop_app by done. by exists k.
  - rewrite length_app. lia.
  - intros j Hj. rewrite prefix_drop_app by lia. by apply Hmin.
Qed.

(** A first occurrence that only appears with the added text lies near it. *)
Lemma find_app_new pat s t i :
  find pat s = None → find pat (s ++ t) = Some i → (length s < i + length pat)%nat.
Proof.
  intros Hn (Hi & Hp & _)%find_Some. destruct (decide (i + length pat ≤ length s)%nat) as [Hle|]; [|lia].
  rewrite prefix_drop_app in Hp by done. exfalso. apply (find_None _ _ Hn i); [lia|done].
Qed.

Lemma find_bound pat s i : find pat s = Some i → (i + length pat ≤ length s)%nat.
Proof.
  intros (Hi & [k Hk] & _)%find_Some.
  assert (length (drop i s) = length (pat ++ k)) as Hl by (by rewrite Hk).
  rewrite length_drop, length_app in Hl. lia.
Qed.

(** Text without the first character of the pattern is skipped. *)
Lemma find_skip p pat s t :
  Forall (λ c, c ≠ p) s →
  find (p :: pat) (s ++ t) = (λ i, (length s + i)%nat) <$> find (p :: pat) t.
Proof.
  induction 1 as [|c s Hc Hs IH]; simpl; [by destruct (find (p :: pat) t)|].
  rewrite bool_decide_eq_false_2; [rewrite IH; by destruct (find (p :: pat) t)|].
  intros [k [= E _]]. done.
Qed.

Lemma find_next pat c s : ¬ pat `prefix_of` c :: s → find pat (c :: s) = S <$> find pat s.
Proof. intros Hn. simpl. by rewrite bool_decide_eq_false_2. Qed.

Lemma find_here pat t : find pat (pat ++ t) = Some 0%nat.
Proof. apply find_intro; [by exists t|lia|lia]. Qed.

Lemma find_from_app pat s t cursor i :
  find_from pat s cursor = Some i → (cursor ≤ length s)%nat → find_from pat (s ++ t) cursor = Some i.
Proof.
  unfold find_from. intros (k & Hk & ->)%fmap_Some Hc. rewrite drop_app_le by done.
  by rewrite (find_app _ _ _ _ Hk).
Qed.

Lemma drop_leading_suffix p s : ∃ k, s = k ++ drop_leading p s ∧ Forall (λ c, p c = true) k.
Proof.
  induction s as [|c s (k & Ek & Hk)]; simpl; [by exists []|].
  destruct (p c) eqn:Ec; [|by exists []]. exists (c :: k). split; [simpl; congruence|by constructor].
Qed.

(** Text that neither begins nor ends with a character of the class. *)
Lemma drop_leading_id p s : (∀ c t, s = c :: t → p c = false) → drop_leading p s = s.
Proof. destruct s as [|c t]; [done|]. intros Hs. simpl. by rewrite (Hs c t). Qed.

Lemma strip_id p s : Forall (λ c, p c = false) s → strip p s = s.
Proof.
  intros Hs. unfold strip. rewrite Forall_forall in Hs. rewrite (drop_leading_id p s).
  - rewrite drop_leading_id; [apply reverse_involutive|]. intros c t Er. apply Hs.
    apply elem_of_reverse. rewrite Er. by left.
  - intros c t ->. apply Hs. by left.
Qed.

Lemma drop_leading_skip p k s : Forall (λ c, p c = true) k → drop_leading p (k ++ s) = drop_leading p s.
Proof. induction 1 as [|c k Hc Hk IH]; simpl; [done|]. by rewrite Hc. Qed.

Lemma strip_around p k s k' :
  Forall (λ c, p c = true) k → Forall (λ c, p c = true) k' → Forall (λ c, p c = false) s → s ≠ [] →
  strip p (k ++ s ++ k') = s.
Proof.
  intros Hk Hk' Hs Hne. unfold strip. rewrite drop_leading_skip by done.
  rewrite (drop_leading_id p (s ++ k')).
  - rewrite reverse_app, drop_leading_skip by (by apply Forall_reverse).
    rewrite drop_leading_id; [apply reverse_involutive|]. intros c t Er.
    rewrite Forall_forall in Hs. apply Hs, elem_of_reverse. rewrite Er. by left.
  - intros c t Et. destruct s as [|c' s]; [done|]. injection Et as -> _. by inversion Hs.
Qed.

(** No carriage return and no line feed. *)
Definition one_line (s : bytes) : Prop := Forall (λ c, c ≠ CR ∧ c ≠ LF) s.

Lemma find_char_None (c : ascii) s : find [c] s = None → Forall (λ x, x ≠ c) s.
Proof.
  intros Hn. apply Forall_forall. intros x Hx ->. apply list_elem_of_lookup in Hx as [i Hi].
  destruct (find_None _ _ Hn i); [apply lookup_lt_Some in Hi; lia|].
  rewrite (drop_S _ _ _ Hi). by exists (drop (S i) s).
Qed.

Lemma one_line_app a b : one_line a → one_line b → one_line (a ++ b).
Proof. apply Forall_app_2. Qed.

Lemma pretty_N_char_digit x : pretty_N_char x ≠ CR ∧ pretty_N_char x ≠ LF.
Proof. unfold pretty_N_char. repeat case_match; by vm_compute. Qed.

Lemma pretty_N_go_one_line x t :
  one_line (list_ascii_of_string t) → one_line (list_ascii_of_string (pretty_N_go x t)).
Proof.
  revert t. induction (N.lt_wf_0 x) as [x _ IH]. intros t Ht.
  destruct (decide (x = 0)%N) as [->|Hx]; [by rewrite pretty_N_go_0|].
  rewrite pretty_N_go_step by lia. apply IH; [apply N.div_lt; lia|].
  simpl. constructor; [apply pretty_N_char_digit|done].
Qed.

Lemma dec_one_line z : one_line (dec z).
Proof.
  assert (Hn : ∀ n : N, one_line (list_ascii_of_string (pretty n))).
  { intros n. unfold pretty, pretty_N. case_decide; [by repeat constructor|].
    apply pretty_N_go_one_line. constructor. }
  unfold dec, pretty, pretty_Z. destruct z as [|p|p]; [by repeat constructor|apply Hn|].
  constructor; [done|apply Hn].
Qed.
