(* ===== verification/Double.v ===== *)
(** * Double precision numbers and their decimal texts

    A [double] is its IEEE 754 bit pattern, the 64-bit integer that
    [reinterpret_bits] of [include/nlohmann/json.hpp] reads it as.  The file
    models what the JSON library uses of the standard library on doubles:
    [std::isfinite], [std::signbit] and [std::strtod], which rounds the exact
    value of a decimal text to the nearest double, ties to the even
    significand. *)

From S2P Require Import Prelude Text.
From Stdlib Require Import QArith Qpower Lqa.
#[local] Open Scope Z_scope.

(** ** Bit patterns *)

Definition INFINITY : Z := Z.shiftl 0x7FF 52.

Definition signbit (value : Z) : bool := Z.testbit value 63.
Definition isfinite (value : Z) : bool := negb (Z.land (Z.shiftr value 52) 0x7FF =? 0x7FF).
Definition negate (value : Z) : Z := Z.lxor value (Z.shiftl 1 63).

(** [value == 0] and [value > 0] of a finite double. *)
Definition is_zero (value : Z) : bool := Z.land value (Z.ones 63) =? 0.
Definition is_positive (value : Z) : bool := negb (signbit value) && negb (is_zero value).

(** A finite double. *)
Definition double_ok (value : Z) : Prop := 0 ≤ value < 2 ^ 64 ∧ isfinite value = true.

(** The significand and the exponent of a double that is not negative: its
    value is [significand * 2 ^ exponent]. *)
Definition significand (value : Z) : Z :=
  if value / 2 ^ 52 =? 0 then value else value mod 2 ^ 52 + 2 ^ 52.
Definition exponent (value : Z) : Z := Z.max (value / 2 ^ 52) 1 - 1075.

(** ** Decimal texts *)

(** The value of a string of decimal digits. *)
Definition digits_val (s : bytes) : Z := fold_left (λ acc c, 10 * acc + digit_val c) s 0.

Fixpoint span_digits (s : bytes) : bytes * bytes :=
  match s with
  | c :: t => if is_digit c then let '(ds, rest) := span_digits t in (c :: ds, rest) else ([], s)
  | [] => ([], [])
  end.

Definition exponent_val (s : bytes) : Z :=
  match s with
  | _ :: c :: t =>
      if byte_val c =? 0x2D then - digits_val t
      else if byte_val c =? 0x2B then digits_val t else digits_val (c :: t)
  | _ => 0
  end.

(** The number [mantissa * 10 ^ exponent] of a text of the JSON grammar that
    has no sign. *)
Definition decimal_val (text : bytes) : Z * Z :=
  let '(int, rest) := span_digits text in
  match rest with
  | c :: t =>
      if byte_val c =? 0x2E then
        let '(frac, rest) := span_digits t in
        (digits_val (int ++ frac), exponent_val rest - zlen frac)
      else (digits_val int, exponent_val rest)
  | [] => (digits_val int, 0)
  end.

(** ** Rounding *)

(** The integer nearest to [a / b], the even one of two. *)
Definition nearest_even (a b : Z) : Z :=
  let q := a / b in
  let r := a mod b in
  if 2 * r <? b then q else if b <? 2 * r then q + 1 else if Z.even q then q else q + 1.

(** The integer [l] with [2 ^ l <= n / d < 2 ^ (l + 1)]. *)
Definition floor_log2 (n d : Z) : Z :=
  let l := Z.log2 n - Z.log2 d in
  if d * 2 ^ Z.max l 0 <=? n * 2 ^ Z.max (- l) 0 then l else l - 1.

(** The double nearest to the positive number [n / d].  A significand rounded
    up to [2 ^ 53] carries into the exponent field. *)
Definition round_double (n d : Z) : Z :=
  let e := Z.max (floor_log2 n d - 52) (-1074) in
  let q := nearest_even (n * 2 ^ Z.max (- e) 0) (d * 2 ^ Z.max e 0) in
  Z.min INFINITY ((e + 1074) * 2 ^ 52 + q).

(** [std::strtod] on the texts the lexer gives it. *)
Definition strtod (text : bytes) : Z :=
  let negative := match text with c :: _ => byte_val c =? 0x2D | [] => false end in
  let '(mantissa, exponent) := decimal_val (if negative then drop 1 text else text) in
  let magnitude :=
    if mantissa =? 0 then 0
    else round_double (mantissa * 10 ^ Z.max exponent 0) (10 ^ Z.max (- exponent) 0) in
  if negative then negate magnitude else magnitude.

#[global] Arguments isfinite : simpl never.
#[global] Arguments signbit : simpl never.
#[global] Arguments negate : simpl never.
#[global] Arguments strtod : simpl never.
#[global] Arguments round_double : simpl never.

(** ** Values as rationals *)

#[local] Open Scope Q_scope.

(** The rationals strictly between [lower_bound] and [upper_bound] are those
    that round to the positive double [value]: halfway to its neighbours, the
    one below being closer at a power of two. *)
Definition upper_bound (value : Z) : Q :=
  inject_Z (2 * significand value + 1) * 2 ^ (exponent value - 1).

Definition closer_below (value : Z) : bool :=
  (significand value =? 2 ^ 52)%Z && (-1074 <? exponent value)%Z.

Definition lower_bound (value : Z) : Q :=
  if closer_below value then inject_Z (4 * significand value - 1) * 2 ^ (exponent value - 2)
  else inject_Z (2 * significand value - 1) * 2 ^ (exponent value - 1).

Definition ratio (n d : Z) : Q := inject_Z n / inject_Z d.

(** ** Lemmas: powers and quotients *)

Lemma pow2_pos e : 0 < 2 ^ e.
Proof. by apply Qpower_0_lt. Qed.

Lemma pow10_pos e : 0 < 10 ^ e.
Proof. by apply Qpower_0_lt. Qed.

Lemma pow2_add a b : 2 ^ (a + b) == 2 ^ a * 2 ^ b.
Proof. by apply Qpower_plus. Qed.

Lemma pow10_add a b : 10 ^ (a + b) == 10 ^ a * 10 ^ b.
Proof. by apply Qpower_plus. Qed.

Lemma inject_pow2 e : (0 ≤ e)%Z → inject_Z (2 ^ e) == 2 ^ e.
Proof. apply Zpower_Qpower. Qed.

Lemma inject_pow10 e : (0 ≤ e)%Z → inject_Z (10 ^ e) == 10 ^ e.
Proof. apply Zpower_Qpower. Qed.

(** A power with an exponent of either sign, by its numerator and denominator. *)
Lemma pow2_split e : 2 ^ e * inject_Z (2 ^ Z.max (- e) 0) == inject_Z (2 ^ Z.max e 0).
Proof.
  rewrite !inject_pow2 by lia. rewrite <- pow2_add. by replace (e + Z.max (- e) 0)%Z with (Z.max e 0) by lia.
Qed.

Lemma pow10_split e : 10 ^ e * inject_Z (10 ^ Z.max (- e) 0) == inject_Z (10 ^ Z.max e 0).
Proof.
  rewrite !inject_pow10 by lia. rewrite <- pow10_add. by replace (e + Z.max (- e) 0)%Z with (Z.max e 0) by lia.
Qed.

Lemma inject_pos z : (0 < z)%Z → 0 < inject_Z z.
Proof. intros H. change 0 with (inject_Z 0). by rewrite <- Zlt_Qlt. Qed.

Lemma inject_lt a b : (a < b)%Z → inject_Z a < inject_Z b.
Proof. by rewrite <- Zlt_Qlt. Qed.

Lemma inject_le a b : (a ≤ b)%Z → inject_Z a <= inject_Z b.
Proof. by rewrite <- Zle_Qle. Qed.

Lemma ratio_mult n d : (0 < d)%Z → ratio n d * inject_Z d == inject_Z n.
Proof. intros Hd%inject_pos. unfold ratio. field. lra. Qed.

Lemma ratio_lt n d m : (0 < d)%Z → ratio n d < inject_Z m → (n < m * d)%Z.
Proof.
  intros Hd H. rewrite Zlt_Qlt, inject_Z_mult, <- (ratio_mult n d) by done.
  apply Qmult_lt_compat_r; [by apply inject_pos|done].
Qed.

Lemma lt_ratio n d m : (0 < d)%Z → inject_Z m < ratio n d → (m * d < n)%Z.
Proof.
  intros Hd H. rewrite Zlt_Qlt, inject_Z_mult, <- (ratio_mult n d) by done.
  apply Qmult_lt_compat_r; [by apply inject_pos|done].
Qed.

(** ** Lemmas: rounding *)

Lemma nearest_even_intro a b q :
  (0 < b → (2 * q - 1) * b < 2 * a < (2 * q + 1) * b → nearest_even a b = q)%Z.
Proof.
  intros Hb Hq. unfold nearest_even.
  pose proof (Z.div_mod a b ltac:(lia)) as Hd. pose proof (Z.mod_pos_bound a b Hb) as Hm.
  set (q0 := (a / b)%Z) in *. set (r := (a mod b)%Z) in *.
  assert (q0 = q ∨ q0 = (q - 1)%Z) as [->| ->] by nia; repeat case_bool; bool_facts; nia.
Qed.

(** Scaling by a power of two, as [round_double] does it. *)
Lemma scaled n d e :
  (0 < d)%Z →
  inject_Z (n * 2 ^ Z.max (- e) 0) * 2 ^ e == ratio n d * inject_Z (d * 2 ^ Z.max e 0).
Proof.
  intros Hd. rewrite !inject_Z_mult. rewrite <- (ratio_mult n d) at 1 by done. rewrite <- (pow2_split e). ring.
Qed.

Lemma nearest_scaled n d e q :
  (0 < d)%Z →
  inject_Z (2 * q - 1) * 2 ^ (e - 1) < ratio n d → ratio n d < inject_Z (2 * q + 1) * 2 ^ (e - 1) →
  nearest_even (n * 2 ^ Z.max (- e) 0) (d * 2 ^ Z.max e 0) = q.
Proof.
  intros Hd Hlo Hhi. pose proof (scaled n d e Hd) as Hs.
  set (a := (n * _)%Z) in *. set (b := (d * _)%Z) in *.
  assert (Hb : (0 < b)%Z) by (apply Z.mul_pos_pos; lia).
  pose proof (inject_pos b Hb) as Hbq. pose proof (pow2_pos (e - 1)) as Hp.
  assert (He : 2 ^ e == 2 * 2 ^ (e - 1)) by (rewrite <- (pow2_add 1 (e - 1)); by replace (1 + (e - 1))%Z with e by lia).
  rewrite He in Hs. apply nearest_even_intro; [done|].
  split; rewrite Zlt_Qlt, !inject_Z_mult; apply (Qmult_lt_r _ _ (2 ^ (e - 1))); try done.
  - apply (Qmult_lt_r _ _ _ Hbq) in Hlo. change (inject_Z 2) with 2. lra.
  - apply (Qmult_lt_r _ _ _ Hbq) in Hhi. change (inject_Z 2) with 2. lra.
Qed.

Lemma floor_log2_spec n d :
  (0 < n)%Z → (0 < d)%Z → 2 ^ floor_log2 n d <= ratio n d ∧ ratio n d < 2 ^ (floor_log2 n d + 1).
Proof.
  intros Hn Hd. pose proof (inject_pos d Hd) as Hdq. pose proof (ratio_mult n d Hd) as Hr.
  pose proof (Z.log2_spec n Hn) as [Hn1 Hn2]. pose proof (Z.log2_spec d Hd) as [Hd1 Hd2].
  rewrite Zle_Qle, inject_pow2 in Hn1, Hd1 by apply Z.log2_nonneg.
  rewrite Zlt_Qlt, inject_pow2 in Hn2, Hd2 by (pose proof (Z.log2_nonneg n); pose proof (Z.log2_nonneg d); lia).
  unfold floor_log2. set (l := (Z.log2 n - Z.log2 d)%Z).
  assert (Hup : ratio n d < 2 ^ (l + 1)).
  { apply (Qmult_lt_r _ _ (inject_Z d)); [done|]. rewrite Hr.
    replace (Z.succ (Z.log2 n)) with (l + 1 + Z.log2 d)%Z in Hn2 by lia.
    rewrite pow2_add in Hn2. pose proof (pow2_pos (l + 1)). nra. }
  assert (Hlow : 2 ^ (l - 1) <= ratio n d).
  { apply (Qmult_le_r _ _ (inject_Z d)); [done|]. rewrite Hr.
    replace (Z.log2 n) with (l - 1 + Z.succ (Z.log2 d))%Z in Hn1 by lia.
    rewrite pow2_add in Hn1. pose proof (pow2_pos (l - 1)). nra. }
  assert (Htest : (d * 2 ^ Z.max l 0 <= n * 2 ^ Z.max (- l) 0)%Z ↔ 2 ^ l <= ratio n d).
  { rewrite Zle_Qle, !inject_Z_mult, <- (pow2_split l), <- Hr.
    set (p := inject_Z (2 ^ Z.max (- l) 0)). assert (0 < p) by (apply inject_pos; lia).
    assert (0 < inject_Z d * p) by nra.
    split; intros Hle; [apply (Qmult_le_r _ _ (inject_Z d * p)); [done|lra]|].
    apply (Qmult_le_compat_r _ _ (inject_Z d * p)) in Hle; [lra|lra]. }
  case_bool; bool_facts.
  - split; [by apply Htest|done].
  - split; [done|]. replace (l - 1 + 1)%Z with l by lia. apply Qnot_le_lt. rewrite <- Htest. lia.
Qed.

(** ** Lemmas: significands and exponents *)

Lemma INFINITY_val : (INFINITY = 2047 * 2 ^ 52)%Z.
Proof. reflexivity. Qed.

Lemma double_parts value :
  (0 ≤ value < INFINITY)%Z →
  (value = (exponent value + 1074) * 2 ^ 52 + significand value ∧
   0 ≤ significand value < 2 ^ 53 ∧ -1074 ≤ exponent value ≤ 971 ∧
   (2 ^ 52 ≤ significand value ∨ exponent value = -1074))%Z.
Proof.
  rewrite INFINITY_val. intros Hv. unfold exponent, significand.
  pose proof (Z.div_mod value (2 ^ 52) ltac:(lia)) as Hd.
  pose proof (Z.mod_pos_bound value (2 ^ 52) ltac:(lia)) as Hm.
  assert (0 ≤ value / 2 ^ 52 < 2047)%Z as Hq by (split; [apply Z.div_pos; lia|apply Z.div_lt_upper_bound; lia]).
  case_bool; bool_facts; lia.
Qed.

Lemma significand_pos value : (0 < value < INFINITY)%Z → (0 < significand value)%Z.
Proof. intros Hv. destruct (double_parts value) as (? & ? & ? & ?); lia. Qed.

(** Values below a power of two times another, by comparing exponents. *)
Lemma pow2_lt_inv a b : 2 ^ a < 2 ^ b → (a < b)%Z.
Proof. intros H. by apply (Qpower_lt_compat_l_inv 2). Qed.

Lemma upper_bound_below value :
  (0 < value < INFINITY)%Z → upper_bound value < 2 ^ (53 + exponent value).
Proof.
  intros Hv. destruct (double_parts value) as (_ & Hs & _); [lia|]. unfold upper_bound.
  replace (53 + exponent value)%Z with (54 + (exponent value - 1))%Z by lia. rewrite pow2_add.
  pose proof (pow2_pos (exponent value - 1)). apply Qmult_lt_compat_r; [done|].
  rewrite <- inject_pow2 by lia. apply inject_lt. lia.
Qed.

(** The lower bound is at least half a unit below the value. *)
Lemma lower_bound_half value :
  inject_Z (2 * significand value - 1) * 2 ^ (exponent value - 1) <= lower_bound value.
Proof.
  unfold lower_bound. destruct (closer_below value); [|lra].
  replace (exponent value - 1)%Z with (1 + (exponent value - 2))%Z by lia. rewrite pow2_add.
  pose proof (pow2_pos (exponent value - 2)). rewrite Qmult_assoc. apply Qmult_le_compat_r; [|lra].
  change (2 ^ 1) with (inject_Z 2). rewrite <- inject_Z_mult. apply inject_le. lia.
Qed.

(** Correct rounding: a number strictly inside the rounding interval of a
    double is rounded to it. *)
Lemma round_double_interval n d value :
  (0 < n)%Z → (0 < d)%Z → (0 < value < INFINITY)%Z →
  lower_bound value < ratio n d → ratio n d < upper_bound value → round_double n d = value.
Proof.
  intros Hn Hd Hv Hlo Hhi. destruct (double_parts value) as (Ev & Hs & He & Hsub); [lia|].
  pose proof (upper_bound_below value Hv) as Hub. destruct (floor_log2_spec n d Hn Hd) as [Hl1 Hl2].
  pose proof (lower_bound_half value) as Hh.
  assert (Hle : (floor_log2 n d < 53 + exponent value)%Z) by (apply pow2_lt_inv; lra).
  unfold round_double. set (l := floor_log2 n d) in *.
  destruct (decide (exponent value = -1074 ∨ exponent value ≤ l - 52)%Z) as [Hc|Hc].
  - assert (Z.max (l - 52) (-1074) = exponent value) as -> by lia.
    rewrite (nearest_scaled n d _ (significand value)); [lia|done|lra|exact Hhi].
  - assert (Hlt : ratio n d < 2 ^ (52 + exponent value)).
    { eapply Qlt_le_trans; [exact Hl2|]. apply Qpower_le_compat_l; [lia|done]. }
    pose proof (pow2_pos (exponent value - 1)) as Hp1. pose proof (pow2_pos (exponent value - 2)) as Hp2.
    unfold lower_bound in Hlo. destruct (closer_below value) eqn:Ec.
    + unfold closer_below in Ec. bool_facts. rewrite H in Hlo.
      assert (Hl : (51 + exponent value ≤ l)%Z).
      { apply Z.lt_succ_r, pow2_lt_inv. eapply Qlt_trans; [|exact Hl2].
        eapply Qlt_trans; [|exact Hlo].
        replace (51 + exponent value)%Z with (53 + (exponent value - 2))%Z by lia. rewrite pow2_add.
        apply Qmult_lt_compat_r; [done|]. by vm_compute. }
      assert (Z.max (l - 52) (-1074) = exponent value - 1)%Z as -> by lia.
      rewrite (nearest_scaled n d _ (2 ^ 53)); [lia|done| |].
      * by replace (exponent value - 1 - 1)%Z with (exponent value - 2)%Z by lia.
      * eapply Qlt_trans; [exact Hlt|].
        replace (52 + exponent value)%Z with (54 + (exponent value - 1 - 1))%Z by lia. rewrite pow2_add.
        apply Qmult_lt_compat_r; [apply pow2_pos|]. by vm_compute.
    + exfalso. unfold closer_below in Ec. apply andb_false_iff in Ec as [Ec|Ec]; bool_facts; [|lia].
      assert (inject_Z (2 ^ 53) <= inject_Z (2 * significand value - 1)) as Hz by (apply inject_le; lia).
      replace (52 + exponent value)%Z with (53 + (exponent value - 1))%Z in Hlt by lia. rewrite pow2_add in Hlt.
      change (inject_Z (2 ^ 53)) with (2 ^ 53) in Hz. nra.
Qed.

(** ** Lemmas: texts *)

Lemma decimal_ratio m x :
  ratio (m * 10 ^ Z.max x 0) (10 ^ Z.max (- x) 0) == inject_Z m * 10 ^ x.
Proof.
  assert (H : (0 < 10 ^ Z.max (- x) 0)%Z) by lia. apply inject_pos in H as Hq.
  apply (Qmult_inj_r _ _ (inject_Z (10 ^ Z.max (- x) 0))); [lra|].
  rewrite ratio_mult by done. rewrite inject_Z_mult, <- (pow10_split x). ring.
Qed.

Lemma strtod_interval text m x value :
  match text with c :: _ => byte_val c ≠ 0x2D%Z | [] => True end →
  decimal_val text = (m, x) → (0 < m)%Z → (0 < value < INFINITY)%Z →
  lower_bound value < inject_Z m * 10 ^ x → inject_Z m * 10 ^ x < upper_bound value →
  strtod text = value.
Proof.
  intros Hneg Hdec Hm Hv Hlo Hhi. unfold strtod.
  assert (match text with c :: _ => (byte_val c =? 0x2D)%Z | [] => false end = false) as ->.
  { destruct text; [done|]. by apply Z.eqb_neq. }
  rewrite Hdec, (proj2 (Z.eqb_neq _ _)) by lia.
  apply round_double_interval; [lia|lia|done|by rewrite decimal_ratio..].
Qed.

Lemma strtod_minus text :
  match text with c :: _ => byte_val c ≠ 0x2D%Z | [] => True end →
  strtod (byte_of 0x2D :: text) = negate (strtod text).
Proof.
  intros Hneg. unfold strtod. rewrite byte_val_of. change (drop 1 (byte_of 0x2D :: text)) with text.
  assert (match text with c :: _ => (byte_val c =? 0x2D)%Z | [] => false end = false) as ->.
  { destruct text; [done|]. by apply Z.eqb_neq. }
  change (u8 45 =? 45)%Z with true. cbv iota. by destruct (decimal_val text).
Qed.
#[local] Open Scope Z_scope.

Lemma digits_val_app a b : digits_val (a ++ b) = fold_left (λ acc c, 10 * acc + digit_val c) b (digits_val a).
Proof. unfold digits_val. apply fold_left_app. Qed.

Lemma is_digit_val c : is_digit c = true → 0 ≤ digit_val c ≤ 9.
Proof. unfold is_digit, digit_val. intros. bool_facts. lia. Qed.

Lemma digits_val_nonneg s : Forall (λ c, is_digit c = true) s → 0 ≤ digits_val s.
Proof.
  induction s as [|c s IH] using rev_ind; [done|]. intros [Hs Hc]%Forall_app. inversion_clear Hc as [|? ? Hd].
  rewrite digits_val_app. simpl. apply is_digit_val in Hd. specialize (IH Hs). lia.
Qed.

Lemma digits_val_snoc s c : digits_val (s ++ [c]) = 10 * digits_val s + digit_val c.
Proof. by rewrite digits_val_app. Qed.

Lemma digits_val_concat a b : digits_val (a ++ b) = digits_val a * 10 ^ zlen b + digits_val b.
Proof.
  induction b as [|c b IH] using rev_ind.
  - rewrite app_nil_r. autorewrite with zlen. change (digits_val []) with 0. lia.
  - rewrite app_assoc, !digits_val_snoc, IH. autorewrite with zlen.
    replace (zlen b + (1 + 0)) with (Z.succ (zlen b)) by lia.
    rewrite Z.pow_succ_r by apply zlen_nonneg. lia.
Qed.

Lemma digits_val_zeros s n : digits_val (s ++ replicate n "0"%char) = digits_val s * 10 ^ Z.of_nat n.
Proof.
  rewrite digits_val_concat. unfold zlen. rewrite length_replicate.
  assert (digits_val (replicate n "0"%char) = 0) as ->; [|lia].
  induction n as [|n IH]; [done|]. rewrite replicate_S_end, digits_val_snoc, IH. done.
Qed.

(** [span_digits] takes the longest run of digits. *)
Lemma span_digits_app ds rest :
  Forall (λ c, is_digit c = true) ds →
  match rest with c :: _ => is_digit c = false | [] => True end →
  span_digits (ds ++ rest) = (ds, rest).
Proof.
  induction 1 as [|c ds Hc _ IH]; intros Hr; simpl.
  - destruct rest; [done|]. simpl. by rewrite Hr.
  - by rewrite Hc, IH.
Qed.

Lemma span_digits_all s : Forall (λ c, is_digit c = true) (span_digits s).1.
Proof.
  induction s as [|c s IH]; simpl; [constructor|]. destruct (is_digit c) eqn:Ec; [|constructor].
  destruct (span_digits s). by constructor.
Qed.

Lemma decimal_val_nonneg text : 0 ≤ (decimal_val text).1.
Proof.
  unfold decimal_val. pose proof (span_digits_all text) as Hi. destruct (span_digits text) as [int rest]. simpl in Hi.
  destruct rest as [|c rest]; [by apply digits_val_nonneg|]. case_bool; [|by apply digits_val_nonneg].
  pose proof (span_digits_all rest) as Hf. destruct (span_digits rest). apply digits_val_nonneg, Forall_app. done.
Qed.

Lemma round_double_range n d : 0 < n → 0 < d → 0 ≤ round_double n d ≤ INFINITY.
Proof.
  intros Hn Hd. unfold round_double. set (e := Z.max _ _). rewrite INFINITY_val.
  assert (0 ≤ nearest_even (n * 2 ^ Z.max (- e) 0) (d * 2 ^ Z.max e 0)); [|lia].
  unfold nearest_even. assert (0 ≤ n * 2 ^ Z.max (- e) 0 / (d * 2 ^ Z.max e 0)) by (apply Z.div_pos; lia).
  repeat case_bool; lia.
Qed.

(** [strtod] gives the bits of a double. *)
Lemma strtod_range text : 0 ≤ strtod text < 2 ^ 64.
Proof.
  unfold strtod. set (negative := match text with [] => false | _ => _ end).
  pose proof (decimal_val_nonneg (if negative then drop 1 text else text)) as Hm.
  destruct (decimal_val _) as [m x]. simpl in Hm.
  assert (Hr : 0 ≤ (if m =? 0 then 0 else round_double (m * 10 ^ Z.max x 0) (10 ^ Z.max (- x) 0)) ≤ INFINITY).
  { case_bool; bool_facts; [rewrite INFINITY_val; lia|]. apply round_double_range; [apply Z.mul_pos_pos|]; lia. }
  rewrite INFINITY_val in Hr. set (v := if m =? 0 then _ else _) in *. clearbody v.
  destruct negative; [|lia]. unfold negate. split.
  - apply Z.lxor_nonneg. rewrite Z.shiftl_nonneg. lia.
  - destruct (decide (Z.lxor v (Z.shiftl 1 63) = 0)) as [->|Hne]; [lia|].
    apply Z.log2_lt_cancel. rewrite Z.log2_pow2 by lia.
    eapply Z.le_lt_trans; [apply Z.log2_lxor; [lia|done]|].
    assert (Z.log2 v < 64) by (destruct (decide (v = 0)) as [->|]; [done|apply Z.log2_lt_pow2; lia]).
    change (Z.log2 (Z.shiftl 1 63)) with 63. lia.
Qed.
