(* ===== verification/Grisu.v ===== *)
(** * Grisu2: the shortest text of a double

    Models [dtoa_impl] and [to_chars] of [include/nlohmann/json.hpp], the
    conversion with which the serializer writes floating-point numbers, for
    [FloatType = double].  A [char*] into the number buffer is an index; a
    write outside the buffer, a failed [JSON_ASSERT] and a loop that outlasts
    its bound are all [None], so that a theorem that says the conversion
    returns shows that none of them happens. *)

From S2P Require Import Prelude Text Double.
#[local] Open Scope Z_scope.

Definition JSON_ASSERT (b : bool) : option unit := if b then Some tt else None.

(** ** The buffer *)

(** [buf[i] = c] *)
Definition store (i : nat) (c : ascii) (buf : bytes) : option bytes :=
  if bool_decide (i < length buf)%nat then Some (<[i := c]> buf) else None.

(** [memset(buf + i, c, n)] and [memmove(buf + dst, buf + src, n)] *)
Definition memset (i : nat) (c : ascii) (n : nat) (buf : bytes) : option bytes :=
  if bool_decide (i + n ≤ length buf)%nat
  then Some (take i buf ++ replicate n c ++ drop (i + n) buf) else None.

Definition memmove (dst src n : nat) (buf : bytes) : option bytes :=
  if bool_decide (dst + n ≤ length buf ∧ src + n ≤ length buf)%nat
  then Some (take dst buf ++ take n (drop src buf) ++ drop (dst + n) buf) else None.

Definition digit_char (d : Z) : ascii := byte_of (0x30 + d).

(** ** diyfp *)

Record diyfp := mkDiyfp { dp_f : Z; dp_e : Z }.

Module Diyfp.

Definition sub (x y : diyfp) : option diyfp :=
  JSON_ASSERT (dp_e x =? dp_e y);;
  JSON_ASSERT (dp_f y <=? dp_f x);;
  Some (mkDiyfp (u64 (dp_f x - dp_f y)) (dp_e x)).

Definition mul (x y : diyfp) : diyfp :=
  let u_lo := Z.land (dp_f x) 0xFFFFFFFF in
  let u_hi := Z.shiftr (dp_f x) 32 in
  let v_lo := Z.land (dp_f y) 0xFFFFFFFF in
  let v_hi := Z.shiftr (dp_f y) 32 in
  let p0 := u64 (u_lo * v_lo) in
  let p1 := u64 (u_lo * v_hi) in
  let p2 := u64 (u_hi * v_lo) in
  let p3 := u64 (u_hi * v_hi) in
  let p0_hi := Z.shiftr p0 32 in
  let p1_lo := Z.land p1 0xFFFFFFFF in
  let p1_hi := Z.shiftr p1 32 in
  let p2_lo := Z.land p2 0xFFFFFFFF in
  let p2_hi := Z.shiftr p2 32 in
  let Q := u64 (p0_hi + p1_lo + p2_lo) in
  let Q := u64 (Q + Z.shiftl 1 (64 - 32 - 1)) in
  let h := u64 (p3 + p2_hi + p1_hi + Z.shiftr Q 32) in
  mkDiyfp h (dp_e x + dp_e y + 64).

(** The loop; 63 rounds are enough for a significand that is not zero. *)
Fixpoint normalize_loop (fuel : nat) (x : diyfp) : option diyfp :=
  if Z.shiftr (dp_f x) 63 =? 0 then
    match fuel with
    | O => None
    | S fuel => normalize_loop fuel (mkDiyfp (u64 (Z.shiftl (dp_f x) 1)) (dp_e x - 1))
    end
  else Some x.

Definition normalize (x : diyfp) : option diyfp :=
  JSON_ASSERT (negb (dp_f x =? 0));; normalize_loop 63 x.

Definition normalize_to (x : diyfp) (target_exponent : Z) : option diyfp :=
  let delta := dp_e x - target_exponent in
  JSON_ASSERT (0 <=? delta);;
  JSON_ASSERT (Z.shiftr (u64 (Z.shiftl (dp_f x) delta)) delta =? dp_f x);;
  Some (mkDiyfp (u64 (Z.shiftl (dp_f x) delta)) target_exponent).

End Diyfp.

(** ** compute_boundaries *)

Record boundaries := mkBoundaries { bd_w : diyfp; bd_minus : diyfp; bd_plus : diyfp }.

(** The constants for [double]. *)
Definition kPrecision : Z := 53.
Definition kBias : Z := 1024 - 1 + (kPrecision - 1).
Definition kMinExp : Z := 1 - kBias.
Definition kHiddenBit : Z := Z.shiftl 1 (kPrecision - 1).

Definition compute_boundaries (value : Z) : option boundaries :=
  JSON_ASSERT (isfinite value);;
  JSON_ASSERT (is_positive value);;
  let bits := value in
  let E := Z.shiftr bits (kPrecision - 1) in
  let F := Z.land bits (kHiddenBit - 1) in
  let is_denormal := E =? 0 in
  let v := if is_denormal then mkDiyfp F kMinExp else mkDiyfp (u64 (F + kHiddenBit)) (E - kBias) in
  let lower_boundary_is_closer := (F =? 0) && (1 <? E) in
  let m_plus := mkDiyfp (u64 (2 * dp_f v + 1)) (dp_e v - 1) in
  let m_minus := if lower_boundary_is_closer
                 then mkDiyfp (u64 (4 * dp_f v - 1)) (dp_e v - 2)
                 else mkDiyfp (u64 (2 * dp_f v - 1)) (dp_e v - 1) in
  w_plus ← Diyfp.normalize m_plus;
  w_minus ← Diyfp.normalize_to m_minus (dp_e w_plus);
  w ← Diyfp.normalize v;
  Some (mkBoundaries w w_minus w_plus).

(** ** Cached powers *)

Definition kAlpha : Z := -60.
Definition kGamma : Z := -32.

Record cached_power := mkCached { cp_f : Z; cp_e : Z; cp_k : Z }.

Definition kCachedPowersMinDecExp : Z := -300.
Definition kCachedPowersDecStep : Z := 8.

Definition kCachedPowers : list cached_power :=
  [mkCached 0xAB70FE17C79AC6CA (-1060) (-300); mkCached 0xFF77B1FCBEBCDC4F (-1034) (-292);
   mkCached 0xBE5691EF416BD60C (-1007) (-284); mkCached 0x8DD01FAD907FFC3C (-980) (-276);
   mkCached 0xD3515C2831559A83 (-954) (-268); mkCached 0x9D71AC8FADA6C9B5 (-927) (-260);
   mkCached 0xEA9C227723EE8BCB (-901) (-252); mkCached 0xAECC49914078536D (-874) (-244);
   mkCached 0x823C12795DB6CE57 (-847) (-236); mkCached 0xC21094364DFB5637 (-821) (-228);
   mkCached 0x9096EA6F3848984F (-794) (-220); mkCached 0xD77485CB25823AC7 (-768) (-212);
   mkCached 0xA086CFCD97BF97F4 (-741) (-204); mkCached 0xEF340A98172AACE5 (-715) (-196);
   mkCached 0xB23867FB2A35B28E (-688) (-188); mkCached 0x84C8D4DFD2C63F3B (-661) (-180);
   mkCached 0xC5DD44271AD3CDBA (-635) (-172); mkCached 0x936B9FCEBB25C996 (-608) (-164);
   mkCached 0xDBAC6C247D62A584 (-582) (-156); mkCached 0xA3AB66580D5FDAF6 (-555) (-148);
   mkCached 0xF3E2F893DEC3F126 (-529) (-140); mkCached 0xB5B5ADA8AAFF80B8 (-502) (-132);
   mkCached 0x87625F056C7C4A8B (-475) (-124); mkCached 0xC9BCFF6034C13053 (-449) (-116);
   mkCached 0x964E858C91BA2655 (-422) (-108); mkCached 0xDFF9772470297EBD (-396) (-100);
   mkCached 0xA6DFBD9FB8E5B88F (-369) (-92); mkCached 0xF8A95FCF88747D94 (-343) (-84);
   mkCached 0xB94470938FA89BCF (-316) (-76); mkCached 0x8A08F0F8BF0F156B (-289) (-68);
   mkCached 0xCDB02555653131B6 (-263) (-60); mkCached 0x993FE2C6D07B7FAC (-236) (-52);
   mkCached 0xE45C10C42A2B3B06 (-210) (-44); mkCached 0xAA242499697392D3 (-183) (-36);
   mkCached 0xFD87B5F28300CA0E (-157) (-28); mkCached 0xBCE5086492111AEB (-130) (-20);
   mkCached 0x8CBCCC096F5088CC (-103) (-12); mkCached 0xD1B71758E219652C (-77) (-4);
   mkCached 0x9C40000000000000 (-50) 4; mkCached 0xE8D4A51000000000 (-24) 12;
   mkCached 0xAD78EBC5AC620000 3 20; mkCached 0x813F3978F8940984 30 28;
   mkCached 0xC097CE7BC90715B3 56 36; mkCached 0x8F7E32CE7BEA5C70 83 44;
   mkCached 0xD5D238A4ABE98068 109 52; mkCached 0x9F4F2726179A2245 136 60;
   mkCached 0xED63A231D4C4FB27 162 68; mkCached 0xB0DE65388CC8ADA8 189 76;
   mkCached 0x83C7088E1AAB65DB 216 84; mkCached 0xC45D1DF942711D9A 242 92;
   mkCached 0x924D692CA61BE758 269 100; mkCached 0xDA01EE641A708DEA 295 108;
   mkCached 0xA26DA3999AEF774A 322 116; mkCached 0xF209787BB47D6B85 348 124;
   mkCached 0xB454E4A179DD1877 375 132; mkCached 0x865B86925B9BC5C2 402 140;
   mkCached 0xC83553C5C8965D3D 428 148; mkCached 0x952AB45CFA97A0B3 455 156;
   mkCached 0xDE469FBD99A05FE3 481 164; mkCached 0xA59BC234DB398C25 508 172;
   mkCached 0xF6C69A72A3989F5C 534 180; mkCached 0xB7DCBF5354E9BECE 561 188;
   mkCached 0x88FCF317F22241E2 588 196; mkCached 0xCC20CE9BD35C78A5 614 204;
   mkCached 0x98165AF37B2153DF 641 212; mkCached 0xE2A0B5DC971F303A 667 220;
   mkCached 0xA8D9D1535CE3B396 694 228; mkCached 0xFB9B7CD9A4A7443C 720 236;
   mkCached 0xBB764C4CA7A44410 747 244; mkCached 0x8BAB8EEFB6409C1A 774 252;
   mkCached 0xD01FEF10A657842C 800 260; mkCached 0x9B10A4E5E9913129 827 268;
   mkCached 0xE7109BFBA19C0C9D 853 276; mkCached 0xAC2820D9623BF429 880 284;
   mkCached 0x80444B5E7AA7CF85 907 292; mkCached 0xBF21E44003ACDD2D 933 300;
   mkCached 0x8E679C2F5E44FF8F 960 308; mkCached 0xD433179D9C8CB841 986 316;
   mkCached 0x9E19DB92B4E31BA9 1013 324].

(** The integer divisions of C++ truncate. *)
Definition get_cached_power_for_binary_exponent (e : Z) : option cached_power :=
  JSON_ASSERT (-1500 <=? e);;
  JSON_ASSERT (e <=? 1500);;
  let f := kAlpha - e - 1 in
  let k := Z.quot (f * 78913) (Z.shiftl 1 18) + (if 0 <? f then 1 else 0) in
  let index := Z.quot (- kCachedPowersMinDecExp + k + (kCachedPowersDecStep - 1)) kCachedPowersDecStep in
  JSON_ASSERT (0 <=? index);;
  cached ← kCachedPowers !! Z.to_nat index;
  JSON_ASSERT (kAlpha <=? cp_e cached + e + 64);;
  JSON_ASSERT (cp_e cached + e + 64 <=? kGamma);;
  Some cached.

(** ** Digits *)

(** The result and the out parameter [pow10]. *)
Definition find_largest_pow10 (n : Z) : Z * Z :=
  if 1000000000 <=? n then (10, 1000000000)
  else if 100000000 <=? n then (9, 100000000)
  else if 10000000 <=? n then (8, 10000000)
  else if 1000000 <=? n then (7, 1000000)
  else if 100000 <=? n then (6, 100000)
  else if 10000 <=? n then (5, 10000)
  else if 1000 <=? n then (4, 1000)
  else if 100 <=? n then (3, 100)
  else if 10 <=? n then (2, 10)
  else (1, 1).

(** The loop of [grisu2_round]; every round decrements a digit that is not
    zero, so nine are enough. *)
Fixpoint round_loop (fuel : nat) (buf : bytes) (last : nat) (dist delta rest ten_k : Z) : option bytes :=
  if (rest <? dist) && (ten_k <=? u64 (delta - rest))
     && ((u64 (rest + ten_k) <? dist) || (u64 (u64 (rest + ten_k) - dist) <? u64 (dist - rest)))
  then
    match fuel with
    | O => None
    | S fuel =>
      c ← buf !! last;
      JSON_ASSERT (negb (byte_val c =? 0x30));;
      buf ← store last (byte_of (byte_val c - 1)) buf;
      round_loop fuel buf last dist delta (u64 (rest + ten_k)) ten_k
    end
  else Some buf.

(** The digits are those from [first] on. *)
Definition grisu2_round (buf : bytes) (first len : nat) (dist delta rest ten_k : Z) : option bytes :=
  JSON_ASSERT (bool_decide (1 ≤ len)%nat);;
  JSON_ASSERT (dist <=? delta);;
  JSON_ASSERT (rest <=? delta);;
  JSON_ASSERT (0 <? ten_k);;
  round_loop 9 buf (first + len - 1) dist delta rest ten_k.

(** How the loop over the integral part ends: with all digits, or with the
    fractional part still to do. *)
Inductive gen_result :=
  | Generated (buffer : bytes) (length : nat) (decimal_exponent : Z)
  | Remaining (buffer : bytes) (length : nat).

Fixpoint integral_loop (n : nat) (first : nat) (buffer : bytes) (length : nat)
    (decimal_exponent p1 p2 pow10 dist delta shift : Z) : option gen_result :=
  match n with
  | O => Some (Remaining buffer length)
  | S n =>
    let d := p1 / pow10 in
    let r := p1 mod pow10 in
    JSON_ASSERT (d <=? 9);;
    buffer ← store (first + length) (digit_char d) buffer;
    let length := S length in
    let p1 := r in
    let rest := u64 (u64 (Z.shiftl p1 shift) + p2) in
    if rest <=? delta then
      let decimal_exponent := decimal_exponent + Z.of_nat n in
      let ten_n := u64 (Z.shiftl pow10 shift) in
      buffer ← grisu2_round buffer first length dist delta rest ten_n;
      Some (Generated buffer length decimal_exponent)
    else integral_loop n first buffer length decimal_exponent p1 p2 (pow10 / 10) dist delta shift
  end.

(** The [for (;;)] loop over the fractional part, to the final rounding. *)
Fixpoint fractional_loop (fuel : nat) (first : nat) (buffer : bytes) (length : nat)
    (decimal_exponent m p2 dist delta shift : Z) : option (bytes * nat * Z) :=
  match fuel with
  | O => None
  | S fuel =>
    let one := Z.shiftl 1 shift in
    JSON_ASSERT (p2 <=? UINT64_MAX / 10);;
    let p2 := u64 (p2 * 10) in
    let d := Z.shiftr p2 shift in
    let r := Z.land p2 (one - 1) in
    JSON_ASSERT (d <=? 9);;
    buffer ← store (first + length) (digit_char d) buffer;
    let length := S length in
    let p2 := r in
    let m := m + 1 in
    let delta := u64 (delta * 10) in
    let dist := u64 (dist * 10) in
    if p2 <=? delta then
      let decimal_exponent := decimal_exponent - m in
      buffer ← grisu2_round buffer first length dist delta p2 one;
      Some (buffer, length, decimal_exponent)
    else fractional_loop fuel first buffer length decimal_exponent m p2 dist delta shift
  end.

Definition grisu2_digit_gen (buffer : bytes) (first length : nat) (decimal_exponent : Z)
    (M_minus w M_plus : diyfp) : option (bytes * nat * Z) :=
  JSON_ASSERT (kAlpha <=? dp_e M_plus);;
  JSON_ASSERT (dp_e M_plus <=? kGamma);;
  delta ← dp_f <$> Diyfp.sub M_plus M_minus;
  dist ← dp_f <$> Diyfp.sub M_plus w;
  let shift := - dp_e M_plus in
  let one := Z.shiftl 1 shift in
  let p1 := u32 (Z.shiftr (dp_f M_plus) shift) in
  let p2 := Z.land (dp_f M_plus) (one - 1) in
  JSON_ASSERT (0 <? p1);;
  let '(k, pow10) := find_largest_pow10 p1 in
  integral ← integral_loop (Z.to_nat k) first buffer length decimal_exponent p1 p2 pow10 dist delta shift;
  match integral with
  | Generated buffer length decimal_exponent => Some (buffer, length, decimal_exponent)
  | Remaining buffer length =>
      JSON_ASSERT (delta <? p2);;
      fractional_loop 20 first buffer length decimal_exponent 0 p2 dist delta shift
  end.

(** ** grisu2 *)

Definition grisu2_diyfp (buf : bytes) (first len : nat) (m_minus v m_plus : diyfp)
    : option (bytes * nat * Z) :=
  JSON_ASSERT (dp_e m_plus =? dp_e m_minus);;
  JSON_ASSERT (dp_e m_plus =? dp_e v);;
  cached ← get_cached_power_for_binary_exponent (dp_e m_plus);
  let c_minus_k := mkDiyfp (cp_f cached) (cp_e cached) in
  let w := Diyfp.mul v c_minus_k in
  let w_minus := Diyfp.mul m_minus c_minus_k in
  let w_plus := Diyfp.mul m_plus c_minus_k in
  let M_minus := mkDiyfp (u64 (dp_f w_minus + 1)) (dp_e w_minus) in
  let M_plus := mkDiyfp (u64 (dp_f w_plus - 1)) (dp_e w_plus) in
  let decimal_exponent := - cp_k cached in
  grisu2_digit_gen buf first len decimal_exponent M_minus w M_plus.

Definition grisu2 (buf : bytes) (first len : nat) (value : Z) : option (bytes * nat * Z) :=
  JSON_ASSERT (isfinite value);;
  JSON_ASSERT (is_positive value);;
  w ← compute_boundaries value;
  grisu2_diyfp buf first len (bd_minus w) (bd_w w) (bd_plus w).

(** ** Formatting *)

(** Writes the characters one after the other; the index after the last. *)
Fixpoint store_all (i : nat) (cs : bytes) (buf : bytes) : option (bytes * nat) :=
  match cs with
  | [] => Some (buf, i)
  | c :: cs => buf ← store i c buf; store_all (S i) cs buf
  end.

Definition append_exponent (buf : bytes) (i : nat) (e : Z) : option (bytes * nat) :=
  JSON_ASSERT (-1000 <? e);;
  JSON_ASSERT (e <? 1000);;
  let '(e, sign) := if e <? 0 then (- e, "-"%char) else (e, "+"%char) in
  let k := u32 e in
  store_all i
    (sign ::
     (if k <? 10 then ["0"%char; digit_char k]
      else if k <? 100 then [digit_char (k / 10); digit_char (k mod 10)]
      else [digit_char (k / 100); digit_char (k mod 100 / 10); digit_char (k mod 100 mod 10)])) buf.

(** [buf] points to [first]; the result is the index after the text. *)
Definition format_buffer (buf : bytes) (first len : nat) (decimal_exponent min_exp max_exp : Z)
    : option (bytes * nat) :=
  JSON_ASSERT (min_exp <? 0);;
  JSON_ASSERT (0 <? max_exp);;
  let k := Z.of_nat len in
  let n := Z.of_nat len + decimal_exponent in
  if (k <=? n) && (n <=? max_exp) then
    let n := Z.to_nat n in
    buf ← memset (first + len) "0"%char (n - len) buf;
    buf ← store (first + n) "."%char buf;
    buf ← store (first + n + 1) "0"%char buf;
    Some (buf, (first + n + 2)%nat)
  else if (0 <? n) && (n <=? max_exp) then
    JSON_ASSERT (n <? k);;
    let n := Z.to_nat n in
    buf ← memmove (first + n + 1) (first + n) (len - n) buf;
    buf ← store (first + n) "."%char buf;
    Some (buf, (first + len + 1)%nat)
  else if (min_exp <? n) && (n <=? 0) then
    let zeros := Z.to_nat (- n) in
    buf ← memmove (first + 2 + zeros) first len buf;
    buf ← store first "0"%char buf;
    buf ← store (first + 1) "."%char buf;
    buf ← memset (first + 2) "0"%char zeros buf;
    Some (buf, (first + 2 + zeros + len)%nat)
  else
    '(buf, i) ←
      (if bool_decide (len = 1%nat) then Some (buf, (first + 1)%nat)
       else
         buf ← memmove (first + 2) (first + 1) (len - 1) buf;
         buf ← store (first + 1) "."%char buf;
         Some (buf, (first + 1 + len)%nat));
    buf ← store i "e"%char buf;
    append_exponent buf (S i) (n - 1).

(** [numeric_limits<double>]: [max_digits10] and [digits10]. *)
Definition max_digits10 : nat := 17.
Definition digits10 : Z := 15.

(** [to_chars] after the sign, for a value that is not negative. *)
Definition positive_chars (buf : bytes) (first : nat) (value : Z) : option (bytes * nat) :=
  if is_zero value then store_all first ["0"%char; "."%char; "0"%char] buf
  else
    JSON_ASSERT (bool_decide (max_digits10 ≤ length buf - first)%nat);;
    '(buf, len, decimal_exponent) ← grisu2 buf first 0 value;
    JSON_ASSERT (bool_decide (len ≤ max_digits10)%nat);;
    let min_exp := -4 in
    let max_exp := digits10 in
    JSON_ASSERT (max_exp + 2 <=? Z.of_nat (length buf - first));;
    JSON_ASSERT (2 + (- min_exp - 1) + Z.of_nat max_digits10 <=? Z.of_nat (length buf - first));;
    JSON_ASSERT (Z.of_nat max_digits10 + 6 <=? Z.of_nat (length buf - first));;
    format_buffer buf first len decimal_exponent min_exp max_exp.

(** [buf] is the characters of [first, last); the result is the index after the
    text. *)
Definition to_chars (buf : bytes) (value : Z) : option (bytes * nat) :=
  JSON_ASSERT (isfinite value);;
  '(buf, first, value) ←
    (if signbit value then buf ← store 0 "-"%char buf; Some (buf, 1%nat, negate value)
     else Some (buf, 0%nat, value));
  positive_chars buf first value.

#[global] Arguments to_chars : simpl never.

(** [dump_float], with the serializer's [number_buffer]. *)
Definition dump_float (number_buffer : bytes) (x : Z) : option bytes :=
  if negb (isfinite x) then Some (lit "null")
  else
    '(number_buffer, end_) ← to_chars number_buffer x;
    Some (take end_ number_buffer).

#[global] Arguments dump_float : simpl never.
