(* ===== verification/GrisuDigits.v ===== *)
(** * Grisu2: boundaries, scaling and digit generation

    The integer arithmetic of [Grisu] is exact where it has to be: products
    are rounded to the nearest, no operation wraps, no assertion fails, the
    cached powers are within half a unit of the powers of ten, and the digits
    generated stand for a number between the boundaries. *)

From S2P Require Import Prelude Text Double Grisu.
From Stdlib Require Import Lia.
#[local] Open Scope Z_scope.

(** ** Shifts and masks *)

Lemma mask32 z : Z.land z 0xFFFFFFFF = z mod 2 ^ 32.
Proof. change 0xFFFFFFFF with (Z.ones 32). by rewrite Z.land_ones. Qed.

Lemma mask_ones z k : 0 ≤ k → Z.land z (Z.shiftl 1 k - 1) = z mod 2 ^ k.
Proof.
  intros Hk. rewrite Z.shiftl_1_l, <- Z.land_ones by done. f_equal. rewrite Z.ones_equiv. lia.
Qed.

Lemma pow2_Z_pos k : 0 ≤ k → 0 < 2 ^ k.
Proof. intros. by apply Z.pow_pos_nonneg. Qed.

(** ** Products *)

Definition word (z : Z) : Prop := 0 ≤ z < 2 ^ 64.

Lemma mul32 a b : 0 ≤ a < 2 ^ 32 → 0 ≤ b < 2 ^ 32 → 0 ≤ a * b ≤ (2 ^ 32 - 1) * (2 ^ 32 - 1).
Proof. intros Ha Hb. split; [apply Z.mul_nonneg_nonneg; lia|]. apply Z.mul_le_mono_nonneg; lia. Qed.

(** The halves of a word. *)
Lemma word_halves z :
  word z → z = z / 2 ^ 32 * 2 ^ 32 + z mod 2 ^ 32 ∧ 0 ≤ z / 2 ^ 32 < 2 ^ 32 ∧ 0 ≤ z mod 2 ^ 32 < 2 ^ 32.
Proof. unfold word. intros. euclid. Qed.

(** The sum of the partial products, in 64 bits. *)
Lemma partial_products p0 p1 p2 p3 :
  let M := (2 ^ 32 - 1) * (2 ^ 32 - 1) in
  0 ≤ p0 ≤ M → 0 ≤ p1 ≤ M → 0 ≤ p2 ≤ M → 0 ≤ p3 →
  p3 * 2 ^ 64 + (p1 + p2) * 2 ^ 32 + p0 < 2 ^ 64 * (2 ^ 64 - 1) →
  u64 (p3 + p2 / 2 ^ 32 + p1 / 2 ^ 32 +
       u64 (u64 (p0 / 2 ^ 32 + p1 mod 2 ^ 32 + p2 mod 2 ^ 32) + 2 ^ 31) / 2 ^ 32) =
  (p3 * 2 ^ 64 + (p1 + p2) * 2 ^ 32 + p0 + 2 ^ 63) / 2 ^ 64.
Proof.
  intros M H0 H1 H2 H3 Hub. subst M.
  rewrite (u64_small (p0 / 2 ^ 32 + p1 mod 2 ^ 32 + p2 mod 2 ^ 32)) by euclid.
  rewrite (u64_small (_ + 2 ^ 31)) by euclid. rewrite u64_small; euclid.
Qed.

(** The 64 upper bits of the product, rounded to the nearest. *)
Lemma mul_spec x y :
  word (dp_f x) → word (dp_f y) →
  Diyfp.mul x y = mkDiyfp ((dp_f x * dp_f y + 2 ^ 63) / 2 ^ 64) (dp_e x + dp_e y + 64).
Proof.
  intros Hx Hy. unfold Diyfp.mul. f_equal. rewrite !mask32, !Z.shiftr_div_pow2 by lia.
  destruct (word_halves _ Hx) as (Ea & Ha1 & Ha0). destruct (word_halves _ Hy) as (Eb & Hb1 & Hb0).
  assert (Hub : dp_f x * dp_f y < 2 ^ 64 * (2 ^ 64 - 1)).
  { apply Z.le_lt_trans with ((2 ^ 64 - 1) * (2 ^ 64 - 1)); [|lia]. unfold word in *. apply Z.mul_le_mono_nonneg; lia. }
  pose proof (mul32 _ _ Ha0 Hb0) as H0. pose proof (mul32 _ _ Ha0 Hb1) as H1.
  pose proof (mul32 _ _ Ha1 Hb0) as H2. pose proof (mul32 _ _ Ha1 Hb1) as H3.
  rewrite !(u64_small (_ * _)) by lia. change (Z.shiftl 1 (64 - 32 - 1)) with (2 ^ 31).
  assert (Hab : dp_f x * dp_f y = dp_f x / 2 ^ 32 * (dp_f y / 2 ^ 32) * 2 ^ 64
    + (dp_f x mod 2 ^ 32 * (dp_f y / 2 ^ 32) + dp_f x / 2 ^ 32 * (dp_f y mod 2 ^ 32)) * 2 ^ 32
    + dp_f x mod 2 ^ 32 * (dp_f y mod 2 ^ 32)).
  { rewrite Ea at 1. rewrite Eb at 1. ring. }
  rewrite Hab in Hub |- *. apply partial_products; [done|done|done|lia|done].
Qed.

(** ** Normalization *)

Lemma normalize_loop_spec fuel f e :
  0 < f < 2 ^ 64 → 2 ^ 63 ≤ f * 2 ^ Z.of_nat fuel →
  ∃ s, 0 ≤ s ∧ 2 ^ 63 ≤ f * 2 ^ s < 2 ^ 64 ∧
    Diyfp.normalize_loop fuel (mkDiyfp f e) = Some (mkDiyfp (f * 2 ^ s) (e - s)).
Proof.
  revert f e. induction fuel as [|fuel IH]; intros f e Hf Hfuel; cbn [Diyfp.normalize_loop dp_f dp_e];
    rewrite Z.shiftr_div_pow2 by lia; case_bool; bool_facts.
  - rewrite Z.mul_1_r in Hfuel. euclid.
  - exists 0. rewrite Z.mul_1_r, Z.sub_0_r. clear Hfuel. split_and!; [lia|euclid|lia|done].
  - assert (f < 2 ^ 63) by (clear Hfuel IH; euclid). rewrite Z.shiftl_mul_pow2, u64_small by lia.
    rewrite Nat2Z.inj_succ, Z.pow_succ_r in Hfuel by lia.
    destruct (IH (f * 2 ^ 1) (e - 1)) as (s & Hs & Hr & ->); [lia|lia|].
    exists (s + 1). rewrite Z.pow_add_r, (Z.mul_comm (2 ^ s)), Z.mul_assoc by lia.
    split_and!; [lia|lia|lia|]. do 2 f_equal. lia.
  - exists 0. rewrite Z.mul_1_r, Z.sub_0_r. clear Hfuel. split_and!; [lia|euclid|lia|done].
Qed.

Lemma normalize_spec f e :
  0 < f < 2 ^ 64 →
  ∃ s, 0 ≤ s ∧ 2 ^ 63 ≤ f * 2 ^ s < 2 ^ 64 ∧
    Diyfp.normalize (mkDiyfp f e) = Some (mkDiyfp (f * 2 ^ s) (e - s)).
Proof.
  intros Hf. unfold Diyfp.normalize. simpl dp_f. rewrite (proj2 (Z.eqb_neq f 0)) by lia.
  apply (normalize_loop_spec 63 f e); [lia|]. change (Z.of_nat 63) with 63. lia.
Qed.

(** The shift that normalizes is unique. *)
Lemma shift_unique f s t :
  0 ≤ s → 0 ≤ t → 2 ^ 63 ≤ f * 2 ^ s < 2 ^ 64 → 2 ^ 63 ≤ f * 2 ^ t < 2 ^ 64 → s = t.
Proof.
  intros Hs Ht H1 H2. destruct (Z.lt_trichotomy s t) as [Hlt|[->|Hlt]]; [exfalso|done|exfalso].
  - replace t with (s + 1 + (t - s - 1)) in H2 by lia. rewrite !Z.pow_add_r in H2 by lia.
    pose proof (pow2_Z_pos (t - s - 1)). nia.
  - replace s with (t + 1 + (s - t - 1)) in H1 by lia. rewrite !Z.pow_add_r in H1 by lia.
    pose proof (pow2_Z_pos (s - t - 1)). nia.
Qed.

Lemma normalize_to_spec f e t :
  0 ≤ e - t → 0 ≤ f → f * 2 ^ (e - t) < 2 ^ 64 →
  Diyfp.normalize_to (mkDiyfp f e) t = Some (mkDiyfp (f * 2 ^ (e - t)) t).
Proof.
  intros Hd Hf Hr. unfold Diyfp.normalize_to. simpl dp_f. simpl dp_e.
  pose proof (pow2_Z_pos (e - t) Hd). rewrite Z.shiftl_mul_pow2, u64_small by nia.
  rewrite Z.shiftr_div_pow2, Z.div_mul by lia. by rewrite (proj2 (Z.leb_le _ _)), Z.eqb_refl by lia.
Qed.

(** ** Boundaries *)

Lemma positive_facts value :
  0 < value < INFINITY → isfinite value = true ∧ is_positive value = true.
Proof.
  rewrite INFINITY_val. intros Hv. unfold isfinite, is_positive, signbit, is_zero.
  change 0x7FF with (Z.ones 11). rewrite !Z.land_ones, Z.shiftr_div_pow2 by lia. split.
  - rewrite (proj2 (Z.eqb_neq _ _)); [done|]. change (Z.ones 11) with 2047. rewrite Z.mod_small; euclid.
  - rewrite Z.testbit_eqb by lia. rewrite (Z.mod_small value) by lia.
    rewrite (proj2 (Z.eqb_neq value 0)) by lia. by rewrite (Z.div_small value) by lia.
Qed.

(** The significands of the boundaries, [s] bits to the left. *)
Definition minus_f (value s : Z) : Z :=
  if closer_below value then (4 * significand value - 1) * 2 ^ (s - 2)
  else (2 * significand value - 1) * 2 ^ (s - 1).
Definition plus_f (value s : Z) : Z := (2 * significand value + 1) * 2 ^ (s - 1).

(** The test of the source for the closer lower boundary. *)
Lemma closer_below_fields value :
  0 < value < INFINITY → closer_below value = (value mod 2 ^ 52 =? 0) && (1 <? value / 2 ^ 52).
Proof.
  rewrite INFINITY_val. intros Hv. unfold closer_below, significand, exponent.
  apply eq_true_iff_eq. rewrite !andb_true_iff, !Z.eqb_eq, !Z.ltb_lt. case_bool; bool_facts; euclid.
Qed.

(** The significand fills between 1 and 53 bits. *)
Lemma shift_range value s :
  0 < value < INFINITY → 0 ≤ s → 2 ^ 63 ≤ significand value * 2 ^ s < 2 ^ 64 → 11 ≤ s ≤ 63.
Proof.
  intros Hv Hs Hr. pose proof (significand_pos value Hv). destruct (double_parts value) as (_ & Hf & _); [lia|].
  split.
  - destruct (decide (11 ≤ s)) as [|Hlt]; [done|]. exfalso.
    assert (2 ^ s ≤ 2 ^ 10) by (apply Z.pow_le_mono_r; lia). nia.
  - destruct (decide (s ≤ 63)) as [|Hlt]; [done|]. exfalso.
    assert (2 ^ 64 ≤ 2 ^ s) by (apply Z.pow_le_mono_r; lia). nia.
Qed.

Lemma compute_boundaries_spec value :
  0 < value < INFINITY →
  ∃ s, 11 ≤ s ≤ 63 ∧ 2 ^ 63 ≤ significand value * 2 ^ s < 2 ^ 64 ∧
    compute_boundaries value =
      Some (mkBoundaries (mkDiyfp (significand value * 2 ^ s) (exponent value - s))
              (mkDiyfp (minus_f value s) (exponent value - s))
              (mkDiyfp (plus_f value s) (exponent value - s))).
Proof.
  intros Hv. destruct (double_parts value) as (_ & Hf & He & _); [lia|].
  pose proof (significand_pos value Hv) as Hpos. destruct (positive_facts value Hv) as [Hfin Hp].
  unfold compute_boundaries. rewrite Hfin, Hp. cbn [JSON_ASSERT mbind option_bind].
  change (kHiddenBit - 1) with (Z.ones 52). rewrite Z.land_ones by lia.
  change (kPrecision - 1) with 52. rewrite Z.shiftr_div_pow2 by lia.
  rewrite <- closer_below_fields by done.
  assert (Ev : (if value / 2 ^ 52 =? 0 then mkDiyfp (value mod 2 ^ 52) kMinExp
     else mkDiyfp (u64 (value mod 2 ^ 52 + kHiddenBit)) (value / 2 ^ 52 - kBias))
     = mkDiyfp (significand value) (exponent value)).
  { unfold significand, exponent. change kHiddenBit with (2 ^ 52). change kMinExp with (-1074). change kBias with 1075.
    rewrite INFINITY_val in Hv. rewrite u64_small by euclid. case_bool; bool_facts; f_equal; try lia; euclid. }
  rewrite Ev. cbn [dp_f dp_e]. rewrite !u64_small by lia.
  destruct (normalize_spec (significand value) (exponent value)) as (s & Hs0 & Hs & En); [lia|].
  destruct (normalize_spec (2 * significand value + 1) (exponent value - 1)) as (t & Ht0 & Ht & Ent); [lia|].
  pose proof (shift_range value s Hv Hs0 Hs) as Hsr.
  assert (Hsp : 2 ^ s = 2 * 2 ^ (s - 1)) by (rewrite <- Z.pow_succ_r by lia; f_equal; lia).
  assert (Hsp' : 2 ^ (s - 1) = 2 * 2 ^ (s - 2)) by (rewrite <- Z.pow_succ_r by lia; f_equal; lia).
  pose proof (pow2_Z_pos (s - 2) ltac:(lia)) as Hp2.
  assert (t = s - 1) as ->.
  { apply (shift_unique (2 * significand value + 1)); [lia|lia|done|].
    assert (2 ^ 64 = 2 ^ (64 - s) * 2 ^ s) as E64 by (rewrite <- Z.pow_add_r by lia; f_equal; lia).
    assert (significand value < 2 ^ (64 - s)) by nia. nia. }
  exists s. split; [done|]. split; [done|]. rewrite Ent, En.
  cbn [mbind option_bind dp_e]. replace (exponent value - 1 - (s - 1)) with (exponent value - s) by lia.
  unfold minus_f, plus_f. destruct (closer_below value).
  - rewrite normalize_to_spec by (replace (exponent value - 2 - (exponent value - s)) with (s - 2) by lia; nia).
    by replace (exponent value - 2 - (exponent value - s)) with (s - 2) by lia.
  - rewrite normalize_to_spec by (replace (exponent value - 1 - (exponent value - s)) with (s - 1) by lia; nia).
    by replace (exponent value - 1 - (exponent value - s)) with (s - 1) by lia.
Qed.

(** ** Cached powers *)

(** [10 ^ k / 2 ^ e] as a fraction. *)
Definition power_num (c : cached_power) : Z := 10 ^ Z.max (cp_k c) 0 * 2 ^ Z.max (- cp_e c) 0.
Definition power_den (c : cached_power) : Z := 10 ^ Z.max (- cp_k c) 0 * 2 ^ Z.max (cp_e c) 0.

(** A cached power is normalized and within half a unit of the power of ten. *)
Definition cached_ok (c : cached_power) : bool :=
  (2 ^ 63 <=? cp_f c) && (cp_f c <? 2 ^ 64) && (-300 <=? cp_k c) && (cp_k c <=? 324)
  && (2 * Z.abs (cp_f c * power_den c - power_num c) <=? power_den c).

Lemma cached_powers_ok : forallb cached_ok kCachedPowers = true.
Proof. by vm_compute. Qed.

Definition cached_at (e : Z) : bool :=
  match get_cached_power_for_binary_exponent e with
  | Some c => (-60 <=? cp_e c + e + 64) && (cp_e c + e + 64 <=? -32)
  | None => false
  end.

Lemma cached_in_range : forallb cached_at (map (λ i, Z.of_nat i - 1137) (seq 0 2098)) = true.
Proof. by vm_compute. Qed.

(** For every exponent a normalized double can have there is a cached power
    that brings it between [kAlpha] and [kGamma]. *)
Lemma cached_power_spec e :
  -1137 ≤ e ≤ 960 →
  ∃ c, get_cached_power_for_binary_exponent e = Some c ∧ -60 ≤ cp_e c + e + 64 ≤ -32 ∧ cached_ok c = true.
Proof.
  intros He. assert (Hc : cached_at e = true).
  { apply (proj1 (forallb_forall _ _) cached_in_range). apply in_map_iff. exists (Z.to_nat (e + 1137)).
    split; [lia|]. apply in_seq. lia. }
  unfold cached_at in Hc. destruct (get_cached_power_for_binary_exponent e) as [c|] eqn:Ec; [|done].
  exists c. split; [done|]. split; [bool_facts; lia|].
  unfold get_cached_power_for_binary_exponent in Ec. repeat (apply bind_Some in Ec as (? & ? & Ec)).
  injection Ec as <-. eapply (proj1 (forallb_forall _ _) cached_powers_ok), list_elem_of_In, list_elem_of_lookup_2.
  eassumption.
Qed.

(** ** Scaling by a cached power *)

(** [Diyfp.mul] by the significand [c], rounded. *)
Definition scale (c x : Z) : Z := (x * c + 2 ^ 63) / 2 ^ 64.

(** The scaled significand is within one unit of the exact product. *)
Lemma scale_error c x :
  cached_ok c = true → word x →
  Z.abs (scale (cp_f c) x * (power_den c * 2 ^ 64) - x * power_num c) < power_den c * 2 ^ 64.
Proof.
  unfold cached_ok, word. intros Hc Hx. bool_facts. rename select (_ ≤ power_den c) into Hacc.
  assert (Hd : 0 < power_den c) by (apply Z.mul_pos_pos; lia).
  set (N := power_num c) in *. set (D := power_den c) in *. clearbody N D. set (f := cp_f c) in *.
  assert (Hs : Z.abs (2 * (scale f x * 2 ^ 64 - x * f)) ≤ 2 ^ 64) by (unfold scale; euclid).
  set (z := scale f x) in *. clearbody z f.
  assert (HE1 : Z.abs (2 * (z * 2 ^ 64 - x * f) * D) ≤ 2 ^ 64 * D).
  { rewrite Z.abs_mul, (Z.abs_eq D) by lia. apply Z.mul_le_mono_nonneg_r; lia. }
  assert (HE2 : Z.abs (2 * (f * D - N) * x) ≤ D * x).
  { rewrite Z.abs_mul, (Z.abs_eq x), Z.abs_mul by lia. apply Z.mul_le_mono_nonneg_r; [lia|]. exact Hacc. }
  assert (HE3 : D * x < D * 2 ^ 64) by (apply Z.mul_lt_mono_pos_l; lia).
  replace (z * (D * 2 ^ 64) - x * N) with ((z * 2 ^ 64 - x * f) * D + (f * D - N) * x) by ring.
  lia.
Qed.

(** The width of the rounding interval, relative to its upper end. *)
Lemma interval_width value s :
  0 < value < INFINITY → 11 ≤ s → plus_f value s ≤ 10 ^ 16 * (plus_f value s - minus_f value s - 6).
Proof.
  intros Hv Hs. destruct (double_parts value) as (_ & Hf & _); [lia|]. unfold plus_f, minus_f.
  assert (2 ^ (s - 1) = 2 * 2 ^ (s - 2)) as -> by (rewrite <- Z.pow_succ_r by lia; f_equal; lia).
  assert (2 ^ 9 ≤ 2 ^ (s - 2)) as Hp by (apply Z.pow_le_mono_r; lia).
  set (p := 2 ^ (s - 2)) in *. clearbody p. destruct (closer_below value) eqn:Ec.
  - unfold closer_below in Ec. bool_facts. rewrite H. lia.
  - nia.
Qed.

Lemma significands_ordered value s :
  0 < value < INFINITY → 11 ≤ s ≤ 63 → 2 ^ 63 ≤ significand value * 2 ^ s < 2 ^ 64 →
  0 < minus_f value s ∧ minus_f value s + 2 ^ (s - 2) ≤ significand value * 2 ^ s ∧
  significand value * 2 ^ s + 2 ^ (s - 1) ≤ plus_f value s < 2 ^ 64.
Proof.
  intros Hv Hs Hr. pose proof (significand_pos value Hv) as Hpos. unfold minus_f, plus_f.
  assert (Hs2 : 2 ^ s = 4 * 2 ^ (s - 2)) by (change 4 with (2 ^ 2); rewrite <- Z.pow_add_r by lia; f_equal; lia).
  assert (Hs1 : 2 ^ (s - 1) = 2 * 2 ^ (s - 2)) by (rewrite <- Z.pow_succ_r by lia; f_equal; lia).
  pose proof (pow2_Z_pos (s - 2) ltac:(lia)) as Hp.
  assert (E64 : 2 ^ 64 = 4 * 2 ^ (64 - s) * 2 ^ (s - 2)).
  { change 4 with (2 ^ 2). rewrite <- !Z.pow_add_r by lia. f_equal. lia. }
  rewrite Hs1. rewrite Hs2 in Hr |- *. set (p := 2 ^ (s - 2)) in *. set (f := significand value) in *.
  split_and!; destruct (closer_below value); nia.
Qed.

(** What [grisu2] hands to the digit generation: the scaled value lies between
    the scaled boundaries, these lie strictly between the exact ones, and
    their distance is more than [10 ^ -16] of the upper one. *)
Record scaled_ok (c : cached_power) (minus plus M_minus W M_plus : Z) : Prop := mkScaledOk {
  sc_minus : 0 < M_minus;
  sc_low : M_minus ≤ W;
  sc_high : W ≤ M_plus;
  sc_large : 2 ^ 61 ≤ M_plus < 2 ^ 64;
  sc_width : M_plus < 10 ^ 16 * (M_plus - M_minus);
  sc_above : minus * power_num c < M_minus * (power_den c * 2 ^ 64);
  sc_below : M_plus * (power_den c * 2 ^ 64) < plus * power_num c;
}.

Lemma scale_spec c minus v plus :
  cached_ok c = true →
  0 < minus → minus + 2 ^ 9 ≤ v → v + 2 ^ 9 ≤ plus → plus < 2 ^ 64 → 2 ^ 63 ≤ v →
  plus ≤ 10 ^ 16 * (plus - minus - 6) →
  scaled_ok c minus plus (scale (cp_f c) minus + 1) (scale (cp_f c) v) (scale (cp_f c) plus - 1).
Proof.
  intros Hc Hm Hmv Hvp Hp Hv Hw.
  pose proof (scale_error c minus Hc ltac:(unfold word; lia)) as Em.
  pose proof (scale_error c plus Hc ltac:(unfold word; lia)) as Ep.
  unfold cached_ok in Hc. bool_facts. set (f := cp_f c) in *.
  assert (H9 : 2 ^ 63 * 2 ^ 9 ≤ (v - minus) * f) by (apply Z.le_trans with (2 ^ 9 * f); [lia|apply Z.mul_le_mono_nonneg_r; lia]).
  assert (H9' : 2 ^ 63 * 2 ^ 9 ≤ (plus - v) * f) by (apply Z.le_trans with (2 ^ 9 * f); [lia|apply Z.mul_le_mono_nonneg_r; lia]).
  assert (Hlow : 0 ≤ minus * f) by (apply Z.mul_nonneg_nonneg; lia).
  assert (Hlarge : 2 ^ 63 * 2 ^ 63 ≤ plus * f) by (apply Z.mul_le_mono_nonneg; lia).
  assert (Hup : plus * f ≤ (2 ^ 64 - 1) * (2 ^ 64 - 1)) by (apply Z.mul_le_mono_nonneg; lia).
  assert (Hwf : plus * f ≤ 10 ^ 16 * (plus * f - minus * f - 6 * f)).
  { replace (10 ^ 16 * _) with (10 ^ 16 * (plus - minus - 6) * f) by ring. apply Z.mul_le_mono_nonneg_r; lia. }
  rewrite Z.mul_sub_distr_r in H9, H9'. constructor; try (unfold scale; euclid); lia.
Qed.

(** ** Digits in the buffer *)

Definition all_digits (ds : bytes) : Prop := Forall (λ c, is_digit c = true) ds.

(** A digit string whose first and last digits are not zero. *)
Record proper (ds : bytes) : Prop := mkProper {
  pr_digits : all_digits ds;
  pr_lead : match ds with c :: _ => 1 ≤ digit_val c | [] => False end;
  pr_last : match last ds with Some c => 1 ≤ digit_val c | None => False end;
}.

Lemma digit_char_spec d :
  0 ≤ d ≤ 9 → is_digit (digit_char d) = true ∧ digit_val (digit_char d) = d ∧ byte_val (digit_char d) = 48 + d.
Proof.
  intros Hd. unfold is_digit, digit_val, digit_char. rewrite byte_val_of, u8_small by lia.
  split_and!; [|lia|lia]. apply andb_true_iff. rewrite !Z.leb_le. lia.
Qed.

Lemma store_here a c x b : store (length a) c (a ++ x :: b) = Some (a ++ c :: b).
Proof.
  unfold store. rewrite bool_decide_eq_true_2 by (rewrite length_app; simpl; lia).
  rewrite insert_app_r_alt, Nat.sub_diag by done. done.
Qed.

(** Appending a digit to those after [pre]. *)
Lemma store_digit pre ds post c :
  (0 < length post)%nat →
  ∃ post', store (length pre + length ds) c (pre ++ ds ++ post) = Some (pre ++ (ds ++ [c]) ++ post') ∧
    length post = S (length post').
Proof.
  intros Hp. destruct post as [|x post]; [simpl in Hp; lia|]. exists post. split; [|done].
  rewrite app_assoc, <- length_app, store_here. by rewrite <- !app_assoc.
Qed.

(** The loop of [grisu2_round], when the text without its last digit [v] was
    too far from the upper boundary: the digit stays above zero, and the
    distance within [delta]. *)
Lemma round_loop_spec fuel pre v post dist delta rest ten_k :
  v ≤ Z.of_nat fuel → 0 ≤ v ≤ 9 → 0 < ten_k → 0 ≤ rest ≤ delta → 0 ≤ dist ≤ delta → delta < 2 ^ 64 →
  delta < v * ten_k + rest →
  ∃ v', 1 ≤ v' ≤ v ∧ 0 ≤ v * ten_k + rest - v' * ten_k ≤ delta ∧
    round_loop fuel (pre ++ digit_char v :: post) (length pre) dist delta rest ten_k =
      Some (pre ++ digit_char v' :: post).
Proof.
  revert v rest. induction fuel as [|fuel IH]; intros v rest Hfuel Hv Hten Hrest Hdist Hdelta Hprev;
    [exfalso; nia|].
  cbn [round_loop]. rewrite (u64_small (delta - rest)) by lia.
  destruct ((rest <? dist) && (ten_k <=? delta - rest)) eqn:Ec; simpl;
    [|exists v; split_and!; [nia|lia|lia|lia|done]].
  case_bool; [|exists v; split_and!; [nia|lia|lia|lia|done]].
  bool_facts. rewrite u64_small by lia. assert (Hv2 : 2 ≤ v) by nia.
  destruct (digit_char_spec v Hv) as (_ & _ & Hb).
  rewrite list_lookup_middle by done. cbn [mbind option_bind]. rewrite Hb.
  rewrite (proj2 (Z.eqb_neq _ _)) by lia. cbn [JSON_ASSERT mbind option_bind negb].
  rewrite store_here. cbn [mbind option_bind].
  replace (byte_of (48 + v - 1)) with (digit_char (v - 1)) by (unfold digit_char; f_equal; lia).
  destruct (IH (v - 1) (rest + ten_k)) as (v' & Hv' & Hr & ->); try lia.
  exists v'. split_and!; [lia|lia|lia|lia|done].
Qed.

Lemma grisu2_round_spec pre ds d post dist delta rest ten_k :
  0 ≤ d ≤ 9 → 0 < ten_k → 0 ≤ rest ≤ delta → 0 ≤ dist ≤ delta → delta < 2 ^ 64 → delta < d * ten_k + rest →
  ∃ d', 1 ≤ d' ≤ 9 ∧ 0 ≤ d * ten_k + rest - d' * ten_k ≤ delta ∧
    grisu2_round (pre ++ (ds ++ [digit_char d]) ++ post) (length pre) (S (length ds)) dist delta rest ten_k =
      Some (pre ++ (ds ++ [digit_char d']) ++ post).
Proof.
  intros Hd Hten Hrest Hdist Hdelta Hprev. unfold grisu2_round.
  rewrite bool_decide_eq_true_2, !(proj2 (Z.leb_le _ _)), (proj2 (Z.ltb_lt _ _)) by lia.
  cbn [JSON_ASSERT mbind option_bind].
  destruct (round_loop_spec 9 (pre ++ ds) d post dist delta rest ten_k) as (d' & Hd' & Hr & E); try lia.
  exists d'. split; [lia|]. split; [done|]. rewrite length_app in E.
  replace (length pre + S (length ds) - 1)%nat with (length pre + length ds)%nat by lia.
  rewrite <- !app_assoc in E |- *. exact E.
Qed.

(** The first digit is not zero. *)
Definition led (ds : bytes) : Prop := match ds with c :: _ => 1 ≤ digit_val c | [] => True end.

Lemma led_snoc ds d : led ds → (ds = [] → 1 ≤ d) → 0 ≤ d ≤ 9 → led (ds ++ [digit_char d]).
Proof.
  intros Hl Hd Hr. destruct ds as [|c ds]; [|done]. simpl. destruct (digit_char_spec d Hr) as (_ & -> & _). auto.
Qed.

Lemma all_digits_snoc ds d : all_digits ds → 0 ≤ d ≤ 9 → all_digits (ds ++ [digit_char d]).
Proof. intros Ha Hd. apply Forall_app. split; [done|]. constructor; [by apply digit_char_spec|constructor]. Qed.

Lemma proper_snoc ds d : all_digits ds → led ds → 1 ≤ d ≤ 9 → proper (ds ++ [digit_char d]).
Proof.
  intros Ha Hl Hd. constructor.
  - apply all_digits_snoc; [done|lia].
  - assert (H : led (ds ++ [digit_char d])) by (apply led_snoc; [done|lia|lia]). by destruct ds.
  - rewrite last_snoc. destruct (digit_char_spec d) as (_ & -> & _); lia.
Qed.

Lemma digits_val_digit ds d : 0 ≤ d ≤ 9 → digits_val (ds ++ [digit_char d]) = 10 * digits_val ds + d.
Proof. intros Hd. rewrite digits_val_snoc. by destruct (digit_char_spec d Hd) as (_ & -> & _). Qed.

(** Digits whose text is still more than [delta] away are at most 16. *)
Lemma digits_fit len n one delta top :
  0 ≤ n → 0 < one → 0 < len + n → delta < 10 ^ n * one → 10 ^ (len + n - 1) * one ≤ top →
  top < 10 ^ 16 * delta → len ≤ 16.
Proof.
  intros Hn Hone Hlen Hd Ht Hw.
  assert (H : 10 ^ (len + n - 1) < 10 ^ (16 + n)).
  { apply (Z.mul_lt_mono_pos_r one); [done|]. rewrite (Z.pow_add_r 10 16) by lia. lia. }
  apply Z.pow_lt_mono_r_iff in H; lia.
Qed.

(** ** The two loops *)

(** The digits [ds] are a prefix of those of [top], [n] of which are still to
    come before the point; the remainder [R] is more than [delta]. *)
Record pending (one delta top : Z) (ds : bytes) (n R : Z) : Prop := mkPending {
  pe_digits : all_digits ds;
  pe_led : led ds;
  pe_n : 0 ≤ n;
  pe_value : digits_val ds * (10 ^ n * one) + R = top;
  pe_rest : delta < R < 10 ^ n * one;
  pe_some : 0 < zlen ds + n;
  pe_size : 10 ^ (zlen ds + n - 1) * one ≤ top;
  pe_width : top < 10 ^ 16 * delta;
}.

Section Pending.
Context (one delta top : Z) (ds : bytes).
Hypothesis (Hone : 0 < one).

Lemma pending_room n R : pending one delta top ds n R → 0 ≤ delta → zlen ds ≤ 16.
Proof. intros [] Hd. apply (digits_fit (zlen ds) n one delta top); lia || done. Qed.

(** The next digit. *)
Lemma pending_digit n R d r :
  pending one delta top ds (n + 1) R → 0 ≤ delta → 0 ≤ n → R = d * (10 ^ n * one) + r → 0 ≤ r < 10 ^ n * one →
  0 ≤ d ≤ 9 ∧ (ds = [] → 1 ≤ d) ∧ digits_val (ds ++ [digit_char d]) * (10 ^ n * one) + r = top ∧
  (delta < r → pending one delta top (ds ++ [digit_char d]) n r).
Proof.
  intros [Ha Hl _ Hv Hr Hs Hsz Hw] Hdelta Hn ER Hrr. rewrite Z.pow_add_r in Hv, Hr by lia. change (10 ^ 1) with 10 in *.
  replace (zlen ds + (n + 1) - 1) with (zlen ds + n) in Hsz by lia.
  set (u := 10 ^ n * one) in *. assert (Hu : 0 < u) by (subst u; lia).
  replace (10 ^ n * 10 * one) with (10 * u) in * by (subst u; ring).
  assert (Hd : 0 ≤ d ≤ 9) by nia.
  assert (Hlead : ds = [] → 1 ≤ d).
  { intros ->. change (zlen []) with 0 in Hsz. change (digits_val []) with 0 in Hv.
    rewrite Z.add_0_l in Hsz. fold u in Hsz. nia. }
  assert (Hval : digits_val (ds ++ [digit_char d]) * u + r = top) by (rewrite digits_val_digit by done; lia).
  split_and!; [lia|lia|done|done|]. intros Hdr. constructor; try done.
  - by apply all_digits_snoc.
  - by apply led_snoc.
  - lia.
  - autorewrite with zlen. pose proof (zlen_nonneg ds). lia.
  - autorewrite with zlen. by replace (zlen ds + (1 + 0) + n - 1) with (zlen ds + n) by lia.
Qed.

(** Moving the point. *)
Lemma pending_scale R :
  pending one delta top ds 0 R → pending one (delta * 10) (top * 10) ds 1 (R * 10).
Proof.
  intros [Ha Hl _ Hv Hr Hs Hsz Hw]. rewrite Z.mul_1_l in *. constructor; try done; try lia.
  replace (zlen ds + 1 - 1) with (Z.succ (zlen ds + 0 - 1)) by lia. rewrite Z.pow_succ_r by lia. lia.
Qed.
End Pending.

(** What the digit generation leaves in the buffer after [pre]: at most 17
    digits, that stand for a number between [top - delta] and [top]. *)
Record generated (one delta top : Z) (ds : bytes) (a b : Z) : Prop := mkGenerated {
  ge_proper : proper ds;
  ge_length : zlen ds ≤ 17;
  ge_a : 0 ≤ a;
  ge_b : 0 ≤ b;
  ge_value : 0 ≤ top * 10 ^ b - digits_val ds * (10 ^ a * one) ≤ delta * 10 ^ b;
}.

(** The last digit [d], with the remainder [r] close enough, and its rounding. *)
Lemma accept_digit one delta top pre ds d post dist n R r :
  0 < one → pending one delta top ds (n + 1) R → 0 ≤ n → R = d * (10 ^ n * one) + r → 0 ≤ r < 10 ^ n * one →
  0 ≤ r ≤ delta → 0 ≤ dist ≤ delta → delta < 2 ^ 64 →
  ∃ ds', length ds' = S (length ds) ∧ generated one delta top ds' n 0 ∧
    grisu2_round (pre ++ (ds ++ [digit_char d]) ++ post) (length pre) (S (length ds)) dist delta r (10 ^ n * one) =
      Some (pre ++ ds' ++ post).
Proof.
  intros Hone Hp Hn ER Hr Hrd Hdist Hdelta.
  destruct (pending_digit one delta top ds Hone n R d r Hp) as (Hd & _ & Hval & _); try done; try lia.
  pose proof (pending_room one delta top ds Hone _ _ Hp ltac:(lia)) as Hroom.
  destruct (grisu2_round_spec pre ds d post dist delta r (10 ^ n * one)) as (d' & Hd' & Hv & E); try done; try lia.
  { destruct Hp. lia. }
  exists (ds ++ [digit_char d']). split; [rewrite length_app; simpl; lia|]. split; [|exact E].
  constructor; try lia.
  - destruct Hp. by apply proper_snoc.
  - autorewrite with zlen. lia.
  - rewrite digits_val_digit in Hval |- * by lia. rewrite Z.mul_1_r. lia.
Qed.

Section Loops.
Context (pre : bytes) (shift : Z).
Hypothesis (Hshift : 32 ≤ shift ≤ 60).
Notation one := (2 ^ shift).

Lemma one_pos : 0 < one.
Proof. apply pow2_Z_pos. lia. Qed.

(** The unit of the next digit is at most the number itself. *)
Lemma pending_unit delta top ds n R : pending one delta top ds (n + 1) R → 0 ≤ n → 10 ^ n * one ≤ top.
Proof.
  intros Hp Hn. eapply Z.le_trans; [|apply (pe_size _ _ _ _ _ _ Hp)].
  pose proof one_pos. apply Z.mul_le_mono_nonneg_r; [lia|]. apply Z.pow_le_mono_r; [lia|].
  pose proof (zlen_nonneg ds). lia.
Qed.

Lemma pending_below delta top ds n R : pending one delta top ds n R → R ≤ top.
Proof.
  intros []. pose proof one_pos. pose proof (digits_val_nonneg ds pe_digits0).
  assert (0 ≤ 10 ^ n * one) by lia. nia.
Qed.

(** The buffer after the loop over the integral part: finished, or with the
    fractional part left. *)
Lemma integral_loop_spec n ds post dexp p1 p2 dist delta top :
  pending one delta top ds (Z.of_nat n) (p1 * one + p2) → 0 ≤ p1 → 0 ≤ p2 < one → top < 2 ^ 64 →
  0 ≤ dist ≤ delta → (17 ≤ length ds + length post)%nat →
  ∃ ds' post', (length ds' + length post' = length ds + length post)%nat ∧
   ((∃ a, generated one delta top ds' a 0 ∧
      integral_loop n (length pre) (pre ++ ds ++ post) (length ds) dexp p1 p2 (10 ^ Z.of_nat n / 10) dist delta shift
        = Some (Generated (pre ++ ds' ++ post') (length ds') (dexp + a)))
    ∨ (pending one delta top ds' 0 p2 ∧
      integral_loop n (length pre) (pre ++ ds ++ post) (length ds) dexp p1 p2 (10 ^ Z.of_nat n / 10) dist delta shift
        = Some (Remaining (pre ++ ds' ++ post') (length ds')))).
Proof.
  pose proof one_pos as Hone. revert ds post p1. induction n as [|n IH]; intros ds post p1 Hp H1 H2 Htop Hdist Hlen.
  - exists ds, post. split; [done|]. right. split; [|done]. destruct Hp. rewrite Z.mul_1_l in *.
    assert (p1 = 0) as -> by nia. by constructor; rewrite ?Z.mul_1_l.
  - rewrite Nat2Z.inj_succ in Hp. change (Z.succ (Z.of_nat n)) with (Z.of_nat n + 1) in Hp.
    pose proof (pending_room _ _ _ _ Hone _ _ Hp ltac:(lia)) as Hroom. unfold zlen in Hroom.
    pose proof (pending_unit _ _ _ _ _ Hp ltac:(lia)) as Hunit. pose proof (pending_below _ _ _ _ _ Hp) as Hbelow.
    set (t := 10 ^ Z.of_nat n) in *. assert (Ht : 0 < t) by (subst t; lia).
    assert (10 ^ Z.of_nat (S n) / 10 = t) as ->.
    { rewrite Nat2Z.inj_succ, Z.pow_succ_r, Z.mul_comm, Z.div_mul by lia. done. }
    pose proof (Z.div_mod p1 t ltac:(lia)) as Ed. pose proof (Z.mod_pos_bound p1 t Ht) as Hr.
    set (d := p1 / t) in *. set (r := p1 mod t) in *.
    assert (ER : p1 * one + p2 = d * (t * one) + (r * one + p2)) by (rewrite Ed; ring).
    assert (Hrr : 0 ≤ r * one + p2 < t * one) by nia.
    destruct (pending_digit one delta top ds Hone (Z.of_nat n) _ d (r * one + p2) Hp) as (Hd & _ & Hval & Hnext); try done; try lia.
    destruct (store_digit pre ds post (digit_char d)) as (post1 & Es & El); [lia|].
    cbn [integral_loop]. fold d r. rewrite (proj2 (Z.leb_le d 9)) by lia. cbn [JSON_ASSERT mbind option_bind].
    rewrite Es. cbn [mbind option_bind]. rewrite !Z.shiftl_mul_pow2 by lia.
    rewrite (u64_small (r * one)), (u64_small (t * one)), (u64_small (r * one + p2)) by nia.
    case_bool; bool_facts.
    + destruct (accept_digit one delta top pre ds d post1 dist (Z.of_nat n) _ (r * one + p2) Hone Hp) as (ds' & Hl' & Hg & Er);
        try done; try lia; [pose proof (pe_rest _ _ _ _ _ _ Hp); lia|].
      exists ds', post1. split; [lia|]. left. exists (Z.of_nat n). split; [done|].
      fold t in Er. rewrite Er. cbn [mbind option_bind]. by rewrite Hl'.
    + destruct (IH (ds ++ [digit_char d]) post1 r) as (ds' & post' & Hl' & Hres); try lia; [by apply Hnext|rewrite length_app; simpl; lia|].
      exists ds', post'. rewrite length_app in Hl', Hres. simpl length in Hl', Hres.
      rewrite Nat.add_1_r in Hres. fold t in Hres. split; [lia|]. exact Hres.
Qed.

Lemma generated_scale delta top ds b :
  generated one (delta * 10) (top * 10) ds 0 b → generated one delta top ds 0 (b + 1).
Proof.
  intros []. constructor; try done; [lia|]. rewrite Z.pow_add_r by lia. lia.
Qed.

Lemma one_large : one ≤ 2 ^ 60.
Proof. apply Z.pow_le_mono_r; lia. Qed.

Lemma fractional_loop_spec fuel ds post dexp m p2 dist delta top :
  pending one delta top ds 0 p2 → 0 ≤ dist ≤ delta →
  (17 ≤ length ds + fuel)%nat → (17 ≤ length ds + length post)%nat →
  ∃ ds' post' b, (length ds' + length post' = length ds + length post)%nat ∧ generated one delta top ds' 0 b ∧
    fractional_loop fuel (length pre) (pre ++ ds ++ post) (length ds) dexp m p2 dist delta shift =
      Some (pre ++ ds' ++ post', length ds', dexp - m - b).
Proof.
  pose proof one_pos as Hone. pose proof one_large as Hlarge. revert ds post m p2 dist delta top.
  induction fuel as [|fuel IH]; intros ds post m p2 dist delta top Hp Hdist Hfuel Hlen;
    pose proof (pending_room _ _ _ _ Hone _ _ Hp ltac:(lia)) as Hroom; unfold zlen in Hroom; [lia|].
  pose proof (pe_rest _ _ _ _ _ _ Hp) as Hr. rewrite Z.mul_1_l in Hr.
  pose proof (pending_scale one delta top ds p2 Hp) as Hp10.
  cbn [fractional_loop]. rewrite (proj2 (Z.leb_le p2 _)) by (change (UINT64_MAX / 10) with 1844674407370955161; lia).
  cbn [JSON_ASSERT mbind option_bind]. rewrite (u64_small (p2 * 10)), (u64_small (delta * 10)), (u64_small (dist * 10)) by lia.
  rewrite Z.shiftr_div_pow2, mask_ones by lia.
  pose proof (Z.div_mod (p2 * 10) one ltac:(lia)) as Ed. pose proof (Z.mod_pos_bound (p2 * 10) one Hone) as Hrr.
  set (d := p2 * 10 / one) in *. set (r := (p2 * 10) mod one) in *. rewrite Z.mul_comm in Ed.
  destruct (pending_digit one (delta * 10) (top * 10) ds Hone 0 (p2 * 10) d r Hp10)
    as (Hd & _ & Hval & Hnext); rewrite ?Z.mul_1_l; try done; try lia.
  destruct (store_digit pre ds post (digit_char d)) as (post1 & Es & El); [lia|].
  rewrite (proj2 (Z.leb_le d 9)) by lia. cbn [JSON_ASSERT mbind option_bind]. rewrite Es. cbn [mbind option_bind].
  rewrite Z.shiftl_1_l. case_bool; bool_facts.
  - destruct (accept_digit one (delta * 10) (top * 10) pre ds d post1 (dist * 10) 0 (p2 * 10) r Hone Hp10)
      as (ds' & Hl' & Hg & Er); rewrite ?Z.mul_1_l; try done; try lia.
    exists ds', post1, 1. split; [lia|]. split; [by apply (generated_scale _ _ _ 0)|].
    rewrite Z.mul_1_l in Er. rewrite Er. cbn [mbind option_bind]. rewrite Hl'. do 2 f_equal. lia.
  - destruct (IH (ds ++ [digit_char d]) post1 (m + 1) r (dist * 10) (delta * 10) (top * 10)) as (ds' & post' & b & Hl' & Hg & E');
      [by apply Hnext|lia|rewrite length_app; simpl; lia..|].
    rewrite length_app in Hl', E'. simpl length in Hl', E'. rewrite Nat.add_1_r in E'.
    exists ds', post', (b + 1). split; [lia|]. split; [by apply generated_scale|].
    rewrite E'. do 2 f_equal. lia.
Qed.
End Loops.

(** ** find_largest_pow10 *)

Lemma find_largest_pow10_spec n :
  0 < n < 2 ^ 32 →
  ∃ k, 1 ≤ k ≤ 10 ∧ find_largest_pow10 n = (k, 10 ^ k / 10) ∧ 10 ^ (k - 1) ≤ n < 10 ^ k.
Proof.
  intros Hn. unfold find_largest_pow10.
  repeat (case_bool; bool_facts; [match goal with |- ∃ k, _ ∧ (?a, _) = _ ∧ _ => exists a; split_and!; [lia|lia|done|lia|lia] end|]).
  exists 1. split_and!; [lia|lia|done|lia|lia].
Qed.

(** ** grisu2_digit_gen *)

Lemma grisu2_digit_gen_spec pre post dexp e M_minus W M_plus :
  -60 ≤ e ≤ -32 → 0 < M_minus → M_minus ≤ W ≤ M_plus → 2 ^ 61 ≤ M_plus < 2 ^ 64 →
  M_plus < 10 ^ 16 * (M_plus - M_minus) → (17 ≤ length post)%nat →
  ∃ ds post' a b, (length ds + length post' = length post)%nat ∧
    generated (2 ^ (- e)) (M_plus - M_minus) M_plus ds a b ∧
    grisu2_digit_gen (pre ++ post) (length pre) 0 dexp (mkDiyfp M_minus e) (mkDiyfp W e) (mkDiyfp M_plus e) =
      Some (pre ++ ds ++ post', length ds, dexp + a - b).
Proof.
  intros He Hm HW Hp Hw Hlen. unfold grisu2_digit_gen, Diyfp.sub. cbn [dp_f dp_e].
  rewrite Z.eqb_refl, !(proj2 (Z.leb_le _ _)) by (unfold kAlpha, kGamma; lia).
  cbn [JSON_ASSERT mbind option_bind fmap option_fmap option_map dp_f]. rewrite !u64_small by lia.
  rewrite Z.shiftr_div_pow2, mask_ones by lia. pose proof (one_pos (- e) ltac:(lia)) as Hone.
  pose proof (one_large (- e) ltac:(lia)) as Hlarge.
  assert (H32 : 2 ^ 32 ≤ 2 ^ (- e)) by (apply Z.pow_le_mono_r; lia).
  pose proof (Z.div_mod M_plus (2 ^ (- e)) ltac:(lia)) as Ed. pose proof (Z.mod_pos_bound M_plus _ Hone) as Hr.
  set (p1 := M_plus / 2 ^ (- e)) in *. set (p2 := M_plus mod 2 ^ (- e)) in *.
  clearbody p1 p2. assert (Hp1 : 0 < p1 < 2 ^ 32) by nia. rewrite u32_small by lia. rewrite (proj2 (Z.ltb_lt 0 p1)) by lia.
  destruct (find_largest_pow10_spec p1 Hp1) as (k & Hk & -> & Hpow). cbn [JSON_ASSERT mbind option_bind].
  assert (Hpend : pending (2 ^ (- e)) (M_plus - M_minus) M_plus [] (Z.of_nat (Z.to_nat k)) (p1 * 2 ^ (- e) + p2)).
  { rewrite Z2Nat.id by lia.
    assert ((p1 + 1) * 2 ^ (- e) ≤ 10 ^ k * 2 ^ (- e)) by (apply Z.mul_le_mono_nonneg_r; lia).
    assert (10 ^ (k - 1) * 2 ^ (- e) ≤ p1 * 2 ^ (- e)) by (apply Z.mul_le_mono_nonneg_r; lia).
    constructor; change (zlen []) with 0; change (digits_val []) with 0; rewrite ?Z.add_0_l; try lia; constructor. }
  destruct (integral_loop_spec pre (- e) ltac:(lia) _ [] post dexp p1 p2 (M_plus - W) _ _ Hpend)
    as (ds & post' & Hl & Hres); [lia|lia|lia|lia|done|].
  rewrite Z2Nat.id, app_nil_l in Hres by lia. change (length []) with 0%nat in Hl, Hres.
  destruct Hres as [(a & Hg & ->)|(Hpe & ->)]; cbn [mbind option_bind].
  - exists ds, post', a, 0. split; [done|]. split; [done|]. do 2 f_equal. lia.
  - pose proof (pe_rest _ _ _ _ _ _ Hpe) as Hrest. rewrite (proj2 (Z.ltb_lt _ _)) by lia.
    cbn [JSON_ASSERT mbind option_bind].
    destruct (fractional_loop_spec pre (- e) ltac:(lia) 20 ds post' dexp 0 p2 (M_plus - W) _ _ Hpe)
      as (ds' & post2 & b & Hl' & Hg & E'); [lia|lia|lia|].
    exists ds', post2, 0, b. split; [lia|]. split; [done|]. rewrite E'. do 2 f_equal; lia.
Qed.
