(* ===== verification/GrisuRound.v ===== *)
(** * Grisu2: the text reads back as the number

    The decimal number that [grisu2] generates lies strictly inside the
    rounding interval of the double, and the text that [format_buffer] makes of
    it is a number of the JSON grammar with that value: so [std::strtod] of
    what [to_chars] wrote is the double again.  Nothing is written outside the
    number buffer, no assertion fails and no loop outlasts its bound. *)

From S2P Require Import Prelude Text Double Grisu GrisuDigits.
From Stdlib Require Import QArith Qpower Lqa.
#[local] Open Scope Z_scope.

(** ** The generated number is inside the rounding interval *)

Lemma digits_val_bound ds : all_digits ds → digits_val ds < 10 ^ zlen ds.
Proof.
  induction ds as [|c ds IH] using rev_ind; [done|]. intros [Hs Hc]%Forall_app. apply Forall_cons in Hc as [Hc _].
  rewrite digits_val_snoc. apply is_digit_val in Hc. specialize (IH Hs). autorewrite with zlen.
  replace (zlen ds + (1 + 0)) with (Z.succ (zlen ds)) by lia. rewrite Z.pow_succ_r by apply zlen_nonneg. lia.
Qed.

Lemma proper_pos ds : proper ds → 0 < digits_val ds.
Proof.
  intros [Ha Hl _]. destruct ds as [|c ds]; [done|]. change (c :: ds) with ([c] ++ ds). rewrite digits_val_concat.
  apply Forall_cons in Ha as [_ Ha]. pose proof (digits_val_nonneg ds Ha).
  change (digits_val [c]) with (digit_val c). pose proof (Z.pow_pos_nonneg 10 (zlen ds) ltac:(lia) (zlen_nonneg ds)). nia.
Qed.

#[local] Open Scope Q_scope.

Lemma power_ratio c : inject_Z (power_num c) * 2 ^ cp_e c == 10 ^ cp_k c * inject_Z (power_den c).
Proof.
  unfold power_num, power_den. rewrite !inject_Z_mult, <- (pow10_split (cp_k c)), <- (pow2_split (cp_e c)). ring.
Qed.

Lemma power_den_pos c : 0 < inject_Z (power_den c).
Proof. apply inject_pos, Z.mul_pos_pos; lia. Qed.

(** From the scaled integers to the numbers they stand for. *)
Section Unscale.
Context (c : cached_power) (e A V a b : Z).
Hypothesis (Ha : (0 ≤ a)%Z) (Hb : (0 ≤ b)%Z) (He : (0 ≤ - (cp_e c + e + 64))%Z).

Let K : Q := inject_Z (power_den c) * 10 ^ (cp_k c + b) * 2 ^ (- cp_e c - e).

Lemma unscale_left :
  inject_Z (A * power_num c * 10 ^ b) == inject_Z A * 2 ^ e * K.
Proof.
  subst K. rewrite !inject_Z_mult, inject_pow10, pow10_add by done.
  assert (inject_Z (power_num c) == 10 ^ cp_k c * inject_Z (power_den c) * 2 ^ (- cp_e c)) as ->.
  { rewrite <- power_ratio, <- Qmult_assoc, <- pow2_add. replace (cp_e c + - cp_e c)%Z with 0%Z by lia.
    rewrite Qpower_0_r. ring. }
  replace (- cp_e c - e)%Z with (- cp_e c + - e)%Z by lia. rewrite (pow2_add (- cp_e c)).
  assert (2 ^ e * 2 ^ (- e) == 1) as He0.
  { rewrite <- pow2_add. by replace (e + - e)%Z with 0%Z by lia. }
  transitivity (inject_Z A * (10 ^ cp_k c * inject_Z (power_den c) * 2 ^ (- cp_e c)) * 10 ^ b * (2 ^ e * 2 ^ (- e)));
    [rewrite He0; ring|ring].
Qed.

Lemma unscale_right :
  inject_Z (V * (10 ^ a * 2 ^ (- (cp_e c + e + 64))) * (power_den c * 2 ^ 64)) ==
    inject_Z V * 10 ^ (- cp_k c + a - b) * K.
Proof.
  subst K. rewrite !inject_Z_mult, inject_pow10, !inject_pow2 by lia.
  transitivity (inject_Z V * inject_Z (power_den c) * 10 ^ a * (2 ^ (- (cp_e c + e + 64)) * 2 ^ 64)); [ring|].
  rewrite <- pow2_add. replace (- (cp_e c + e + 64) + 64)%Z with (- cp_e c - e)%Z by lia.
  transitivity (inject_Z V * inject_Z (power_den c) * (10 ^ (- cp_k c + a - b) * 10 ^ (cp_k c + b)) * 2 ^ (- cp_e c - e)); [|ring].
  rewrite <- pow10_add. by replace (- cp_k c + a - b + (cp_k c + b))%Z with a by lia.
Qed.

Lemma scale_factor_pos : 0 < K.
Proof.
  subst K. pose proof (power_den_pos c). pose proof (pow10_pos (cp_k c + b)). pose proof (pow2_pos (- cp_e c - e)).
  apply Qmult_lt_0_compat; [by apply Qmult_lt_0_compat|done].
Qed.

Lemma unscale_lt :
  (A * power_num c * 10 ^ b < V * (10 ^ a * 2 ^ (- (cp_e c + e + 64))) * (power_den c * 2 ^ 64))%Z →
  inject_Z A * 2 ^ e < inject_Z V * 10 ^ (- cp_k c + a - b).
Proof.
  intros H%inject_lt. rewrite unscale_left, unscale_right in H. apply (Qmult_lt_r _ _ K); [apply scale_factor_pos|done].
Qed.

Lemma unscale_gt :
  (V * (10 ^ a * 2 ^ (- (cp_e c + e + 64))) * (power_den c * 2 ^ 64) < A * power_num c * 10 ^ b)%Z →
  inject_Z V * 10 ^ (- cp_k c + a - b) < inject_Z A * 2 ^ e.
Proof.
  intros H%inject_lt. rewrite unscale_left, unscale_right in H. apply (Qmult_lt_r _ _ K); [apply scale_factor_pos|done].
Qed.
End Unscale.

(** The boundaries as rationals. *)
Lemma plus_f_bound value s : (1 ≤ s)%Z → inject_Z (plus_f value s) * 2 ^ (exponent value - s) == upper_bound value.
Proof.
  intros Hs. unfold plus_f, upper_bound. rewrite inject_Z_mult, inject_pow2, <- Qmult_assoc, <- pow2_add by lia.
  by replace (s - 1 + (exponent value - s))%Z with (exponent value - 1)%Z by lia.
Qed.

Lemma minus_f_bound value s : (2 ≤ s)%Z → inject_Z (minus_f value s) * 2 ^ (exponent value - s) == lower_bound value.
Proof.
  intros Hs. unfold minus_f, lower_bound. destruct (closer_below value);
    rewrite inject_Z_mult, inject_pow2, <- Qmult_assoc, <- pow2_add by lia.
  - by replace (s - 2 + (exponent value - s))%Z with (exponent value - 2)%Z by lia.
  - by replace (s - 1 + (exponent value - s))%Z with (exponent value - 1)%Z by lia.
Qed.

(** What [grisu2] leaves in the buffer after [pre]. *)
Record shortest (value : Z) (ds : bytes) (dexp : Z) : Prop := mkShortest {
  sh_proper : proper ds;
  sh_length : (zlen ds ≤ 17)%Z;
  sh_exponent : (-400 ≤ dexp ≤ 400)%Z;
  sh_low : lower_bound value < inject_Z (digits_val ds) * 10 ^ dexp;
  sh_high : inject_Z (digits_val ds) * 10 ^ dexp < upper_bound value;
}.

#[local] Open Scope Z_scope.

(** The number of digits and the width of the interval bound the exponent. *)
Lemma exponent_range one delta top ds a b :
  2 ^ 32 ≤ one ≤ 2 ^ 60 → 0 < delta → delta < top < 2 ^ 64 → generated one delta top ds a b → -36 ≤ a - b ≤ 20.
Proof.
  intros Hone Hd Ht [Hp Hl Ha Hb Hv]. pose proof (proper_pos ds Hp) as Hpos.
  assert (HV : digits_val ds < 10 ^ 17).
  { eapply Z.lt_le_trans; [apply digits_val_bound, Hp|]. apply Z.pow_le_mono_r; lia. }
  pose proof (Z.pow_pos_nonneg 10 a ltac:(lia) Ha) as Hpa. pose proof (Z.pow_pos_nonneg 10 b ltac:(lia) Hb) as Hpb.
  split.
  - destruct (decide (b - a ≤ 36)) as [|Hgt]; [lia|exfalso].
    assert (H37 : 10 ^ 37 * 10 ^ a ≤ 10 ^ b) by (rewrite <- Z.pow_add_r by lia; apply Z.pow_le_mono_r; lia).
    assert (1 * 10 ^ b ≤ (top - delta) * 10 ^ b) by (apply Z.mul_le_mono_nonneg_r; lia).
    assert (digits_val ds * (10 ^ a * one) ≤ 10 ^ 17 * (10 ^ a * 2 ^ 60)).
    { apply Z.mul_le_mono_nonneg; [lia|lia|lia|]. apply Z.mul_le_mono_nonneg_l; lia. }
    lia.
  - destruct (decide (a - b ≤ 20)) as [|Hgt]; [lia|exfalso].
    assert (H21 : 10 ^ 21 * 10 ^ b ≤ 10 ^ a) by (rewrite <- Z.pow_add_r by lia; apply Z.pow_le_mono_r; lia).
    assert (1 * (10 ^ a * 1) ≤ digits_val ds * (10 ^ a * one)).
    { apply Z.mul_le_mono_nonneg; [lia|lia|lia|]. apply Z.mul_le_mono_nonneg_l; lia. }
    assert (top * 10 ^ b ≤ 2 ^ 64 * 10 ^ b) by (apply Z.mul_le_mono_nonneg_r; lia). lia.
Qed.

(** Chaining the scaled boundaries with the generated number. *)
Lemma chain_low A M V t D : 0 < t → 0 < D → A < M * D → M * t ≤ V → A * t < V * D.
Proof.
  intros Ht HD HA HV. apply Z.lt_le_trans with (M * D * t); [by apply Z.mul_lt_mono_pos_r|].
  replace (M * D * t) with (M * t * D) by ring. apply Z.mul_le_mono_nonneg_r; lia.
Qed.

Lemma chain_high A M V t D : 0 < t → 0 < D → M * D < A → V ≤ M * t → V * D < A * t.
Proof.
  intros Ht HD HA HV. apply Z.le_lt_trans with (M * D * t); [|by apply Z.mul_lt_mono_pos_r].
  replace (M * D * t) with (M * t * D) by ring. apply Z.mul_le_mono_nonneg_r; lia.
Qed.

Lemma grisu2_spec (pre post : bytes) (value : Z) :
  0 < value < INFINITY → (17 ≤ length post)%nat →
  ∃ ds post' dexp, (length ds + length post' = length post)%nat ∧ shortest value ds dexp ∧
    grisu2 (pre ++ post) (length pre) 0 value = Some (pre ++ ds ++ post', length ds, dexp).
Proof.
  intros Hv Hlen. destruct (positive_facts value Hv) as [Hfin Hpos].
  destruct (compute_boundaries_spec value Hv) as (s & Hs & Hsr & Eb).
  destruct (significands_ordered value s Hv Hs Hsr) as (Hm & Hmv & Hvp). set (e := exponent value - s) in *.
  destruct (double_parts value) as (_ & _ & He & _); [lia|].
  destruct (cached_power_spec e) as (c & Ec & Hce & Hc); [subst e; lia|].
  assert (H9 : 2 ^ 9 ≤ 2 ^ (s - 2)) by (apply Z.pow_le_mono_r; lia).
  assert (H10 : 2 ^ 10 ≤ 2 ^ (s - 1)) by (apply Z.pow_le_mono_r; lia).
  pose proof (interval_width value s Hv ltac:(lia)) as Hw.
  destruct (scale_spec c (minus_f value s) (significand value * 2 ^ s) (plus_f value s) Hc)
    as [H1 H2 H3 H4 H5 H6 H7]; try lia.
  set (Mm := scale (cp_f c) (minus_f value s) + 1) in *. set (W := scale (cp_f c) (significand value * 2 ^ s)) in *.
  set (Mp := scale (cp_f c) (plus_f value s) - 1) in *.
  destruct (grisu2_digit_gen_spec pre post (- cp_k c) (cp_e c + e + 64) Mm W Mp)
    as (ds & post' & a & b & Hl & Hg & E); try lia.
  exists ds, post', (- cp_k c + a - b). split; [done|]. unfold cached_ok in Hc. bool_facts. split.
  - assert (H32 : 2 ^ 32 ≤ 2 ^ (- (cp_e c + e + 64)) ≤ 2 ^ 60) by (split; apply Z.pow_le_mono_r; lia).
    pose proof (exponent_range _ (Mp - Mm) Mp _ _ _ H32 ltac:(lia) ltac:(lia) Hg) as Hab. destruct Hg as [Hp Hn Ha Hb Hval].
    pose proof (Z.pow_pos_nonneg 10 b ltac:(lia) Hb) as Hpb.
    assert (HD : 0 < power_den c * 2 ^ 64) by (apply Z.mul_pos_pos; [apply Z.mul_pos_pos; lia|lia]).
    constructor; [done|done|lia|..].
    + rewrite <- (minus_f_bound value s) by lia. fold e. apply unscale_lt; [done|done|lia|]. apply (chain_low _ Mm); lia || done.
    + rewrite <- (plus_f_bound value s) by lia. fold e. apply unscale_gt; [done|done|lia|]. apply (chain_high _ Mp); lia || done.
  - unfold grisu2. rewrite Hfin, Hpos. cbn [JSON_ASSERT mbind option_bind]. rewrite Eb.
    cbn [mbind option_bind bd_minus bd_w bd_plus]. unfold grisu2_diyfp. cbn [dp_e]. rewrite Z.eqb_refl, Ec.
    cbn [JSON_ASSERT mbind option_bind]. rewrite !mul_spec by (unfold word; cbn [dp_f]; lia). cbn [dp_f dp_e].
    fold (scale (cp_f c) (minus_f value s)) (scale (cp_f c) (plus_f value s)) (scale (cp_f c) (significand value * 2 ^ s)).
    fold Mm Mp W. rewrite !u64_small by lia. replace (e + cp_e c + 64) with (cp_e c + e + 64) by lia. exact E.
Qed.

(** ** Writing into the buffer *)

Lemma memset_over a x b c : memset (length a) c (length x) (a ++ x ++ b) = Some (a ++ replicate (length x) c ++ b).
Proof.
  unfold memset. rewrite bool_decide_eq_true_2 by (rewrite !length_app; lia).
  rewrite take_app_length. do 3 f_equal. rewrite app_assoc, drop_app_exact by (rewrite length_app; lia). done.
Qed.

Lemma memmove_right pre ds post g :
  (g ≤ length post)%nat →
  ∃ junk post', length junk = g ∧ (length post = g + length post')%nat ∧
    memmove (length pre + g) (length pre) (length ds) (pre ++ ds ++ post) = Some (pre ++ junk ++ ds ++ post').
Proof.
  intros Hg. exists (take g (ds ++ post)), (drop g post).
  rewrite length_take, length_app, length_drop. split_and!; [lia|lia|].
  unfold memmove. rewrite bool_decide_eq_true_2 by (rewrite !length_app; lia). f_equal.
  rewrite take_app_add, drop_app_length, take_app_length, <- !app_assoc. do 3 f_equal.
  rewrite <- Nat.add_assoc, drop_app_add. rewrite Nat.add_comm, drop_app_add. done.
Qed.

Lemma store_all_over cs a x b :
  length x = length cs → store_all (length a) cs (a ++ x ++ b) = Some (a ++ cs ++ b, (length a + length cs)%nat).
Proof.
  revert a x. induction cs as [|c cs IH]; intros a [|y x] Hl; try done; simpl.
  - by rewrite Nat.add_0_r.
  - injection Hl as Hl. rewrite store_here. cbn [mbind option_bind].
    replace (S (length a)) with (length (a ++ [c])) by (rewrite length_app; simpl; lia).
    replace (a ++ c :: x ++ b) with ((a ++ [c]) ++ x ++ b) by (by rewrite <- app_assoc).
    rewrite IH by done. rewrite length_app, <- app_assoc. simpl. do 2 f_equal. lia.
Qed.

(** The first [n] characters of a buffer that is long enough. *)
Lemma split_at {A} (l : list A) n : (n ≤ length l)%nat → ∃ x y, l = x ++ y ∧ length x = n.
Proof. intros Hn. exists (take n l), (drop n l). split; [by rewrite take_drop|rewrite length_take; lia]. Qed.

(** ** Numbers of the JSON grammar *)

(** The text of a number with a fraction or an exponent, without sign. *)
Definition number_text (int frac ex : bytes) : bytes :=
  int ++ (match frac with [] => [] | _ => "."%char :: frac end) ++ ex.

Record float_number (int frac ex : bytes) : Prop := mkFloatNumber {
  fn_int : all_digits int;
  fn_lead : int = ["0"%char] ∨ int ≠ [] ∧ led int;
  fn_frac : all_digits frac;
  fn_ex : ex = [] ∨ ∃ sign ds, ex = "e"%char :: sign :: ds ∧ (sign = "+"%char ∨ sign = "-"%char) ∧ ds ≠ [] ∧ all_digits ds;
  fn_float : frac ≠ [] ∨ ex ≠ [];
}.

Lemma decimal_val_number int frac ex :
  float_number int frac ex →
  decimal_val (number_text int frac ex) = (digits_val (int ++ frac), exponent_val ex - zlen frac).
Proof.
  intros [Hi _ Hf He Hfl]. unfold decimal_val, number_text.
  assert (Hex : match ex with c :: _ => is_digit c = false | [] => True end).
  { destruct He as [->|(? & ? & -> & _)]; done. }
  rewrite span_digits_app; [|done|by destruct frac].
  destruct frac as [|c frac].
  - rewrite app_nil_r. simpl. destruct He as [->|(sign & ds & -> & _)]; [by destruct Hfl|].
    simpl. rewrite Z.sub_0_r. done.
  - rewrite <- app_comm_cons. change (byte_val "." =? 0x2E) with true. cbv iota.
    by rewrite (span_digits_app (c :: frac) ex).
Qed.

(** [append_exponent] writes a sign and at least two digits. *)
Lemma append_exponent_spec e a x :
  -1000 < e < 1000 → (4 ≤ length x)%nat →
  ∃ sign ds y, (sign = "+"%char ∨ sign = "-"%char) ∧ ds ≠ [] ∧ all_digits ds ∧ (length ds ≤ 3)%nat ∧
    exponent_val ("e"%char :: sign :: ds) = e ∧
    append_exponent (a ++ x) (length a) e = Some (a ++ (sign :: ds) ++ y, (length a + S (length ds))%nat).
Proof.
  intros He Hx. unfold append_exponent.
  rewrite (proj2 (Z.ltb_lt (-1000) e)), (proj2 (Z.ltb_lt e 1000)) by lia. cbn [JSON_ASSERT mbind option_bind].
  set (sign := if e <? 0 then "-"%char else "+"%char).
  assert (E : (if e <? 0 then (- e, "-"%char) else (e, "+"%char)) = (Z.abs e, sign)).
  { subst sign. case_bool; bool_facts; f_equal; lia. }
  rewrite E. rewrite u32_small by lia. set (k := Z.abs e).
  set (ds := if k <? 10 then _ else _).
  assert (Hds : ds ≠ [] ∧ all_digits ds ∧ (length ds ≤ 3)%nat ∧ digits_val ds = k).
  { assert (Hk : 0 ≤ k < 1000) by lia. clearbody k. subst ds. unfold all_digits, digits_val.
    repeat case_bool; bool_facts; (split; [done|]); cbn [fold_left length];
      repeat match goal with |- context [digit_char ?d] =>
        let H1 := fresh in let H2 := fresh in
        destruct (digit_char_spec d ltac:(euclid)) as (H1 & H2 & _);
        rewrite ?H2; generalize dependent (digit_char d); intros end;
      (split; [repeat constructor; done|]); (split; [lia|]); try change (digit_val "0") with 0; euclid. }
  destruct Hds as (Hne & Had & Hl & Hval). clearbody ds.
  destruct (split_at x (S (length ds))) as (x1 & y & -> & Hx1); [lia|].
  exists sign, ds, y. split_and!; try done.
  - subst sign. case_bool; auto.
  - cbn [exponent_val]. rewrite Hval. subst sign k. destruct (e <? 0) eqn:En; bool_facts.
    + change (byte_val "-" =? 0x2D) with true. cbv iota. lia.
    + change (byte_val "+" =? 0x2D) with false. change (byte_val "+" =? 0x2B) with true. cbv iota. lia.
  - by rewrite (store_all_over (sign :: ds)).
Qed.

(** ** format_buffer *)

(** The buffer holds, after [pre], a number text that stands for
    [digits_val ds * 10 ^ dexp]. *)
Definition formatted (pre ds : bytes) (dexp : Z) (result : option (bytes * nat)) : Prop :=
  ∃ int frac ex z post,
    float_number int frac ex ∧ 0 ≤ z ∧ digits_val (int ++ frac) = digits_val ds * 10 ^ z ∧
    exponent_val ex - zlen frac = dexp - z ∧ (length (number_text int frac ex) ≤ 24)%nat ∧
    result = Some (pre ++ number_text int frac ex ++ post, (length pre + length (number_text int frac ex))%nat).

Section Format.
Context (pre ds post : bytes) (dexp : Z).
Hypothesis (Hp : proper ds) (Hlen : (length ds ≤ 17)%nat) (Hroom : (40 ≤ length ds + length post)%nat).

Lemma ds_led : ds ≠ [] ∧ led ds.
Proof. destruct Hp as [_ Hl _]. by destruct ds. Qed.

(** [digits[000].0] *)
Lemma format_integral n :
  (length ds ≤ n ≤ 15)%nat → dexp = Z.of_nat n - Z.of_nat (length ds) →
  formatted pre ds dexp
    (buf ← memset (length pre + length ds) "0"%char (n - length ds) (pre ++ ds ++ post);
     buf ← store (length pre + n) "."%char buf;
     buf ← store (length pre + n + 1) "0"%char buf;
     Some (buf, (length pre + n + 2)%nat)).
Proof.
  intros Hn Hd. destruct ds_led as [Hne Hled]. set (z := (n - length ds)%nat).
  destruct (split_at post z) as (x & post1 & Epost & Hx); [lia|].
  assert (Hpost : length post = (z + length post1)%nat) by (rewrite Epost, length_app; lia).
  set (int := ds ++ replicate z "0"%char).
  assert (Hint : length int = n) by (unfold int; rewrite length_app, length_replicate; lia).
  assert (Em : memset (length pre + length ds) "0"%char z (pre ++ ds ++ post) = Some (pre ++ int ++ post1)).
  { rewrite Epost, !app_assoc, <- length_app, <- Hx, <- app_assoc, memset_over. unfold int. by rewrite Hx, !app_assoc. }
  rewrite Em. cbn [mbind option_bind]. rewrite <- Hint.
  destruct (store_digit pre int post1 "."%char) as (post2 & -> & E2); [lia|]. cbn [mbind option_bind].
  destruct (store_digit pre (int ++ ["."%char]) post2 "0"%char) as (post3 & E & E3); [lia|].
  rewrite length_app, Nat.add_assoc in E. simpl in E. rewrite E. cbn [mbind option_bind].
  exists int, ["0"%char], [], (Z.of_nat z + 1), post3. unfold number_text. split_and!.
  - constructor; [|right|by repeat constructor|by left|by left].
    + apply Forall_app. split; [apply Hp|]. by apply Forall_replicate.
    + unfold int. split; by destruct ds.
  - lia.
  - unfold int. rewrite <- app_assoc, <- (replicate_S_end z "0"%char). rewrite digits_val_zeros. f_equal. f_equal. lia.
  - simpl. autorewrite with zlen. lia.
  - rewrite !length_app. simpl. lia.
  - rewrite !length_app, <- !app_assoc. simpl. do 2 f_equal. lia.
Qed.

(** [dig.its] *)
Lemma format_point n :
  (0 < n < length ds)%nat → dexp = Z.of_nat n - Z.of_nat (length ds) →
  formatted pre ds dexp
    (buf ← memmove (length pre + n + 1) (length pre + n) (length ds - n) (pre ++ ds ++ post);
     buf ← store (length pre + n) "."%char buf;
     Some (buf, (length pre + length ds + 1)%nat)).
Proof.
  intros Hn Hd. destruct (split_at ds n) as (int & frac & Eds & Hi); [lia|].
  assert (Hf : length ds = (n + length frac)%nat) by (rewrite Eds, length_app; lia).
  destruct (memmove_right (pre ++ int) frac post 1) as (junk & post1 & Hj & Hpo & Em); [lia|].
  rewrite length_app, Hi in Em. replace (length ds - n)%nat with (length frac) by lia.
  assert (Ebuf : pre ++ ds ++ post = (pre ++ int) ++ frac ++ post) by (rewrite Eds, <- !app_assoc; done).
  rewrite Ebuf, Em. cbn [mbind option_bind]. destruct junk as [|x [|]]; try done.
  replace (length pre + n)%nat with (length (pre ++ int)) by (rewrite length_app; lia).
  simpl ([x] ++ _). rewrite store_here. cbn [mbind option_bind].
  destruct ds_led as [Hne Hled]. pose proof (pr_digits _ Hp) as Ha. rewrite Eds in Ha, Hled.
  apply Forall_app in Ha as [Hai Haf]. destruct frac as [|c frac]; [simpl in Hf; lia|].
  exists int, (c :: frac), [], 0, post1. unfold number_text. rewrite <- Eds. split_and!.
  - constructor; [done| |done|by left|by left]. right. destruct int; [simpl in Hi; lia|]. done.
  - done.
  - lia.
  - change (exponent_val []) with 0. unfold zlen. lia.
  - rewrite !length_app. simpl in *. lia.
  - rewrite !length_app, <- !app_assoc. simpl in *. do 2 f_equal. lia.
Qed.

(** [0.[000]digits] *)
Lemma format_small zeros :
  (zeros ≤ 3)%nat → dexp = - Z.of_nat zeros - Z.of_nat (length ds) →
  formatted pre ds dexp
    (buf ← memmove (length pre + 2 + zeros) (length pre) (length ds) (pre ++ ds ++ post);
     buf ← store (length pre) "0"%char buf;
     buf ← store (length pre + 1) "."%char buf;
     buf ← memset (length pre + 2) "0"%char zeros buf;
     Some (buf, (length pre + 2 + zeros + length ds)%nat)).
Proof.
  intros Hz Hd. destruct (memmove_right pre ds post (2 + zeros)) as (junk & post1 & Hj & Hpo & Em); [lia|].
  replace (length pre + 2 + zeros)%nat with (length pre + (2 + zeros))%nat by lia. rewrite Em. cbn [mbind option_bind]. destruct junk as [|x [|y junk]]; try (simpl in Hj; lia).
  injection Hj as Hj. simpl ((x :: _) ++ _). rewrite store_here. cbn [mbind option_bind].
  replace (pre ++ "0"%char :: y :: junk ++ ds ++ post1) with ((pre ++ ["0"%char]) ++ y :: junk ++ ds ++ post1) by (by rewrite <- app_assoc).
  replace (length pre + 1)%nat with (length (pre ++ ["0"%char])) by (rewrite length_app; simpl; lia).
  rewrite store_here. cbn [mbind option_bind].
  replace ((pre ++ ["0"%char]) ++ "."%char :: junk ++ ds ++ post1) with ((pre ++ ["0"%char; "."%char]) ++ junk ++ ds ++ post1)
    by (by rewrite <- !app_assoc).
  replace (length pre + 2)%nat with (length (pre ++ ["0"%char; "."%char])) by (rewrite length_app; simpl; lia).
  rewrite <- Hj, memset_over. cbn [mbind option_bind]. destruct ds_led as [Hne _].
  exists ["0"%char], (replicate (length junk) "0"%char ++ ds), [], 0, post1. unfold number_text.
  assert (Hfrac : replicate (length junk) "0"%char ++ ds ≠ []) by (intros [_ ?]%app_eq_nil; done).
  assert (Em' : match replicate (length junk) "0"%char ++ ds with [] => [] | _ => "."%char :: replicate (length junk) "0"%char ++ ds end
    = "."%char :: replicate (length junk) "0"%char ++ ds) by (by destruct (replicate _ _ ++ ds)).
  rewrite Em'. split_and!.
  - constructor; [by repeat constructor|by left| |by left|by left].
    apply Forall_app. split; [by apply Forall_replicate|apply Hp].
  - done.
  - rewrite app_assoc, digits_val_concat, digits_val_zeros. change (digits_val ["0"%char]) with 0. lia.
  - change (exponent_val []) with 0. autorewrite with zlen. unfold zlen. rewrite length_replicate. lia.
  - rewrite !length_app. simpl. rewrite length_app, length_replicate. simpl. lia.
  - rewrite <- !app_assoc. simpl. rewrite !length_app, length_replicate, <- !app_assoc. simpl. do 2 f_equal. lia.
Qed.

(** [d] or [d.igits], before the exponent *)
Lemma format_mantissa :
  ∃ c rest post1, ds = c :: rest ∧ (6 ≤ length post1)%nat ∧
    (if bool_decide (length ds = 1%nat) then Some (pre ++ ds ++ post, (length pre + 1)%nat)
     else
       buf ← memmove (length pre + 2) (length pre + 1) (length ds - 1) (pre ++ ds ++ post);
       buf ← store (length pre + 1) "."%char buf;
       Some (buf, (length pre + 1 + length ds)%nat)) =
    Some (pre ++ number_text [c] rest [] ++ post1, (length pre + length (number_text [c] rest []))%nat).
Proof.
  destruct ds_led as [Hne _]. destruct ds as [|c rest] eqn:Eds; [done|]. exists c, rest. case_bool; bool_facts.
  - destruct rest; [|done]. exists post. split_and!; [done|simpl in *; lia|done].
  - destruct (memmove_right (pre ++ [c]) rest post 1) as (junk & post1 & Hj & Hpo & Em); [simpl in *; lia|].
    destruct junk as [|x [|]]; try done. destruct rest as [|d rest]; [done|].
    exists post1. split; [done|]. split; [simpl in *; lia|].
    rewrite length_app in Em. simpl (length [c]) in Em. rewrite <- Nat.add_assoc in Em. simpl (1 + 1)%nat in Em.
    replace (length (c :: d :: rest) - 1)%nat with (length (d :: rest)) by (simpl; lia).
    replace (pre ++ (c :: d :: rest) ++ post) with ((pre ++ [c]) ++ (d :: rest) ++ post) by (by rewrite <- app_assoc).
    rewrite Em. cbn [mbind option_bind].
    replace (length pre + 1)%nat with (length (pre ++ [c])) by (rewrite length_app; simpl; lia).
    simpl ([x] ++ _). rewrite store_here. cbn [mbind option_bind]. unfold number_text.
    rewrite app_nil_r, <- !app_assoc, !length_app. simpl. do 2 f_equal. lia.
Qed.

(** [d.igitsE+123] *)
Lemma format_exponent e :
  -1000 < e < 1000 → dexp = e + 1 - Z.of_nat (length ds) →
  formatted pre ds dexp
    ('(buf, i) ←
      (if bool_decide (length ds = 1%nat) then Some (pre ++ ds ++ post, (length pre + 1)%nat)
       else
         buf ← memmove (length pre + 2) (length pre + 1) (length ds - 1) (pre ++ ds ++ post);
         buf ← store (length pre + 1) "."%char buf;
         Some (buf, (length pre + 1 + length ds)%nat));
     buf ← store i "e"%char buf;
     append_exponent buf (S i) e).
Proof.
  intros He Hd. destruct ds_led as [_ Hled]. destruct format_mantissa as (c & rest & post1 & Eds & Hpo & ->).
  cbn [mbind option_bind].
  destruct (store_digit pre (number_text [c] rest []) post1 "e"%char) as (post2 & -> & E2); [lia|]. cbn [mbind option_bind].
  rewrite Eds in Hlen, Hd. simpl length in Hlen, Hd. set (mant := number_text [c] rest []).
  assert (Et : ∀ ex, number_text [c] rest ex = mant ++ ex).
  { intros ex. subst mant. unfold number_text. by rewrite app_nil_r, <- app_assoc. }
  assert (Hm : (length mant ≤ 19)%nat).
  { subst mant. unfold number_text. rewrite !length_app. destruct rest; simpl in *; lia. }
  clearbody mant.
  replace (S (length pre + length mant)) with (length (pre ++ mant ++ ["e"%char])) by (rewrite !length_app; simpl; lia).
  rewrite (app_assoc pre). destruct (append_exponent_spec e (pre ++ mant ++ ["e"%char]) post2)
    as (sign & eds & y & Hsign & Hne & Had & Hl & Hev & ->); [done|lia|].
  pose proof (pr_digits _ Hp) as Ha. rewrite Eds in Ha, Hled. apply Forall_cons in Ha as [Hc Hrest].
  exists [c], rest, ("e"%char :: sign :: eds), 0, y. rewrite Et. split_and!.
  - constructor; [by constructor|by right|done| |by right]. right. by exists sign, eds.
  - done.
  - rewrite Eds. simpl ([c] ++ rest). lia.
  - rewrite Hev. unfold zlen. lia.
  - rewrite length_app. simpl. lia.
  - rewrite !length_app, <- !app_assoc. simpl. do 2 f_equal. lia.
Qed.
End Format.

Lemma format_buffer_spec pre ds post dexp :
  proper ds → (length ds ≤ 17)%nat → (40 ≤ length ds + length post)%nat → -400 ≤ dexp ≤ 400 →
  formatted pre ds dexp (format_buffer (pre ++ ds ++ post) (length pre) (length ds) dexp (-4) digits10).
Proof.
  intros Hp Hlen Hroom Hd. unfold format_buffer, digits10. cbn [JSON_ASSERT mbind option_bind Z.ltb Z.compare].
  case_bool; bool_facts; [apply format_integral; try done; lia|].
  case_bool; bool_facts.
  - assert (Hlt : Z.of_nat (length ds) + dexp < Z.of_nat (length ds)).
    { apply andb_false_iff in E as [E|E]; bool_facts; lia. }
    rewrite (proj2 (Z.ltb_lt _ _)) by lia. cbn [JSON_ASSERT mbind option_bind].
    replace (length pre + Z.to_nat (Z.of_nat (length ds) + dexp) + 1)%nat
      with (length pre + Z.to_nat (Z.of_nat (length ds) + dexp) + 1)%nat by lia.
    apply format_point; try done; lia.
  - case_bool; bool_facts.
    + apply format_small; try done; lia.
    + apply format_exponent; try done; lia.
Qed.

(** ** to_chars *)

(** The two signs of a finite double. *)
Lemma lxor_sign r : 0 ≤ r < 2 ^ 63 → Z.lxor r (Z.shiftl 1 63) = r + 2 ^ 63.
Proof.
  intros Hr. change (Z.shiftl 1 63) with (2 ^ 63). symmetry. apply Z.add_nocarry_lxor.
  apply Z.bits_inj'. intros i Hi. rewrite Z.land_spec, Z.pow2_bits_eqb, Z.bits_0 by lia.
  destruct (decide (i = 63)) as [->|Hne]; [|by rewrite (proj2 (Z.eqb_neq 63 i)), andb_false_r by lia].
  rewrite Z.testbit_eqb by lia. by rewrite Z.div_small by lia.
Qed.

Lemma finite_cases value :
  double_ok value →
  (signbit value = false ∧ 0 ≤ value < INFINITY) ∨
  (signbit value = true ∧ ∃ r, 0 ≤ r < INFINITY ∧ negate value = r ∧ negate r = value).
Proof.
  intros [Hr Hf]. unfold isfinite in Hf. change 0x7FF with (Z.ones 11) in Hf.
  rewrite Z.shiftr_div_pow2, Z.land_ones in Hf by lia. bool_facts. change (Z.ones 11) with 2047 in Hf.
  rewrite INFINITY_val. unfold signbit. rewrite Z.testbit_eqb by lia.
  destruct (decide (value < 2 ^ 63)) as [Hlt|Hge].
  - left. rewrite Z.div_small by lia. split; [done|]. rewrite Z.mod_small in Hf by euclid. euclid.
  - right. split; [apply Z.eqb_eq; euclid|]. exists (value - 2 ^ 63).
    assert (Hx : Z.lxor (value - 2 ^ 63) (Z.shiftl 1 63) = value) by (rewrite lxor_sign by lia; lia).
    split; [euclid|]. unfold negate. split; [|done]. rewrite <- Hx at 1. by rewrite Z.lxor_assoc, Z.lxor_nilpotent, Z.lxor_0_r.
Qed.

Lemma is_zero_nonneg value : 0 ≤ value < INFINITY → is_zero value = (value =? 0).
Proof.
  rewrite INFINITY_val. intros Hv. unfold is_zero. rewrite Z.land_ones by lia. by rewrite Z.mod_small by lia.
Qed.

Lemma number_text_plus int frac ex :
  float_number int frac ex → match number_text int frac ex with c :: _ => byte_val c ≠ 0x2D | [] => True end.
Proof.
  intros [Ha Hl _ _ _]. unfold number_text. destruct int as [|c int]; [by destruct Hl as [|[]]|]. simpl.
  apply Forall_cons in Ha as [Hc _]. unfold is_digit in Hc. bool_facts. lia.
Qed.

Lemma strtod_shortest value ds dexp int frac ex z :
  0 < value < INFINITY → shortest value ds dexp → float_number int frac ex → 0 ≤ z →
  digits_val (int ++ frac) = digits_val ds * 10 ^ z → exponent_val ex - zlen frac = dexp - z →
  strtod (number_text int frac ex) = value.
Proof.
  intros Hv [Hp _ _ Hlo Hhi] Hn Hz Hd He. pose proof (proper_pos ds Hp) as Hpos.
  assert (E : (inject_Z (digits_val ds * 10 ^ z) * 10 ^ (dexp - z) == inject_Z (digits_val ds) * 10 ^ dexp)%Q).
  { rewrite inject_Z_mult, inject_pow10, <- Qmult_assoc, <- pow10_add by done.
    by replace (z + (dexp - z)) with dexp by lia. }
  eapply strtod_interval; [by apply number_text_plus|by apply decimal_val_number|..]; rewrite ?Hd, ?He, ?E; try done.
  apply Z.mul_pos_pos; lia.
Qed.

(** A text that the lexer takes for a floating-point number. *)
Definition float_text (text : bytes) : Prop :=
  ∃ int frac ex, float_number int frac ex ∧
    (text = number_text int frac ex ∨ text = "-"%char :: number_text int frac ex).

Lemma positive_chars_spec pre post value :
  0 ≤ value < INFINITY → (40 ≤ length post)%nat →
  ∃ int frac ex post', float_number int frac ex ∧ strtod (number_text int frac ex) = value ∧
    (length (number_text int frac ex) ≤ 24)%nat ∧
    positive_chars (pre ++ post) (length pre) value =
      Some (pre ++ number_text int frac ex ++ post', (length pre + length (number_text int frac ex))%nat).
Proof.
  intros Hv Hlen. unfold positive_chars. rewrite is_zero_nonneg by done. case_bool; bool_facts.
  - destruct (split_at post 3) as (x & y & -> & Hx); [lia|]. exists ["0"%char], ["0"%char], [], y. split_and!.
    + constructor; [by repeat constructor|by left|by repeat constructor|by left|by left].
    + subst. by vm_compute.
    + simpl. lia.
    + by rewrite store_all_over.
  - destruct (grisu2_spec pre post value) as (ds & post' & dexp & Hl & Hs & ->); [lia|lia|].
    pose proof (sh_length _ _ _ Hs) as Hn. unfold zlen in Hn.
    rewrite bool_decide_eq_true_2 by (rewrite length_app; unfold max_digits10; lia). cbn [JSON_ASSERT mbind option_bind].
    rewrite bool_decide_eq_true_2 by (unfold max_digits10; lia). rewrite !length_app.
    rewrite !(proj2 (Z.leb_le _ _)) by (unfold max_digits10, digits10; lia). cbn [JSON_ASSERT mbind option_bind].
    destruct (format_buffer_spec pre ds post' dexp) as (int & frac & ex & z & post2 & Hf & Hz & Hd & He & Hl2 & ->);
      [apply Hs|lia|lia|apply Hs|].
    exists int, frac, ex, post2. split_and!; [done| |done|done]. apply (strtod_shortest value ds dexp int frac ex z); done || lia.
Qed.

Lemma to_chars_spec buf value :
  double_ok value → length buf = 64%nat →
  ∃ text post, float_text text ∧ strtod text = value ∧ (length text ≤ 25)%nat ∧
    to_chars buf value = Some (text ++ post, length text).
Proof.
  intros Hok Hlen. unfold to_chars. rewrite (proj2 Hok). cbn [JSON_ASSERT mbind option_bind].
  destruct (finite_cases value Hok) as [[-> Hv]|[-> (r & Hr & Hn & Hnn)]].
  - destruct (positive_chars_spec [] buf value) as (int & frac & ex & post & Hf & Hs & Hl & E); [done|lia|].
    exists (number_text int frac ex), post. split_and!; [|done|lia|exact E]. exists int, frac, ex. auto.
  - destruct buf as [|x buf]; [done|].
    assert (store 0 "-"%char (x :: buf) = Some ("-"%char :: buf)) as -> by apply (store_here []). cbn [mbind option_bind]. rewrite Hn.
    destruct (positive_chars_spec ["-"%char] buf r) as (int & frac & ex & post & Hf & Hs & Hl & E); [done|simpl in *; lia|].
    exists ("-"%char :: number_text int frac ex), post. split_and!.
    + exists int, frac, ex. auto.
    + change "-"%char with (byte_of 0x2D). rewrite strtod_minus by (by apply number_text_plus). by rewrite Hs.
    + simpl. lia.
    + exact E.
Qed.

(** ** Properties *)

(** C33: Grisu2 is correct and total.  For every positive finite double, with a
    buffer of at least 17 characters, [grisu2] returns, so that none of its
    assertions fails, nothing is written outside the buffer and the loops end;
    it leaves at most 17 digits, the first and the last of which are not zero,
    and the decimal number they form with the exponent lies strictly inside
    the rounding interval of the double. *)
Theorem grisu2_correct (pre post : bytes) (value : Z) :
  0 < value < INFINITY → (17 ≤ length post)%nat →
  ∃ ds post' dexp, (length ds + length post' = length post)%nat ∧ shortest value ds dexp ∧
    grisu2 (pre ++ post) (length pre) 0 value = Some (pre ++ ds ++ post', length ds, dexp).
Proof. apply grisu2_spec. Qed.

Definition sample_pi : Z := strtod (lit "3.141592653589793").

Lemma grisu2_correct_witness :
  ∃ ds post' dexp, (length ds + length post' = 20)%nat ∧ shortest sample_pi ds dexp ∧
    grisu2 (replicate 20 CR) 0 0 sample_pi = Some (ds ++ post', length ds, dexp).
Proof.
  apply (grisu2_correct [] (replicate 20 CR) sample_pi); [split; by vm_compute|by apply (bool_decide_unpack _); vm_compute].
Defined.

(** C32: What the serializer writes for a floating-point number reads back as the
    same number.  For every finite double and whatever the 64-character number
    buffer held, [to_chars] returns, so that no write leaves the buffer, no
    assertion fails and no loop runs away; the at most 25 characters it wrote
    are a number of the JSON grammar with a fraction or an exponent, and
    [std::strtod] rounds that text to exactly the same bits, the sign of zero
    included. *)
Theorem to_chars_round_trip (buf : bytes) (value : Z) :
  double_ok value → length buf = 64%nat →
  ∃ text post, float_text text ∧ strtod text = value ∧ (length text ≤ 25)%nat ∧
    to_chars buf value = Some (text ++ post, length text).
Proof. apply to_chars_spec. Qed.

Lemma to_chars_round_trip_witness :
  ∃ text post, float_text text ∧ strtod text = negate sample_pi ∧ (length text ≤ 25)%nat ∧
    to_chars (replicate 64 CR) (negate sample_pi) = Some (text ++ post, length text).
Proof.
  apply (to_chars_round_trip (replicate 64 CR) (negate sample_pi)); [|reflexivity].
  split; [by apply (bool_decide_unpack _); vm_compute|vm_compute; reflexivity].
Defined.

(** The text of a double in the serializer's buffer. *)
Lemma dump_float_spec buf value :
  double_ok value → length buf = 64%nat →
  ∃ text, float_text text ∧ strtod text = value ∧ dump_float buf value = Some text.
Proof.
  intros Hok Hlen. destruct (to_chars_spec buf value Hok Hlen) as (text & post & Hf & Hs & _ & E).
  exists text. split_and!; [done|done|]. unfold dump_float. rewrite (proj2 Hok), E. simpl. by rewrite take_app_length.
Qed.
