(* ===== verification/Protocol.v ===== *)
(** * The wire protocol

    Models [include/protocol/*.hpp] and [src/protocol/ProtocolCodec.cpp] of the
    gateway: message types, requests, responses, the length-prefixed encoder
    and the incremental decoder.  The abstract framing specification is the
    relation [stream]; the decoder is proved to implement it, to be
    insensitive to how the byte stream is cut into reads, and to invert the
    encoder. *)

From S2P Require Import Prelude.

#[local] Open Scope Z_scope.

(** ** Data *)

(** [enum class MessageType : uint8_t].  The underlying type is fixed, so a
    cast from a wire byte can produce a value with no enumerator; those are
    the [OtherType] values. *)
Inductive MessageType :=
  | PING | ECHO | LOG_PUSH | STATS | PONG | ECHO_RESP | ERROR_RESP
  | LOG_ACK | STATS_RESP | AUTH | AUTH_RESP
  | OtherType (value : Z).

#[export] Instance MessageType_eq_dec : EqDecision MessageType.
Proof. solve_decision. Defined.

(** [static_cast<MessageType>] of a [uint8_t] and back. *)
Definition type_of_u8 (v : Z) : MessageType :=
  match v with
  | 1 => PING | 2 => ECHO | 3 => LOG_PUSH | 4 => STATS | 5 => PONG
  | 6 => ECHO_RESP | 7 => ERROR_RESP | 8 => LOG_ACK | 9 => STATS_RESP
  | 10 => AUTH | 11 => AUTH_RESP
  | _ => OtherType v
  end.

Definition u8_of_type (t : MessageType) : Z :=
  match t with
  | PING => 1 | ECHO => 2 | LOG_PUSH => 3 | STATS => 4 | PONG => 5
  | ECHO_RESP => 6 | ERROR_RESP => 7 | LOG_ACK => 8 | STATS_RESP => 9
  | AUTH => 10 | AUTH_RESP => 11
  | OtherType v => v
  end.

Record Request := mkRequest {
  rq_fd : Z;
  rq_conn_id : Z;
  rq_version : Z;
  rq_type : MessageType;
  rq_request_id : Z;
  rq_payload : bytes;
}.

Record Response := mkResponse {
  rs_fd : Z;
  rs_conn_id : Z;
  rs_version : Z;
  rs_type : MessageType;
  rs_request_id : Z;
  rs_status_code : Z;
  rs_payload : bytes;
  rs_client_id_to_authenticate : option bytes;
  rs_close_connection : bool;
  rs_skip_write : bool;
}.

#[export] Instance Request_eq_dec : EqDecision Request.
Proof. solve_decision. Defined.
#[export] Instance Response_eq_dec : EqDecision Response.
Proof. solve_decision. Defined.

#[export] Instance eta_Response : Eta Response := fun r =>
  mkResponse (rs_fd r) (rs_conn_id r) (rs_version r) (rs_type r) (rs_request_id r)
    (rs_status_code r) (rs_payload r) (rs_client_id_to_authenticate r)
    (rs_close_connection r) (rs_skip_write r).

Definition set_rs_type : MessageType → Response → Response := ltac:(setter rs_type).
Definition set_rs_payload : bytes → Response → Response := ltac:(setter rs_payload).
Definition set_rs_close_connection : bool → Response → Response :=
  ltac:(setter rs_close_connection).
Definition set_rs_client_id_to_authenticate : option bytes → Response → Response :=
  ltac:(setter rs_client_id_to_authenticate).

Inductive DecodeStatus := DecodeOK | NEED_MORE_DATA | INVALID_LENGTH.

#[export] Instance DecodeStatus_eq_dec : EqDecision DecodeStatus.
Proof. solve_decision. Defined.

Definition MAX_PAYLOAD_SIZE : Z := 4 * 1024 * 1024.
Definition FIXED_BODY_SIZE : Z := 1 + 1 + 8.
Definition MAX_BODY_SIZE : Z := u32 (MAX_PAYLOAD_SIZE + FIXED_BODY_SIZE).

(** ** ProtocolCodec::encode *)

Definition encode (response : Response) : bytes :=
  let body_length := u32 (1 + 1 + 8 + zlen (rs_payload response)) in
  be_bytes 4 body_length
    ++ be_bytes 1 (rs_version response)
    ++ be_bytes 1 (u8_of_type (rs_type response))
    ++ be_bytes 8 (rs_request_id response)
    ++ rs_payload response.

#[global] Arguments encode : simpl never.

(** ** ProtocolCodec::decode

    [slice b i n] are the [n] bytes at [b.data() + i]. *)
Definition slice (b : bytes) (i n : Z) : bytes :=
  take (Z.to_nat n) (drop (Z.to_nat i) b).

(** One complete frame at [read_index], with its declared body length. *)
Definition decode_frame (input_buffer : bytes) (fd conn_id read_index host_body_length : Z)
    : Request :=
  {| rq_fd := fd;
     rq_conn_id := conn_id;
     rq_version := be_val (slice input_buffer (read_index + 4) 1);
     rq_type := type_of_u8 (be_val (slice input_buffer (read_index + 5) 1));
     rq_request_id := be_val (slice input_buffer (read_index + 6) 8);
     rq_payload := slice input_buffer (read_index + 14) (host_body_length - FIXED_BODY_SIZE) |}.

(** The [while (true)] loop: the status it ends with, the final
    [read_index] and [out_requests]; [None] when the fuel runs out. *)
Fixpoint decode_loop (fuel : nat) (input_buffer : bytes) (fd conn_id max_body_size : Z)
    (read_index : Z) (out_requests : list Request)
    : option (DecodeStatus * Z * list Request) :=
  match fuel with
  | O => None
  | S fuel =>
    let remaining := zlen input_buffer - read_index in
    if remaining =? 0 then Some (DecodeOK, read_index, out_requests)
    else if remaining <? 4 then Some (NEED_MORE_DATA, read_index, out_requests)
    else
      let host_body_length := be_val (slice input_buffer read_index 4) in
      if (host_body_length <? FIXED_BODY_SIZE) || (host_body_length >? MAX_BODY_SIZE)
         || (host_body_length >? max_body_size)
      then Some (INVALID_LENGTH, read_index, out_requests)
      else if remaining <? u32 (4 + host_body_length)
      then Some (NEED_MORE_DATA, read_index, out_requests)
      else
        let req := decode_frame input_buffer fd conn_id read_index host_body_length in
        decode_loop fuel input_buffer fd conn_id max_body_size
          (read_index + u32 (4 + host_body_length)) (out_requests ++ [req])
  end.

(** The status, the buffer after [erase(0, read_index)] (an invalid length
    returns before the erase) and the requests appended to [out_requests].
    Every frame advances the index, so [S (length input_buffer)] iterations
    are enough ([decode_loop_stream] below); the default is never taken. *)
Definition decode (input_buffer : bytes) (fd : Z) (out_requests : list Request)
    (conn_id max_body_size : Z) : DecodeStatus * bytes * list Request :=
  match decode_loop (S (length input_buffer)) input_buffer fd conn_id max_body_size
          0 out_requests with
  | Some (INVALID_LENGTH, _, out) => (INVALID_LENGTH, input_buffer, out)
  | Some (status, read_index, out) => (status, drop (Z.to_nat read_index) input_buffer, out)
  | None => (NEED_MORE_DATA, input_buffer, out_requests)
  end.

(** ** Framing specification *)

Definition header_len (b : bytes) : Z := be_val (take 4 b).

Definition valid_len (max_body_size n : Z) : Prop :=
  FIXED_BODY_SIZE ≤ n ≤ MAX_BODY_SIZE ∧ n ≤ max_body_size.

(** [stream max b bodies rest status]: the byte string [b] is a sequence of
    complete frames with the given bodies, followed by [rest], which is
    empty, an incomplete frame, or begins with an invalid length. *)
Inductive stream (max_body_size : Z) : bytes → list bytes → bytes → DecodeStatus → Prop :=
  | stream_done : stream max_body_size [] [] [] DecodeOK
  | stream_short b :
      0 < zlen b < 4 → stream max_body_size b [] b NEED_MORE_DATA
  | stream_partial b :
      4 ≤ zlen b < 4 + header_len b → valid_len max_body_size (header_len b) →
      stream max_body_size b [] b NEED_MORE_DATA
  | stream_invalid b :
      4 ≤ zlen b → ¬ valid_len max_body_size (header_len b) →
      stream max_body_size b [] b INVALID_LENGTH
  | stream_frame header body tail bodies rest status :
      zlen header = 4 → be_val header = zlen body → valid_len max_body_size (zlen body) →
      stream max_body_size tail bodies rest status →
      stream max_body_size (header ++ body ++ tail) (body :: bodies) rest status.

(** The buffer starts with a complete valid frame. *)
Definition complete_frame (mb : Z) (b : bytes) : Prop :=
  4 ≤ zlen b ∧ valid_len mb (header_len b) ∧ 4 + header_len b ≤ zlen b.

(** The body of the frame [encode] builds: what follows the length prefix. *)
Definition body_of (r : Response) : bytes :=
  be_bytes 1 (rs_version r) ++ be_bytes 1 (u8_of_type (rs_type r))
    ++ be_bytes 8 (rs_request_id r) ++ rs_payload r.

(** The request a frame body denotes. *)
Definition request_of_body (fd conn_id : Z) (body : bytes) : Request :=
  {| rq_fd := fd;
     rq_conn_id := conn_id;
     rq_version := be_val (take 1 body);
     rq_type := type_of_u8 (be_val (take 1 (drop 1 body)));
     rq_request_id := be_val (take 8 (drop 2 body));
     rq_payload := drop 10 body |}.

(** The request whose frame is the encoding of a response: what the peer of
    the connection reads back. *)
Definition request_of_response (fd conn_id : Z) (r : Response) : Request :=
  {| rq_fd := fd; rq_conn_id := conn_id;
     rq_version := rs_version r; rq_type := rs_type r;
     rq_request_id := rs_request_id r; rq_payload := rs_payload r |}.

(** A response as the gateway builds it: fields within their widths and a
    payload the protocol can carry. *)
Definition encodable (r : Response) : Prop :=
  0 ≤ rs_version r < 2 ^ 8 ∧ 0 ≤ rs_request_id r < 2 ^ 64 ∧
  0 ≤ u8_of_type (rs_type r) < 2 ^ 8 ∧
  type_of_u8 (u8_of_type (rs_type r)) = rs_type r ∧
  zlen (rs_payload r) ≤ MAX_PAYLOAD_SIZE.

(** ** Lemmas: message types and slices *)

Lemma u8_of_type_of_u8 v : u8_of_type (type_of_u8 v) = v.
Proof. unfold type_of_u8. by repeat (case_match; try done). Qed.

Lemma slice_shift b i k n :
  0 ≤ i → 0 ≤ k → slice b (i + k) n = take (Z.to_nat n) (drop (Z.to_nat k) (drop (Z.to_nat i) b)).
Proof.
  intros. unfold slice. rewrite drop_drop. do 2 f_equal. lia.
Qed.

Lemma MAX_BODY_SIZE_val : MAX_BODY_SIZE = 4194314.
Proof. reflexivity. Qed.

(** A declared length the decoder accepts does not wrap in [4 + length]. *)
Lemma frame_len_no_wrap mb n : valid_len mb n → u32 (4 + n) = 4 + n.
Proof.
  intros [[? ?] ?]. rewrite MAX_BODY_SIZE_val in *. unfold FIXED_BODY_SIZE in *.
  apply u32_small. lia.
Qed.

Lemma valid_len_test mb n :
  ((n <? FIXED_BODY_SIZE) || (n >? MAX_BODY_SIZE) || (n >? mb)) = false ↔ valid_len mb n.
Proof.
  unfold valid_len. rewrite !orb_false_iff, Z.ltb_ge, !Z.gtb_ltb, !Z.ltb_ge. lia.
Qed.

Lemma take_drop_app3 {A} (n m : nat) (l : list A) :
  take n l ++ take m (drop n l) ++ drop (n + m) l = l.
Proof. by rewrite <- drop_drop, !take_drop. Qed.

(** The frame at [read_index] is the frame its body denotes. *)
Lemma decode_frame_body b fd cid i n :
  0 ≤ i → FIXED_BODY_SIZE ≤ n →
  decode_frame b fd cid i n =
  request_of_body fd cid (take (Z.to_nat n) (drop 4 (drop (Z.to_nat i) b))).
Proof.
  intros Hi Hn. unfold decode_frame, request_of_body, FIXED_BODY_SIZE in *.
  rewrite !slice_shift by lia. set (l := drop (Z.to_nat i) b).
  replace (Z.to_nat 4) with 4%nat by lia. replace (Z.to_nat 5) with (4 + 1)%nat by lia.
  replace (Z.to_nat 6) with (4 + 2)%nat by lia. replace (Z.to_nat 14) with (4 + 10)%nat by lia.
  rewrite <- !(drop_drop l). generalize (drop 4 l). intros m.
  f_equal.
  - rewrite take_take. by replace (1 `min` Z.to_nat n)%nat with 1%nat by lia.
  - rewrite !take_drop_commute, take_take.
    by replace ((1 + 1) `min` Z.to_nat n)%nat with (1 + Z.to_nat 1)%nat by lia.
  - rewrite !take_drop_commute, take_take.
    by replace ((2 + 8) `min` Z.to_nat n)%nat with (2 + Z.to_nat 8)%nat by lia.
  - rewrite take_drop_commute. do 2 f_equal. lia.
Qed.

(** ** The decoder implements the framing specification *)

Lemma decode_loop_stream fuel b fd cid mb i out :
  0 ≤ i ≤ zlen b → zlen b - i < Z.of_nat fuel →
  ∃ bodies rest status,
    stream mb (drop (Z.to_nat i) b) bodies rest status ∧
    decode_loop fuel b fd cid mb i out =
      Some (status, zlen b - zlen rest, out ++ map (request_of_body fd cid) bodies) ∧
    rest = drop (Z.to_nat (zlen b - zlen rest)) b.
Proof.
  revert i out. induction fuel as [|fuel IH]; intros i out Hi Hf; [lia|].
  cbn [decode_loop].
  pose proof (zlen_drop b i Hi) as Hlen. set (l := drop (Z.to_nat i) b) in *.
  assert (Hfin : ∀ st, stream mb l [] l st →
    ∃ bodies rest status, stream mb l bodies rest status ∧
      Some (st, i, out) =
        Some (status, zlen b - zlen rest, out ++ map (request_of_body fd cid) bodies) ∧
      rest = drop (Z.to_nat (zlen b - zlen rest)) b).
  { intros st Hst. exists [], l, st. split; [done|]. rewrite Hlen, app_nil_r.
    replace (zlen b - (zlen b - i)) with i by lia. by split. }
  destruct (Z.eqb_spec (zlen b - i) 0) as [E|E].
  { replace l with (@nil ascii) in * by (symmetry; apply zlen_0; lia). apply Hfin. constructor. }
  destruct (Z.ltb_spec (zlen b - i) 4) as [E4|E4].
  { apply Hfin, stream_short. lia. }
  change (slice b i 4) with (take 4 l).
  fold (header_len l). set (n := header_len l).
  destruct (_ || _ || _) eqn:Ev.
  { apply Hfin, stream_invalid; [lia|]. fold n. intros Hv%valid_len_test. congruence. }
  apply valid_len_test in Ev. rewrite (frame_len_no_wrap mb) by done.
  destruct (Z.ltb_spec (zlen b - i) (4 + n)) as [Ep|Ep].
  { apply Hfin, stream_partial; [fold n; lia|done]. }
  pose proof Ev as [[Hn ?] ?]. unfold FIXED_BODY_SIZE in Hn.
  rewrite decode_frame_body by (unfold FIXED_BODY_SIZE; lia). fold l.
  destruct (IH (i + (4 + n)) (out ++ [request_of_body fd cid (take (Z.to_nat n) (drop 4 l))]))
    as (bodies & rest & st & Hs & -> & Hr); [lia|lia|].
  exists (take (Z.to_nat n) (drop 4 l) :: bodies), rest, st. split_and!; [|by rewrite <- app_assoc|done].
  assert (Hbody : zlen (take (Z.to_nat n) (drop 4 l)) = n).
  { apply zlen_take. replace 4%nat with (Z.to_nat 4) by lia. rewrite zlen_drop; lia. }
  assert (Hhd : zlen (take 4 l) = 4).
  { replace 4%nat with (Z.to_nat 4) by lia. apply zlen_take. lia. }
  pose proof (take_drop_app3 4 (Z.to_nat n) l) as Hl.
  change n with (be_val (take 4 l)) in Hbody at 2.
  set (body := take (Z.to_nat n) (drop 4 l)) in *. set (hd := take 4 l) in *.
  rewrite <- Hl. apply stream_frame; [done|done| |].
  - rewrite Hbody. exact Ev.
  - unfold l. rewrite drop_drop.
    by replace (Z.to_nat i + (4 + Z.to_nat n))%nat with (Z.to_nat (i + (4 + n))) by lia.
Qed.

(** [decode] in terms of the specification: it appends the requests of the
    complete frames and keeps the rest, or the whole buffer when it meets an
    invalid length. *)
Lemma decode_spec b fd out cid mb :
  ∃ bodies rest status,
    stream mb b bodies rest status ∧
    decode b fd out cid mb =
      (status, (if decide (status = INVALID_LENGTH) then b else rest),
       out ++ map (request_of_body fd cid) bodies).
Proof.
  destruct (decode_loop_stream (S (length b)) b fd cid mb 0 out) as (bodies & rest & st & Hs & Hd & Hr);
    [pose proof (zlen_nonneg b); lia|unfold zlen; lia|].
  exists bodies, rest, st. split; [done|]. unfold decode. rewrite Hd.
  destruct st; simpl; by rewrite <- ?Hr.
Qed.

Lemma stream_frame_complete mb header body tail :
  zlen header = 4 → be_val header = zlen body → valid_len mb (zlen body) →
  header_len (header ++ body ++ tail) = zlen body ∧ complete_frame mb (header ++ body ++ tail).
Proof.
  intros Hh Hb Hv. unfold complete_frame, header_len.
  rewrite take_app_exact by (unfold zlen in *; lia). rewrite Hb, !zlen_app.
  pose proof (zlen_nonneg tail). pose proof (zlen_nonneg body). split_and!; [done|lia|done|lia].
Qed.

Lemma stream_inv mb b bodies rest st :
  stream mb b bodies rest st →
  (complete_frame mb b ∧
     ∃ body tail bodies', bodies = body :: bodies' ∧ b = take 4 b ++ body ++ tail ∧
       zlen body = header_len b ∧ stream mb tail bodies' rest st)
  ∨ (¬ complete_frame mb b ∧ bodies = [] ∧ rest = b ∧
     st = (if decide (zlen b = 0) then DecodeOK
           else if decide (zlen b < 4) then NEED_MORE_DATA
           else if (header_len b <? FIXED_BODY_SIZE) || (header_len b >? MAX_BODY_SIZE)
                   || (header_len b >? mb) then INVALID_LENGTH else NEED_MORE_DATA)).
Proof.
  unfold complete_frame.
  destruct 1 as [|b Hb|b Hb Hv|b Hb Hv|hd body tail bodies rest st Hhd Hbv Hv Ht].
  - right. rewrite zlen_nil. split_and!; [lia|done..].
  - right. rewrite decide_False, decide_True by lia. split_and!; [lia|done..].
  - right. rewrite !decide_False by lia. apply valid_len_test in Hv as ->.
    split_and!; [lia|done..].
  - right. rewrite !decide_False by lia.
    destruct (_ || _ || _) eqn:E; [|by apply valid_len_test in E].
    split_and!; [tauto|done..].
  - left. destruct (stream_frame_complete mb hd body tail Hhd Hbv Hv) as [E Hc].
    split; [exact Hc|]. exists body, tail, bodies.
    rewrite take_app_exact by (unfold zlen in *; lia). by split_and!.
Qed.

(** The decomposition is unique. *)
Lemma stream_det mb b bodies1 rest1 st1 bodies2 rest2 st2 :
  stream mb b bodies1 rest1 st1 → stream mb b bodies2 rest2 st2 →
  bodies1 = bodies2 ∧ rest1 = rest2 ∧ st1 = st2.
Proof.
  intros H1. revert bodies2 rest2 st2.
  induction H1 as [|b Hb|b Hb Hv|b Hb Hv|hd body tail bodies rest st Hhd Hbv Hv Ht IH];
    intros bodies2 rest2 st2 H2.
  1-4: match type of H2 with stream _ ?b _ _ _ =>
      assert (H1 : ∃ st, stream mb b [] b st) by (eexists; by constructor) end;
    apply stream_inv in H2; destruct H1 as [st1 H1]; apply stream_inv in H1;
    destruct H1 as [(_ & ? & ? & ? & ? & _)|(Hn & _)]; [done|];
    destruct H2 as [[? _]|(_ & -> & -> & ->)]; [done|].
  - done.
  - by rewrite decide_False, decide_True by lia.
  - rewrite !decide_False by lia. by apply valid_len_test in Hv as ->.
  - rewrite !decide_False by lia.
    destruct (_ || _ || _) eqn:E; [done|by apply valid_len_test in E].
  - destruct (stream_frame_complete mb hd body tail Hhd Hbv Hv) as [E Hc].
    apply stream_inv in H2 as [(_ & body' & tail' & bodies' & -> & Heq & Hl & Hs)|[? _]]; [|done].
    rewrite take_app_exact in Heq by (unfold zlen in *; lia).
    apply app_inv_head in Heq. rewrite E in Hl.
    apply app_inj_1 in Heq as [-> ->]; [|unfold zlen in *; lia].
    by destruct (IH _ _ _ Hs) as (-> & -> & ->).
Qed.

(** Bytes that arrive later extend the decomposition of the unconsumed rest. *)
Lemma stream_app mb a bodies rest st b bodies' rest' st' :
  stream mb a bodies rest st → st ≠ INVALID_LENGTH →
  stream mb (rest ++ b) bodies' rest' st' →
  stream mb (a ++ b) (bodies ++ bodies') rest' st'.
Proof.
  intros Ha. induction Ha; intros Hst Hb; simpl; [done|done|done|done|].
  rewrite <- !app_assoc. apply stream_frame; auto.
Qed.

Lemma stream_rest_bound mb b bodies rest st :
  stream mb b bodies rest st → st ≠ INVALID_LENGTH →
  zlen rest < 4 + MAX_BODY_SIZE ∧ (FIXED_BODY_SIZE ≤ mb → zlen rest < 4 + mb).
Proof.
  unfold FIXED_BODY_SIZE. rewrite MAX_BODY_SIZE_val.
  induction 1 as [|b Hb|b Hb [[? Hm] ?]|b|]; intros; rewrite ?zlen_nil; try done; try lia; auto.
  rewrite MAX_BODY_SIZE_val in Hm. lia.
Qed.

Lemma stream_bodies_valid mb b bodies rest st :
  stream mb b bodies rest st → Forall (λ body, valid_len mb (zlen body)) bodies.
Proof. induction 1; auto. Qed.

Lemma request_of_body_payload fd cid body mb :
  valid_len mb (zlen body) → zlen (rq_payload (request_of_body fd cid body)) = zlen body - 10.
Proof.
  intros [[H ?] ?]. simpl. replace 10%nat with (Z.to_nat 10) by lia.
  unfold FIXED_BODY_SIZE in H. apply zlen_drop. lia.
Qed.

(** ** The encoder *)

Lemma zlen_body_of r : zlen (body_of r) = 10 + zlen (rs_payload r).
Proof. unfold body_of. rewrite !zlen_app, !zlen_be_bytes. lia. Qed.

Lemma zlen_encode r : zlen (encode r) = 14 + zlen (rs_payload r).
Proof. unfold encode. rewrite !zlen_app, !zlen_be_bytes. lia. Qed.

Lemma encode_frame r tail :
  encode r ++ tail = be_bytes 4 (u32 (zlen (body_of r))) ++ body_of r ++ tail.
Proof. rewrite zlen_body_of. unfold encode, body_of. by rewrite <- !app_assoc. Qed.

Lemma request_of_body_of fd cid r :
  encodable r → request_of_body fd cid (body_of r) = request_of_response fd cid r.
Proof.
  intros (Hv & Hid & Hty & Hrt & _). unfold request_of_body, request_of_response.
  assert (E1 : take 1 (body_of r) = be_bytes 1 (rs_version r)) by done.
  assert (E2 : drop 1 (body_of r) = be_bytes 1 (u8_of_type (rs_type r))
                 ++ be_bytes 8 (rs_request_id r) ++ rs_payload r) by done.
  assert (E3 : drop 2 (body_of r) = be_bytes 8 (rs_request_id r) ++ rs_payload r) by done.
  assert (E4 : drop 10 (body_of r) = rs_payload r) by done.
  rewrite E1, E2, E3, E4, !take_app_exact by (by rewrite be_bytes_length).
  rewrite !be_val_bytes. f_equal; [apply Z.mod_small; lia| |apply Z.mod_small; lia].
  rewrite Z.mod_small by lia. done.
Qed.

Lemma encode_valid mb r :
  encodable r → 10 + zlen (rs_payload r) ≤ mb → valid_len mb (zlen (body_of r)).
Proof.
  intros (_ & _ & _ & _ & Hp) Hmb. unfold valid_len, FIXED_BODY_SIZE.
  rewrite zlen_body_of, MAX_BODY_SIZE_val. unfold MAX_PAYLOAD_SIZE in Hp.
  pose proof (zlen_nonneg (rs_payload r)). lia.
Qed.

Lemma stream_encode mb rs tail bodies rest st :
  Forall (λ r, encodable r ∧ 10 + zlen (rs_payload r) ≤ mb) rs →
  stream mb tail bodies rest st →
  stream mb (concat (map encode rs) ++ tail) (map body_of rs ++ bodies) rest st.
Proof.
  induction 1 as [|r rs [He Hmb] Hrs IH]; intros Ht; [done|].
  cbn [map concat]. rewrite <- app_assoc, encode_frame.
  pose proof (encode_valid _ _ He Hmb) as Hv. pose proof Hv as [[? Hmax] _].
  rewrite MAX_BODY_SIZE_val in Hmax.
  apply stream_frame; [by rewrite zlen_be_bytes| |done|auto].
  unfold FIXED_BODY_SIZE in *. rewrite be_val_bytes, u32_small by lia.
  apply Z.mod_small. lia.
Qed.

(** An invalid length leaves the buffer as it was. *)
Lemma decode_invalid b fd cid mb st rest reqs :
  decode b fd [] cid mb = (st, rest, reqs) → st = INVALID_LENGTH → b = rest.
Proof.
  destruct (decode_spec b fd [] cid mb) as (bs & r & st' & Hs & ->). intros [= -> <- _] E.
  by rewrite decide_True.
Qed.

(** What one call leaves behind and hands out. *)
Lemma decode_facts b fd cid mb st rest reqs :
  decode b fd [] cid mb = (st, rest, reqs) → FIXED_BODY_SIZE ≤ mb →
  (st ≠ INVALID_LENGTH → zlen rest < 4 + Z.min mb MAX_BODY_SIZE) ∧
  Forall (λ r, rq_fd r = fd ∧ rq_conn_id r = cid ∧
               zlen (rq_payload r) + FIXED_BODY_SIZE ≤ Z.min mb MAX_BODY_SIZE) reqs.
Proof.
  intros Hd Hmb. destruct (decode_spec b fd [] cid mb) as (bs & r & st' & Hs & E).
  rewrite E in Hd. injection Hd as -> Hr <-. split.
  - intros Hst. rewrite decide_False in Hr by done. subst r.
    destruct (stream_rest_bound _ _ _ _ _ Hs Hst). lia.
  - simpl. apply Forall_map. eapply Forall_impl; [exact (stream_bodies_valid _ _ _ _ _ Hs)|].
    intros body Hv. rewrite (request_of_body_payload _ _ _ _ Hv). destruct Hv as [? ?].
    unfold FIXED_BODY_SIZE in *. split_and!; [done|done|lia].
Qed.

(** ** Theorems *)

(** C21: Decoding does not depend on how the stream is cut into reads.  When
    the bytes [a] decode without an invalid length, decoding the bytes [a ++ b]
    at once yields the requests of [a] followed by what decoding the kept rest
    with [b] appended yields, with the same status; and the same unconsumed
    bytes unless that status is an invalid length. *)
Theorem decode_chunking a b fd cid mb st rest reqs :
  decode a fd [] cid mb = (st, rest, reqs) → st ≠ INVALID_LENGTH →
  ∃ st' rest' reqs',
    decode (rest ++ b) fd reqs cid mb = (st', rest', reqs') ∧
    (decode (a ++ b) fd [] cid mb).1.1 = st' ∧
    (decode (a ++ b) fd [] cid mb).2 = reqs' ∧
    (st' ≠ INVALID_LENGTH → (decode (a ++ b) fd [] cid mb).1.2 = rest').
Proof.
  intros Ha Hst.
  destruct (decode_spec a fd [] cid mb) as (bs & r & st1 & Hs & E1). rewrite E1 in Ha.
  injection Ha as -> Hr <-. rewrite decide_False in Hr by done. subst r.
  destruct (decode_spec (rest ++ b) fd (map (request_of_body fd cid) bs) cid mb)
    as (bs' & r' & st' & Hs' & E2).
  destruct (decode_spec (a ++ b) fd [] cid mb) as (bs'' & r'' & st'' & Hs'' & E3).
  destruct (stream_det _ _ _ _ _ _ _ _ Hs'' (stream_app _ _ _ _ _ _ _ _ _ Hs Hst Hs'))
    as (-> & -> & ->).
  do 3 eexists. split; [exact E2|]. rewrite E3. simpl. rewrite map_app. split_and!; [done|done|].
  intros. by rewrite !decide_False by done.
Qed.

(** C22: Round trip.  A stream of encoded responses, followed by a proper
    prefix of a further frame, decodes to exactly those frames, in order, and
    keeps exactly the prefix. *)
Theorem decode_encode rs tail fd cid mb :
  Forall (λ r, encodable r ∧ 10 + zlen (rs_payload r) ≤ mb) rs →
  zlen tail < 4 ∨ (valid_len mb (header_len tail) ∧ zlen tail < 4 + header_len tail) →
  decode (concat (map encode rs) ++ tail) fd [] cid mb =
    (if decide (tail = []) then DecodeOK else NEED_MORE_DATA, tail,
     map (request_of_response fd cid) rs).
Proof.
  intros Hrs Htail.
  assert (Hts : stream mb tail [] tail (if decide (tail = []) then DecodeOK else NEED_MORE_DATA)).
  { case_decide as E; [subst; constructor|].
    assert (0 < zlen tail) by (rewrite <- zlen_0 in E; pose proof (zlen_nonneg tail); lia).
    destruct (Z.lt_ge_cases (zlen tail) 4); [by apply stream_short|].
    destruct Htail as [?|[? ?]]; [lia|by apply stream_partial]. }
  pose proof (stream_encode _ _ _ _ _ _ Hrs Hts) as Hs.
  destruct (decode_spec (concat (map encode rs) ++ tail) fd [] cid mb) as (bs & r & st & Hs' & ->).
  destruct (stream_det _ _ _ _ _ _ _ _ Hs' Hs) as (-> & -> & ->).
  assert (Hst : ∀ x y : bytes, (if decide ((if decide (tail = []) then DecodeOK else NEED_MORE_DATA)
    = INVALID_LENGTH) then x else y) = y) by (intros; by destruct (decide (tail = []))).
  rewrite Hst, app_nil_r, map_map. simpl. f_equal. apply map_ext_in.
  intros r Hin. rewrite Forall_forall in Hrs. apply request_of_body_of, Hrs.
  by apply list_elem_of_In.
Qed.

Lemma decode_encode_witness :
  let r := mkResponse 5 7 1 PONG 42 0 (lit "{'status':0}") None false false in
  decode (concat (map encode [r; r]) ++ [byte_of 0; byte_of 0]) 5 [] 7 1048576 =
    (NEED_MORE_DATA, [byte_of 0; byte_of 0], map (request_of_response 5 7) [r; r]).
Proof.
  apply decode_encode; [|left; reflexivity].
  repeat constructor; vm_compute; congruence.
Defined.

(** Memory bound.  After a successful decode the connection keeps less
    than one maximal frame, whatever the peer sent, and every decoded payload
    is within both the protocol's and the configured limit. *)
Theorem decode_bounded b fd cid mb st rest reqs :
  decode b fd [] cid mb = (st, rest, reqs) → FIXED_BODY_SIZE ≤ mb →
  (st ≠ INVALID_LENGTH → zlen rest < 4 + Z.min mb MAX_BODY_SIZE) ∧
  Forall (λ r, rq_fd r = fd ∧ rq_conn_id r = cid ∧
               zlen (rq_payload r) + FIXED_BODY_SIZE ≤ Z.min mb MAX_BODY_SIZE) reqs.
Proof. apply decode_facts. Qed.

Lemma decode_bounded_witness :
  let b := encode (mkResponse 5 7 1 ECHO 42 0 (lit "abc") None false false) in
  decode b 5 [] 7 1048576 = (DecodeOK, [], [mkRequest 5 7 1 ECHO 42 (lit "abc")]) ∧
  (DecodeOK ≠ INVALID_LENGTH → zlen (@nil ascii) < 4 + Z.min 1048576 MAX_BODY_SIZE).
Proof.
  intros b. assert (H : decode b 5 [] 7 1048576 = (DecodeOK, [], [mkRequest 5 7 1 ECHO 42 (lit "abc")]))
    by reflexivity.
  split; [exact H|]. refine (proj1 (decode_bounded _ _ _ _ _ _ _ H _)). vm_compute. congruence.
Defined.

Lemma decode_chunking_witness :
  let b := encode (mkResponse 5 7 1 ECHO 42 0 (lit "abc") None false false) in
  ∃ st' rest' reqs',
    decode (take 9 b ++ drop 9 b) 5 [] 7 1048576 = (st', rest', reqs') ∧
    (decode (take 9 b ++ drop 9 b) 5 [] 7 1048576).1.1 = st' ∧
    (decode (take 9 b ++ drop 9 b) 5 [] 7 1048576).2 = reqs' ∧
    (st' ≠ INVALID_LENGTH → (decode (take 9 b ++ drop 9 b) 5 [] 7 1048576).1.2 = rest').
Proof.
  intros b. refine (decode_chunking (take 9 b) (drop 9 b) 5 7 1048576 NEED_MORE_DATA (take 9 b) [] _ _).
  - reflexivity.
  - discriminate.
Defined.
