(* ===== verification/BlockQueue.v ===== *)
(** * The bounded blocking queue

    Models [include/concurrent/BlockQueue.hpp].  Every member function holds
    [mutex_] for its whole body, so one call is one atomic transition of the
    queue's state; a schedule of the threads that share a queue is a sequence
    of calls ([QueueOp]).  [pop] on an empty queue that is not stopped waits on
    the condition variable: it makes no transition then. *)

From S2P Require Import Prelude.
#[local] Open Scope Z_scope.

Inductive PushResult := PushOK | FULL | STOPPED_PUSH.

#[export] Instance PushResult_eq_dec : EqDecision PushResult.
Proof. solve_decision. Defined.

Record BlockQueue (T : Type) := mkBlockQueue {
  capacity_ : Z;
  data_queue_ : list T;
  peak_size_ : Z;
  stopped_ : bool;
}.
Arguments mkBlockQueue {T}.
Arguments capacity_ {T}.
Arguments data_queue_ {T}.
Arguments peak_size_ {T}.
Arguments stopped_ {T}.

Section Queue.
Context {T : Type}.
Implicit Types (q : BlockQueue T) (item : T).

(** The constructor. *)
Definition newBlockQueue (capacity : Z) : BlockQueue T := mkBlockQueue capacity [] 0 false.

(** Both overloads of [push]: they differ only in copying or moving the item. *)
Definition push item q : PushResult * BlockQueue T :=
  if stopped_ q then (STOPPED_PUSH, q)
  else if zlen (data_queue_ q) >=? capacity_ q then (FULL, q)
  else
    let data := data_queue_ q ++ [item] in
    let peak := if zlen data >? peak_size_ q then zlen data else peak_size_ q in
    (PushOK, mkBlockQueue (capacity_ q) data peak (stopped_ q)).

(** [pop]: [None] when the caller waits; otherwise the popped item, or no item
    when the queue is stopped and empty (the call returns false). *)
Definition pop q : option (option T * BlockQueue T) :=
  match data_queue_ q with
  | [] => if stopped_ q then Some (None, q) else None
  | x :: data => Some (Some x, mkBlockQueue (capacity_ q) data (peak_size_ q) (stopped_ q))
  end.

Definition tryPop q : option T * BlockQueue T :=
  match data_queue_ q with
  | [] => (None, q)
  | x :: data => (Some x, mkBlockQueue (capacity_ q) data (peak_size_ q) (stopped_ q))
  end.

Definition stop q : BlockQueue T :=
  mkBlockQueue (capacity_ q) (data_queue_ q) (peak_size_ q) true.

Definition abort q : Z * BlockQueue T :=
  (zlen (data_queue_ q), mkBlockQueue (capacity_ q) [] (peak_size_ q) true).

Definition size q : Z := zlen (data_queue_ q).
Definition peakSize q : Z := peak_size_ q.
Definition capacity q : Z := capacity_ q.
Definition stopped q : bool := stopped_ q.

(** ** Schedules of calls and their history *)

Inductive QueueOp := OpPush (x : T) | OpPop | OpTryPop | OpStop | OpAbort.

(** What a schedule has done so far: the items accepted, handed out and
    discarded, and the largest size the queue has had. *)
Record History := mkHistory {
  accepted : list T;
  taken : list T;
  discarded : list T;
  largest : Z;
}.

Definition queue_step (op : QueueOp) (st : BlockQueue T * History) : BlockQueue T * History :=
  let '(q, h) := st in
  match op with
  | OpPush x =>
      match push x q with
      | (PushOK, q') =>
          (q', mkHistory (accepted h ++ [x]) (taken h) (discarded h)
                 (Z.max (largest h) (size q')))
      | (_, q') => (q', h)
      end
  | OpPop =>
      match pop q with
      | Some (Some x, q') => (q', mkHistory (accepted h) (taken h ++ [x]) (discarded h) (largest h))
      | Some (None, q') => (q', h)
      | None => (q, h)
      end
  | OpTryPop =>
      match tryPop q with
      | (Some x, q') => (q', mkHistory (accepted h) (taken h ++ [x]) (discarded h) (largest h))
      | (None, q') => (q', h)
      end
  | OpStop => (stop q, h)
  | OpAbort =>
      ((abort q).2,
       mkHistory (accepted h) (taken h) (discarded h ++ data_queue_ q) (largest h))
  end.

Definition run_queue (ops : list QueueOp) (st : BlockQueue T * History) : BlockQueue T * History :=
  fold_left (fun st op => queue_step op st) ops st.

Definition start_queue (capacity : Z) : BlockQueue T * History :=
  (newBlockQueue capacity, mkHistory [] [] [] 0).

(** ** Specification: a bounded FIFO with its statistics *)

Definition queue_inv (st : BlockQueue T * History) : Prop :=
  let '(q, h) := st in
  size q ≤ capacity q ∧
  peakSize q = largest h ∧ 0 ≤ largest h ≤ capacity q ∧ size q ≤ largest h ∧
  accepted h = taken h ++ discarded h ++ data_queue_ q ∧
  (discarded h ≠ [] → stopped q = true ∧ data_queue_ q = []).

(** ** Lemmas *)

Lemma push_data item q :
  let '(r, q') := push item q in
  data_queue_ q' = data_queue_ q ++ (if decide (r = PushOK) then [item] else []) ∧
  stopped_ q' = stopped_ q ∧ capacity_ q' = capacity_ q.
Proof.
  unfold push. repeat case_bool; simpl; split_and!; try done; by rewrite ?app_nil_r.
Qed.

Lemma push_not_ok item q r q' : push item q = (r, q') → r ≠ PushOK → q' = q.
Proof. unfold push. repeat case_bool; intros [= <- <-]; done. Qed.

Lemma tryPop_data q :
  data_queue_ q = option_list (tryPop q).1 ++ data_queue_ (tryPop q).2 ∧
  stopped_ (tryPop q).2 = stopped_ q ∧ capacity_ (tryPop q).2 = capacity_ q.
Proof. unfold tryPop. by destruct (data_queue_ q) eqn:E; simpl; rewrite ?E. Qed.

Lemma pop_Some q x q' :
  pop q = Some (Some x, q') →
  data_queue_ q = x :: data_queue_ q' ∧ stopped_ q' = stopped_ q ∧ capacity_ q' = capacity_ q.
Proof. unfold pop. destruct (data_queue_ q) eqn:E; [by case_bool|]. intros [= <- <-]. done. Qed.

Lemma pop_None q q' :
  pop q = Some (None, q') → q' = q ∧ stopped_ q = true ∧ data_queue_ q = [].
Proof. unfold pop. destruct (data_queue_ q) eqn:E; [case_bool|]; by intros [= <-]. Qed.

Lemma queue_inv_start c : 0 ≤ c → queue_inv (start_queue c).
Proof. unfold queue_inv, size, peakSize, capacity. cbn. intros. split_and!; done || lia. Qed.

Lemma queue_inv_push q h x : queue_inv (q, h) → queue_inv (queue_step (OpPush x) (q, h)).
Proof.
  unfold queue_inv, queue_step, push, size, peakSize, capacity, stopped.
  intros (Hc & Hp & Hl & Hle & Hh & Hd).
  destruct (stopped_ q) eqn:Es; [rewrite Es; split_and!; done || lia|].
  destruct (_ >=? _) eqn:E; [rewrite Es; split_and!; done || lia|]. simpl. rewrite Z.geb_leb in E. bool_facts.
  rewrite zlen_app, zlen_cons, zlen_nil in *. repeat case_bool; rewrite ?Z.gtb_ltb in *; bool_facts;
  (split_and!; [lia|lia|lia|lia|lia|rewrite Hh; by rewrite <- !app_assoc|]);
  intros Hdis; destruct (Hd Hdis); congruence.
Qed.

Lemma queue_inv_take q h x data :
  queue_inv (q, h) → data_queue_ q = x :: data →
  queue_inv (mkBlockQueue (capacity_ q) data (peak_size_ q) (stopped_ q),
             mkHistory (accepted h) (taken h ++ [x]) (discarded h) (largest h)).
Proof.
  unfold queue_inv, size, peakSize, capacity, stopped. cbn [capacity_ data_queue_ peak_size_ stopped_ accepted taken discarded largest].
  intros (Hc & Hp & Hl & Hle & Hh & Hd) E. rewrite E, zlen_cons in *.
  assert (discarded h = []) as Hnil by (destruct (discarded h); [done|]; by destruct Hd).
  rewrite Hnil in *. simpl in *. split_and!; try lia.
  - by rewrite Hh, <- app_assoc.
  - done.
Qed.

Lemma queue_step_inv op st : queue_inv st → queue_inv (queue_step op st).
Proof.
  destruct st as [q h]. intros H. destruct op as [x| | | |].
  - by apply queue_inv_push.
  - cbn [queue_step]. unfold pop. destruct (data_queue_ q) eqn:E; [by destruct (stopped_ q)|].
    by apply queue_inv_take.
  - cbn [queue_step]. unfold tryPop. destruct (data_queue_ q) eqn:E; [done|].
    by apply queue_inv_take.
  - unfold queue_inv, stop, size, peakSize, capacity, stopped in *. simpl in *.
    destruct H as (? & ? & ? & ? & ? & Hd). split_and!; try done; try lia.
    intros Hdis. by destruct (Hd Hdis).
  - unfold queue_inv, abort, size, peakSize, capacity, stopped in *. simpl in *.
    destruct H as (Hc & Hp & Hl & Hle & Hh & Hd). rewrite zlen_nil, app_nil_r.
    pose proof (zlen_nonneg (data_queue_ q)). split_and!; done || lia.
Qed.

Lemma run_queue_inv ops st : queue_inv st → queue_inv (run_queue ops st).
Proof.
  revert st. induction ops as [|op ops IH]; intros st H; [done|].
  apply IH. by apply queue_step_inv.
Qed.

Lemma queue_step_stopped op st :
  stopped st.1 = true →
  stopped (queue_step op st).1 = true ∧ accepted (queue_step op st).2 = accepted st.2.
Proof.
  destruct st as [q h]; unfold stopped; simpl; intros E.
  destruct op; simpl; unfold push, pop, tryPop; rewrite ?E; try done;
    by destruct (data_queue_ q).
Qed.

(** ** Theorems *)

(** C38: Under every schedule of concurrent calls the queue is a bounded FIFO:
    it never exceeds its capacity; the items handed out, then those discarded
    by [abort], then those still queued are exactly the accepted items in
    order of acceptance; and [peakSize] is the largest size reached. *)
Theorem queue_fifo_bounded ops c :
  0 ≤ c →
  let '(q, h) := run_queue ops (start_queue c) in
  size q ≤ capacity q ∧ peakSize q = largest h ∧
  accepted h = taken h ++ discarded h ++ data_queue_ q.
Proof.
  intros Hc. pose proof (run_queue_inv ops _ (queue_inv_start c Hc)) as H.
  destruct (run_queue ops (start_queue c)) as [q h].
  destruct H as (? & ? & _ & _ & ? & _). by split_and!.
Qed.

(** Once stopped, a queue stays stopped and accepts nothing more, under
    every further schedule; and it is drained rather than blocked: a [pop] on
    it always returns, with the oldest item while there is one and with false
    only when it is empty. *)
Theorem queue_stop_drains ops st :
  stopped st.1 = true →
  let '(q, h) := run_queue ops st in
  stopped q = true ∧ accepted h = accepted st.2 ∧
  pop q = match data_queue_ q with
          | [] => Some (None, q)
          | x :: l => Some (Some x, mkBlockQueue (capacity_ q) l (peak_size_ q) true)
          end.
Proof.
  revert st. induction ops as [|op ops IH]; intros [q h] Hs.
  - simpl in *. unfold stopped in Hs. split_and!; [done|done|].
    unfold pop. rewrite Hs. by destruct (data_queue_ q).
  - destruct (queue_step_stopped op (q, h) Hs) as [Hs' Ha].
    specialize (IH _ Hs'). cbn [run_queue fold_left].
    change (fold_left _ ops ?st) with (run_queue ops st).
    destruct (run_queue ops (queue_step op (q, h))) as [q' h'].
    by rewrite Ha in IH.
Qed.

End Queue.

Arguments QueueOp : clear implicits.
Arguments History : clear implicits.

Lemma queue_fifo_bounded_witness :
  let '(q, h) := run_queue [OpPush 1; OpPush 2; OpPush 3; OpTryPop; OpPush 4; OpStop; OpPush 5]
                   (start_queue 2) in
  size q ≤ capacity q ∧ peakSize q = largest h ∧
  accepted h = taken h ++ discarded h ++ data_queue_ q.
Proof.
  refine (queue_fifo_bounded
            [OpPush 1; OpPush 2; OpPush 3; OpTryPop; OpPush 4; OpStop; OpPush 5] 2 _). lia.
Defined.

Lemma queue_stop_drains_witness :
  let '(q, h) := run_queue [OpPush 9; OpPop] (stop (push 1 (newBlockQueue 2)).2,
                   mkHistory [1] [] [] 1) in
  stopped q = true ∧ accepted h = [1] ∧
  pop q = match data_queue_ q with
          | [] => Some (None, q)
          | x :: l => Some (Some x, mkBlockQueue (capacity_ q) l (peak_size_ q) true)
          end.
Proof.
  refine (queue_stop_drains [OpPush 9; OpPop]
            (stop (push 1 (newBlockQueue 2)).2, mkHistory [1] [] [] 1) _). reflexivity.
Defined.
