(* ===== verification/Notifier.v ===== *)
(** * The reactor's wake-up channel

    Models [include/net/ReactorNotifier.hpp] and [src/net/ReactorNotifier.cpp].
    The kernel's side is an eventfd opened with [EFD_NONBLOCK]: a 64-bit
    counter to which [write] adds (failing with [EAGAIN] when the sum would
    reach [2^64 - 1]) and which [read] returns and resets (failing with
    [EAGAIN] when it is zero); either call can be interrupted ([EINTR]). *)

From S2P Require Import Prelude.
#[local] Open Scope Z_scope.

(** The answer to one [read] or [write] of eight bytes. *)
Inductive IoAnswer := IoDone | IoIntr | IoAgain | IoError.

#[export] Instance IoAnswer_eq_dec : EqDecision IoAnswer.
Proof. solve_decision. Defined.

(** The notifier: its descriptor ([-1] when closed) and the kernel counter
    behind it. *)
Record ReactorNotifier := mkNotifier {
  nf_fd : Z;
  nf_counter : Z;
}.

Definition EVENTFD_MAX : Z := 2 ^ 64 - 2.

Definition newNotifier : ReactorNotifier := mkNotifier (-1) 0.

(** [eventfd] system calls on an open descriptor. *)
Definition eventfd_write (counter value : Z) : IoAnswer * Z :=
  if counter + value >? EVENTFD_MAX then (IoAgain, counter) else (IoDone, counter + value).

Definition eventfd_read (counter : Z) : IoAnswer * Z :=
  if counter =? 0 then (IoAgain, counter) else (IoDone, 0).

(** [open]: [fresh] is the descriptor [eventfd(0, ...)] returns, [-1] on failure. *)
Definition open (fresh : Z) (n : ReactorNotifier) : bool * ReactorNotifier :=
  if negb (nf_fd n =? -1) then (true, n)
  else (negb (fresh =? -1), mkNotifier fresh 0).

(** [notify]: [interrupts] is how many times the [write] is interrupted before
    the kernel answers it. *)
Fixpoint notify_loop (interrupts : nat) (n : ReactorNotifier) : bool * ReactorNotifier :=
  match interrupts with
  | S k => notify_loop k n
  | O =>
    match eventfd_write (nf_counter n) 1 with
    | (IoDone, c) => (true, mkNotifier (nf_fd n) c)
    | (a, c) => (bool_decide (a = IoAgain), mkNotifier (nf_fd n) c)
    end
  end.

Definition notify (interrupts : nat) (n : ReactorNotifier) : bool * ReactorNotifier :=
  if nf_fd n =? -1 then (false, n) else notify_loop interrupts n.

(** What happens between two reads of [consume]: the next [read] is
    interrupted, or it is answered after [k] more notifications by other
    threads. *)
Inductive ReadTurn := TurnIntr | TurnRead (k : nat).

Definition arrivals (k : nat) (n : ReactorNotifier) : ReactorNotifier :=
  Nat.iter k (fun n => (notify 0 n).2) n.

(** [consume] reads until [EAGAIN].  [None]: the loop is still reading at the
    end of [turns]. *)
Fixpoint consume_loop (turns : list ReadTurn) (n : ReactorNotifier)
    : option (bool * ReactorNotifier) :=
  match turns with
  | [] => None
  | TurnIntr :: turns => consume_loop turns n
  | TurnRead k :: turns =>
    let n := arrivals k n in
    match eventfd_read (nf_counter n) with
    | (IoDone, c) => consume_loop turns (mkNotifier (nf_fd n) c)
    | (a, c) => Some (bool_decide (a = IoAgain), mkNotifier (nf_fd n) c)
    end
  end.

Definition consume (turns : list ReadTurn) (n : ReactorNotifier)
    : option (bool * ReactorNotifier) :=
  if nf_fd n =? -1 then Some (false, n) else consume_loop turns n.

(** [close]: the descriptor is exchanged for [-1]; the descriptor passed to
    [::close], if any. *)
Definition close_notifier (n : ReactorNotifier) : option Z * ReactorNotifier :=
  (if nf_fd n =? -1 then None else Some (nf_fd n), mkNotifier (-1) (nf_counter n)).

(** The counter the kernel can hold. *)
Definition notifier_ok (n : ReactorNotifier) : Prop := 0 ≤ nf_counter n ≤ EVENTFD_MAX.

(** A wake-up is pending: the descriptor is readable, so [epoll_wait] returns. *)
Definition readable (n : ReactorNotifier) : Prop := nf_fd n ≠ -1 ∧ 0 < nf_counter n.

(** ** Lemmas *)

Lemma notify_loop_interrupts k n : notify_loop k n = notify_loop 0 n.
Proof. induction k; simpl in *; auto. Qed.

Lemma notify_open k n :
  nf_fd n ≠ -1 → notifier_ok n →
  (notify k n).1 = true ∧ readable (notify k n).2 ∧ notifier_ok (notify k n).2 ∧
  nf_fd (notify k n).2 = nf_fd n.
Proof.
  intros Hfd [H0 H1]. unfold notify. destruct (Z.eqb_spec (nf_fd n) (-1)); [done|].
  rewrite notify_loop_interrupts. unfold notify_loop, eventfd_write, readable, notifier_ok.
  destruct (_ >? _) eqn:E; rewrite Z.gtb_ltb in E; bool_facts; simpl; unfold EVENTFD_MAX in *;
    split_and!; done || lia.
Qed.

Lemma notify_closed k n : nf_fd n = -1 → notify k n = (false, n).
Proof. intros E. unfold notify. by rewrite E. Qed.

Lemma notify_mono k n : notifier_ok n → nf_counter n ≤ nf_counter (notify k n).2 ∧ notifier_ok (notify k n).2.
Proof.
  intros [H0 H1]. unfold notify. case_bool; [done|].
  rewrite notify_loop_interrupts. unfold notify_loop, eventfd_write, notifier_ok.
  destruct (_ >? _) eqn:E'; rewrite Z.gtb_ltb in E'; bool_facts; simpl; lia.
Qed.

Lemma notify_fd k n : nf_fd (notify k n).2 = nf_fd n.
Proof.
  unfold notify. case_bool; [done|]. rewrite notify_loop_interrupts.
  unfold notify_loop, eventfd_write. by case_bool.
Qed.

Lemma arrivals_ok k n :
  notifier_ok n → notifier_ok (arrivals k n) ∧ nf_fd (arrivals k n) = nf_fd n ∧
  nf_counter n ≤ nf_counter (arrivals k n) ∧
  (nf_fd n ≠ -1 → (0 < k)%nat → 0 < nf_counter (arrivals k n)).
Proof.
  intros Hok. unfold arrivals. induction k as [|k (IH1 & IH2 & IH3 & IH4)]; simpl; [split_and!; done || lia|].
  destruct (notify_mono 0 _ IH1) as [? ?]. split_and!; [done|by rewrite notify_fd|lia|].
  intros Hfd _. rewrite <- IH2 in Hfd.
  by destruct (notify_open 0 _ Hfd IH1) as (_ & [_ ?] & _).
Qed.

Lemma consume_loop_spec turns n b n' :
  notifier_ok n → consume_loop turns n = Some (b, n') →
  b = true ∧ nf_counter n' = 0 ∧ nf_fd n' = nf_fd n.
Proof.
  revert n. induction turns as [|[|k] turns IH]; intros n Hok; simpl; [done|by apply IH|].
  destruct (arrivals_ok k n Hok) as (Hok' & Hfd & _ & _).
  unfold eventfd_read. destruct (Z.eqb_spec (nf_counter (arrivals k n)) 0) as [E|E].
  - intros [= <- <-]. rewrite E. by split_and!.
  - intros H. rewrite <- Hfd. apply (IH (mkNotifier (nf_fd (arrivals k n)) 0)); [|done].
    unfold notifier_ok, EVENTFD_MAX. simpl. lia.
Qed.

(** Two answered reads with nothing arriving in between are enough. *)
Lemma consume_loop_returns n :
  consume_loop [TurnRead 0; TurnRead 0] n = Some (true, mkNotifier (nf_fd n) 0).
Proof.
  simpl. unfold eventfd_read. destruct (Z.eqb_spec (nf_counter n) 0) as [E|E]; simpl; [|done].
  by rewrite E.
Qed.

(** ** Theorems *)

(** Wake-ups are never lost and never block the caller: on an open
    notifier [notify] reports success and leaves the descriptor readable,
    also when the counter is saturated ([EAGAIN]) and however often the call
    is interrupted; on a closed one it reports failure and changes nothing. *)
Theorem notify_wakes k n :
  notifier_ok n →
  notifier_ok (notify k n).2 ∧
  (nf_fd n ≠ -1 → (notify k n).1 = true ∧ readable (notify k n).2) ∧
  (nf_fd n = -1 → notify k n = (false, n)).
Proof.
  intros Hok. split_and!.
  - by apply notify_mono.
  - intros Hfd. by destruct (notify_open k n Hfd Hok) as (? & ? & _).
  - apply notify_closed.
Qed.

Lemma notify_wakes_witness :
  notifier_ok (mkNotifier 6 EVENTFD_MAX) ∧
  (notify 2 (mkNotifier 6 EVENTFD_MAX)).1 = true ∧
  readable (notify 2 (mkNotifier 6 EVENTFD_MAX)).2.
Proof.
  assert (H : notifier_ok (mkNotifier 6 EVENTFD_MAX)) by (split; vm_compute; congruence).
  split; [exact H|]. refine (proj1 (proj2 (notify_wakes 2 _ H)) _). discriminate.
Defined.

(** [consume] empties the counter, so that the next [notify] wakes the
    reactor again: when it returns on an open notifier it reports success and
    the counter is zero at the read that ended it, whatever notifications and
    interrupts came in between; and it does return once two reads in a row
    meet no new notification. *)
Theorem consume_clears turns n b n' :
  notifier_ok n → nf_fd n ≠ -1 → consume turns n = Some (b, n') →
  b = true ∧ nf_counter n' = 0 ∧ nf_fd n' = nf_fd n ∧
  (∀ k, readable (notify k n').2) ∧
  consume [TurnRead 0; TurnRead 0] n = Some (true, mkNotifier (nf_fd n) 0).
Proof.
  intros Hok Hfd. unfold consume. destruct (Z.eqb_spec (nf_fd n) (-1)); [done|].
  intros H. destruct (consume_loop_spec _ _ _ _ Hok H) as (-> & Hc & E).
  split_and!; [done..| |by apply consume_loop_returns]. intros k.
  refine (proj1 (proj2 (notify_open k n' _ _))); [by rewrite E|].
  unfold notifier_ok, EVENTFD_MAX. lia.
Qed.

Lemma consume_clears_witness :
  consume [TurnIntr; TurnRead 3; TurnRead 1; TurnRead 0] (mkNotifier 6 1) = Some (true, mkNotifier 6 0) ∧
  ∀ k, readable (notify k (mkNotifier 6 0)).2.
Proof.
  assert (H : consume [TurnIntr; TurnRead 3; TurnRead 1; TurnRead 0] (mkNotifier 6 1)
              = Some (true, mkNotifier 6 0)) by reflexivity.
  split; [exact H|].
  refine (proj1 (proj2 (proj2 (proj2 (consume_clears _ (mkNotifier 6 1) _ _ _ _ H))))).
  - split; vm_compute; congruence.
  - discriminate.
Defined.
