(* ===== verification/ControlTypes.v ===== *)
(** * Types shared by the control-plane client and the data plane

    Models [include/control/HttpTypes.hpp] and the result types of
    [include/control/ControlPlaneClient.hpp]. *)

From S2P Require Import Prelude.
#[local] Open Scope Z_scope.

Definition MAX_CONTROL_PLANE_HTTP_HEADER_BYTES : Z := 16 * 1024.
Definition MAX_CONTROL_PLANE_HTTP_BODY_BYTES : Z := 1024 * 1024.

(** [enum class HttpError]; [NoError] is [HttpError::None]. *)
Inductive HttpError :=
  | NoError | ResolveFailed | DeadlineExceeded | ConnectFailed | SendFailed
  | ReceiveFailed | HeaderTooLarge | BodyTooLarge | MalformedResponse
  | MissingContentLength | DuplicateContentLength | UnsupportedTransferEncoding
  | PrematureEof | HttpStatusError | InvalidJson.

#[export] Instance HttpError_eq_dec : EqDecision HttpError.
Proof. solve_decision. Defined.

Record HttpResult := mkHttpResult {
  hr_error : HttpError;
  hr_status_code : Z;
  hr_body : bytes;
}.

(** [HttpResult::ok]. *)
Definition http_ok (r : HttpResult) : bool :=
  bool_decide (hr_error r = NoError) && (hr_status_code r >=? 200) && (hr_status_code r <? 300).

Inductive AuthOutcome := Allowed | Denied | Unavailable.

#[export] Instance AuthOutcome_eq_dec : EqDecision AuthOutcome.
Proof. solve_decision. Defined.

Record AuthResult := mkAuthResult {
  ar_outcome : AuthOutcome;
  ar_http_error : HttpError;
  ar_http_status : Z;
  ar_reason_code : bytes;
}.

(** The default member initialisers: an authentication result starts as
    unavailable, and only a trusted answer changes it. *)
Definition defaultAuthResult : AuthResult := mkAuthResult Unavailable NoError 0 [].

(** [httpErrorCategory]. *)
Definition httpErrorCategory (error : HttpError) : bytes :=
  match error with
  | NoError => lit "none"
  | ResolveFailed => lit "resolve"
  | DeadlineExceeded => lit "deadline"
  | ConnectFailed => lit "connect"
  | SendFailed => lit "send"
  | ReceiveFailed => lit "receive"
  | HeaderTooLarge | BodyTooLarge => lit "oversize"
  | HttpStatusError => lit "http_status"
  | InvalidJson => lit "json"
  | MalformedResponse | MissingContentLength | DuplicateContentLength
  | UnsupportedTransferEncoding | PrematureEof => lit "protocol"
  end.
