(* ===== verification/Stats.v ===== *)
(** * Process-wide counters

    Models [include/business/StatsManager.hpp] and
    [src/business/StatsManager.cpp].  Each counter is a [std::atomic<uint64_t>]
    and each operation is a constant number of atomic read-modify-writes, which
    wrap at [2^64]. *)

From S2P Require Import Prelude ControlTypes.
#[local] Open Scope Z_scope.

Record StatsManager := mkStats {
  total_requests_ : Z;
  total_log_messages_ : Z;
  total_errors_ : Z;
  active_connections : Z;
  total_bytes_read : Z;
  total_bytes_sent : Z;
  request_queue_rejected_ : Z;
  response_queue_rejected_ : Z;
  response_queue_rejected_normal_ : Z;
  response_queue_rejected_auth_ : Z;
  slow_client_closed_ : Z;
  stale_response_dropped_ : Z;
  auth_success_ : Z;
  auth_failure_ : Z;
  auth_queue_rejected_ : Z;
  auth_tasks_cancelled_before_start_ : Z;
  auth_allowed_ : Z;
  auth_denied_ : Z;
  auth_unavailable_ : Z;
  auth_duration_count_ : Z;
  auth_duration_total_us_ : Z;
}.

#[export] Instance eta_Stats : Eta StatsManager := fun s =>
  mkStats (total_requests_ s) (total_log_messages_ s) (total_errors_ s)
    (active_connections s) (total_bytes_read s) (total_bytes_sent s)
    (request_queue_rejected_ s) (response_queue_rejected_ s) (response_queue_rejected_normal_ s)
    (response_queue_rejected_auth_ s) (slow_client_closed_ s) (stale_response_dropped_ s)
    (auth_success_ s) (auth_failure_ s) (auth_queue_rejected_ s)
    (auth_tasks_cancelled_before_start_ s) (auth_allowed_ s) (auth_denied_ s)
    (auth_unavailable_ s) (auth_duration_count_ s) (auth_duration_total_us_ s).

Definition newStats : StatsManager :=
  mkStats 0 0 0 0 0 0 0 0 0 0 0 0 0 0 0 0 0 0 0 0 0.

Definition set_total_requests_ : Z → StatsManager → StatsManager := ltac:(setter total_requests_).
Definition set_total_log_messages_ : Z → StatsManager → StatsManager := ltac:(setter total_log_messages_).
Definition set_total_errors_ : Z → StatsManager → StatsManager := ltac:(setter total_errors_).
Definition set_active_connections : Z → StatsManager → StatsManager := ltac:(setter active_connections).
Definition set_total_bytes_read : Z → StatsManager → StatsManager := ltac:(setter total_bytes_read).
Definition set_total_bytes_sent : Z → StatsManager → StatsManager := ltac:(setter total_bytes_sent).
Definition set_request_queue_rejected_ : Z → StatsManager → StatsManager := ltac:(setter request_queue_rejected_).
Definition set_response_queue_rejected_ : Z → StatsManager → StatsManager := ltac:(setter response_queue_rejected_).
Definition set_response_queue_rejected_normal_ : Z → StatsManager → StatsManager := ltac:(setter response_queue_rejected_normal_).
Definition set_response_queue_rejected_auth_ : Z → StatsManager → StatsManager := ltac:(setter response_queue_rejected_auth_).
Definition set_slow_client_closed_ : Z → StatsManager → StatsManager := ltac:(setter slow_client_closed_).
Definition set_stale_response_dropped_ : Z → StatsManager → StatsManager := ltac:(setter stale_response_dropped_).
Definition set_auth_success_ : Z → StatsManager → StatsManager := ltac:(setter auth_success_).
Definition set_auth_failure_ : Z → StatsManager → StatsManager := ltac:(setter auth_failure_).
Definition set_auth_queue_rejected_ : Z → StatsManager → StatsManager := ltac:(setter auth_queue_rejected_).
Definition set_auth_tasks_cancelled_before_start_ : Z → StatsManager → StatsManager := ltac:(setter auth_tasks_cancelled_before_start_).
Definition set_auth_allowed_ : Z → StatsManager → StatsManager := ltac:(setter auth_allowed_).
Definition set_auth_denied_ : Z → StatsManager → StatsManager := ltac:(setter auth_denied_).
Definition set_auth_unavailable_ : Z → StatsManager → StatsManager := ltac:(setter auth_unavailable_).
Definition set_auth_duration_count_ : Z → StatsManager → StatsManager := ltac:(setter auth_duration_count_).
Definition set_auth_duration_total_us_ : Z → StatsManager → StatsManager := ltac:(setter auth_duration_total_us_).

(** ** Operations *)

(** The getters: one atomic load each. *)
Definition getTotalRequests (s : StatsManager) : Z := total_requests_ s.
Definition getTotalLogMessages (s : StatsManager) : Z := total_log_messages_ s.
Definition getTotalErrors (s : StatsManager) : Z := total_errors_ s.
Definition getReadBytes (s : StatsManager) : Z := total_bytes_read s.
Definition getWriteBytes (s : StatsManager) : Z := total_bytes_sent s.
Definition getConnections (s : StatsManager) : Z := active_connections s.
Definition getRequestQueueRejected (s : StatsManager) : Z := request_queue_rejected_ s.
Definition getResponseQueueRejected (s : StatsManager) : Z := response_queue_rejected_ s.

Definition incrementRequests (s : StatsManager) : StatsManager :=
  set_total_requests_ (u64 (total_requests_ s + 1)) s.
Definition incrementLogMessages (s : StatsManager) : StatsManager :=
  set_total_log_messages_ (u64 (total_log_messages_ s + 1)) s.
Definition incrementErrors (s : StatsManager) : StatsManager :=
  set_total_errors_ (u64 (total_errors_ s + 1)) s.
Definition incrementReadBytes (byte_nums : Z) (s : StatsManager) : StatsManager :=
  set_total_bytes_read (u64 (total_bytes_read s + byte_nums)) s.
Definition incrementWriteBytes (byte_nums : Z) (s : StatsManager) : StatsManager :=
  set_total_bytes_sent (u64 (total_bytes_sent s + byte_nums)) s.
Definition incrementConnections (s : StatsManager) : StatsManager :=
  set_active_connections (u64 (active_connections s + 1)) s.

(** [decrementConnections] is a compare-and-swap loop that stops at zero; its
    effect takes place atomically at the exchange that succeeds (or at the
    load that sees zero). *)
Definition decrementConnections (s : StatsManager) : StatsManager :=
  let current := active_connections s in
  if current >? 0 then set_active_connections (current - 1) s else s.

Definition incrementRequestQueueRejected (s : StatsManager) : StatsManager :=
  set_request_queue_rejected_ (u64 (request_queue_rejected_ s + 1)) s.
Definition incrementResponseQueueRejected (s : StatsManager) : StatsManager :=
  set_response_queue_rejected_ (u64 (response_queue_rejected_ s + 1)) s.
Definition incrementResponseQueueRejectedNormal (s : StatsManager) : StatsManager :=
  incrementResponseQueueRejected
    (set_response_queue_rejected_normal_ (u64 (response_queue_rejected_normal_ s + 1)) s).
Definition incrementResponseQueueRejectedAuth (s : StatsManager) : StatsManager :=
  incrementResponseQueueRejected
    (set_response_queue_rejected_auth_ (u64 (response_queue_rejected_auth_ s + 1)) s).
Definition incrementSlowClientClosed (s : StatsManager) : StatsManager :=
  set_slow_client_closed_ (u64 (slow_client_closed_ s + 1)) s.
Definition incrementStaleResponseDropped (s : StatsManager) : StatsManager :=
  set_stale_response_dropped_ (u64 (stale_response_dropped_ s + 1)) s.
Definition incrementAuthSuccess (s : StatsManager) : StatsManager :=
  set_auth_success_ (u64 (auth_success_ s + 1)) s.
Definition incrementAuthFailure (s : StatsManager) : StatsManager :=
  set_auth_failure_ (u64 (auth_failure_ s + 1)) s.
Definition incrementAuthQueueRejected (s : StatsManager) : StatsManager :=
  set_auth_queue_rejected_ (u64 (auth_queue_rejected_ s + 1)) s.
Definition incrementAuthTaskCancelledBeforeStart (s : StatsManager) : StatsManager :=
  set_auth_tasks_cancelled_before_start_ (u64 (auth_tasks_cancelled_before_start_ s + 1)) s.

Definition recordAuthResult (outcome : AuthOutcome) (duration_us : Z) (s : StatsManager)
    : StatsManager :=
  let s :=
    match outcome with
    | Allowed => set_auth_allowed_ (u64 (auth_allowed_ s + 1)) s
    | Denied => set_auth_denied_ (u64 (auth_denied_ s + 1)) s
    | Unavailable => set_auth_unavailable_ (u64 (auth_unavailable_ s + 1)) s
    end in
  let s := set_auth_duration_count_ (u64 (auth_duration_count_ s + 1)) s in
  set_auth_duration_total_us_ (u64 (auth_duration_total_us_ s + duration_us)) s.

(** The members of [StatsSnapshot]. *)
Inductive StatsSnapshot :=
  | snap_total_requests
  | snap_errors
  | snap_bytes_in
  | snap_bytes_out
  | snap_active_connections
  | snap_request_queue_rejected
  | snap_response_queue_rejected
  | snap_response_queue_rejected_normal
  | snap_response_queue_rejected_auth
  | snap_slow_client_closed
  | snap_stale_response_dropped
  | snap_auth_success
  | snap_auth_failure
  | snap_auth_queue_rejected
  | snap_auth_tasks_cancelled_before_start
  | snap_auth_allowed
  | snap_auth_denied
  | snap_auth_unavailable
  | snap_auth_duration_count
  | snap_auth_duration_total_us.

#[export] Instance StatsSnapshot_eq_dec : EqDecision StatsSnapshot.
Proof. solve_decision. Defined.

(** The atomic load that [snapshot] stores in a member. *)
Definition snapshot_load (member : StatsSnapshot) (s : StatsManager) : Z :=
  match member with
  | snap_total_requests => total_requests_ s
  | snap_errors => total_errors_ s
  | snap_bytes_in => total_bytes_read s
  | snap_bytes_out => total_bytes_sent s
  | snap_active_connections => active_connections s
  | snap_request_queue_rejected => request_queue_rejected_ s
  | snap_response_queue_rejected => response_queue_rejected_ s
  | snap_response_queue_rejected_normal => response_queue_rejected_normal_ s
  | snap_response_queue_rejected_auth => response_queue_rejected_auth_ s
  | snap_slow_client_closed => slow_client_closed_ s
  | snap_stale_response_dropped => stale_response_dropped_ s
  | snap_auth_success => auth_success_ s
  | snap_auth_failure => auth_failure_ s
  | snap_auth_queue_rejected => auth_queue_rejected_ s
  | snap_auth_tasks_cancelled_before_start => auth_tasks_cancelled_before_start_ s
  | snap_auth_allowed => auth_allowed_ s
  | snap_auth_denied => auth_denied_ s
  | snap_auth_unavailable => auth_unavailable_ s
  | snap_auth_duration_count => auth_duration_count_ s
  | snap_auth_duration_total_us => auth_duration_total_us_ s
  end.

(** [snapshot] makes its loads one after the other, in this order; other
    threads run in between. *)
Definition snapshot : list StatsSnapshot :=
  [snap_total_requests; snap_errors; snap_bytes_in;
   snap_bytes_out; snap_active_connections; snap_request_queue_rejected;
   snap_response_queue_rejected; snap_response_queue_rejected_normal; snap_response_queue_rejected_auth;
   snap_slow_client_closed; snap_stale_response_dropped; snap_auth_success;
   snap_auth_failure; snap_auth_queue_rejected; snap_auth_tasks_cancelled_before_start;
   snap_auth_allowed; snap_auth_denied; snap_auth_unavailable;
   snap_auth_duration_count; snap_auth_duration_total_us].

(** The accounting that the counters keep among themselves. *)
Definition stats_ok (s : StatsManager) : Prop :=
  response_queue_rejected_ s =
    u64 (response_queue_rejected_normal_ s + response_queue_rejected_auth_ s) ∧
  auth_duration_count_ s = u64 (auth_allowed_ s + auth_denied_ s + auth_unavailable_ s) ∧
  0 ≤ active_connections s.

(** One call of an operation, by name. *)
Inductive StatsOp :=
  | SRequests | SLogMessages | SErrors | SReadBytes (n : Z) | SWriteBytes (n : Z)
  | SConnect | SDisconnect | SRequestRejected | SResponseRejectedNormal
  | SResponseRejectedAuth | SSlowClient | SStale | SAuthSuccess | SAuthFailure
  | SAuthQueueRejected | SAuthCancelled | SAuthResult (o : AuthOutcome) (us : Z).

Definition stats_step (op : StatsOp) : StatsManager → StatsManager :=
  match op with
  | SRequests => incrementRequests
  | SLogMessages => incrementLogMessages
  | SErrors => incrementErrors
  | SReadBytes n => incrementReadBytes n
  | SWriteBytes n => incrementWriteBytes n
  | SConnect => incrementConnections
  | SDisconnect => decrementConnections
  | SRequestRejected => incrementRequestQueueRejected
  | SResponseRejectedNormal => incrementResponseQueueRejectedNormal
  | SResponseRejectedAuth => incrementResponseQueueRejectedAuth
  | SSlowClient => incrementSlowClientClosed
  | SStale => incrementStaleResponseDropped
  | SAuthSuccess => incrementAuthSuccess
  | SAuthFailure => incrementAuthFailure
  | SAuthQueueRejected => incrementAuthQueueRejected
  | SAuthCancelled => incrementAuthTaskCancelledBeforeStart
  | SAuthResult o us => recordAuthResult o us
  end.

(** ** Lemmas *)

Lemma u64_add_l a b : u64 (u64 a + b) = u64 (a + b).
Proof. unfold u64. by rewrite Zplus_mod_idemp_l. Qed.

Lemma u64_add_r a b : u64 (a + u64 b) = u64 (a + b).
Proof. unfold u64. by rewrite Zplus_mod_idemp_r. Qed.

Lemma u64_add_l3 a b c : u64 (u64 a + b + c) = u64 (a + b + c).
Proof. rewrite <- !Z.add_assoc. apply u64_add_l. Qed.

Lemma u64_add_m3 a b c : u64 (a + u64 b + c) = u64 (a + b + c).
Proof. rewrite (Z.add_comm a (u64 b)), u64_add_l3. f_equal. lia. Qed.

Create Rewrite HintDb u64.
#[export] Hint Rewrite u64_add_l u64_add_r u64_add_l3 u64_add_m3 : u64.

Lemma stats_step_ok op s : stats_ok s → stats_ok (stats_step op s).
Proof.
  intros (H1 & H2 & H3).
  destruct op as [| | | | | | | | | | | | | | | |[] us]; unfold stats_ok; simpl;
    unfold decrementConnections; try case_bool; rewrite ?Z.gtb_ltb in *; bool_facts; simpl;
    rewrite ?H1, ?H2; autorewrite with u64; split_and!;
    try done; try apply u64_range; try lia; f_equal; lia.
Qed.

(** ** Theorems *)

(** The split counters account for their totals after every sequence of
    operations: the rejected responses are those rejected for normal plus
    those rejected for AUTH workers, every recorded authentication duration
    belongs to exactly one outcome (all modulo the counter width), and the
    number of active connections never goes below zero, also when more
    connections are closed than were opened. *)
Theorem stats_accounting ops :
  stats_ok (fold_left (fun s op => stats_step op s) ops newStats).
Proof.
  assert (Hok : stats_ok newStats) by (by split_and!). revert Hok. generalize newStats.
  induction ops as [|op ops IH]; intros s Hs; simpl; auto using stats_step_ok.
Qed.
