(* ===== verification/Json.v ===== *)
(** * JSON values and the interface of the JSON library

    The value type of the vendored [include/nlohmann/json.hpp] with the
    accessors the gateway uses, what a well-formed value is (valid UTF-8, keys
    in order, numbers within their types and finite), and the class [JsonLib] of what the
    gateway relies on from the library's [parse] and [dump].  The library's
    lexer, parser and serializer are modelled in [JsonLexer], [JsonParser] and
    [JsonDump]; [JsonRound] proves the laws for them and declares the instance
    [nlohmann]. *)

From S2P Require Import Prelude Double.
From Stdlib Require Import Sorted.
#[local] Open Scope Z_scope.

(** [basic_json] by its [value_t].  The parser stores a non-negative integer
    literal as [number_unsigned] (up to [2^64 - 1]), a negative one as
    [number_integer], and any other number as [number_float], a [double] that
    is kept as its bit pattern.  An object is the sequence of its members in
    key order. *)
Inductive json :=
  | JNull
  | JBoolean (b : bool)
  | JInteger (z : Z)
  | JUnsigned (z : Z)
  | JFloat (value : Z)
  | JString (s : bytes)
  | JArray (elements : list json)
  | JObject (members : list (bytes * json)).

(** How [json::parse] ends: with a value, or with an exception
    ([out_of_range] is for a number beyond the range of [double]). *)
Inductive json_exception := parse_error | out_of_range.

Inductive parse_outcome := Parsed (j : json) | Raised (e : json_exception).

Definition is_object (j : json) : bool := match j with JObject _ => true | _ => false end.
Definition is_string (j : json) : bool := match j with JString _ => true | _ => false end.
Definition is_boolean (j : json) : bool := match j with JBoolean _ => true | _ => false end.
Definition is_number_integer (j : json) : bool :=
  match j with JInteger _ | JUnsigned _ => true | _ => false end.
Definition is_number_unsigned (j : json) : bool :=
  match j with JUnsigned _ => true | _ => false end.

Fixpoint find_member (key : bytes) (members : list (bytes * json)) : option json :=
  match members with
  | [] => None
  | (k, v) :: rest => if bool_decide (k = key) then Some v else find_member key rest
  end.

(** [at(key)]: [None] when it throws (not an object, or no such member). *)
Definition json_at (key : bytes) (j : json) : option json :=
  match j with JObject members => find_member key members | _ => None end.

Definition contains (key : bytes) (j : json) : bool := bool_decide (is_Some (json_at key j)).

(** [get<std::string>()] and [get<bool>()]: [None] when they throw. *)
Definition get_string (j : json) : option bytes :=
  match j with JString s => Some s | _ => None end.
Definition get_bool (j : json) : option bool :=
  match j with JBoolean b => Some b | _ => None end.

(** [get<int64_t>()] of an integer value, the only ones the gateway asks it
    of ([is_number_integer] is tested first): an unsigned value is converted
    modulo [2^64] to the signed range. *)
Definition to_int64 (z : Z) : Z := (z + 2 ^ 63) mod 2 ^ 64 - 2 ^ 63.

Definition get_int64 (j : json) : option Z :=
  match j with
  | JInteger z => Some z
  | JUnsigned z => Some (to_int64 z)
  | _ => None
  end.

(** The key order of objects ([std::map] with [std::less]): bytes compare as
    unsigned characters, and a proper prefix comes first. *)
Fixpoint key_lt (a b : bytes) : bool :=
  match a, b with
  | _, [] => false
  | [], _ :: _ => true
  | x :: a, y :: b =>
      (byte_val x <? byte_val y) || ((byte_val x =? byte_val y) && key_lt a b)
  end.

(** [object->emplace(key, v)]: an existing member is kept. *)
Fixpoint emplace_member (key : bytes) (v : json) (members : list (bytes * json))
    : list (bytes * json) :=
  match members with
  | [] => [(key, v)]
  | (k, w) :: rest =>
      if bool_decide (k = key) then (k, w) :: rest
      else if key_lt key k then (key, v) :: (k, w) :: rest
      else (k, w) :: emplace_member key v rest
  end.

(** The object built from an initializer list of key/value pairs. *)
Definition json_of_pairs (pairs : list (bytes * json)) : json :=
  JObject (fold_left (fun m '(k, v) => emplace_member k v m) pairs []).

(** [object->operator[](key) = v]: an existing member is overwritten. *)
Fixpoint assign_member (key : bytes) (v : json) (members : list (bytes * json))
    : list (bytes * json) :=
  match members with
  | [] => [(key, v)]
  | (k, w) :: rest =>
      if bool_decide (k = key) then (k, v) :: rest
      else if key_lt key k then (key, v) :: (k, w) :: rest
      else (k, w) :: assign_member key v rest
  end.

(** ** Well-formed UTF-8 (RFC 3629)

    The bytes of one code point: the lead byte gives the length and the range
    of the second byte, which excludes overlong forms, surrogates and code
    points above U+10FFFF. *)
Definition in_range (lo hi z : Z) : Prop := lo ≤ z ≤ hi.

Definition second_byte (lead : Z) : Z * Z :=
  if lead =? 0xE0 then (0xA0, 0xBF) else if lead =? 0xED then (0x80, 0x9F)
  else if lead =? 0xF0 then (0x90, 0xBF) else if lead =? 0xF4 then (0x80, 0x8F)
  else (0x80, 0xBF).

Inductive utf8_char : bytes → Prop :=
  | utf8_1 a : in_range 0 0x7F (byte_val a) → utf8_char [a]
  | utf8_2 a b : in_range 0xC2 0xDF (byte_val a) → in_range 0x80 0xBF (byte_val b) →
      utf8_char [a; b]
  | utf8_3 a b c : in_range 0xE0 0xEF (byte_val a) →
      in_range (second_byte (byte_val a)).1 (second_byte (byte_val a)).2 (byte_val b) →
      in_range 0x80 0xBF (byte_val c) → utf8_char [a; b; c]
  | utf8_4 a b c d : in_range 0xF0 0xF4 (byte_val a) →
      in_range (second_byte (byte_val a)).1 (second_byte (byte_val a)).2 (byte_val b) →
      in_range 0x80 0xBF (byte_val c) → in_range 0x80 0xBF (byte_val d) →
      utf8_char [a; b; c; d].

Inductive utf8 : bytes → Prop :=
  | utf8_nil : utf8 []
  | utf8_app c s : utf8_char c → utf8 s → utf8 (c ++ s).

(** ** Well-formed values *)

Definition member_lt (a b : bytes * json) : Prop := key_lt a.1 b.1 = true.

Inductive json_wf : json → Prop :=
  | wf_null : json_wf JNull
  | wf_boolean b : json_wf (JBoolean b)
  | wf_integer z : - 2 ^ 63 ≤ z ≤ INT64_MAX → json_wf (JInteger z)
  | wf_unsigned z : 0 ≤ z ≤ UINT64_MAX → json_wf (JUnsigned z)
  | wf_float value : double_ok value → json_wf (JFloat value)
  | wf_string s : utf8 s → json_wf (JString s)
  | wf_array l : Forall json_wf l → json_wf (JArray l)
  | wf_object m : StronglySorted member_lt m → Forall (λ kv, utf8 kv.1) m →
      Forall (λ kv, json_wf kv.2) m → json_wf (JObject m).

(** The form in which the parser stores a value: a number that is not negative
    is unsigned. *)
Fixpoint canon (j : json) : json :=
  match j with
  | JInteger z => if 0 <=? z then JUnsigned z else JInteger z
  | JArray l => JArray (map canon l)
  | JObject m => JObject (map (λ kv, (kv.1, canon kv.2)) m)
  | _ => j
  end.

(** ** The library as the gateway uses it

    [json_read] is [json::parse(text)], [json_dump] is [value.dump()], [None]
    when it throws. *)
Class JsonLib := {
  json_read : bytes → parse_outcome;
  json_dump : json → option bytes;
  json_read_wf text j : json_read text = Parsed j → json_wf j;
  json_dump_wf j : json_wf j → is_Some (json_dump j);
  json_read_dump j text :
    json_wf j → json_dump j = Some text → json_read text = Parsed (canon j);
}.

(** [parse] where every exception is treated alike. *)
Definition json_parse `{JsonLib} (text : bytes) : option json :=
  match json_read text with Parsed j => Some j | Raised _ => None end.

(** ** Lemmas *)

Lemma to_int64_small z : - 2 ^ 63 ≤ z ≤ INT64_MAX → to_int64 z = z.
Proof. unfold to_int64, INT64_MAX. intros. rewrite Z.mod_small; lia. Qed.

Lemma contains_at key j : contains key j = true ↔ ∃ v, json_at key j = Some v.
Proof. unfold contains. rewrite bool_decide_eq_true. done. Qed.

(** ** Lemmas: members in key order *)

Lemma byte_val_inj a b : byte_val a = byte_val b → a = b.
Proof. intros E. by rewrite <- (byte_of_val a), <- (byte_of_val b), E. Qed.

Lemma key_lt_irrefl a : key_lt a a = false.
Proof. induction a as [|x a IH]; [done|]. simpl. by rewrite Z.ltb_irrefl, Z.eqb_refl, IH. Qed.

Lemma key_lt_trans a b c : key_lt a b = true → key_lt b c = true → key_lt a c = true.
Proof.
  revert a c. induction b as [|y b IH]; intros [|x a] [|z c]; simpl; try done.
  rewrite !orb_true_iff, !andb_true_iff, !Z.ltb_lt, !Z.eqb_eq.
  intros [?|[? ?]] [?|[? ?]]; [left; lia|left; lia|left; lia|right]. split; [lia|eauto].
Qed.

Lemma key_lt_total a b : a ≠ b → key_lt b a = false → key_lt a b = true.
Proof.
  revert b. induction a as [|x a IH]; intros [|y b]; simpl; try done. intros Hne.
  rewrite orb_false_iff, andb_false_iff, Z.ltb_ge, Z.eqb_neq, orb_true_iff, andb_true_iff, Z.ltb_lt, Z.eqb_eq.
  intros [Hxy [?|Hk]]; [left; lia|]. destruct (Z.eq_dec (byte_val x) (byte_val y)) as [E|]; [|left; lia].
  right. split; [done|]. apply IH; [|done]. apply byte_val_inj in E as ->. congruence.
Qed.

Lemma assign_emplace k v w m : assign_member k v (emplace_member k w m) = assign_member k v m.
Proof.
  induction m as [|[k' w'] m IH]; simpl; [by rewrite bool_decide_eq_true_2|].
  repeat (case_bool; simpl); bool_facts; subst; rewrite ?bool_decide_eq_true_2 by done;
    rewrite ?bool_decide_eq_false_2, ?E0 by done; try done; congruence.
Qed.

Lemma assign_Forall (P : bytes * json → Prop) k v m :
  P (k, v) → Forall P m → Forall P (assign_member k v m).
Proof.
  intros Hk. induction 1 as [|[k' w] m Hw Hm IH]; simpl; [by repeat constructor|].
  repeat case_bool; bool_facts; subst; by repeat constructor.
Qed.

Lemma assign_sorted k v m : StronglySorted member_lt m → StronglySorted member_lt (assign_member k v m).
Proof.
  induction 1 as [|[k' w] m Hm IH Hw]; simpl; [by repeat constructor|].
  repeat case_bool; bool_facts; subst.
  - constructor; [done|]. eapply Forall_impl; [done|]. intros [] H. exact H.
  - constructor; [by constructor|]. constructor; [done|]. eapply Forall_impl; [done|].
    intros [k2 w2] H. unfold member_lt in *. simpl in *. by eapply key_lt_trans.
  - constructor; [done|]. apply assign_Forall; [|done]. unfold member_lt. simpl. by apply key_lt_total.
Qed.

Lemma emplace_Forall (P : bytes * json → Prop) k v m :
  P (k, v) → Forall P m → Forall P (emplace_member k v m).
Proof.
  intros Hk. induction 1 as [|[k' w] m Hw Hm IH]; simpl; [by repeat constructor|].
  repeat case_bool; by repeat constructor.
Qed.

Lemma emplace_sorted k v m : StronglySorted member_lt m → StronglySorted member_lt (emplace_member k v m).
Proof.
  induction 1 as [|[k' w] m Hm IH Hw]; simpl; [by repeat constructor|].
  repeat case_bool; bool_facts.
  - by constructor.
  - constructor; [by constructor|]. constructor; [done|]. eapply Forall_impl; [done|].
    intros [k2 w2] H. unfold member_lt in *. simpl in *. by eapply key_lt_trans.
  - constructor; [done|]. apply emplace_Forall; [|done]. unfold member_lt. simpl. by apply key_lt_total.
Qed.

(** An object literal of well-formed members is well formed. *)
Lemma json_of_pairs_wf pairs :
  Forall (λ kv, utf8 kv.1 ∧ json_wf kv.2) pairs → json_wf (json_of_pairs pairs).
Proof.
  unfold json_of_pairs. intros Hp.
  assert (Hm : ∀ m, StronglySorted member_lt m → Forall (λ kv, utf8 kv.1) m → Forall (λ kv, json_wf kv.2) m →
    json_wf (JObject (fold_left (λ m '(k, v), emplace_member k v m) pairs m))).
  { induction Hp as [|[k v] pairs [Hk Hv] Hp IH]; intros m Hs Hks Hvs; simpl; [by constructor|].
    apply IH; [by apply emplace_sorted|by apply emplace_Forall|by apply emplace_Forall]. }
  apply Hm; constructor.
Qed.

(** The members of an object literal with distinct keys are found. *)
Lemma find_emplace_ne k k' v m : k ≠ k' → find_member k (emplace_member k' v m) = find_member k m.
Proof.
  intros Hne. induction m as [|[k2 w] m IH]; simpl; [by rewrite bool_decide_eq_false_2 by congruence|].
  case_bool; [done|]. case_bool; simpl; [by rewrite (bool_decide_eq_false_2 (k' = k)) by congruence|].
  by rewrite IH.
Qed.

Lemma find_emplace_new k v m : find_member k m = None → find_member k (emplace_member k v m) = Some v.
Proof.
  induction m as [|[k2 w] m IH]; simpl; [by rewrite bool_decide_eq_true_2|].
  case_bool; [done|]. intros Hn. case_bool; simpl; [by rewrite bool_decide_eq_true_2|]. rewrite E. auto.
Qed.

Lemma json_of_pairs_at pairs k v :
  NoDup pairs.*1 → (k, v) ∈ pairs → json_at k (json_of_pairs pairs) = Some v.
Proof.
  simpl. set (add := λ m '(k, v), emplace_member k v m).
  assert (Hother : ∀ ps m, k ∉ ps.*1 → find_member k (fold_left add ps m) = find_member k m).
  { induction ps as [|[k' v'] ps IH]; intros m Hk; simpl in *; [done|].
    apply not_elem_of_cons in Hk as [? ?]. rewrite IH by done. by apply find_emplace_ne. }
  assert (Hin : ∀ m, find_member k m = None → NoDup pairs.*1 → (k, v) ∈ pairs →
    find_member k (fold_left add pairs m) = Some v); [|by apply Hin].
  induction pairs as [|[k' v'] pairs' IH]; intros m Hm Hnd Hel; [by apply elem_of_nil in Hel|].
  simpl in *. apply NoDup_cons in Hnd as [Hk' Hnd]. apply elem_of_cons in Hel as [[= <- <-]|Hel].
  - rewrite Hother by done. by apply find_emplace_new.
  - apply IH; [|done|done]. rewrite find_emplace_ne; [done|]. intros ->. apply Hk'.
    apply list_elem_of_fmap. by exists (k', v).
Qed.

(** The members of a well-formed object are well formed. *)
Lemma json_at_wf k j v : json_wf j → json_at k j = Some v → json_wf v.
Proof.
  destruct 1 as [| | | | | | |m _ _ Hv]; try done. simpl. induction m as [|[k' w] m IH]; [done|].
  apply Forall_cons in Hv as [? ?]. simpl. case_bool; [by intros [= <-]|auto].
Qed.

Lemma json_parse_string `{JsonLib} text j k s :
  json_parse text = Some j → json_at k j = Some (JString s) → utf8 s.
Proof.
  unfold json_parse. intros Hj Hs. destruct (json_read text) as [j'|] eqn:Er; [|done]. injection Hj as ->.
  apply json_read_wf in Er. apply (json_at_wf _ _ _ Er) in Hs. by inversion Hs.
Qed.

(** Plain ASCII text is valid UTF-8. *)
Definition ascii_text (s : bytes) : bool := forallb (λ c, byte_val c <? 0x80) s.

Lemma ascii_text_utf8 s : ascii_text s = true → utf8 s.
Proof.
  induction s as [|c s IH]; [constructor|]. unfold ascii_text. simpl. intros [Hc Hs]%andb_true_iff. bool_facts.
  change (c :: s) with ([c] ++ s). constructor; [|by apply IH]. constructor. pose proof (byte_val_range c).
  unfold in_range. lia.
Qed.

#[export] Hint Resolve ascii_text_utf8 : gateway.

(** Induction through the nested lists. *)
Lemma json_ind' (P : json → Prop) :
  P JNull → (∀ b, P (JBoolean b)) → (∀ z, P (JInteger z)) → (∀ z, P (JUnsigned z)) →
  (∀ t, P (JFloat t)) → (∀ s, P (JString s)) → (∀ l, Forall P l → P (JArray l)) →
  (∀ m, Forall (λ kv, P kv.2) m → P (JObject m)) → ∀ j, P j.
Proof.
  intros Hn Hb Hi Hu Hf Hs Ha Ho. fix IH 1.
  intros [ |b|z|z|t|s|l|m]; [apply Hn|apply Hb|apply Hi|apply Hu|apply Hf|apply Hs| |].
  - apply Ha. induction l as [|x l IHl]; constructor; [apply IH|apply IHl].
  - apply Ho. induction m as [|[k x] m IHm]; constructor; [apply IH|apply IHm].
Qed.
