(* ===== verification/JsonLexer.v ===== *)
(** * The lexer of the JSON library

    Models [class lexer] of [include/nlohmann/json.hpp] for a [std::string]
    input, without comments (the gateway never asks for them) and in the "C"
    locale.  A character is an [int]: the value of the byte, or [eof].

    The position of the lexer is the input not read yet.  [unget] makes the
    next [get] return the same character again, so a function that ungets
    returns the input it had before that [get].  Positions and texts kept for
    error messages are left out. *)

From S2P Require Import Prelude.
From S2P Require Import Text Double.
From S2P Require Import Json.
#[local] Open Scope Z_scope.

(** [token_type], with the value the lexer holds for the token. *)
Inductive token :=
  | literal_true | literal_false | literal_null
  | value_string (s : bytes)
  | value_unsigned (z : Z)
  | value_integer (z : Z)
  | value_float (value : Z)
  | begin_array | begin_object | end_array | end_object
  | name_separator | value_separator
  | token_error
  | end_of_input.

#[export] Instance token_eq_dec : EqDecision token.
Proof. solve_decision. Defined.

Definition eof : Z := -1.

(** [get()]: the next character and the input after it. *)
Definition get (s : bytes) : Z * bytes :=
  match s with [] => (eof, []) | c :: s => (byte_val c, s) end.

Definition within (lo hi z : Z) : bool := (lo <=? z) && (z <=? hi).

(** ** Strings *)

Definition hex_digit (current : Z) : option Z :=
  if within 0x30 0x39 current then Some (current - 0x30)
  else if within 0x41 0x46 current then Some (current - 0x37)
  else if within 0x61 0x66 current then Some (current - 0x57)
  else None.

(** [get_codepoint()]: the loop over [factors]; [None] is the result -1. *)
Fixpoint codepoint_loop (factors : list Z) (codepoint : Z) (s : bytes) : option (Z * bytes) :=
  match factors with
  | [] => Some (codepoint, s)
  | factor :: factors =>
    let '(current, s) := get s in
    match hex_digit current with
    | Some d => codepoint_loop factors (codepoint + Z.shiftl d factor) s
    | None => None
    end
  end.

Definition get_codepoint (s : bytes) : option (Z * bytes) := codepoint_loop [12; 8; 4; 0] 0 s.

(** [next_byte_in_range(ranges)]: the bytes added to the token buffer. *)
Fixpoint range_loop (ranges : list (Z * Z)) (added : bytes) (s : bytes) : option (bytes * bytes) :=
  match ranges with
  | [] => Some (added, s)
  | (lo, hi) :: ranges =>
    let '(current, s) := get s in
    if within lo hi current then range_loop ranges (added ++ [byte_of current]) s else None
  end.

Definition next_byte_in_range (current : Z) (ranges : list (Z * Z)) (s : bytes)
    : option (bytes * bytes) :=
  range_loop ranges [byte_of current] s.

(** Translating a code point into bytes. *)
Definition codepoint_bytes (codepoint : Z) : bytes :=
  let cont shift := byte_of (Z.lor 0x80 (Z.land (Z.shiftr codepoint shift) 0x3F)) in
  if codepoint <? 0x80 then [byte_of codepoint]
  else if codepoint <=? 0x7FF then [byte_of (Z.lor 0xC0 (Z.shiftr codepoint 6)); cont 0]
  else if codepoint <=? 0xFFFF then
    [byte_of (Z.lor 0xE0 (Z.shiftr codepoint 12)); cont 6; cont 0]
  else [byte_of (Z.lor 0xF0 (Z.shiftr codepoint 18)); cont 12; cont 6; cont 0].

(** The case ['u'] of an escape: the bytes added and the input after it. *)
Definition scan_unicode (s : bytes) : option (bytes * bytes) :=
  '(codepoint1, s) ← get_codepoint s;
  if within 0xD800 0xDBFF codepoint1 then
    let '(c1, s) := get s in
    if negb (c1 =? 0x5C) then None
    else
      let '(c2, s) := get s in
      if negb (c2 =? 0x75) then None
      else
        '(codepoint2, s) ← get_codepoint s;
        if within 0xDC00 0xDFFF codepoint2
        then Some (codepoint_bytes
                     (u32 (u32 (Z.shiftl codepoint1 10) + codepoint2 - 0x35FDC00)), s)
        else None
  else if within 0xDC00 0xDFFF codepoint1 then None
  else Some (codepoint_bytes codepoint1, s).

(** The case of a backslash. *)
Definition scan_escape (s : bytes) : option (bytes * bytes) :=
  let '(current, s) := get s in
  if (current =? 0x22) || (current =? 0x5C) || (current =? 0x2F)
  then Some ([byte_of current], s)
  else if current =? 0x62 then Some ([byte_of 0x08], s)
  else if current =? 0x66 then Some ([byte_of 0x0C], s)
  else if current =? 0x6E then Some ([byte_of 0x0A], s)
  else if current =? 0x72 then Some ([byte_of 0x0D], s)
  else if current =? 0x74 then Some ([byte_of 0x09], s)
  else if current =? 0x75 then scan_unicode s
  else None.

Inductive char_result :=
  | CharEnd (rest : bytes)
  | CharAdd (added rest : bytes)
  | CharError.

Definition add_bytes (r : option (bytes * bytes)) : char_result :=
  match r with Some (added, rest) => CharAdd added rest | None => CharError end.

(** The cases of the control characters, which must be escaped, and of the
    other ASCII characters. *)
Definition is_control (current : Z) : bool := within 0x00 0x1F current.
Definition is_plain (current : Z) : bool := within 0x20 0x7F current.

(** The cases of the lead bytes of two, three and four byte sequences. *)
Definition scan_multibyte (current : Z) (s : bytes) : char_result :=
  let multi ranges := add_bytes (next_byte_in_range current ranges s) in
  let cont := (0x80, 0xBF) in
  if within 0xC2 0xDF current then multi [cont]
  else if current =? 0xE0 then multi [(0xA0, 0xBF); cont]
  else if within 0xE1 0xEC current || within 0xEE 0xEF current then multi [cont; cont]
  else if current =? 0xED then multi [(0x80, 0x9F); cont]
  else if current =? 0xF0 then multi [(0x90, 0xBF); cont; cont]
  else if within 0xF1 0xF3 current then multi [cont; cont; cont]
  else if current =? 0xF4 then multi [(0x80, 0x8F); cont; cont]
  else CharError.

(** One iteration of [scan_string]: the switch over the next character. *)
Definition scan_char (s : bytes) : char_result :=
  let '(current, s) := get s in
  if current =? eof then CharError
  else if current =? 0x22 then CharEnd s
  else if current =? 0x5C then add_bytes (scan_escape s)
  else if is_control current then CharError
  else if is_plain current then CharAdd [byte_of current] s
  else scan_multibyte current s.

(** The [while (true)] loop; [None] when the fuel runs out.  Every iteration
    that continues has read a character ([scan_string_total]). *)
Fixpoint string_loop (fuel : nat) (token_buffer s : bytes) : option (token * bytes) :=
  match fuel with
  | O => None
  | S fuel =>
    match scan_char s with
    | CharEnd rest => Some (value_string token_buffer, rest)
    | CharAdd added rest => string_loop fuel (token_buffer ++ added) rest
    | CharError => Some (token_error, s)
    end
  end.

(** [scan_string()], called after the opening quote was read. *)
Definition scan_string (s : bytes) : token * bytes :=
  default (token_error, s) (string_loop (S (length s)) [] s).

(** ** Numbers

    The labels of [scan_number]; [number_type] is set when the labels
    [minus], [decimal1] and [exponent] are reached. *)
Inductive number_state :=
  | scan_number_minus | scan_number_zero | scan_number_any1 | scan_number_decimal1
  | scan_number_decimal2 | scan_number_exponent | scan_number_sign | scan_number_any2.

Inductive number_type := type_unsigned | type_integer | type_float.

Inductive number_jump := Goto (st : number_state) | Done | Bad.

(** The switch at each label: those of the exponent, and all of them. *)
Definition exponent_next (st : number_state) (current : Z) : number_jump :=
  let digit := within 0x30 0x39 current in
  match st with
  | scan_number_exponent =>
      if (current =? 0x2B) || (current =? 0x2D) then Goto scan_number_sign
      else if digit then Goto scan_number_any2 else Bad
  | scan_number_sign => if digit then Goto scan_number_any2 else Bad
  | _ => if digit then Goto scan_number_any2 else Done
  end.

Definition number_next (st : number_state) (current : Z) : number_jump :=
  let digit := within 0x30 0x39 current in
  let e := (current =? 0x65) || (current =? 0x45) in
  match st with
  | scan_number_minus =>
      if current =? 0x30 then Goto scan_number_zero
      else if within 0x31 0x39 current then Goto scan_number_any1 else Bad
  | scan_number_zero =>
      if current =? 0x2E then Goto scan_number_decimal1
      else if e then Goto scan_number_exponent else Done
  | scan_number_any1 =>
      if digit then Goto scan_number_any1
      else if current =? 0x2E then Goto scan_number_decimal1
      else if e then Goto scan_number_exponent else Done
  | scan_number_decimal1 => if digit then Goto scan_number_decimal2 else Bad
  | scan_number_decimal2 =>
      if digit then Goto scan_number_decimal2
      else if e then Goto scan_number_exponent else Done
  | scan_number_exponent | scan_number_sign | scan_number_any2 => exponent_next st current
  end.

Definition type_at (st : number_state) (ty : number_type) : number_type :=
  match st with
  | scan_number_minus => type_integer
  | scan_number_decimal1 | scan_number_exponent => type_float
  | _ => ty
  end.

(** From a label to [scan_number_done]: the type, the token buffer and the
    input from the character that was ungot. *)
Fixpoint number_loop (st : number_state) (ty : number_type) (token_buffer s : bytes)
    : option (number_type * bytes * bytes) :=
  match s with
  | [] => match number_next st eof with Done => Some (ty, token_buffer, []) | _ => None end
  | c :: rest =>
    match number_next st (byte_val c) with
    | Goto st => number_loop st (type_at st ty) (token_buffer ++ [c]) rest
    | Done => Some (ty, token_buffer, s)
    | Bad => None
    end
  end.

(** [std::strtoull] and [std::strtoll] on the texts the lexer gives them:
    [None] when they set [errno]. *)
Definition strtoull (text : bytes) : option Z :=
  let v := digits_val text in if v <=? UINT64_MAX then Some v else None.

Definition strtoll (text : bytes) : option Z :=
  let v := - digits_val (drop 1 text) in if - 2 ^ 63 <=? v then Some v else None.

(** The conversion after [scan_number_done]. *)
Definition number_token (ty : number_type) (text : bytes) : token :=
  match ty with
  | type_unsigned =>
      match strtoull text with Some x => value_unsigned x | None => value_float (strtod text) end
  | type_integer =>
      match strtoll text with Some x => value_integer x | None => value_float (strtod text) end
  | type_float => value_float (strtod text)
  end.

(** [scan_number()], whose first character [current] was read by the caller. *)
Definition scan_number (current : Z) (s : bytes) : token * bytes :=
  let st := if current =? 0x2D then scan_number_minus
            else if current =? 0x30 then scan_number_zero else scan_number_any1 in
  match number_loop st (type_at st type_unsigned) [byte_of current] s with
  | Some (ty, text, rest) => (number_token ty text, rest)
  | None => (token_error, s)
  end.

(** ** Literals, white space and [scan] *)

(** [scan_literal]: the characters after the first. *)
Fixpoint scan_literal (literal_text : bytes) (return_type : token) (s : bytes) : token * bytes :=
  match literal_text with
  | [] => (return_type, s)
  | x :: literal_text =>
    let '(current, s) := get s in
    if current =? byte_val x then scan_literal literal_text return_type s else (token_error, s)
  end.

(** [skip_bom()]: [None] for an incomplete byte order mark. *)
Definition skip_bom (s : bytes) : option bytes :=
  let '(c1, s1) := get s in
  if c1 =? 0xEF then
    let '(c2, s2) := get s1 in
    let '(c3, s3) := get s2 in
    if (c2 =? 0xBB) && (c3 =? 0xBF) then Some s3 else None
  else Some s.

Definition is_whitespace (current : Z) : bool :=
  (current =? 0x20) || (current =? 0x09) || (current =? 0x0A) || (current =? 0x0D).

(** [skip_whitespace()]: the first other character and the input after it. *)
Fixpoint skip_whitespace (s : bytes) : Z * bytes :=
  match s with
  | [] => (eof, [])
  | c :: s => if is_whitespace (byte_val c) then skip_whitespace s else (byte_val c, s)
  end.

Definition scan_token (current : Z) (s : bytes) : token * bytes :=
  if current =? 0x5B then (begin_array, s)
  else if current =? 0x5D then (end_array, s)
  else if current =? 0x7B then (begin_object, s)
  else if current =? 0x7D then (end_object, s)
  else if current =? 0x3A then (name_separator, s)
  else if current =? 0x2C then (value_separator, s)
  else if current =? 0x74 then scan_literal (lit "rue") literal_true s
  else if current =? 0x66 then scan_literal (lit "alse") literal_false s
  else if current =? 0x6E then scan_literal (lit "ull") literal_null s
  else if current =? 0x22 then scan_string s
  else if (current =? 0x2D) || within 0x30 0x39 current then scan_number current s
  else if (current =? 0x00) || (current =? eof) then (end_of_input, s)
  else (token_error, s).

(** [scan()]; [first] holds when nothing has been read yet. *)
Definition scan (first : bool) (s : bytes) : token * bytes :=
  match (if first then skip_bom s else Some s) with
  | None => (token_error, s)
  | Some s => let '(current, s) := skip_whitespace s in scan_token current s
  end.

#[global] Arguments get : simpl never.
#[global] Arguments scan_char : simpl never.
#[global] Arguments scan : simpl never.

(** ** Lemmas: UTF-8 *)

Lemma utf8_concat a b : utf8 a → utf8 b → utf8 (a ++ b).
Proof. induction 1; [done|]. intros. rewrite <- app_assoc. constructor; auto. Qed.

Lemma utf8_single c : utf8_char c → utf8 c.
Proof. intros Hc. rewrite <- (app_nil_r c). constructor; [done|constructor]. Qed.

(** Adding a value below the low bits of a shifted one. *)
Lemma lor_low a n y : 0 ≤ n → 0 ≤ y < 2 ^ n → Z.lor (Z.shiftl a n) y = Z.shiftl a n + y.
Proof.
  intros Hn Hy. rewrite <- Z.add_lor_land. replace (Z.land (Z.shiftl a n) y) with 0; [lia|].
  symmetry. apply Z.bits_inj'. intros i Hi. rewrite Z.bits_0, Z.land_spec.
  destruct (Z.lt_ge_cases i n).
  - by rewrite Z.shiftl_spec_low.
  - rewrite <- (Z.mod_small y (2 ^ n)) by done. rewrite Z.mod_pow2_bits_high by lia. apply andb_false_r.
Qed.

Lemma cont_byte x : byte_val (byte_of (Z.lor 0x80 (Z.land x 0x3F))) = 0x80 + x mod 64.
Proof.
  assert (0 ≤ x mod 2 ^ 6 < 2 ^ 6) by (apply Z.mod_pos_bound; lia).
  change 0x3F with (Z.ones 6). rewrite Z.land_ones by lia. change (2 ^ 6) with 64 in *.
  rewrite (lor_low 2 6) by lia. change (Z.shiftl 2 6) with 0x80. by rewrite byte_val_of, u8_small by lia.
Qed.

Lemma lead_byte a n y :
  0 ≤ n → 0 ≤ y < 2 ^ n → 0 ≤ Z.shiftl a n + y < 256 →
  byte_val (byte_of (Z.lor (Z.shiftl a n) y)) = Z.shiftl a n + y.
Proof. intros. by rewrite lor_low, byte_val_of, u8_small by lia. Qed.

(** A Unicode scalar value. *)
Definition scalar (cp : Z) : Prop := 0 ≤ cp ≤ 0x10FFFF ∧ ¬ (0xD800 ≤ cp ≤ 0xDFFF).

(** Arithmetic on the quotients and remainders of the code point. *)
Ltac lead_facts :=
  rewrite ?cont_byte;
  rewrite ?(lead_byte 6 5), ?(lead_byte 14 4), ?(lead_byte 30 3)
    by (change (Z.shiftl 6 5) with 192; change (Z.shiftl 14 4) with 224;
        change (Z.shiftl 30 3) with 240; euclid);
  change (Z.shiftl 6 5) with 192; change (Z.shiftl 14 4) with 224; change (Z.shiftl 30 3) with 240.

Lemma codepoint_bytes_utf8 cp : scalar cp → utf8_char (codepoint_bytes cp).
Proof.
  intros [Hr Hs]. unfold codepoint_bytes. rewrite !Z.shiftr_div_pow2 by lia.
  change (2 ^ 6) with 64. change (2 ^ 12) with 4096. change (2 ^ 18) with 262144. change (2 ^ 0) with 1.
  change 0xC0 with (Z.shiftl 6 5). change 0xE0 with (Z.shiftl 14 4). change 0xF0 with (Z.shiftl 30 3).
  case_bool; [|case_bool; [|case_bool]]; bool_facts.
  - apply utf8_1. unfold in_range. rewrite byte_val_of, u8_small by lia. lia.
  - apply utf8_2; lead_facts; unfold in_range; euclid.
  - apply utf8_3; lead_facts; unfold in_range, second_byte; repeat case_bool; bool_facts; simpl; euclid.
  - apply utf8_4; lead_facts; unfold in_range, second_byte; repeat case_bool; bool_facts; simpl; euclid.
Qed.

(** ** Lemmas: strings *)

Lemma within_true lo hi z : within lo hi z = true ↔ lo ≤ z ≤ hi.
Proof. unfold within. rewrite andb_true_iff, !Z.leb_le. done. Qed.

Lemma within_false lo hi z : within lo hi z = false ↔ ¬ (lo ≤ z ≤ hi).
Proof. rewrite <- within_true. by destruct (within lo hi z). Qed.

Ltac range_facts :=
  repeat match goal with
  | H : within _ _ _ = true |- _ => apply within_true in H
  | H : within _ _ _ = false |- _ => apply within_false in H
  | H : orb _ _ = true |- _ => apply orb_true_iff in H as [H|H]
  | H : orb _ _ = false |- _ => apply orb_false_iff in H as [? ?]
  end; bool_facts.

Lemma hex_digit_range c d : hex_digit c = Some d → 0 ≤ d ≤ 15.
Proof. unfold hex_digit. repeat case_bool; intros [= <-]; range_facts; lia. Qed.

Lemma codepoint_loop_range factors n codepoint s cp rest :
  Forall (λ f, 0 ≤ f) factors →
  codepoint_loop factors codepoint s = Some (cp, rest) → 0 ≤ codepoint ≤ n →
  0 ≤ cp ≤ n + foldr (λ f acc, Z.shiftl 15 f + acc) 0 factors ∧
  (length s = length factors + length rest)%nat.
Proof.
  revert n codepoint s. induction factors as [|f fs IH]; intros n codepoint s Hf; simpl.
  - intros [= <- <-] ?. split; [lia|done].
  - apply Forall_cons in Hf as [Hf0 Hf]. destruct s as [|c s]; [done|]. unfold get. cbv iota beta.
    destruct (hex_digit _) as [d|] eqn:Ed; [|done]. apply hex_digit_range in Ed. intros Hl Hn.
    destruct (IH (n + Z.shiftl 15 f) _ _ Hf Hl) as [? ?]; [|split; simpl; lia].
    rewrite !Z.shiftl_mul_pow2 by lia. pose proof (Z.pow_pos_nonneg 2 f). nia.
Qed.

Lemma get_codepoint_range s cp rest :
  get_codepoint s = Some (cp, rest) → 0 ≤ cp ≤ 0xFFFF ∧ (length rest < length s)%nat.
Proof.
  intros Hg. destruct (codepoint_loop_range [12; 8; 4; 0] 0 0 s cp rest); [by repeat constructor|done|lia|].
  simpl in *. split; [done|lia].
Qed.

Lemma range_loop_inv ranges added s r rest :
  Forall (λ r, 0 ≤ r.1) ranges → range_loop ranges added s = Some (r, rest) →
  ∃ bs, s = bs ++ rest ∧ r = added ++ bs ∧
        Forall2 (λ r b, in_range r.1 r.2 (byte_val b)) ranges bs.
Proof.
  revert added s. induction ranges as [|[lo hi] ranges IH]; intros added s Hr; simpl.
  - intros [= <- <-]. exists []. by rewrite app_nil_r.
  - apply Forall_cons in Hr as [Hlo Hr]. destruct s as [|c s]; unfold get.
    + case_bool; range_facts; [unfold eof in *; simpl in *; lia|done].
    + case_bool; [|done]. range_facts. rewrite byte_of_val. intros Hl.
      destruct (IH _ _ Hr Hl) as (bs & -> & -> & Hf). exists (c :: bs).
      by rewrite <- app_assoc; split_and!; [..|constructor].
Qed.

Lemma range_loop_intro ranges added bs rest :
  Forall2 (λ r b, in_range r.1 r.2 (byte_val b)) ranges bs →
  range_loop ranges added (bs ++ rest) = Some (added ++ bs, rest).
Proof.
  intros Hf. revert added. induction Hf as [|[lo hi] b ranges bs Hb Hf IH]; intros added; simpl.
  - by rewrite app_nil_r.
  - unfold get. cbv beta iota. rewrite (proj2 (within_true lo hi _) Hb), byte_of_val, IH, <- app_assoc. done.
Qed.

(** A surrogate pair denotes a code point of a supplementary plane. *)
Lemma surrogate_pair h l :
  0xD800 ≤ h ≤ 0xDBFF → 0xDC00 ≤ l ≤ 0xDFFF →
  u32 (u32 (Z.shiftl h 10) + l - 0x35FDC00) = 0x10000 + (h - 0xD800) * 1024 + (l - 0xDC00).
Proof.
  intros. rewrite Z.shiftl_mul_pow2 by lia. rewrite (u32_small (h * 2 ^ 10)) by lia.
  rewrite u32_small by lia. lia.
Qed.

Lemma scan_unicode_utf8 s added rest :
  scan_unicode s = Some (added, rest) → utf8_char added ∧ (length rest < length s)%nat.
Proof.
  unfold scan_unicode. intros ([cp s1] & (Hcp & Hs1)%get_codepoint_range & H)%bind_Some.
  case_bool.
  - destruct s1 as [|c1 [|c2 s2]]; unfold get in H; simpl in H; [done|repeat case_bool; done|].
    repeat (case_bool; [done|]). apply bind_Some in H as ([cp2 s3] & (Hcp2 & Hs3)%get_codepoint_range & H).
    case_bool; [|done]. injection H as <- <-. range_facts.
    split; [|simpl in *; lia]. apply codepoint_bytes_utf8. rewrite surrogate_pair by lia. split; lia.
  - case_bool; [done|]. injection H as <- <-. range_facts.
    split; [|done]. apply codepoint_bytes_utf8. split; lia.
Qed.

Lemma ascii_utf8 z : 0 ≤ z ≤ 0x7F → utf8_char [byte_of z].
Proof. intros. apply utf8_1. unfold in_range. rewrite byte_val_of, u8_small; lia. Qed.

Lemma scan_escape_utf8 s added rest :
  scan_escape s = Some (added, rest) → utf8_char added ∧ (length rest < length s)%nat.
Proof.
  unfold scan_escape. destruct s as [|c s]; [by unfold get|]. unfold get; cbv beta iota.
  repeat case_bool; intros Hr; try done;
    try (injection Hr as <- <-; range_facts; (split; [apply ascii_utf8; lia|simpl; lia])).
  apply scan_unicode_utf8 in Hr as []. split; [done|simpl; lia].
Qed.

(** The ranges of the bytes that follow a lead byte. *)
Definition cont_ranges (lead : Z) : list (Z * Z) :=
  if lead <=? 0x7F then [] else if lead <=? 0xDF then [(0x80, 0xBF)]
  else if lead <=? 0xEF then [second_byte lead; (0x80, 0xBF)]
  else [second_byte lead; (0x80, 0xBF); (0x80, 0xBF)].

Definition in_ranges (ranges : list (Z * Z)) (bs : bytes) : Prop :=
  Forall2 (λ r b, in_range r.1 r.2 (byte_val b)) ranges bs.

Lemma utf8_char_ranges c bs :
  utf8_char (c :: bs) ↔
    (byte_val c ≤ 0x7F ∨ 0xC2 ≤ byte_val c ≤ 0xF4) ∧ in_ranges (cont_ranges (byte_val c)) bs.
Proof.
  unfold in_ranges, cont_ranges. pose proof (byte_val_range c). split.
  - inversion 1; subst; unfold in_range in *; repeat case_bool; bool_facts; try lia;
      (split; [lia|repeat constructor; simpl; lia]).
  - intros [Hc Hf]. repeat case_bool; bool_facts;
      repeat match goal with H : Forall2 _ (_ :: _) _ |- _ => inversion H; clear H; subst
                           | H : Forall2 _ [] _ |- _ => inversion H; clear H; subst end;
      first [apply utf8_1|apply utf8_2|apply utf8_3|apply utf8_4]; unfold in_range in *; simpl in *; lia.
Qed.

(** The switch of [scan_string], by the class of the byte. *)
Lemma scan_char_multi c s :
  0xC2 ≤ byte_val c ≤ 0xF4 →
  scan_char (c :: s) = add_bytes (next_byte_in_range (byte_val c) (cont_ranges (byte_val c)) s).
Proof.
  intros Hc. unfold scan_char, scan_multibyte, is_control, is_plain, get, cont_ranges, second_byte, eof. cbv beta iota zeta.
  repeat case_bool; range_facts; try done; lia.
Qed.

Lemma scan_char_plain c s :
  0x20 ≤ byte_val c ≤ 0x7F → byte_val c ≠ 0x22 → byte_val c ≠ 0x5C →
  scan_char (c :: s) = CharAdd [c] s.
Proof.
  intros Hc ? ?. unfold scan_char, scan_multibyte, is_control, is_plain, get, eof. cbv beta iota zeta.
  repeat case_bool; range_facts; try lia. by rewrite byte_of_val.
Qed.

Lemma scan_char_invalid c s :
  byte_val c < 0x20 ∨ (0x7F < byte_val c < 0xC2) ∨ 0xF4 < byte_val c → scan_char (c :: s) = CharError.
Proof.
  intros Hc. unfold scan_char, scan_multibyte, is_control, is_plain, get, eof. cbv beta iota zeta. repeat case_bool; range_facts; try done; lia.
Qed.

(** What one iteration adds is the encoding of one code point. *)
Lemma scan_char_utf8 s added rest :
  scan_char s = CharAdd added rest → utf8_char added ∧ (length rest < length s)%nat.
Proof.
  destruct s as [|c s]; [done|]. pose proof (byte_val_range c).
  destruct (decide (byte_val c = 0x22)) as [E|]; [unfold scan_char, get; by rewrite E|].
  destruct (decide (byte_val c = 0x5C)) as [E|].
  { unfold scan_char, get. rewrite E. simpl. unfold add_bytes.
    destruct (scan_escape s) as [[]|] eqn:Es; [|done]. intros [= <- <-].
    apply scan_escape_utf8 in Es as []. split; [done|lia]. }
  destruct (decide (byte_val c < 0x20 ∨ (0x7F < byte_val c < 0xC2) ∨ 0xF4 < byte_val c));
    [by rewrite scan_char_invalid|].
  destruct (decide (byte_val c ≤ 0x7F)).
  - rewrite scan_char_plain by lia. intros [= <- <-]. split; [|simpl; lia]. rewrite <- (byte_of_val c).
    apply ascii_utf8. lia.
  - rewrite scan_char_multi by lia. unfold add_bytes, next_byte_in_range.
    destruct (range_loop _ _ _) as [[r rest']|] eqn:El; [|done]. intros [= <- <-].
    apply range_loop_inv in El as (bs & -> & -> & Hf).
    + rewrite byte_of_val. split; [apply utf8_char_ranges; split; [lia|done]|].
      simpl. rewrite length_app. lia.
    + unfold cont_ranges, second_byte. repeat case_bool; repeat constructor; simpl; lia.
Qed.

Lemma scan_char_end s rest : scan_char s = CharEnd rest → ∃ c, s = c :: rest ∧ byte_val c = 0x22.
Proof.
  unfold scan_char. destruct s as [|c s]; [done|]. unfold scan_multibyte, get, add_bytes; cbv beta iota zeta.
  repeat case_bool; repeat case_match; intros [= <-]. bool_facts. by exists c.
Qed.

(** The loop never runs out of fuel, and a scanned string is valid UTF-8. *)
Lemma string_loop_spec fuel buf s :
  utf8 buf → (length s < fuel)%nat →
  ∃ t rest, string_loop fuel buf s = Some (t, rest) ∧ (length rest ≤ length s)%nat ∧
    (t = token_error ∨ ∃ v, t = value_string v ∧ utf8 v).
Proof.
  revert buf s. induction fuel as [|fuel IH]; intros buf s Hb Hf; [lia|]. simpl.
  destruct (scan_char s) as [rest|added rest|] eqn:Ec.
  - exists (value_string buf), rest. apply scan_char_end in Ec as (c & -> & _).
    split_and!; [done|simpl; lia|eauto].
  - apply scan_char_utf8 in Ec as [Hu Hl].
    destruct (IH (buf ++ added) rest) as (t & r & Ht & Hr & Hw);
      [by apply utf8_concat, utf8_single|lia|]. exists t, r. split_and!; [done|lia|done].
  - exists token_error, s. split_and!; [done|lia|by left].
Qed.

Lemma scan_string_spec s t rest :
  scan_string s = (t, rest) → (length rest ≤ length s)%nat ∧
    (t = token_error ∨ ∃ v, t = value_string v ∧ utf8 v).
Proof.
  unfold scan_string. destruct (string_loop_spec (S (length s)) [] s) as (t' & r & -> & ? & ?);
    [constructor|lia|]. by intros [= <- <-].
Qed.

(** ** Lemmas: numbers *)

(** The labels after a decimal point or an exponent. *)
Definition float_label (st : number_state) : bool :=
  match st with
  | scan_number_minus | scan_number_zero | scan_number_any1 => false
  | _ => true
  end.

Lemma number_next_goto st c st' :
  number_next st c = Goto st' →
  within 0x30 0x39 c = true ∧ float_label st' = float_label st ∧ type_at st' = id ∨
  float_label st' = true ∧ (float_label st = false → type_at st' = λ _, type_float) ∧
    (float_label st = true → ∀ ty, type_at st' ty = ty ∨ type_at st' ty = type_float).
Proof.
  destruct st; unfold number_next, exponent_next; cbv zeta; repeat case_bool; intros [= <-]; range_facts;
    first [left; split_and!; [first [done|apply within_true; lia]|done|done]|right; split_and!; [done|done|first [done|by simpl; auto]]].
Qed.

Lemma number_loop_inv st ty buf s ty' buf' rest :
  (float_label st = true → ty = type_float) →
  number_loop st ty buf s = Some (ty', buf', rest) →
  ∃ k, s = k ++ rest ∧ buf' = buf ++ k ∧
    (ty' = type_float ∨ ty' = ty ∧ Forall (λ c, is_digit c = true) k).
Proof.
  revert st ty buf. induction s as [|c s IH]; intros st ty buf Hst; simpl.
  - destruct (number_next st eof); try done. intros [= <- <- <-]. exists [].
    rewrite !app_nil_r. split_and!; [done|done|right; by split].
  - destruct (number_next st (byte_val c)) as [st'| |] eqn:En; [|intros [= <- <- <-]|done].
    + intros Hl. apply number_next_goto in En as [(Hd & Hf & Ht)|(Hf & Ht & Ht')].
      * rewrite Ht in Hl. destruct (IH st' ty (buf ++ [c])) as (k & -> & -> & Hk); [by rewrite Hf|done|].
        exists (c :: k). split_and!; [done|by rewrite <- app_assoc|].
        destruct Hk as [?|[? ?]]; [by left|right; split; [done|by constructor]].
      * assert (Ety : type_at st' ty = type_float).
        { destruct (float_label st) eqn:Efl; [|by rewrite Ht]. rewrite Hst by done.
          by destruct (Ht' eq_refl type_float). }
        rewrite Ety in Hl. destruct (IH st' type_float (buf ++ [c])) as (k & -> & -> & Hk); [done|done|].
        exists (c :: k). split_and!; [done|by rewrite <- app_assoc|]. left. by destruct Hk as [?|[? _]].
    + exists []. rewrite !app_nil_r. split_and!; [done|done|right; by split].
Qed.

(** ** What [scan] returns *)

Definition token_wf (t : token) : Prop :=
  match t with
  | value_string s => utf8 s
  | value_unsigned z => 0 ≤ z ≤ UINT64_MAX
  | value_integer z => - 2 ^ 63 ≤ z ≤ 0
  | value_float value => 0 ≤ value < 2 ^ 64
  | _ => True
  end.

Lemma scan_number_spec current s t rest :
  within 0x30 0x39 current = true ∨ current = 0x2D →
  scan_number current s = (t, rest) → (length rest ≤ length s)%nat ∧ token_wf t.
Proof.
  intros Hc. unfold scan_number.
  set (st := if current =? 0x2D then _ else _). intros Hs.
  destruct (number_loop _ _ _ _) as [[[ty text] r]|] eqn:El; [|by injection Hs as <- <-].
  injection Hs as <- <-. apply number_loop_inv in El as (k & -> & -> & Hty);
    [|by unfold st; repeat case_bool].
  split; [rewrite length_app; lia|].
  destruct Hty as [->|[-> Hk]]; [apply strtod_range|]. pose proof (digits_val_nonneg k Hk) as Hn.
  destruct Hc as [Hc| ->].
  - assert (Hcd : is_digit (byte_of current) = true).
    { unfold is_digit. rewrite byte_val_of. range_facts. rewrite u8_small by lia.
      apply andb_true_iff; rewrite !Z.leb_le; lia. }
    unfold st. range_facts. repeat case_bool; bool_facts; try lia; simpl; unfold strtoull;
      case_bool; simpl; try apply strtod_range; bool_facts; (split; [|done]); apply (digits_val_nonneg (_ :: _));
      by constructor.
  - unfold st. simpl. unfold strtoll. simpl. rewrite drop_0. case_bool; simpl; [bool_facts; lia|apply strtod_range].
Qed.

Lemma scan_literal_spec text rt s t rest :
  scan_literal text rt s = (t, rest) → (length rest ≤ length s)%nat ∧ (t = rt ∨ t = token_error).
Proof.
  revert s. induction text as [|x text IH]; intros s; simpl; [intros [= <- <-]; auto|].
  destruct s as [|c s]; unfold get; case_bool; intros Hl.
  - apply IH in Hl as []; split; [simpl in *; lia|done].
  - injection Hl as <- <-. auto.
  - apply IH in Hl as []. split; [simpl; lia|done].
  - injection Hl as <- <-. split; [simpl; lia|auto].
Qed.

Lemma skip_whitespace_spec s c rest :
  skip_whitespace s = (c, rest) → c = eof ∧ rest = [] ∨ (length rest < length s)%nat.
Proof.
  revert c rest. induction s as [|a s IH]; intros c rest; simpl; [intros [= <- <-]; auto|].
  case_bool; intros Hl; [|injection Hl as <- <-; simpl; auto with lia].
  destruct (IH _ _ Hl) as [?|?]; [by left|right; lia].
Qed.

Lemma scan_token_spec c s t rest :
  scan_token c s = (t, rest) →
  (length rest ≤ length s)%nat ∧ token_wf t ∧ (c = eof → t = end_of_input).
Proof.
  unfold scan_token. intros Ht.
  repeat (case_bool; [try (injection Ht as <- <-; split_and!; [lia|done|intros ->; done])|]);
    range_facts; try (subst c; apply scan_literal_spec in Ht as [? [->| ->]]; split_and!; done).
  - subst c. apply scan_string_spec in Ht as [? [->|(v & -> & ?)]]; split_and!; done.
  - subst c. apply scan_number_spec in Ht as []; [split_and!; done|by right].
  - apply scan_number_spec in Ht as []; [split_and!; [done|done|intros ->; unfold eof in *; lia]|].
    left. by apply within_true.
  - injection Ht as <- <-. split_and!; [lia|done|done].
Qed.

(** Only the end of the bytes and a NUL byte give [end_of_input]. *)
Lemma scan_token_end c s t rest :
  scan_token c s = (t, rest) → t = end_of_input ↔ c = 0x00 ∨ c = eof.
Proof.
  unfold scan_token. intros Ht.
  repeat (case_bool; [try (injection Ht as <- <-; split; [done|unfold eof; lia])|]); range_facts;
    try (subst c; apply scan_literal_spec in Ht as [_ [->| ->]]; (split; [done|unfold eof; lia])).
  - subst c. apply scan_string_spec in Ht as [_ [->|(v & -> & _)]]; (split; [done|unfold eof; lia]).
  - subst c. split; [|unfold eof; lia]. intros ->. unfold scan_number in Ht.
    destruct (number_loop _ _ _ _) as [[[[] text] r]|] eqn:El; unfold number_token in Ht; repeat case_match; simplify_eq.
  - split; [|unfold eof; lia]. intros ->. unfold scan_number in Ht.
    destruct (number_loop _ _ _ _) as [[[[] text] r]|] eqn:El; unfold number_token in Ht; repeat case_match; simplify_eq.
  - injection Ht as <- <-. split; [auto|done].
  - injection Ht as <- <-. split; [auto|done].
  - injection Ht as <- <-. split; [done|lia].
Qed.

(** The bytes that end the input for the lexer: white space, and then either
    nothing or a NUL byte, whatever follows it. *)
Definition ends (s : bytes) : Prop :=
  ∃ ws, Forall (λ c, is_whitespace (byte_val c) = true) ws ∧ (s = ws ∨ ∃ tail, s = ws ++ "000"%char :: tail).

Lemma skip_whitespace_end s : (skip_whitespace s).1 = 0x00 ∨ (skip_whitespace s).1 = eof ↔ ends s.
Proof.
  unfold ends. split.
  - induction s as [|c s IH]; simpl; [exists []; auto|]. case_bool; simpl.
    + intros (ws & Hw & Hs)%IH. exists (c :: ws). split; [by constructor|].
      destruct Hs as [->|(tail & ->)]; [by left|right; by exists tail].
    + intros [Hc|Hc]; [|pose proof (byte_val_range c); unfold eof in Hc; lia].
      exists []. split; [constructor|]. right. exists s. simpl. f_equal. rewrite <- (byte_of_val c). by rewrite Hc.
  - intros (ws & Hw & Hs). revert s Hs. induction Hw as [|c ws Hc Hw IH]; intros s Hs.
    + destruct Hs as [->|(tail & ->)]; simpl; auto.
    + destruct Hs as [->|(tail & ->)]; simpl; rewrite Hc; apply IH; eauto.
Qed.

Lemma scan_end s : (scan false s).1 = end_of_input ↔ ends s.
Proof.
  rewrite <- skip_whitespace_end. unfold scan. destruct (skip_whitespace s) as [c s1]. simpl.
  destruct (scan_token c s1) as [t rest] eqn:Et. simpl. by apply scan_token_end in Et.
Qed.

Lemma scan_spec first s t rest :
  scan first s = (t, rest) →
  (length rest ≤ length s)%nat ∧ token_wf t ∧
  (t ≠ token_error → t ≠ end_of_input → (length rest < length s)%nat).
Proof.
  unfold scan. assert (Hb : ∀ s', (if first then skip_bom s else Some s) = Some s' →
    (length s' ≤ length s)%nat).
  { intros s'. destruct first; [|by intros [= <-]]. unfold skip_bom.
    destruct s as [|a [|b [|c s]]]; unfold get; repeat case_bool; intros [= <-]; simpl; lia. }
  destruct (if first then _ else _) as [s'|]; [|intros [= <- <-]; split_and!; [lia|done|done]].
  specialize (Hb s' eq_refl). destruct (skip_whitespace s') as [c s1] eqn:Ew.
  intros (Hl & Hw & Hc)%scan_token_spec. apply skip_whitespace_spec in Ew as [[-> ->]|Hs1].
  - rewrite (Hc eq_refl). simpl in *. split_and!; [lia|done|done].
  - split_and!; [lia|done|lia].
Qed.
