(* ===== verification/JsonParser.v ===== *)
(** * The parser of the JSON library

    Models [class parser] and [class json_sax_dom_parser] of
    [include/nlohmann/json.hpp] as [json::parse(text)] uses them: no callback,
    exceptions allowed, strict.

    [ref_stack] holds pointers from the root of the value being built to its
    innermost open array or object, and [object_element] points to the member
    that the next value is written to.  In the model an open container is kept
    on the stack itself ([frame]), with the key of the member to be written
    for an object, and is stored in its parent when it is closed; nothing
    reads the parent in between. *)

From S2P Require Import Prelude.
From S2P Require Import Text Double.
From S2P Require Import Json.
From S2P Require Import JsonLexer.
From Stdlib Require Import Sorted.
#[local] Open Scope Z_scope.
#[local] Opaque isfinite.

Inductive frame :=
  | FArray (elements : list json)
  | FObject (members : list (bytes * json)) (object_element : bytes).

Record Dom := mkDom {
  root : json;
  ref_stack : list frame;
}.

(** [basic_json result;] is null. *)
Definition newDom : Dom := mkDom JNull [].

(** ** The events *)

Definition handle_value (v : json) (d : Dom) : Dom :=
  match ref_stack d with
  | [] => mkDom v []
  | FArray elements :: stack => mkDom (root d) (FArray (elements ++ [v]) :: stack)
  | FObject members k :: stack => mkDom (root d) (FObject (assign_member k v members) k :: stack)
  end.

Definition start_array (d : Dom) : Dom := mkDom (root d) (FArray [] :: ref_stack d).
Definition start_object (d : Dom) : Dom := mkDom (root d) (FObject [] [] :: ref_stack d).

(** [key(val)] adds a null member when there is none with that key. *)
Definition key (val : bytes) (d : Dom) : Dom :=
  match ref_stack d with
  | FObject members _ :: stack =>
      mkDom (root d) (FObject (emplace_member val JNull members) val :: stack)
  | _ => d
  end.

Definition end_container (d : Dom) : Dom :=
  match ref_stack d with
  | FArray elements :: stack => handle_value (JArray elements) (mkDom (root d) stack)
  | FObject members _ :: stack => handle_value (JObject members) (mkDom (root d) stack)
  | [] => d
  end.

(** ** sax_parse_internal *)

(** How a part of the loop's body ends: a value is complete ([break], or a
    closed container), another value follows ([continue]), the loop returns,
    or it throws.  [states] tells arrays ([true]) from objects, innermost
    first. *)
Inductive switch_result :=
  | Break (states : list bool) (d : Dom) (s : bytes)
  | Continue (last_token : token) (states : list bool) (d : Dom) (s : bytes)
  | Return (j : json) (s : bytes)
  | Throw (e : json_exception).

(** A key and its separator: the remaining steps are those of the two places
    that read a member. *)
Definition parse_member (k : token) (states : list bool) (d : Dom) (s : bytes) : switch_result :=
  match k with
  | value_string val =>
    let d := key val d in
    match scan false s with
    | (name_separator, s) => let '(last_token, s) := scan false s in Continue last_token states d s
    | _ => Throw parse_error
    end
  | _ => Throw parse_error
  end.

Definition parse_value (last_token : token) (states : list bool) (d : Dom) (s : bytes)
    : switch_result :=
  match last_token with
  | begin_object =>
    let d := start_object d in
    let '(last_token, s) := scan false s in
    if bool_decide (last_token = end_object) then Break states (end_container d) s
    else parse_member last_token (false :: states) d s
  | begin_array =>
    let d := start_array d in
    let '(last_token, s) := scan false s in
    if bool_decide (last_token = end_array) then Break states (end_container d) s
    else Continue last_token (true :: states) d s
  | value_float value =>
    if isfinite value then Break states (handle_value (JFloat value) d) s else Throw out_of_range
  | literal_false => Break states (handle_value (JBoolean false) d) s
  | literal_null => Break states (handle_value JNull d) s
  | literal_true => Break states (handle_value (JBoolean true) d) s
  | value_integer z => Break states (handle_value (JInteger z) d) s
  | value_string v => Break states (handle_value (JString v) d) s
  | value_unsigned z => Break states (handle_value (JUnsigned z) d) s
  | token_error | end_of_input | end_array | end_object | name_separator | value_separator =>
      Throw parse_error
  end.

(** After a value, inside the array or object on top of [states]. *)
Definition after_value (array : bool) (states : list bool) (d : Dom) (s : bytes) : switch_result :=
  let '(last_token, s) := scan false s in
  if array then
    if bool_decide (last_token = value_separator)
    then let '(last_token, s) := scan false s in Continue last_token (true :: states) d s
    else if bool_decide (last_token = end_array) then Break states (end_container d) s
    else Throw parse_error
  else
    if bool_decide (last_token = value_separator)
    then let '(last_token, s) := scan false s in parse_member last_token (false :: states) d s
    else if bool_decide (last_token = end_object) then Break states (end_container d) s
    else Throw parse_error.

(** Where the [while (true)] loop stands: at the switch with its token, or at
    the state evaluation (below the switch, or with
    [skip_to_state_evaluation] set). *)
Inductive position := AtSwitch (last_token : token) | AtStates.

Definition sax_step (pos : position) (states : list bool) (d : Dom) (s : bytes) : switch_result :=
  match pos with
  | AtSwitch last_token => parse_value last_token states d s
  | AtStates =>
    match states with
    | [] => Return (root d) s
    | array :: states => after_value array states d s
    end
  end.

(** The loop: its outcome and the input left; [None] when the fuel runs out. *)
Fixpoint sax_loop (fuel : nat) (pos : position) (states : list bool) (d : Dom) (s : bytes)
    : option (parse_outcome * bytes) :=
  match fuel with
  | O => None
  | S fuel =>
    match sax_step pos states d s with
    | Break states d s => sax_loop fuel AtStates states d s
    | Continue last_token states d s => sax_loop fuel (AtSwitch last_token) states d s
    | Return j s => Some (Parsed j, s)
    | Throw e => Some (Raised e, s)
    end
  end.

(** [parser::parse] on a text: the constructor reads the first token, and after
    the value the input must end.  [None] when the loop has not ended within
    [fuel] rounds. *)
Definition parse_run (fuel : nat) (text : bytes) : option parse_outcome :=
  let '(last_token, s) := scan true text in
  match sax_loop fuel (AtSwitch last_token) [] newDom s with
  | Some (Parsed j, s) =>
      Some (if bool_decide ((scan false s).1 = end_of_input) then Parsed j else Raised parse_error)
  | Some (Raised e, _) => Some (Raised e)
  | None => None
  end.

(** As many rounds as any text of this length needs ([parse_run_parse]). *)
Definition parse_fuel (text : bytes) : nat := 2 * length text + 4.

(** [json::parse(text)].  The default is never taken ([parse_run_parse]). *)
Definition parse (text : bytes) : parse_outcome :=
  default (Raised parse_error) (parse_run (parse_fuel text) text).

(** ** The grammar

    The values a sequence of tokens stands for.  Elements and members are
    listed from the left; a repeated key overwrites the earlier member. *)
Inductive derives : list token → json → Prop :=
  | D_true : derives [literal_true] (JBoolean true)
  | D_false : derives [literal_false] (JBoolean false)
  | D_null : derives [literal_null] JNull
  | D_string s : derives [value_string s] (JString s)
  | D_unsigned z : derives [value_unsigned z] (JUnsigned z)
  | D_integer z : derives [value_integer z] (JInteger z)
  | D_float value : isfinite value = true → derives [value_float value] (JFloat value)
  | D_array0 : derives [begin_array; end_array] (JArray [])
  | D_array ts l : derives_elements ts l → derives (begin_array :: ts ++ [end_array]) (JArray l)
  | D_object0 : derives [begin_object; end_object] (JObject [])
  | D_object ts m : derives_members ts m → derives (begin_object :: ts ++ [end_object]) (JObject m)
with derives_elements : list token → list json → Prop :=
  | E_one us v : derives us v → derives_elements us [v]
  | E_more ts l us v :
      derives_elements ts l → derives us v → derives_elements (ts ++ value_separator :: us) (l ++ [v])
with derives_members : list token → list (bytes * json) → Prop :=
  | M_one k us v :
      derives us v → derives_members (value_string k :: name_separator :: us) [(k, v)]
  | M_more ts m k us v :
      derives_members ts m → derives us v →
      derives_members (ts ++ value_separator :: value_string k :: name_separator :: us)
        (assign_member k v m).

Scheme derives_mut := Minimality for derives Sort Prop
  with elements_mut := Minimality for derives_elements Sort Prop
  with members_mut := Minimality for derives_members Sort Prop.
Combined Scheme grammar_ind from derives_mut, elements_mut, members_mut.

(** Reading the tokens [ts] from [s] leaves [s']. *)
Inductive reads : bytes → list token → bytes → Prop :=
  | R_nil s : reads s [] s
  | R_cons s t s1 ts s' : scan false s = (t, s1) → reads s1 ts s' → reads s (t :: ts) s'.

(** The tokens [ts] are the first of the text, and [s] is left. *)
Definition lexed (text : bytes) (ts : list token) (s : bytes) : Prop :=
  ∃ t us s0, ts = t :: us ∧ scan true text = (t, s0) ∧ reads s0 us s.

(** The tokens of a text up to the end of the input, which is the end of the
    bytes or a NUL byte outside a string ([scan_end]). *)
Definition lexes (text : bytes) (ts : list token) : Prop :=
  ∃ s s', lexed text ts s ∧ scan false s = (end_of_input, s').

(** ** Lemmas: reading tokens *)

Lemma reads_app s a b s' : reads s (a ++ b) s' ↔ ∃ s1, reads s a s1 ∧ reads s1 b s'.
Proof.
  split.
  - revert s. induction a as [|t a IH]; intros s; simpl; [intros; exists s; by split; [constructor|]|].
    inversion 1; subst. destruct (IH s1) as (s2 & ? & ?); [done|]. exists s2. split; [by econstructor|done].
  - intros (s1 & Ha & Hb). induction Ha; simpl; [done|]. econstructor; eauto.
Qed.

Lemma reads_one s t s' : scan false s = (t, s') → reads s [t] s'.
Proof. intros. econstructor; [done|constructor]. Qed.

Lemma lexed_app text ts us s s' : lexed text ts s → reads s us s' → lexed text (ts ++ us) s'.
Proof.
  intros (t & us0 & s0 & -> & Ht & Hr) Hu. exists t, (us0 ++ us), s0. split_and!; [done|done|].
  apply reads_app. eauto.
Qed.

Lemma lexed_snoc text ts t s s' : lexed text ts s → scan false s = (t, s') → lexed text (ts ++ [t]) s'.
Proof. intros ? ?%reads_one. by eapply lexed_app. Qed.

Lemma reads_wf s ts s' : reads s ts s' → Forall token_wf ts.
Proof. induction 1 as [|s t s1 ts s' Ht Hr IH]; constructor; [|done]. by apply scan_spec in Ht as (? & ? & _). Qed.

Lemma lexed_wf text ts s : lexed text ts s → Forall token_wf ts.
Proof.
  intros (t & us & s0 & -> & Ht & Hr). apply scan_spec in Ht as (_ & ? & _).
  constructor; [done|by eapply reads_wf].
Qed.

(** ** Termination of the loop *)

Definition token_weight (t : token) : nat :=
  match t with token_error | end_of_input => 1 | _ => 3 end.

Definition loop_measure (pos : position) (s : bytes) : nat :=
  2 * length s + match pos with AtSwitch t => token_weight t | AtStates => 2 end.

Lemma scan_weight first s t s' :
  scan first s = (t, s') → (loop_measure (AtSwitch t) s' ≤ 2 * length s + 1)%nat.
Proof.
  intros (Hl & _ & Hlt)%scan_spec. unfold loop_measure.
  destruct t; simpl; try lia; (assert (length s' < length s)%nat by (by apply Hlt); lia).
Qed.

Lemma scan_strict s t s' :
  scan false s = (t, s') → t ≠ token_error → t ≠ end_of_input → (length s' < length s)%nat.
Proof. intros (_ & _ & Hlt)%scan_spec. auto. Qed.

(** The measure of where a step leads. *)
Definition result_measure (r : switch_result) : nat :=
  match r with
  | Break _ _ s => loop_measure AtStates s
  | Continue t _ _ s => loop_measure (AtSwitch t) s
  | Return _ _ | Throw _ => 0
  end.

Lemma parse_member_measure k states d s : (result_measure (parse_member k states d s) ≤ 2 * length s + 1)%nat.
Proof.
  unfold parse_member. destruct k; simpl; try lia. destruct (scan false s) as [t s1] eqn:E1.
  destruct t; simpl; try lia. destruct (scan false s1) as [t2 s2] eqn:E2.
  apply scan_weight in E2. apply scan_strict in E1; [|done|done]. simpl. lia.
Qed.

Lemma sax_step_measure pos states d s :
  (result_measure (sax_step pos states d s) < loop_measure pos s)%nat.
Proof.
  assert (HB : loop_measure AtStates s = (2 * length s + 2)%nat) by done.
  destruct pos as [t|].
  - unfold loop_measure. destruct t; simpl; rewrite ?HB; try lia; [by case_bool; simpl; rewrite ?HB; lia|..];
      destruct (scan false s) as [t2 s2] eqn:E2; case_bool; bool_facts; subst; simpl.
    + apply scan_strict in E2; [|done|done]. unfold loop_measure. lia.
    + apply scan_weight in E2. lia.
    + apply scan_strict in E2; [|done|done]. unfold loop_measure. lia.
    + pose proof (parse_member_measure t2 (false :: states) (start_object d) s2).
      apply scan_spec in E2 as (? & _ & _). lia.
  - rewrite HB. destruct states as [|array states]; simpl; [lia|]. unfold after_value.
    destruct (scan false s) as [t2 s2] eqn:E2.
    destruct array; (case_bool; [|case_bool]); bool_facts; subst; simpl; try lia;
      apply scan_strict in E2; try done; try (unfold loop_measure; lia);
      destruct (scan false s2) as [t3 s3] eqn:E3.
    + apply scan_weight in E3. simpl. lia.
    + pose proof (parse_member_measure t3 (false :: states) d s3).
      apply scan_spec in E3 as (? & _ & _). lia.
Qed.

Lemma sax_loop_total fuel pos states d s :
  (loop_measure pos s < fuel)%nat → is_Some (sax_loop fuel pos states d s).
Proof.
  revert pos states d s. induction fuel as [|fuel IH]; intros pos states d s Hf; [lia|]. simpl.
  pose proof (sax_step_measure pos states d s) as Hm.
  destruct (sax_step pos states d s); simpl in Hm; [apply IH; lia|apply IH; lia|done|done].
Qed.

(** More fuel does not change how the loop ends. *)
Lemma sax_loop_more fuel more pos states d s r :
  sax_loop fuel pos states d s = Some r → (fuel ≤ more)%nat → sax_loop more pos states d s = Some r.
Proof.
  revert more pos states d s. induction fuel as [|fuel IH]; intros [|more] pos states d s Hl Hf; simpl in *; [done|done|lia|].
  destruct (sax_step pos states d s); [apply IH; [done|lia]|apply IH; [done|lia]|done|done].
Qed.

(** The loop ends on every text, within the fuel that [parse] gives it, and
    more fuel changes nothing. *)
Lemma parse_run_parse fuel text : (parse_fuel text ≤ fuel)%nat → parse_run fuel text = Some (parse text).
Proof.
  intros Hf. unfold parse, parse_run. destruct (scan true text) as [t s] eqn:Et.
  destruct (sax_loop_total (parse_fuel text) (AtSwitch t) [] newDom s) as [[o s'] Hl].
  { unfold parse_fuel. apply scan_weight in Et. lia. }
  rewrite Hl, (sax_loop_more _ _ _ _ _ _ _ Hl Hf). by destruct o.
Qed.

(** ** The loop accepts only what the grammar derives

    [opened ts stack]: the tokens [ts] have opened the containers of [stack],
    and a value follows. *)
Inductive opened : list token → list frame → Prop :=
  | O_top : opened [] []
  | O_array ts stack : opened ts stack → opened (ts ++ [begin_array]) (FArray [] :: stack)
  | O_element ts l stack us v :
      opened ts (FArray l :: stack) → derives us v →
      opened (ts ++ us ++ [value_separator]) (FArray (l ++ [v]) :: stack)
  | O_object ts stack k :
      opened ts stack →
      opened (ts ++ [begin_object; value_string k; name_separator]) (FObject [(k, JNull)] k :: stack)
  | O_member ts m k stack us v k' :
      opened ts (FObject m k :: stack) → derives us v →
      opened (ts ++ us ++ [value_separator; value_string k'; name_separator])
        (FObject (emplace_member k' JNull (assign_member k v m)) k' :: stack).

(** The tokens of an open container: those before it, and its beginning, which
    a value completes. *)
Lemma opened_array ts l stack us v :
  opened ts (FArray l :: stack) → derives us v →
  ∃ ts0 ts1, ts = ts0 ++ begin_array :: ts1 ∧ opened ts0 stack ∧ derives_elements (ts1 ++ us) (l ++ [v]).
Proof.
  intros Ho. remember (FArray l :: stack) as st eqn:Est. revert l Est us v.
  induction Ho; intros l0 [=] us0 v0 Hd; subst.
  - exists ts, []. split_and!; [done|done|by constructor].
  - destruct (IHHo _ eq_refl _ _ H) as (ts0 & ts1 & -> & Hs & He).
    exists ts0, (ts1 ++ us ++ [value_separator]). split_and!; [by rewrite <- app_assoc|done|].
    replace ((ts1 ++ us ++ [value_separator]) ++ us0) with ((ts1 ++ us) ++ value_separator :: us0)
      by (by rewrite <- !app_assoc). by constructor.
Qed.

Lemma opened_object ts m k stack us v :
  opened ts (FObject m k :: stack) → derives us v →
  ∃ ts0 ts1, ts = ts0 ++ begin_object :: ts1 ∧ opened ts0 stack ∧ derives_members (ts1 ++ us) (assign_member k v m).
Proof.
  intros Ho. remember (FObject m k :: stack) as st eqn:Est. revert m k Est us v.
  induction Ho; intros m0 k0 [=] us0 v0 Hd; subst.
  - exists ts, [value_string k0; name_separator]. split_and!; [done|done|]. simpl.
    rewrite bool_decide_eq_true_2 by done. by constructor.
  - destruct (IHHo _ _ eq_refl _ _ H) as (ts0 & ts1 & -> & Hs & He).
    exists ts0, (ts1 ++ us ++ [value_separator; value_string k0; name_separator]).
    split_and!; [by rewrite <- app_assoc|done|]. rewrite assign_emplace.
    replace ((ts1 ++ us ++ _) ++ us0)
      with ((ts1 ++ us) ++ value_separator :: value_string k0 :: name_separator :: us0)
      by (by rewrite <- !app_assoc). by constructor.
Qed.

Definition is_farray (f : frame) : bool := match f with FArray _ => true | FObject _ _ => false end.

(** What holds at the head of the loop, for the tokens read from the text. *)
Inductive sax_inv (text : bytes) : position → list bool → Dom → bytes → Prop :=
  | inv_switch ts t d s :
      lexed text (ts ++ [t]) s → opened ts (ref_stack d) →
      sax_inv text (AtSwitch t) (map is_farray (ref_stack d)) d s
  | inv_states ts us v r stack s :
      lexed text (ts ++ us) s → opened ts stack → derives us v →
      sax_inv text AtStates (map is_farray stack) (handle_value v (mkDom r stack)) s.

Definition result_inv (text : bytes) (r : switch_result) : Prop :=
  match r with
  | Break states d s => sax_inv text AtStates states d s
  | Continue t states d s => sax_inv text (AtSwitch t) states d s
  | Return j s => ∃ ts, lexed text ts s ∧ derives ts j
  | Throw _ => True
  end.

Lemma parse_member_inv text ts k m k0 stack r s :
  lexed text (ts ++ [k]) s →
  (∀ key, opened (ts ++ [value_string key; name_separator])
            (FObject (emplace_member key JNull m) key :: stack)) →
  result_inv text (parse_member k (map is_farray (FObject m k0 :: stack)) (mkDom r (FObject m k0 :: stack)) s).
Proof.
  intros Hl Ho. unfold parse_member. destruct k; try done.
  destruct (scan false s) as [t1 s1] eqn:E1. destruct t1; try done.
  destruct (scan false s1) as [t2 s2] eqn:E2. simpl.
  apply (inv_switch text (ts ++ [value_string s0; name_separator]) t2
           (mkDom r (FObject (emplace_member s0 JNull m) s0 :: stack))); [|done].
  pose proof (lexed_snoc _ _ _ _ _ (lexed_snoc _ _ _ _ _ Hl E1) E2) as Hl2.
  by rewrite <- !app_assoc in *.
Qed.

Lemma sax_step_inv text pos states d s :
  sax_inv text pos states d s → result_inv text (sax_step pos states d s).
Proof.
  intros Hi. destruct Hi as [ts t [r stack] s Hl Ho|ts us v r stack s Hl Ho Hd]; simpl in Ho.
  - assert (HB : ∀ v, derives [t] v →
      sax_inv text AtStates (map is_farray stack) (handle_value v (mkDom r stack)) s).
    { intros v Hd. by eapply inv_states. }
    destruct t; simpl; try done; try (apply HB; by constructor).
    + case_bool; [|done]. apply HB. by constructor.
    + destruct (scan false s) as [t2 s2] eqn:E2. pose proof (lexed_snoc _ _ _ _ _ Hl E2) as Hl2.
      rewrite <- app_assoc in Hl2. case_bool; bool_facts; subst.
      * by eapply inv_states; [|done|constructor].
      * apply (inv_switch text (ts ++ [begin_array]) t2 (mkDom r (FArray [] :: stack)));
          [by rewrite <- app_assoc|by constructor].
    + destruct (scan false s) as [t2 s2] eqn:E2. pose proof (lexed_snoc _ _ _ _ _ Hl E2) as Hl2.
      rewrite <- app_assoc in Hl2. case_bool; bool_facts; subst.
      * by eapply inv_states; [|done|constructor].
      * apply (parse_member_inv text (ts ++ [begin_object]) t2 [] [] stack);
          [by rewrite <- app_assoc|]. intros k. rewrite <- app_assoc. by constructor.
  - destruct stack as [|[l|m k] stack]; simpl.
    + exists us. by inversion Ho; subst.
    + unfold after_value. destruct (scan false s) as [t2 s2] eqn:E2.
      pose proof (lexed_snoc _ _ _ _ _ Hl E2) as Hl2.
      case_bool; [|case_bool; [|done]]; bool_facts; subst.
      * destruct (scan false s2) as [t3 s3] eqn:E3.
        apply (inv_switch text (ts ++ us ++ [value_separator]) t3 (mkDom r (FArray (l ++ [v]) :: stack))).
        -- pose proof (lexed_snoc _ _ _ _ _ Hl2 E3) as Hl3. by rewrite <- !app_assoc in *.
        -- by constructor.
      * destruct (opened_array _ _ _ _ _ Ho Hd) as (ts0 & ts1 & -> & Ho' & He).
        eapply inv_states; [|done|apply D_array, He]. simpl. by rewrite <- !app_assoc in *.
    + unfold after_value. destruct (scan false s) as [t2 s2] eqn:E2.
      pose proof (lexed_snoc _ _ _ _ _ Hl E2) as Hl2.
      case_bool; [|case_bool; [|done]]; bool_facts; subst.
      * destruct (scan false s2) as [t3 s3] eqn:E3.
        apply (parse_member_inv text (ts ++ us ++ [value_separator]) t3 (assign_member k v m) k stack).
        -- pose proof (lexed_snoc _ _ _ _ _ Hl2 E3) as Hl3. by rewrite <- !app_assoc in *.
        -- intros k'. rewrite <- !app_assoc. by apply O_member.
      * destruct (opened_object _ _ _ _ _ _ Ho Hd) as (ts0 & ts1 & -> & Ho' & He).
        eapply inv_states; [|done|apply D_object, He]. simpl. by rewrite <- !app_assoc in *.
Qed.

Lemma sax_loop_sound text fuel pos states d s j s' :
  sax_inv text pos states d s → sax_loop fuel pos states d s = Some (Parsed j, s') →
  ∃ ts, lexed text ts s' ∧ derives ts j.
Proof.
  revert pos states d s. induction fuel as [|fuel IH]; intros pos states d s Hi; simpl; [done|].
  apply sax_step_inv in Hi. destruct (sax_step pos states d s); simpl in Hi; [by apply IH|by apply IH|..|done].
  by intros [= <- <-].
Qed.

(** ** The loop accepts everything the grammar derives *)

Definition runs (pos : position) (states : list bool) (d : Dom) (s : bytes)
    (r : parse_outcome * bytes) : Prop :=
  ∃ fuel, sax_loop fuel pos states d s = Some r.

Definition result_runs (x : switch_result) (r : parse_outcome * bytes) : Prop :=
  match x with
  | Break states d s => runs AtStates states d s r
  | Continue t states d s => runs (AtSwitch t) states d s r
  | Return j s => r = (Parsed j, s)
  | Throw e => r.1 = Raised e
  end.

Lemma runs_step pos states d s r : runs pos states d s r → result_runs (sax_step pos states d s) r.
Proof.
  intros [[|fuel] Hf]; [done|]. simpl in Hf. destruct (sax_step pos states d s); simpl in *.
  - by exists fuel.
  - by exists fuel.
  - by injection Hf.
  - by injection Hf as <-.
Qed.

Lemma derives_cons ts v : derives ts v → ∃ t us, ts = t :: us.
Proof. destruct 1; eauto. Qed.

Lemma elements_cons ts l : derives_elements ts l → ∃ t us, ts = t :: us ∧ t ≠ end_array.
Proof.
  induction 1 as [us v Hd|ts l us v He (t & us' & -> & Ht) Hd]; [|by exists t, (us' ++ value_separator :: us)].
  destruct Hd; eexists _, _; (split; [done|done]).
Qed.

Lemma members_cons ts m : derives_members ts m → ∃ k us, ts = value_string k :: us.
Proof. induction 1 as [|ts m k us v Hm (k' & us' & ->) Hd]; eauto. Qed.

(** Reading a value at the switch leads to the state evaluation with the value
    in place; likewise the elements of an array and the members of an object. *)
Definition value_runs (ts : list token) (v : json) : Prop :=
  ∀ t us s s' states d r, ts = t :: us → reads s us s' → runs (AtSwitch t) states d s r →
    runs AtStates states (handle_value v d) s' r.

Definition elements_run (ts : list token) (l : list json) : Prop :=
  ∀ t us s s' states rt stack r, ts = t :: us → reads s us s' →
    runs (AtSwitch t) (true :: states) (mkDom rt (FArray [] :: stack)) s r →
    runs AtStates (true :: states) (mkDom rt (FArray l :: stack)) s' r.

Definition members_run (ts : list token) (m : list (bytes * json)) : Prop :=
  ∀ t us s s' states rt stack r, ts = t :: us → reads s us s' →
    result_runs (parse_member t (false :: states) (mkDom rt (FObject [] [] :: stack)) s) r →
    ∃ k, runs AtStates (false :: states) (mkDom rt (FObject m k :: stack)) s' r.

(** One token that completes a value. *)
Lemma value_runs_one t v :
  (∀ states d s, parse_value t states d s = Break states (handle_value v d) s) → value_runs [t] v.
Proof.
  intros Hp t' us s s' states d r [= <- <-] Hr Hs. inversion Hr; subst. apply runs_step in Hs.
  simpl in Hs. by rewrite Hp in Hs.
Qed.

(** A separator and a member after a value in an object. *)
Lemma member_runs k us v s s' states rt m k0 stack r :
  value_runs us v → derives us v → reads s (name_separator :: us) s' →
  result_runs (parse_member (value_string k) (false :: states) (mkDom rt (FObject m k0 :: stack)) s) r →
  runs AtStates (false :: states) (mkDom rt (FObject (assign_member k v m) k :: stack)) s' r.
Proof.
  intros Hv Hd Hr Hs. destruct (derives_cons _ _ Hd) as (t & us' & ->).
  inversion Hr as [|? ? s1 ? ? E1 Hr1]; subst. inversion Hr1 as [|? ? s2 ? ? E2 Hr2]; subst.
  simpl in Hs. rewrite E1, E2 in Hs. simpl in Hs.
  pose proof (Hv _ _ _ _ _ _ _ eq_refl Hr2 Hs) as Hf. unfold handle_value, key in Hf.
  simpl in Hf. by rewrite assign_emplace in Hf.
Qed.

(** Each production with parts, given what its parts do. *)
Lemma empty_runs opening closing v :
  (∀ states d s, (scan false s).1 = closing →
     parse_value opening states d s = Break states (handle_value v d) (scan false s).2) →
  value_runs [opening; closing] v.
Proof.
  intros Hp t us s s' states d r [= <- <-] Hr Hs.
  inversion Hr as [|? ? s1 ? ? E1 Hr1]; subst. inversion Hr1; subst.
  apply runs_step in Hs. simpl in Hs. by rewrite Hp, E1 in Hs by (by rewrite E1).
Qed.

Lemma array_runs ts l :
  derives_elements ts l → elements_run ts l → value_runs (begin_array :: ts ++ [end_array]) (JArray l).
Proof.
  intros He IH t us s s' states [rt stack] r [= <- <-] Hr Hs.
  destruct (elements_cons _ _ He) as (t & us & -> & Hne). inversion Hr as [|? ? s1 ? ? E1 Hr1]; subst.
  apply reads_app in Hr1 as (s2 & Hr1 & Hr2). inversion Hr2 as [|? ? s3 ? ? E2 Hr3]; subst.
  inversion Hr3; subst. apply runs_step in Hs. simpl in Hs. rewrite E1, bool_decide_eq_false_2 in Hs by done.
  pose proof (IH _ _ _ _ _ _ _ _ eq_refl Hr1 Hs) as Hs2. apply runs_step in Hs2. simpl in Hs2.
  unfold after_value in Hs2. by rewrite E2 in Hs2.
Qed.

Lemma object_runs ts m :
  derives_members ts m → members_run ts m → value_runs (begin_object :: ts ++ [end_object]) (JObject m).
Proof.
  intros Hm IH t us s s' states [rt stack] r [= <- <-] Hr Hs.
  destruct (members_cons _ _ Hm) as (k & us & ->). inversion Hr as [|? ? s1 ? ? E1 Hr1]; subst.
  apply reads_app in Hr1 as (s2 & Hr1 & Hr2). inversion Hr2 as [|? ? s3 ? ? E2 Hr3]; subst.
  inversion Hr3; subst. apply runs_step in Hs. simpl in Hs. rewrite E1, bool_decide_eq_false_2 in Hs by done.
  destruct (IH _ _ _ _ _ _ _ _ eq_refl Hr1 Hs) as [k' Hs2]. apply runs_step in Hs2. simpl in Hs2.
  unfold after_value in Hs2. by rewrite E2 in Hs2.
Qed.

Lemma elements_one_run us v : value_runs us v → elements_run us [v].
Proof. intros IH t us' s s' states rt stack r -> Hr Hs. apply (IH _ _ _ _ _ _ _ eq_refl Hr Hs). Qed.

Lemma elements_snoc_run ts l us v :
  derives_elements ts l → elements_run ts l → derives us v → value_runs us v →
  elements_run (ts ++ value_separator :: us) (l ++ [v]).
Proof.
  intros He IHe Hd IHd t us' s s' states rt stack r Et Hr Hs.
  destruct (elements_cons _ _ He) as (t0 & us0 & -> & _). injection Et as <- <-.
  apply reads_app in Hr as (s1 & Hr1 & Hr2). inversion Hr2 as [|? ? s2 ? ? E2 Hr3]; subst.
  destruct (derives_cons _ _ Hd) as (t1 & us1 & ->). inversion Hr3 as [|? ? s3 ? ? E3 Hr4]; subst.
  pose proof (IHe _ _ _ _ _ _ _ _ eq_refl Hr1 Hs) as Hs2. apply runs_step in Hs2. simpl in Hs2.
  unfold after_value in Hs2. rewrite E2 in Hs2. simpl in Hs2. rewrite E3 in Hs2.
  apply (IHd _ _ _ _ _ _ _ eq_refl Hr4 Hs2).
Qed.

Lemma members_snoc_run ts m k us v :
  derives_members ts m → members_run ts m → derives us v → value_runs us v →
  members_run (ts ++ value_separator :: value_string k :: name_separator :: us) (assign_member k v m).
Proof.
  intros Hm IHm Hd IHd t us' s s' states rt stack r Et Hr Hs.
  destruct (members_cons _ _ Hm) as (k0 & us0 & ->). injection Et as <- <-.
  apply reads_app in Hr as (s1 & Hr1 & Hr2). inversion Hr2 as [|? ? s2 ? ? E2 Hr3]; subst.
  inversion Hr3 as [|? ? s3 ? ? E3 Hr4]; subst.
  destruct (IHm _ _ _ _ _ _ _ _ eq_refl Hr1 Hs) as [k1 Hs2]. apply runs_step in Hs2. simpl in Hs2.
  unfold after_value in Hs2. rewrite E2 in Hs2. simpl in Hs2. rewrite E3 in Hs2.
  exists k. by eapply (member_runs k us v s3 s' states rt m k1).
Qed.

Lemma grammar_runs :
  (∀ ts v, derives ts v → value_runs ts v ∧ derives ts v) ∧
  (∀ ts l, derives_elements ts l → elements_run ts l ∧ derives_elements ts l) ∧
  (∀ ts m, derives_members ts m → members_run ts m ∧ derives_members ts m).
Proof.
  apply grammar_ind; try (split; [by apply value_runs_one|by constructor]); intros; destruct_and?;
    (split; [|by constructor]).
  - apply value_runs_one. intros. simpl. by case_match.
  - apply empty_runs. intros states d s E. simpl. by destruct (scan false s); simpl in *; subst.
  - by apply array_runs.
  - apply empty_runs. intros states d s E. simpl. by destruct (scan false s); simpl in *; subst.
  - by apply object_runs.
  - by apply elements_one_run.
  - by apply elements_snoc_run.
  - intros t us' s s' states rt stack r [= <- <-] Hr Hs.
    eexists. by eapply (member_runs _ _ _ s s' states rt [] []).
  - by apply members_snoc_run.
Qed.

Lemma parse_complete text ts j : lexes text ts → derives ts j → parse text = Parsed j.
Proof.
  intros (s' & s'' & (t & us & s0 & -> & Ht & Hr) & He) Hd. unfold parse, parse_run. rewrite Ht.
  destruct (sax_loop_total (parse_fuel text) (AtSwitch t) [] newDom s0) as [r Hl].
  { unfold parse_fuel. apply scan_weight in Ht. lia. }
  rewrite Hl. destruct grammar_runs as [Hg _]. destruct (Hg _ _ Hd) as [Hv _].
  specialize (Hv t us s0 s' [] newDom r eq_refl Hr (ex_intro _ _ Hl)).
  apply runs_step in Hv. simpl in Hv. rewrite Hv, He. simpl. done.
Qed.

Lemma parse_sound text j : parse text = Parsed j → ∃ ts, lexes text ts ∧ derives ts j.
Proof.
  unfold parse, parse_run. destruct (scan true text) as [t s0] eqn:Et.
  destruct (sax_loop _ _ _ _ _) as [[[j'|e] s']|] eqn:El; simpl; [|done|done].
  case_bool; [|done]. bool_facts. intros [= ->].
  destruct (sax_loop_sound text _ _ _ _ _ _ _
    (inv_switch text [] t newDom s0 ltac:(exists t, [], s0; split_and!; [done|done|constructor]) O_top) El)
    as (ts & Hl & Hd).
  exists ts. split; [|done]. destruct (scan false s') as [t' s''] eqn:E'. simpl in *. subst.
  by exists s', s''.
Qed.

(** Every value the grammar derives from the lexer's tokens is well formed. *)
Lemma grammar_wf :
  (∀ ts v, derives ts v → Forall token_wf ts → json_wf v) ∧
  (∀ ts l, derives_elements ts l → Forall token_wf ts → Forall json_wf l) ∧
  (∀ ts m, derives_members ts m → Forall token_wf ts →
     StronglySorted member_lt m ∧ Forall (λ kv, utf8 kv.1) m ∧ Forall (λ kv, json_wf kv.2) m).
Proof.
  apply grammar_ind; try (intros; by constructor).
  - intros s Hw. apply Forall_cons in Hw as [Hw _]. by constructor.
  - intros z Hw. apply Forall_cons in Hw as [Hw _]. by constructor.
  - intros z Hw. apply Forall_cons in Hw as [Hw _]. constructor. simpl in Hw. unfold INT64_MAX. lia.
  - intros value Hf Hw. apply Forall_cons in Hw as [Hw _]. by constructor.
  - intros ts l He IH Hw. apply Forall_cons in Hw as [_ [Hw _]%Forall_app]. constructor. auto.
  - intros _. repeat constructor.
  - intros ts m He IH Hw. apply Forall_cons in Hw as [_ [Hw _]%Forall_app].
    destruct (IH Hw) as (? & ? & ?). by constructor.
  - intros us v Hd IH Hw. repeat constructor. auto.
  - intros ts l us v He IHe Hd IHd Hw. apply Forall_app in Hw as [Hw1 Hw2].
    apply Forall_cons in Hw2 as [_ Hw2]. apply Forall_app. split; [auto|repeat constructor; auto].
  - intros k us v Hd IH Hw. apply Forall_cons in Hw as [Hk [_ Hw]%Forall_cons].
    split_and!; repeat constructor; auto.
  - intros ts m k us v Hm IHm Hd IHd Hw. apply Forall_app in Hw as [Hw1 Hw2].
    apply Forall_cons in Hw2 as [_ [Hk [_ Hw2]%Forall_cons]%Forall_cons].
    destruct (IHm Hw1) as (? & ? & ?).
    split_and!; [by apply assign_sorted|by apply assign_Forall|apply assign_Forall; simpl; auto].
Qed.

Lemma parse_wf text j : parse text = Parsed j → json_wf j.
Proof.
  intros (ts & (s & s' & Hl & _) & Hd)%parse_sound. destruct grammar_wf as [Hg _].
  eapply Hg; [done|]. by eapply lexed_wf.
Qed.

(** C30: The parser always ends, and accepts exactly the JSON grammar.  On
    every text, valid or not, the loop ends within twice the length of the text
    plus four rounds with a value or an exception, and more rounds change
    nothing.  It returns a value if and only if that value is derived by tokens
    that are read from the text and after which the input ends: what is left is
    white space, followed by nothing or by a NUL byte, after which the lexer
    reads no more.  So the iterative parser with its stack of states, the
    member references and the number range check agrees with the grammar. *)
Theorem parse_grammar (text : bytes) :
  (∀ fuel, (2 * length text + 4 ≤ fuel)%nat → parse_run fuel text = Some (parse text)) ∧
  (∀ j, parse text = Parsed j ↔ ∃ ts s, lexed text ts s ∧ ends s ∧ derives ts j).
Proof.
  split; [intros fuel; apply parse_run_parse|]. intros j. split.
  - intros (ts & (s & s' & Hl & He) & Hd)%parse_sound. exists ts, s. split_and!; [done| |done].
    apply scan_end. by rewrite He.
  - intros (ts & s & Hl & He%scan_end & Hd). apply (parse_complete text ts); [|done].
    exists s, (scan false s).2. split; [done|]. by rewrite <- He, <- surjective_pairing.
Qed.
