(* ===== verification/JsonAccept.v ===== *)
(** * The library's other ways of reading: [accept] and comments

    Models [parser::accept] with [json_sax_acceptor], which checks a text
    without building a value, and the comments the lexer skips on request
    ([scan_comment], [ignore_comments]), both of [include/nlohmann/json.hpp].
    The gateway uses neither; they show that the parser and the lexer behave
    the same with and without these options. *)

From S2P Require Import Prelude.
From S2P Require Import Text Double.
From S2P Require Import Json.
From S2P Require Import JsonLexer.
From S2P Require Import JsonParser.
#[local] Open Scope Z_scope.
#[local] Opaque isfinite.

(** ** accept *)

(** How a part of the loop's body ends when the events build nothing and
    [parse_error] answers false. *)
Inductive accept_result :=
  | ABreak (states : list bool) (s : bytes)
  | AContinue (last_token : token) (states : list bool) (s : bytes)
  | AReturn (s : bytes)
  | AReject.

Definition accept_member (k : token) (states : list bool) (s : bytes) : accept_result :=
  match k with
  | value_string _ =>
    match scan false s with
    | (name_separator, s) => let '(last_token, s) := scan false s in AContinue last_token states s
    | _ => AReject
    end
  | _ => AReject
  end.

Definition accept_value (last_token : token) (states : list bool) (s : bytes) : accept_result :=
  match last_token with
  | begin_object =>
    let '(last_token, s) := scan false s in
    if bool_decide (last_token = end_object) then ABreak states s
    else accept_member last_token (false :: states) s
  | begin_array =>
    let '(last_token, s) := scan false s in
    if bool_decide (last_token = end_array) then ABreak states s else AContinue last_token (true :: states) s
  | value_float value => if isfinite value then ABreak states s else AReject
  | literal_false | literal_null | literal_true | value_integer _ | value_string _ | value_unsigned _ => ABreak states s
  | token_error | end_of_input | end_array | end_object | name_separator | value_separator => AReject
  end.

Definition accept_after (array : bool) (states : list bool) (s : bytes) : accept_result :=
  let '(last_token, s) := scan false s in
  if array then
    if bool_decide (last_token = value_separator)
    then let '(last_token, s) := scan false s in AContinue last_token (true :: states) s
    else if bool_decide (last_token = end_array) then ABreak states s
    else AReject
  else
    if bool_decide (last_token = value_separator)
    then let '(last_token, s) := scan false s in accept_member last_token (false :: states) s
    else if bool_decide (last_token = end_object) then ABreak states s
    else AReject.

Definition accept_step (pos : position) (states : list bool) (s : bytes) : accept_result :=
  match pos with
  | AtSwitch last_token => accept_value last_token states s
  | AtStates =>
    match states with
    | [] => AReturn s
    | array :: states => accept_after array states s
    end
  end.

(** The loop: [Some] of the input left when it returns true, [Some None] when
    it returns false, [None] when the fuel runs out. *)
Fixpoint accept_loop (fuel : nat) (pos : position) (states : list bool) (s : bytes) : option (option bytes) :=
  match fuel with
  | O => None
  | S fuel =>
    match accept_step pos states s with
    | ABreak states s => accept_loop fuel AtStates states s
    | AContinue last_token states s => accept_loop fuel (AtSwitch last_token) states s
    | AReturn s => Some (Some s)
    | AReject => Some None
    end
  end.

(** [json::accept(text)] *)
Definition accept (text : bytes) : bool :=
  let '(last_token, s) := scan true text in
  match accept_loop (2 * length text + 4) (AtSwitch last_token) [] s with
  | Some (Some s) => bool_decide ((scan false s).1 = end_of_input)
  | _ => false
  end.

(** Forgetting the value that is being built. *)
Definition forget (r : switch_result) : accept_result :=
  match r with
  | Break states _ s => ABreak states s
  | Continue last_token states _ s => AContinue last_token states s
  | Return _ s => AReturn s
  | Throw _ => AReject
  end.

Lemma accept_member_forget k states d s : forget (parse_member k states d s) = accept_member k states s.
Proof. unfold parse_member, accept_member. repeat case_match; done. Qed.

Lemma accept_step_forget pos states d s : forget (sax_step pos states d s) = accept_step pos states s.
Proof.
  unfold sax_step, accept_step, parse_value, accept_value, after_value, accept_after.
  repeat (case_match || case_bool); simplify_eq; try done; apply accept_member_forget.
Qed.

Lemma accept_loop_forget fuel pos states d s :
  accept_loop fuel pos states s =
  match sax_loop fuel pos states d s with
  | Some (Parsed _, s) => Some (Some s)
  | Some (Raised _, _) => Some None
  | None => None
  end.
Proof.
  revert pos states d s. induction fuel as [|fuel IH]; intros pos states d s; [done|]. cbn [accept_loop sax_loop].
  rewrite <- (accept_step_forget pos states d s). destruct (sax_step pos states d s); simpl; auto.
Qed.

(** The text is accepted exactly when parsing it gives a value. *)
Theorem accept_parses text : accept text = true ↔ ∃ j, parse text = Parsed j.
Proof.
  unfold accept, parse, parse_run, parse_fuel. destruct (scan true text) as [last_token s]. rewrite (accept_loop_forget _ _ _ newDom).
  destruct (sax_loop _ _ _ _ _) as [[[j|e] rest]|]; simpl; [|naive_solver..].
  case_bool_decide; split; naive_solver.
Qed.

(** ** Comments *)

(** To the end of the line, or of the input. *)
Fixpoint line_comment (s : bytes) : bytes :=
  match s with
  | [] => []
  | c :: s => if (byte_val c =? 0x0A) || (byte_val c =? 0x0D) || (byte_val c =? 0x00) then s else line_comment s
  end.

(** To the closing mark; [None] when it is missing. *)
Fixpoint block_comment (s : bytes) : option bytes :=
  match s with
  | [] => None
  | c :: s =>
    if byte_val c =? 0x00 then None
    else if byte_val c =? 0x2A then
      match s with
      | c' :: s' => if byte_val c' =? 0x2F then Some s' else block_comment s
      | [] => None
      end
    else block_comment s
  end.

(** [scan_comment()], after the first slash; [None] is the result false. *)
Definition scan_comment (s : bytes) : option bytes :=
  let '(current, s) := get s in
  if current =? 0x2F then Some (line_comment s)
  else if current =? 0x2A then block_comment s
  else None.

(** The loop over comments: the first character that begins no comment and the
    input after it; [Some None] is a parse error, [None] no more fuel. *)
Fixpoint skip_comments (fuel : nat) (current : Z) (s : bytes) : option (option (Z * bytes)) :=
  if current =? 0x2F then
    match fuel with
    | O => None
    | S fuel =>
      match scan_comment s with
      | None => Some None
      | Some s => let '(current, s) := skip_whitespace s in skip_comments fuel current s
      end
    end
  else Some (Some (current, s)).

(** [scan()] of a lexer with [ignore_comments]; after an error in a comment
    nothing more is read. *)
Definition scan_with (ignore_comments : bool) (first : bool) (s : bytes) : token * bytes :=
  match (if first then skip_bom s else Some s) with
  | None => (token_error, s)
  | Some s =>
    let '(current, s) := skip_whitespace s in
    if ignore_comments then
      match skip_comments (S (length s)) current s with
      | Some (Some (current, s)) => scan_token current s
      | _ => (token_error, [])
      end
    else scan_token current s
  end.

Lemma line_comment_length s : (length (line_comment s) ≤ length s)%nat.
Proof. induction s as [|c s IH]; simpl; [done|]. case_bool; lia. Qed.

Lemma block_comment_length s rest : block_comment s = Some rest → (length rest ≤ length s)%nat.
Proof.
  revert rest. induction s as [|c s IH]; intros rest; simpl; [done|]. case_bool; [done|].
  case_bool; [|intros Hb%IH; lia]. destruct s as [|c' s']; [done|].
  case_bool; [intros [= <-]; simpl; lia|]. intros Hb%IH. simpl in *. lia.
Qed.

Lemma scan_comment_length s rest : scan_comment s = Some rest → (length rest ≤ length s)%nat.
Proof.
  unfold scan_comment, get. destruct s as [|c s]; [done|]. repeat case_bool; try done; simpl.
  - intros [= <-]. pose proof (line_comment_length s). lia.
  - intros Hb%block_comment_length. lia.
Qed.

(** The fuel is enough, and more of it changes nothing. *)
Lemma skip_comments_fuel n m current s :
  (length s < n)%nat → (length s < m)%nat →
  is_Some (skip_comments n current s) ∧ skip_comments n current s = skip_comments m current s.
Proof.
  revert m current s. induction n as [|n IH]; intros m current s Hn Hm; [lia|]. destruct m as [|m]; [lia|].
  cbn [skip_comments]. case_bool; [|done]. destruct (scan_comment s) as [rest|] eqn:Ec; [|done].
  pose proof (scan_comment_length _ _ Ec). destruct (skip_whitespace rest) as [c rest'] eqn:Ew.
  destruct (skip_whitespace_spec _ _ _ Ew) as [[-> ->]|Hl]; [destruct n, m; by split|]. apply IH; lia.
Qed.

(** A lexer that is not asked to ignore comments is the one of [parse]. *)
Theorem scan_without_comments first s : scan_with false first s = scan first s.
Proof. done. Qed.

(** The text of a comment that runs to the end of the line, and of one with a
    closing mark. *)
Definition line_text (body : bytes) : Prop :=
  Forall (λ c, byte_val c ≠ 0x0A ∧ byte_val c ≠ 0x0D ∧ byte_val c ≠ 0x00) body.

Fixpoint block_text (body : bytes) : Prop :=
  match body with
  | [] => True
  | c :: body => byte_val c ≠ 0x00 ∧ (c = "*"%char → ∀ rest, body ≠ "/"%char :: rest) ∧ block_text body
  end.

Lemma line_comment_text body s : line_text body → line_comment (body ++ LF :: s) = s.
Proof.
  induction 1 as [|c body (H1 & H2 & H3) _ IH]; [done|]. simpl.
  by rewrite (proj2 (Z.eqb_neq _ _) H1), (proj2 (Z.eqb_neq _ _) H2), (proj2 (Z.eqb_neq _ _) H3).
Qed.

Lemma block_comment_text body s : block_text body → block_comment (body ++ lit "*/" ++ s) = Some s.
Proof.
  induction body as [|c body IH]; [done|]. intros (H0 & Hs & Hb). specialize (IH Hb).
  cbn [app block_comment]. rewrite (proj2 (Z.eqb_neq _ _) H0). destruct (Z.eqb_spec (byte_val c) 0x2A) as [Hc|Hc]; [|done].
  apply (byte_val_inj c "*"%char) in Hc. destruct body as [|c' body]; [done|]. cbn [app].
  destruct (Z.eqb_spec (byte_val c') 0x2F) as [Hc'|Hc']; [|done].
  apply (byte_val_inj c' "/"%char) in Hc'. subst c'. by destruct (Hs Hc body).
Qed.

(** A comment in front of the next token is skipped like white space. *)
Theorem comments_are_blank body s :
  (line_text body → scan_with true false (lit "//" ++ body ++ LF :: s) = scan_with true false s) ∧
  (block_text body → scan_with true false (lit "/*" ++ body ++ lit "*/" ++ s) = scan_with true false s).
Proof.
  assert (Hskip : ∀ t, scan_comment t = Some s →
    scan_with true false ("/"%char :: t) = scan_with true false s).
  { intros t Ht. unfold scan_with. pose proof (scan_comment_length _ _ Ht).
    change (skip_whitespace ("/"%char :: t)) with (0x2F, t). destruct (skip_whitespace s) as [c rest] eqn:Ew.
    assert (E0 : skip_comments (S (length t)) 0x2F t = skip_comments (length t) c rest) by (simpl; by rewrite Ht, Ew).
    rewrite E0. destruct (skip_whitespace_spec _ _ _ Ew) as [[-> ->]|Hl]; [by destruct (length t)|].
    destruct (skip_comments_fuel (length t) (S (length rest)) c rest) as [[r Hr] E]; [lia..|].
    by rewrite <- E, Hr. }
  split; intros Hb; apply Hskip; unfold scan_comment, get; simpl.
  - by rewrite line_comment_text.
  - by apply block_comment_text.
Qed.

Example scans_past_comments :
  scan_with true true (lit " // one " ++ [LF] ++ lit "/* two **/ /**/ 17,") = (value_unsigned 17, lit ",") ∧
  (scan_with true true (lit "/* open")).1 = token_error ∧ (scan_with false true (lit "/**/1")).1 = token_error.
Proof. vm_compute. done. Qed.

Example accepts_texts :
  accept (lit "{'a':[1,true,null]}") = true ∧ accept (lit "{'a':}") = false ∧ accept (lit "1e999") = false.
Proof. vm_compute. done. Qed.
