(* ===== verification/JsonDump.v ===== *)
(** * The serializer of the JSON library

    Models [class serializer] of [include/nlohmann/json.hpp] as
    [value.dump()] uses it: without indentation, with every error handler and
    with or without [ensure_ascii] (the gateway uses the defaults, strict and
    no [ensure_ascii]).  Binary and discarded values are not part of [json].
    The text of a floating-point number is that of [dump_float] ([Grisu]). *)

From S2P Require Import Prelude.
From S2P Require Import Text Double Grisu.
From S2P Require Import Json.
From S2P Require Import JsonLexer.
From stdpp Require Import pretty.
#[local] Open Scope Z_scope.

(** ** UTF-8 decoding: the automaton of [decode] *)

Definition utf8d : list Z :=
  [0; 0; 0; 0; 0; 0; 0; 0; 0; 0; 0; 0; 0; 0; 0; 0; 0; 0; 0; 0; 0; 0; 0; 0; 0; 0; 0; 0; 0; 0; 0; 0;
   0; 0; 0; 0; 0; 0; 0; 0; 0; 0; 0; 0; 0; 0; 0; 0; 0; 0; 0; 0; 0; 0; 0; 0; 0; 0; 0; 0; 0; 0; 0; 0;
   0; 0; 0; 0; 0; 0; 0; 0; 0; 0; 0; 0; 0; 0; 0; 0; 0; 0; 0; 0; 0; 0; 0; 0; 0; 0; 0; 0; 0; 0; 0; 0;
   0; 0; 0; 0; 0; 0; 0; 0; 0; 0; 0; 0; 0; 0; 0; 0; 0; 0; 0; 0; 0; 0; 0; 0; 0; 0; 0; 0; 0; 0; 0; 0;
   1; 1; 1; 1; 1; 1; 1; 1; 1; 1; 1; 1; 1; 1; 1; 1; 9; 9; 9; 9; 9; 9; 9; 9; 9; 9; 9; 9; 9; 9; 9; 9;
   7; 7; 7; 7; 7; 7; 7; 7; 7; 7; 7; 7; 7; 7; 7; 7; 7; 7; 7; 7; 7; 7; 7; 7; 7; 7; 7; 7; 7; 7; 7; 7;
   8; 8; 2; 2; 2; 2; 2; 2; 2; 2; 2; 2; 2; 2; 2; 2; 2; 2; 2; 2; 2; 2; 2; 2; 2; 2; 2; 2; 2; 2; 2; 2;
   10; 3; 3; 3; 3; 3; 3; 3; 3; 3; 3; 3; 3; 4; 3; 3; 11; 6; 6; 6; 5; 8; 8; 8; 8; 8; 8; 8; 8; 8; 8; 8;
   0; 1; 2; 3; 5; 8; 7; 1; 1; 1; 4; 6; 1; 1; 1; 1; 1; 1; 1; 1; 1; 1; 1; 1; 1; 1; 1; 1; 1; 1; 1; 1;
   1; 0; 1; 1; 1; 1; 1; 0; 1; 0; 1; 1; 1; 1; 1; 1; 1; 2; 1; 1; 1; 1; 1; 2; 1; 2; 1; 1; 1; 1; 1; 1;
   1; 1; 1; 1; 1; 1; 1; 2; 1; 1; 1; 1; 1; 1; 1; 1; 1; 2; 1; 1; 1; 1; 1; 1; 1; 2; 1; 1; 1; 1; 1; 1;
   1; 1; 1; 1; 1; 1; 1; 3; 1; 3; 1; 1; 1; 1; 1; 1; 1; 3; 1; 1; 1; 1; 1; 3; 1; 3; 1; 1; 1; 1; 1; 1;
   1; 3; 1; 1; 1; 1; 1; 1; 1; 1; 1; 1; 1; 1; 1; 1].

Definition UTF8_ACCEPT : Z := 0.
Definition UTF8_REJECT : Z := 1.

(** [decode(state, codep, byte)]: the new state and code point. *)
Definition decode (state codep byte : Z) : Z * Z :=
  let type := nth (Z.to_nat byte) utf8d 0 in
  let codep := if negb (state =? UTF8_ACCEPT)
               then Z.lor (Z.land byte 0x3F) (u32 (Z.shiftl codep 6))
               else Z.land (Z.shiftr 0xFF type) byte in
  let index := 256 + state * 16 + type in
  (nth (Z.to_nat index) utf8d 0, codep).

(** ** dump_escaped *)

Inductive error_handler_t := handler_strict | handler_replace | handler_ignore.

Definition hex_char (nibble : Z) : ascii :=
  byte_of (if nibble <? 10 then 0x30 + nibble else 0x57 + nibble).

(** [snprintf] of ["\\u%04x"] for a [uint16_t]. *)
Definition hex_escape (z : Z) : bytes :=
  let z := z mod 2 ^ 16 in
  [byte_of 0x5C; byte_of 0x75; hex_char (Z.land (Z.shiftr z 12) 15);
   hex_char (Z.land (Z.shiftr z 8) 15); hex_char (Z.land (Z.shiftr z 4) 15); hex_char (Z.land z 15)].

Definition escaped (c : Z) : bytes := [byte_of 0x5C; byte_of c].

(** The switch over an accepted code point, whose last byte is [byte]. *)
Definition escape_codepoint (ensure_ascii : bool) (codepoint : Z) (byte : ascii) : bytes :=
  if codepoint =? 0x08 then escaped 0x62
  else if codepoint =? 0x09 then escaped 0x74
  else if codepoint =? 0x0A then escaped 0x6E
  else if codepoint =? 0x0C then escaped 0x66
  else if codepoint =? 0x0D then escaped 0x72
  else if codepoint =? 0x22 then escaped 0x22
  else if codepoint =? 0x5C then escaped 0x5C
  else if (codepoint <=? 0x1F) || (ensure_ascii && (codepoint >=? 0x7F)) then
    if codepoint <=? 0xFFFF then hex_escape codepoint
    else hex_escape (0xD7C0 + Z.shiftr codepoint 10) ++ hex_escape (0xDC00 + Z.land codepoint 0x3FF)
  else [byte].

Definition replacement (ensure_ascii : bool) : bytes :=
  if ensure_ascii then byte_of 0x5C :: lit "ufffd" else [byte_of 0xEF; byte_of 0xBF; byte_of 0xBD].

Definition STRING_BUFFER_SIZE : nat := 512.

(** The local variables of [dump_escaped]: what was written to the output,
    the first [bytes] characters of [string_buffer], and the counters.
    [e_peak] is not in the source: it is the number of characters of
    [string_buffer] written to so far, a terminating NUL of [snprintf]
    included. *)
Record Escaper := mkEscaper {
  e_codepoint : Z;
  e_state : Z;
  e_out : bytes;
  e_buffer : bytes;
  e_bytes_after_last_accept : nat;
  e_undumped_chars : nat;
  e_peak : nat;
}.

Definition newEscaper : Escaper := mkEscaper 0 UTF8_ACCEPT [] [] 0 0 0.

(** "write buffer and reset index; there must be 13 bytes left" *)
Definition flush (out buffer : bytes) : bytes * bytes :=
  if (STRING_BUFFER_SIZE - length buffer <? 13)%nat then (out ++ buffer, []) else (out, buffer).

(** One iteration for the byte [c]; [None] when it throws.  The flag tells
    that the byte is to be read again ([--i]). *)
Definition dump_byte (ensure_ascii : bool) (h : error_handler_t) (c : ascii) (e : Escaper)
    : option (Escaper * bool) :=
  let '(state, codepoint) := decode (e_state e) (e_codepoint e) (byte_val c) in
  if state =? UTF8_ACCEPT then
    let written := escape_codepoint ensure_ascii codepoint c in
    let buffer := e_buffer e ++ written in
    let peak := (length buffer + if (5 <? length written)%nat then 1 else 0)%nat in
    let '(out, buffer) := flush (e_out e) buffer in
    Some (mkEscaper codepoint state out buffer (length buffer) 0 (Nat.max (e_peak e) peak), false)
  else if state =? UTF8_REJECT then
    match h with
    | handler_strict => None
    | handler_replace =>
        let buffer := take (e_bytes_after_last_accept e) (e_buffer e) ++ replacement ensure_ascii in
        let peak := length buffer in
        let '(out, buffer) := flush (e_out e) buffer in
        Some (mkEscaper codepoint UTF8_ACCEPT out buffer (length buffer) 0 (Nat.max (e_peak e) peak),
              (0 <? e_undumped_chars e)%nat)
    | handler_ignore =>
        Some (mkEscaper codepoint UTF8_ACCEPT (e_out e)
                (take (e_bytes_after_last_accept e) (e_buffer e)) (e_bytes_after_last_accept e) 0
                (e_peak e),
              (0 <? e_undumped_chars e)%nat)
    end
  else
    let buffer := if ensure_ascii then e_buffer e else e_buffer e ++ [c] in
    Some (mkEscaper codepoint state (e_out e) buffer (e_bytes_after_last_accept e)
            (S (e_undumped_chars e)) (Nat.max (e_peak e) (length buffer)), false).

(** The loop over the string.  A byte is read again at most once: the counter
    of undumped characters is then zero. *)
Fixpoint dump_bytes (ensure_ascii : bool) (h : error_handler_t) (s : bytes) (e : Escaper)
    : option Escaper :=
  match s with
  | [] => Some e
  | c :: s =>
    '(e, again) ← dump_byte ensure_ascii h c e;
    if again : bool then
      '(e, _) ← dump_byte ensure_ascii h c e; dump_bytes ensure_ascii h s e
    else dump_bytes ensure_ascii h s e
  end.

Definition dump_escaped (ensure_ascii : bool) (h : error_handler_t) (s : bytes) : option bytes :=
  e ← dump_bytes ensure_ascii h s newEscaper;
  if e_state e =? UTF8_ACCEPT then Some (e_out e ++ e_buffer e)
  else
    match h with
    | handler_strict => None
    | handler_ignore => Some (e_out e ++ take (e_bytes_after_last_accept e) (e_buffer e))
    | handler_replace =>
        Some (e_out e ++ take (e_bytes_after_last_accept e) (e_buffer e) ++ replacement ensure_ascii)
    end.

(** ** dump_integer *)

(** [count_digits(x)]; six rounds are enough for 64 bits. *)
Fixpoint count_digits_loop (fuel : nat) (x : Z) (n_digits : Z) : Z :=
  match fuel with
  | O => n_digits
  | S fuel =>
    if x <? 10 then n_digits
    else if x <? 100 then n_digits + 1
    else if x <? 1000 then n_digits + 2
    else if x <? 10000 then n_digits + 3
    else count_digits_loop fuel (x / 10000) (n_digits + 4)
  end.

Definition count_digits (x : Z) : Z := count_digits_loop 6 x 1.

(** [remove_sign(x)] for a negative [x]. *)
Definition remove_sign (x : Z) : Z := u64 (u64 (- (x + 1)) + 1).

(** [digits_to_99[i]] *)
Definition digits_to_99 (i : Z) : ascii * ascii := (byte_of (0x30 + i / 10), byte_of (0x30 + i mod 10)).

(** Two characters before the pointer. *)
Definition put_two (i : Z) (buffer : bytes) (ptr : nat) : bytes * nat :=
  let buffer := <[(ptr - 1)%nat := (digits_to_99 i).2]> buffer in
  (<[(ptr - 2)%nat := (digits_to_99 i).1]> buffer, (ptr - 2)%nat).

(** The [while (abs_value >= 100)] loop; ten rounds are enough for 64 bits. *)
Fixpoint fill_loop (fuel : nat) (abs_value : Z) (buffer : bytes) (ptr : nat) : Z * bytes * nat :=
  match fuel with
  | O => (abs_value, buffer, ptr)
  | S fuel =>
    if abs_value >=? 100 then
      let '(buffer, ptr) := put_two (abs_value mod 100) buffer ptr in
      fill_loop fuel (abs_value / 100) buffer ptr
    else (abs_value, buffer, ptr)
  end.

Definition dump_integer (number_buffer : bytes) (x : Z) : bytes :=
  if x =? 0 then [byte_of 0x30]
  else
    let negative := x <? 0 in
    let number_buffer := if negative then <[0%nat := byte_of 0x2D]> number_buffer else number_buffer in
    let abs_value := if negative then remove_sign x else x in
    let n_chars := Z.to_nat ((if negative then 1 else 0) + count_digits abs_value) in
    let '(abs_value, number_buffer, ptr) := fill_loop 10 abs_value number_buffer n_chars in
    let number_buffer :=
      if abs_value >=? 10 then (put_two abs_value number_buffer ptr).1
      else <[(ptr - 1)%nat := byte_of (0x30 + abs_value)]> number_buffer in
    take n_chars number_buffer.

Definition NUMBER_BUFFER_SIZE : nat := 64.
Definition number_buffer0 : bytes := replicate NUMBER_BUFFER_SIZE (byte_of 0).

(** ** dump *)

(** The elements of a container, separated by commas: the first [n - 1], then
    the last. *)
Section List.
Context {A : Type} (dump_one : A → option bytes).

Fixpoint dump_list (l : list A) : option bytes :=
  match l with
  | [] => Some []
  | [x] => dump_one x
  | x :: rest => a ← dump_one x; b ← dump_list rest; Some (a ++ lit "," ++ b)
  end.
End List.

Section Dump.
Context (ensure_ascii : bool) (h : error_handler_t).

(** A string or a key in quotes. *)
Definition dump_string (s : bytes) : option bytes :=
  t ← dump_escaped ensure_ascii h s; Some (lit "'" ++ t ++ lit "'").

(** An array and an object, given how their elements are dumped. *)
Definition dump_array (dump_one : json → option bytes) (elements : list json) : option bytes :=
  match elements with
  | [] => Some (lit "[]")
  | _ => body ← dump_list dump_one elements; Some (lit "[" ++ body ++ lit "]")
  end.

Definition dump_member (dump_one : json → option bytes) (kv : bytes * json) : option bytes :=
  let '(k, v) := kv in key ← dump_string k; text ← dump_one v; Some (key ++ lit ":" ++ text).

Definition dump_object (dump_one : json → option bytes) (members : list (bytes * json)) : option bytes :=
  match members with
  | [] => Some (lit "{}")
  | _ => body ← dump_list (dump_member dump_one) members; Some (lit "{" ++ body ++ lit "}")
  end.

Fixpoint dump (val : json) : option bytes :=
  match val with
  | JObject members => dump_object dump members
  | JArray elements => dump_array dump elements
  | JString s => dump_string s
  | JBoolean b => Some (if b then lit "true" else lit "false")
  | JInteger z | JUnsigned z => Some (dump_integer number_buffer0 z)
  | JFloat x => dump_float number_buffer0 x
  | JNull => Some (lit "null")
  end.
End Dump.

#[global] Arguments dump_byte : simpl never.
#[global] Arguments decode : simpl never.
#[global] Arguments escape_codepoint : simpl never.
#[global] Arguments hex_escape : simpl never.

(** ** The automaton recognises UTF-8

    The ranges of the bytes still to come in each state. *)
Definition state_ranges (state : Z) : list (Z * Z) :=
  let cont := (0x80, 0xBF) in
  if state =? 2 then [cont] else if state =? 3 then [cont; cont]
  else if state =? 4 then [(0xA0, 0xBF); cont] else if state =? 5 then [(0x80, 0x9F); cont]
  else if state =? 6 then [(0x90, 0xBF); cont; cont] else if state =? 7 then [cont; cont; cont]
  else if state =? 8 then [(0x80, 0x8F); cont; cont] else [].

Definition is_lead (v : Z) : bool := (v <=? 0x7F) || within 0xC2 0xF4 v.

(** The bits of the code point in a lead byte. *)
Definition lead_bits (v : Z) : Z :=
  if v <=? 0x7F then v else if v <=? 0xDF then v - 0xC0 else if v <=? 0xEF then v - 0xE0 else v - 0xF0.

Definition ranges_eqb (a b : list (Z * Z)) : bool := bool_decide (a = b).

Definition lead_check (v : Z) : bool :=
  let '(state, cp) := decode UTF8_ACCEPT 0 v in
  if is_lead v then
    bool_decide (state_ranges state = cont_ranges v) && (cp =? lead_bits v)
    && (if v <=? 0x7F then state =? 0 else within 2 8 state)
  else state =? UTF8_REJECT.

Definition cont_check (state v : Z) : bool :=
  let state' := (decode state 0 v).1 in
  match state_ranges state with
  | (lo, hi) :: ranges =>
      if within lo hi v
      then bool_decide (state_ranges state' = ranges)
           && (if bool_decide (ranges = []) then state' =? 0 else within 2 8 state')
      else state' =? UTF8_REJECT
  | [] => false
  end.

Lemma forallb_seqZ (P : Z → bool) m n v :
  forallb P (seqZ m n) = true → m ≤ v < m + n → P v = true.
Proof. intros Hf Hv. apply (proj1 (forallb_forall P _) Hf). by apply list_elem_of_In, elem_of_seqZ. Qed.

Lemma lead_checked v : 0 ≤ v < 256 → lead_check v = true.
Proof. intros. apply (forallb_seqZ lead_check 0 256); [by vm_compute|lia]. Qed.

Lemma cont_checked state v : 2 ≤ state ≤ 8 → 0 ≤ v < 256 → cont_check state v = true.
Proof.
  intros Hs Hv. apply (forallb_seqZ (cont_check state) 0 256); [|lia].
  apply (forallb_seqZ (λ state, forallb (cont_check state) (seqZ 0 256)) 2 7); [by vm_compute|lia].
Qed.

(** The new state does not depend on the code point, nor the code point of a
    lead byte on the previous one. *)
Lemma decode_lead codep c :
  is_lead (byte_val c) = true →
  ∃ state, decode UTF8_ACCEPT codep (byte_val c) = (state, lead_bits (byte_val c)) ∧
    state_ranges state = cont_ranges (byte_val c) ∧
    (if byte_val c <=? 0x7F then state = 0 else 2 ≤ state ≤ 8).
Proof.
  intros Hl. pose proof (lead_checked (byte_val c) (byte_val_range c)) as Hc. unfold lead_check in Hc.
  rewrite Hl in Hc. change (decode UTF8_ACCEPT codep (byte_val c)) with (decode UTF8_ACCEPT 0 (byte_val c)).
  destruct (decode UTF8_ACCEPT 0 (byte_val c)) as [state cp].
  apply andb_true_iff in Hc as [[Hr Hb]%andb_true_iff Hs]. bool_facts. subst cp.
  exists state. split_and!; [done|done|]. case_bool; range_facts; lia.
Qed.

Lemma decode_not_lead codep c :
  is_lead (byte_val c) = false → (decode UTF8_ACCEPT codep (byte_val c)).1 = UTF8_REJECT.
Proof.
  intros Hl. pose proof (lead_checked (byte_val c) (byte_val_range c)) as Hc. unfold lead_check in Hc.
  rewrite Hl in Hc. change (decode UTF8_ACCEPT codep (byte_val c)) with (decode UTF8_ACCEPT 0 (byte_val c)).
  destruct (decode UTF8_ACCEPT 0 (byte_val c)) as [state cp]. by apply Z.eqb_eq in Hc.
Qed.

Lemma decode_cont state codep c lo hi ranges :
  2 ≤ state ≤ 8 → state_ranges state = (lo, hi) :: ranges → 0 ≤ codep < 2 ^ 26 →
  if within lo hi (byte_val c) then
    ∃ state', decode state codep (byte_val c) = (state', codep * 64 + byte_val c mod 64) ∧
      state_ranges state' = ranges ∧ (if bool_decide (ranges = []) then state' = 0 else 2 ≤ state' ≤ 8)
  else (decode state codep (byte_val c)).1 = UTF8_REJECT.
Proof.
  intros Hs Hr Hcp. pose proof (cont_checked state (byte_val c) Hs (byte_val_range c)) as Hc.
  unfold cont_check in Hc. rewrite Hr in Hc. unfold decode in *.
  replace (state =? UTF8_ACCEPT) with false in * by (symmetry; apply Z.eqb_neq; unfold UTF8_ACCEPT; lia).
  cbn [negb fst] in *. case_bool; [|by apply Z.eqb_eq in Hc].
  apply andb_true_iff in Hc as [Hr' Hs']. bool_facts. eexists. split_and!; [|done|].
  - f_equal. assert (Hm : 0 ≤ byte_val c mod 2 ^ 6 < 2 ^ 6) by (apply Z.mod_pos_bound; lia).
    rewrite u32_small by (rewrite Z.shiftl_mul_pow2; lia). change 0x3F with (Z.ones 6).
    rewrite Z.land_ones by lia. rewrite Z.lor_comm, lor_low by done. by rewrite Z.shiftl_mul_pow2.
  - case_bool; range_facts; lia.
Qed.

(** ** Escaping one code point *)

Definition output (e : Escaper) : bytes := e_out e ++ e_buffer e.

(** Between two code points: the automaton accepts, at least 13 characters of
    the buffer are free, and no write has left it. *)
Definition settled (e : Escaper) : Prop :=
  e_state e = UTF8_ACCEPT ∧ (length (e_buffer e) ≤ 499)%nat ∧ (e_peak e ≤ STRING_BUFFER_SIZE)%nat.

Lemma flush_output out buffer : (flush out buffer).1 ++ (flush out buffer).2 = out ++ buffer.
Proof. unfold flush. case_bool; simpl; [by rewrite app_nil_r|done]. Qed.

Lemma flush_free out buffer : (length (flush out buffer).2 ≤ 499)%nat.
Proof. unfold flush, STRING_BUFFER_SIZE. case_bool; simpl; [lia|]. apply Nat.ltb_ge in E. lia. Qed.

Lemma dump_byte_accept ea h c e codepoint :
  decode (e_state e) (e_codepoint e) (byte_val c) = (UTF8_ACCEPT, codepoint) →
  (e_peak e ≤ STRING_BUFFER_SIZE)%nat →
  (length (e_buffer e) + length (escape_codepoint ea codepoint c)
     + (if (5 <? length (escape_codepoint ea codepoint c))%nat then 1 else 0) ≤ STRING_BUFFER_SIZE)%nat →
  ∃ e', dump_byte ea h c e = Some (e', false) ∧ settled e' ∧
    output e' = output e ++ escape_codepoint ea codepoint c.
Proof.
  intros Hd Hp Hl. unfold dump_byte. rewrite Hd. cbn [fst snd].
  replace (UTF8_ACCEPT =? UTF8_ACCEPT) with true by done. cbv zeta.
  set (buffer := e_buffer e ++ escape_codepoint ea codepoint c).
  assert (Hb : length buffer = (length (e_buffer e) + length (escape_codepoint ea codepoint c))%nat)
    by (unfold buffer; by rewrite length_app).
  pose proof (flush_output (e_out e) buffer) as Ho. pose proof (flush_free (e_out e) buffer) as Hf.
  destruct (flush (e_out e) buffer) as [out' buffer']. simpl in Ho, Hf.
  eexists. split; [done|]. split; [split_and!; simpl; [done|done|lia]|].
  unfold output. simpl. rewrite Ho. unfold buffer. by rewrite app_assoc.
Qed.

Lemma dump_byte_more ea h c e state codepoint :
  decode (e_state e) (e_codepoint e) (byte_val c) = (state, codepoint) → 2 ≤ state ≤ 8 →
  dump_byte ea h c e =
    Some (mkEscaper codepoint state (e_out e) (if ea then e_buffer e else e_buffer e ++ [c])
            (e_bytes_after_last_accept e) (S (e_undumped_chars e))
            (Nat.max (e_peak e) (length (if ea then e_buffer e else e_buffer e ++ [c]))), false).
Proof.
  intros Hd Hs. unfold dump_byte. rewrite Hd.
  destruct (Z.eqb_spec state UTF8_ACCEPT) as [->|]; [unfold UTF8_ACCEPT in *; lia|].
  destruct (Z.eqb_spec state UTF8_REJECT) as [->|]; [unfold UTF8_REJECT in *; lia|]. done.
Qed.

(** The code point of a sequence of bytes, and how it is written. *)
Definition cont_bits (codepoint : Z) (bs : bytes) : Z :=
  fold_left (λ cp b, cp * 64 + byte_val b mod 64) bs codepoint.

Definition char_codepoint (cs : bytes) : Z :=
  match cs with [] => 0 | c :: bs => cont_bits (lead_bits (byte_val c)) bs end.

Definition escape_char (ea : bool) (cs : bytes) : bytes :=
  (if ea then [] else take (length cs - 1) cs)
    ++ escape_codepoint ea (char_codepoint cs) (List.last cs (byte_of 0)).

Lemma escape_length ea cp c : (length (escape_codepoint ea cp c) ≤ 12)%nat.
Proof. unfold escape_codepoint. repeat case_bool; simpl; lia. Qed.

Lemma escape_plain cp c : 0x80 ≤ cp → escape_codepoint false cp c = [c].
Proof. intros. unfold escape_codepoint. repeat case_bool; range_facts; try done; lia. Qed.

(** What fits into the buffer when a code point is completed. *)
Lemma escape_fits ea cp c n :
  (n ≤ 499)%nat ∨ ea = false ∧ 0x80 ≤ cp ∧ (n ≤ 502)%nat →
  (n + length (escape_codepoint ea cp c)
     + (if (5 <? length (escape_codepoint ea cp c))%nat then 1 else 0) ≤ STRING_BUFFER_SIZE)%nat.
Proof.
  unfold STRING_BUFFER_SIZE. intros [?|(-> & ? & ?)].
  - pose proof (escape_length ea cp c). case_bool; lia.
  - rewrite escape_plain by lia. simpl. lia.
Qed.

(** The continuation bytes of a code point. *)
Lemma dump_cont (ea : bool) h bs e s :
  2 ≤ e_state e ≤ 8 → in_ranges (state_ranges (e_state e)) bs →
  0 ≤ e_codepoint e → (e_codepoint e + 1) * 64 ^ zlen bs ≤ 2 ^ 26 →
  (e_peak e ≤ STRING_BUFFER_SIZE)%nat →
  (if ea then length (e_buffer e) ≤ 499 else length (e_buffer e) + length bs ≤ 503)%nat →
  (ea = false → 0x80 ≤ cont_bits (e_codepoint e) bs) →
  ∃ e', dump_bytes ea h (bs ++ s) e = dump_bytes ea h s e' ∧ settled e' ∧
    output e' = output e ++ (if ea then [] else take (length bs - 1) bs)
      ++ escape_codepoint ea (cont_bits (e_codepoint e) bs) (List.last bs (byte_of 0)).
Proof.
  revert e. induction bs as [|b bs IH]; intros e Hs Hr Hcp Hb Hp Hl Hm.
  { inversion Hr as [E|]. unfold state_ranges in E. repeat case_bool; bool_facts; try done; lia. }
  inversion Hr as [|[lo hi] ? ranges ? Hlo Hrest Er]; subst. simpl in Hlo. unfold in_range in Hlo.
  assert (Hpow : 1 ≤ 64 ^ zlen bs) by (pose proof (Z.pow_pos_nonneg 64 (zlen bs) ltac:(lia) (zlen_nonneg bs)); lia).
  rewrite zlen_cons, Z.pow_add_r in Hb by (pose proof (zlen_nonneg bs); lia).
  pose proof (decode_cont (e_state e) (e_codepoint e) b lo hi ranges Hs (eq_sym Er)) as Hd.
  rewrite (proj2 (within_true lo hi _) Hlo) in Hd.
  destruct Hd as (state' & Hd & Hsr & Hst); [nia|].
  assert (Hmod : 0 ≤ byte_val b mod 64 < 64) by (apply Z.mod_pos_bound; lia).
  cbn [cont_bits fold_left app] in *.
  destruct bs as [|b2 bs].
  - inversion Hrest; subst. rewrite bool_decide_eq_true_2 in Hst by done. subst state'.
    destruct (dump_byte_accept ea h b e _ Hd Hp) as (e' & He' & Hset & Hout).
    { apply escape_fits. destruct ea; [by left|right]. split_and!; [done|by apply Hm|simpl in Hl; lia]. }
    exists e'. simpl. rewrite He'. simpl. split_and!; [done|done|]. rewrite Hout. simpl. by destruct ea.
  - rewrite bool_decide_eq_false_2 in Hst by (intros ->; by inversion Hrest).
    pose proof (dump_byte_more ea h b e _ _ Hd Hst) as Hmore.
    destruct (IH (mkEscaper (e_codepoint e * 64 + byte_val b mod 64) state' (e_out e)
      (if ea then e_buffer e else e_buffer e ++ [b]) (e_bytes_after_last_accept e) (S (e_undumped_chars e))
      (Nat.max (e_peak e) (length (if ea then e_buffer e else e_buffer e ++ [b])))))
      as (e' & He' & Hset & Hout); simpl.
    + done.
    + by rewrite Hsr.
    + lia.
    + nia.
    + unfold STRING_BUFFER_SIZE in *. destruct ea; simpl in Hl; rewrite ?length_app; simpl; lia.
    + destruct ea; simpl in Hl |- *; rewrite ?length_app; simpl; lia.
    + done.
    + exists e'. rewrite Hmore. simpl. split_and!; [done|done|]. rewrite Hout. unfold output. simpl.
      destruct ea; [done|]. rewrite <- !app_assoc. simpl. by rewrite ?Nat.sub_0_r.
Qed.

(** The code point of a sequence, by its length. *)
Lemma char_codepoint_spec cs :
  utf8_char cs →
  scalar (char_codepoint cs) ∧
  match cs with
  | [_] => char_codepoint cs < 0x80
  | [_; _] => 0x80 ≤ char_codepoint cs ≤ 0x7FF
  | [_; _; _] => 0x800 ≤ char_codepoint cs ≤ 0xFFFF
  | _ => 0x10000 ≤ char_codepoint cs
  end.
Proof.
  intros Hu. unfold scalar, char_codepoint, cont_bits, lead_bits. pose proof byte_val_range as Hb.
  inversion Hu as [a Ha|a b Ha Hc|a b c Ha Hc Hd|a b c d Ha Hc Hd He]; subst; simpl; unfold in_range in *;
    specialize (Hb a); repeat case_bool; bool_facts; try lia.
  - Z.to_euclidean_division_equations. lia.
  - unfold second_byte in Hc. repeat case_bool; bool_facts; simpl in Hc; Z.to_euclidean_division_equations; lia.
  - unfold second_byte in Hc. repeat case_bool; bool_facts; simpl in Hc; Z.to_euclidean_division_equations; lia.
Qed.

Lemma lead_room c bs :
  utf8_char (c :: bs) → 0x7F < byte_val c →
  0 ≤ lead_bits (byte_val c) ∧ (lead_bits (byte_val c) + 1) * 64 ^ zlen bs ≤ 2 ^ 26 ∧ (length bs ≤ 3)%nat.
Proof.
  intros Hu Hc. unfold lead_bits. inversion Hu; subst; unfold in_range, zlen in *; simpl length;
    repeat case_bool; bool_facts; simpl; lia.
Qed.

(** One code point in [dump_escaped]. *)
Lemma dump_char ea h cs e s :
  utf8_char cs → settled e →
  ∃ e', dump_bytes ea h (cs ++ s) e = dump_bytes ea h s e' ∧ settled e' ∧
    output e' = output e ++ escape_char ea cs.
Proof.
  intros Hu (Hst & Hlen & Hpk). destruct cs as [|c bs]; [by inversion Hu|].
  pose proof (char_codepoint_spec _ Hu) as [_ Hcp]. pose proof (lead_room _ _ Hu) as Hroom.
  apply utf8_char_ranges in Hu as [Hlead Hr].
  assert (Hl : is_lead (byte_val c) = true).
  { unfold is_lead. apply orb_true_iff. destruct Hlead; [left; by apply Z.leb_le|right; by apply within_true]. }
  destruct (decode_lead (e_codepoint e) c Hl) as (state & Hd & Hsr & Hs). rewrite <- Hst in Hd.
  unfold escape_char. cbn [length]. rewrite Nat.sub_succ, Nat.sub_0_r.
  destruct (byte_val c <=? 0x7F) eqn:E; bool_facts.
  - subst state. assert (bs = []) as ->.
    { unfold cont_ranges in Hr. rewrite (proj2 (Z.leb_le _ _) E) in Hr. by inversion Hr. }
    destruct (dump_byte_accept ea h c e _ Hd Hpk) as (e' & He' & Hset & Hout).
    { apply escape_fits. by left. }
    exists e'. simpl. rewrite He'. simpl. split_and!; [done|done|]. rewrite Hout. by destruct ea.
  - pose proof (dump_byte_more ea h c e _ _ Hd Hs) as Hmore. rewrite <- Hsr in Hr.
    destruct (Hroom E) as (? & ? & ?). destruct bs as [|b bs].
    { inversion Hr as [E0|]. unfold state_ranges in E0. repeat case_bool; bool_facts; try done; lia. }
    simpl app. cbn [dump_bytes]. rewrite Hmore. cbn [mbind option_bind].
    destruct (dump_cont ea h (b :: bs) (mkEscaper (lead_bits (byte_val c)) state (e_out e)
      (if ea then e_buffer e else e_buffer e ++ [c]) (e_bytes_after_last_accept e) (S (e_undumped_chars e))
      (Nat.max (e_peak e) (length (if ea then e_buffer e else e_buffer e ++ [c])))) s)
      as (e' & He' & Hset & Hout); simpl; try done.
    + unfold STRING_BUFFER_SIZE in *. destruct ea; rewrite ?length_app; simpl; lia.
    + simpl in *. destruct ea; rewrite ?length_app; simpl; lia.
    + intros _. destruct bs as [|b1 [|b2 [|]]]; simpl in *; lia.
    + exists e'. split_and!; [done|done|]. rewrite Hout. unfold output. simpl.
      destruct ea; [done|]. rewrite <- !app_assoc. simpl. by rewrite ?Nat.sub_0_r.
Qed.

(** ** The lexer reads an escaped code point back *)

Lemma char_codepoint_bits cs :
  utf8_char cs →
  char_codepoint cs =
    match cs with
    | [a] => byte_val a
    | [a; b] => (byte_val a - 0xC0) * 64 + (byte_val b - 0x80)
    | [a; b; c] => (byte_val a - 0xE0) * 4096 + (byte_val b - 0x80) * 64 + (byte_val c - 0x80)
    | [a; b; c; d] =>
        (byte_val a - 0xF0) * 262144 + (byte_val b - 0x80) * 4096 + (byte_val c - 0x80) * 64
          + (byte_val d - 0x80)
    | _ => 0
    end.
Proof.
  intros Hu. unfold char_codepoint, cont_bits, lead_bits.
  inversion Hu as [a Ha|a b Ha Hb|a b c Ha Hb Hc|a b c d Ha Hb Hc Hd]; subst; unfold in_range in *; simpl;
    repeat case_bool; bool_facts; try lia;
    try (unfold second_byte in Hb; repeat case_bool; bool_facts; simpl in Hb);
    Z.to_euclidean_division_equations; lia.
Qed.

(** The bytes of a code point, as sums. *)
Lemma codepoint_bytes_sums cp :
  0 ≤ cp ≤ 0x10FFFF →
  codepoint_bytes cp =
    map byte_of
      (if cp <? 0x80 then [cp]
       else if cp <=? 0x7FF then [0xC0 + cp / 64; 0x80 + cp mod 64]
       else if cp <=? 0xFFFF then [0xE0 + cp / 4096; 0x80 + cp / 64 mod 64; 0x80 + cp mod 64]
       else [0xF0 + cp / 262144; 0x80 + cp / 4096 mod 64; 0x80 + cp / 64 mod 64; 0x80 + cp mod 64]).
Proof.
  intros Hcp. unfold codepoint_bytes. rewrite !Z.shiftr_div_pow2 by lia.
  change (2 ^ 6) with 64. change (2 ^ 12) with 4096. change (2 ^ 18) with 262144.
  replace (cp / 2 ^ 0) with cp by (by rewrite Z.div_1_r).
  assert (Hc : ∀ x, Z.lor 0x80 (Z.land x 0x3F) = 0x80 + x mod 64).
  { intros x. change 0x3F with (Z.ones 6). rewrite Z.land_ones by lia. change (2 ^ 6) with 64.
    rewrite (lor_low 2 6) by (try apply Z.mod_pos_bound; lia). done. }
  rewrite !Hc. repeat case_bool; bool_facts; simpl; repeat f_equal.
  - rewrite (lor_low 6 5); [done|lia|euclid].
  - rewrite (lor_low 14 4); [done|lia|euclid].
  - rewrite (lor_low 30 3); [done|lia|euclid].
Qed.

(** [codepoint_bytes] inverts [char_codepoint]. *)
Lemma codepoint_bytes_char cs : utf8_char cs → codepoint_bytes (char_codepoint cs) = cs.
Proof.
  intros Hu. destruct (char_codepoint_spec cs Hu) as [[Hr _] Hcp].
  rewrite codepoint_bytes_sums by done. rewrite char_codepoint_bits in * by done.
  assert (Hs : ∀ a b, in_range (second_byte (byte_val a)).1 (second_byte (byte_val a)).2 (byte_val b) →
    0x80 ≤ byte_val b ≤ 0xBF).
  { intros a b. unfold second_byte, in_range. repeat case_bool; simpl; lia. }
  assert (He : ∀ z c, z = byte_val c → byte_of z = c) by (intros z c ->; apply byte_of_val).
  inversion Hu as [a Ha|a b Ha Hb|a b c Ha Hb%Hs Hc|a b c d Ha Hb%Hs Hc Hd]; subst; unfold in_range in *;
    repeat (case_bool; bool_facts; try lia); simpl; repeat f_equal; apply He; euclid.
Qed.

Lemma hex_char_digit n : 0 ≤ n < 16 → hex_digit (byte_val (hex_char n)) = Some n.
Proof.
  intros Hn.
  pose proof (forallb_seqZ (λ n, match hex_digit (byte_val (hex_char n)) with
                                 | Some m => m =? n | None => false end) 0 16 n) as Hc.
  cbv beta in Hc. destruct (hex_digit _) as [m|]; [f_equal; apply Z.eqb_eq|]; (apply Hc; [by vm_compute|lia])
    || (specialize (Hc ltac:(by vm_compute) ltac:(lia)); done).
Qed.

(** Four hexadecimal digits are read back. *)
Lemma get_codepoint_hex z rest :
  0 ≤ z ≤ 0xFFFF → get_codepoint (drop 2 (hex_escape z) ++ rest) = Some (z, rest).
Proof.
  intros Hz. unfold get_codepoint, hex_escape. rewrite Z.mod_small by lia. simpl drop. cbn [app codepoint_loop].
  unfold get. cbv beta iota. change 15 with (Z.ones 4). rewrite !Z.land_ones, !Z.shiftr_div_pow2 by lia.
  change (2 ^ 4) with 16. change (2 ^ 8) with 256. change (2 ^ 12) with 4096.
  rewrite !hex_char_digit by (apply Z.mod_pos_bound; lia). do 2 f_equal.
  rewrite !Z.shiftl_mul_pow2 by lia. change (2 ^ 4) with 16. change (2 ^ 8) with 256.
  change (2 ^ 12) with 4096. change (2 ^ 0) with 1. euclid.
Qed.

Lemma hex_escape_cons z : hex_escape z = byte_of 0x5C :: byte_of 0x75 :: drop 2 (hex_escape z).
Proof. done. Qed.

Lemma scan_backslash s : scan_char (byte_of 0x5C :: s) = add_bytes (scan_escape s).
Proof. done. Qed.

Lemma scan_escape_u s : scan_escape (byte_of 0x75 :: s) = scan_unicode s.
Proof. done. Qed.

Lemma scan_hex_escape z rest :
  0 ≤ z ≤ 0xFFFF → ¬ (0xD800 ≤ z ≤ 0xDFFF) →
  scan_char (hex_escape z ++ rest) = CharAdd (codepoint_bytes z) rest.
Proof.
  intros Hz Hs. rewrite hex_escape_cons, <- !app_comm_cons, scan_backslash, scan_escape_u.
  unfold scan_unicode. rewrite get_codepoint_hex by done. cbn [mbind option_bind].
  rewrite !(proj2 (within_false _ _ _)) by lia. done.
Qed.

Lemma scan_pair hi lo rest :
  0xD800 ≤ hi ≤ 0xDBFF → 0xDC00 ≤ lo ≤ 0xDFFF →
  scan_char ((hex_escape hi ++ hex_escape lo) ++ rest)
    = CharAdd (codepoint_bytes (0x10000 + (hi - 0xD800) * 1024 + (lo - 0xDC00))) rest.
Proof.
  intros Hhi Hlo. rewrite <- app_assoc, (hex_escape_cons hi), <- !app_comm_cons, scan_backslash, scan_escape_u.
  unfold scan_unicode. rewrite get_codepoint_hex by lia. cbn [mbind option_bind].
  rewrite (proj2 (within_true 0xD800 0xDBFF _)) by lia. rewrite (hex_escape_cons lo), <- !app_comm_cons.
  unfold get. replace (byte_val (byte_of 0x5C)) with 0x5C by done.
  replace (byte_val (byte_of 0x75)) with 0x75 by done. cbn [Z.eqb Pos.eqb negb].
  rewrite get_codepoint_hex by lia. cbn [mbind option_bind].
  rewrite (proj2 (within_true 0xDC00 0xDFFF _)) by lia. by rewrite surrogate_pair.
Qed.

Lemma scan_surrogates cp rest :
  0x10000 ≤ cp ≤ 0x10FFFF →
  scan_char ((hex_escape (0xD7C0 + Z.shiftr cp 10) ++ hex_escape (0xDC00 + Z.land cp 0x3FF)) ++ rest)
    = CharAdd (codepoint_bytes cp) rest.
Proof.
  intros Hcp. rewrite Z.shiftr_div_pow2 by lia. change 0x3FF with (Z.ones 10).
  rewrite Z.land_ones by lia. change (2 ^ 10) with 1024.
  rewrite scan_pair by euclid. do 2 f_equal. euclid.
Qed.

(** A code point that needs no escape is read as it is. *)
Lemma scan_char_raw cs rest :
  utf8_char cs → 0x20 ≤ char_codepoint cs → char_codepoint cs ≠ 0x22 → char_codepoint cs ≠ 0x5C →
  scan_char (cs ++ rest) = CharAdd cs rest.
Proof.
  intros Hu. rewrite char_codepoint_bits by done. destruct cs as [|c bs]; [by inversion Hu|].
  destruct (decide (byte_val c ≤ 0x7F)) as [Hc|Hc]; intros Hge Hq Hb.
  - inversion Hu; subst; unfold in_range in *; try lia. apply scan_char_plain; lia.
  - clear Hge Hq Hb. apply utf8_char_ranges in Hu as [Hl Hr]. simpl app.
    rewrite scan_char_multi by lia. unfold next_byte_in_range. rewrite range_loop_intro by done.
    by rewrite byte_of_val.
Qed.

Lemma escape_char_plain (ea : bool) cs :
  utf8_char cs →
  (if ea then [] else take (length cs - 1) cs) ++ [List.last cs (byte_of 0)] = cs ∨ ea = true ∧ 0x80 ≤ char_codepoint cs.
Proof.
  intros Hu. destruct (char_codepoint_spec cs Hu) as [_ Hcp].
  destruct ea; [|left; by inversion Hu]. inversion Hu; subst; [by left|right; split; [done|lia]..].
Qed.

Lemma scan_escape_char ea cs rest :
  utf8_char cs → scan_char (escape_char ea cs ++ rest) = CharAdd cs rest.
Proof.
  intros Hu. unfold escape_char. destruct (char_codepoint_spec cs Hu) as [[Hr Hs] Hcp].
  destruct (decide (char_codepoint cs < 0x80)) as [Hlt|Hge].
  - assert (∃ a, cs = [a]) as [a ->] by (inversion Hu; subst; [eauto|lia..]).
    rewrite char_codepoint_bits in * by done. simpl List.last. 
    replace (if ea then [] else take (length [a] - 1) [a]) with (@nil ascii) by (by destruct ea). simpl app.
    assert (He : ∀ z, byte_val a = z → [a] = [byte_of z]) by (intros z <-; by rewrite byte_of_val).
    unfold escape_codepoint.
    do 7 (case_bool; [bool_facts; by rewrite (He _ ltac:(eassumption))|]). bool_facts.
    case_bool.
    + replace (byte_val a <=? 0xFFFF) with true by (symmetry; apply Z.leb_le; lia).
      rewrite scan_hex_escape by lia. f_equal. rewrite <- (codepoint_bytes_char [a] Hu).
      by rewrite char_codepoint_bits.
    + range_facts. apply (scan_char_raw [a]); rewrite ?char_codepoint_bits; try done; lia.
  - destruct ea.
    + assert (Hc : (char_codepoint cs <=? 0x1F) || (true && (char_codepoint cs >=? 0x7F)) = true)
        by (rewrite Z.geb_leb, (proj2 (Z.leb_le 0x7F _)) by lia; apply orb_true_r).
      unfold escape_codepoint. do 7 (case_bool; [bool_facts; lia|]). rewrite Hc.
      case_bool; bool_facts; rewrite app_nil_l.
      * rewrite scan_hex_escape by lia. by rewrite codepoint_bytes_char.
      * rewrite scan_surrogates by lia. by rewrite codepoint_bytes_char.
    + rewrite escape_plain by lia.
      destruct (escape_char_plain false cs Hu) as [E|[? _]]; [|done]. rewrite E. apply scan_char_raw; [done|lia..].
Qed.

(** ** Whole strings *)

(** The escaped text of a valid string, code point by code point. *)
Inductive escapes (ea : bool) : bytes → bytes → Prop :=
  | esc_nil : escapes ea [] []
  | esc_app cs s t : utf8_char cs → escapes ea s t → escapes ea (cs ++ s) (escape_char ea cs ++ t).

Lemma dump_bytes_escapes ea h s e :
  utf8 s → settled e →
  ∃ e' t, dump_bytes ea h s e = Some e' ∧ settled e' ∧ escapes ea s t ∧ output e' = output e ++ t.
Proof.
  intros Hu. revert e. induction Hu as [|cs s Hc Hs IH]; intros e He.
  - exists e, []. simpl. rewrite app_nil_r. split_and!; [done|done|constructor|done].
  - destruct (dump_char ea h cs e s Hc He) as (e1 & E1 & Hs1 & Ho1).
    destruct (IH e1 Hs1) as (e2 & t & E2 & Hs2 & Ht & Ho2).
    exists e2, (escape_char ea cs ++ t). rewrite E1, Ho2, Ho1.
    split_and!; [done|done|by constructor|by rewrite <- app_assoc].
Qed.

Lemma settled_new : settled newEscaper.
Proof. unfold settled, STRING_BUFFER_SIZE. simpl. split_and!; [done|lia|lia]. Qed.

Lemma dump_escaped_valid ea h s : utf8 s → ∃ t, dump_escaped ea h s = Some t ∧ escapes ea s t.
Proof.
  intros Hu. destruct (dump_bytes_escapes ea h s newEscaper Hu settled_new) as (e & t & Ed & (Hst & _) & Ht & Ho).
  exists t. split; [|done]. unfold dump_escaped. rewrite Ed. cbn [mbind option_bind]. rewrite Hst.
  replace (UTF8_ACCEPT =? UTF8_ACCEPT) with true by done. f_equal. exact Ho.
Qed.

(** The lexer reads the escaped text back, up to the closing quote. *)
Lemma string_loop_escapes ea s t rest fuel buf :
  escapes ea s t → (length (t ++ byte_of 0x22 :: rest) < fuel)%nat →
  string_loop fuel buf (t ++ byte_of 0x22 :: rest) = Some (value_string (buf ++ s), rest).
Proof.
  intros Ht. revert fuel buf. induction Ht as [|cs s t Hc Ht IH]; intros [|fuel] buf Hf; try (simpl in Hf; lia).
  - simpl. by rewrite app_nil_r.
  - rewrite <- app_assoc in *. cbn [string_loop]. rewrite scan_escape_char by done.
    rewrite IH; [by rewrite <- app_assoc|]. destruct (escape_char ea cs) as [|x y] eqn:Ee.
    + pose proof (scan_escape_char ea cs [] Hc) as Hn. by rewrite Ee in Hn.
    + rewrite length_app in Hf. simpl in Hf. lia.
Qed.

Lemma scan_string_escapes ea s t rest :
  escapes ea s t → scan_string (t ++ byte_of 0x22 :: rest) = (value_string s, rest).
Proof. intros Ht. unfold scan_string. by rewrite (string_loop_escapes ea s t rest _ []) by (done || lia). Qed.

(** *** The strict handler refuses everything else *)

Lemma dump_byte_reject ea c e :
  (decode (e_state e) (e_codepoint e) (byte_val c)).1 = UTF8_REJECT → dump_byte ea handler_strict c e = None.
Proof. unfold dump_byte. destruct (decode _ _ _) as [state cp]. simpl. by intros ->. Qed.

(** Inside a code point: either the missing bytes follow, or the string is
    refused or ends too early. *)
Lemma dump_cont_valid ea s e e' :
  2 ≤ e_state e ≤ 8 → 0 ≤ e_codepoint e →
  (e_codepoint e + 1) * 64 ^ zlen (state_ranges (e_state e)) ≤ 2 ^ 26 →
  dump_bytes ea handler_strict s e = Some e' → e_state e' = UTF8_ACCEPT →
  ∃ bs s1 e1, s = bs ++ s1 ∧ in_ranges (state_ranges (e_state e)) bs ∧
    dump_bytes ea handler_strict s1 e1 = Some e' ∧ e_state e1 = UTF8_ACCEPT.
Proof.
  remember (state_ranges (e_state e)) as ranges eqn:Er. revert s e Er.
  induction ranges as [|[lo hi] ranges IH]; intros s e Er Hs Hcp Hb Hd He'.
  { unfold state_ranges in Er. repeat case_bool; bool_facts; try done; lia. }
  destruct s as [|c s]; [simpl in Hd; injection Hd as <-; unfold UTF8_ACCEPT in *; lia|].
  rewrite zlen_cons, Z.pow_add_r in Hb by (pose proof (zlen_nonneg ranges); lia).
  assert (Hpow : 1 ≤ 64 ^ zlen ranges)
    by (pose proof (Z.pow_pos_nonneg 64 (zlen ranges) ltac:(lia) (zlen_nonneg ranges)); lia).
  pose proof (decode_cont (e_state e) (e_codepoint e) c lo hi ranges Hs (eq_sym Er) ltac:(nia)) as Hc.
  destruct (within lo hi (byte_val c)) eqn:Ew.
  - destruct Hc as (state' & Hdec & Hsr & Hst). apply within_true in Ew.
    assert (Hmod : 0 ≤ byte_val c mod 64 < 64) by (apply Z.mod_pos_bound; lia).
    cbn [dump_bytes] in Hd. destruct ranges as [|r ranges].
    + rewrite bool_decide_eq_true_2 in Hst by done. subst state'.
      unfold dump_byte in Hd. rewrite Hdec in Hd. cbn in Hd. destruct (flush _ _) as [out buffer] in Hd.
      cbn in Hd. exists [c], s. eexists. split_and!; [done|constructor; [done|constructor]|exact Hd|done].
    + rewrite bool_decide_eq_false_2 in Hst by done.
      rewrite (dump_byte_more _ _ _ _ _ _ Hdec Hst) in Hd. cbn [mbind option_bind] in Hd.
      eapply IH in Hd as (bs & s1 & e1 & -> & Hr & Hd1 & He1); simpl; try done; [|lia|nia].
      exists (c :: bs), s1, e1. split_and!; [done|by constructor|done|done].
  - apply (dump_byte_reject ea) in Hc. cbn [dump_bytes] in Hd. by rewrite Hc in Hd.
Qed.

Lemma dump_bytes_utf8 ea s e e' :
  e_state e = UTF8_ACCEPT → dump_bytes ea handler_strict s e = Some e' → e_state e' = UTF8_ACCEPT → utf8 s.
Proof.
  remember (length s) as n eqn:En. revert s e En.
  induction (Nat.lt_wf_0 n) as [n _ IH]. intros s e -> He Hd He'.
  destruct s as [|c s]; [constructor|]. pose proof (byte_val_range c) as Hr.
  destruct (is_lead (byte_val c)) eqn:El.
  2:{ pose proof (decode_not_lead (e_codepoint e) c El) as Hn. rewrite <- He in Hn.
      apply (dump_byte_reject ea) in Hn. cbn [dump_bytes] in Hd. by rewrite Hn in Hd. }
  destruct (decode_lead (e_codepoint e) c El) as (state & Hdec & Hsr & Hst). rewrite <- He in Hdec.
  destruct (byte_val c <=? 0x7F) eqn:Ec.
  - subst state. change (c :: s) with ([c] ++ s). constructor; [apply utf8_1; bool_facts; unfold in_range; lia|].
    cbn [dump_bytes] in Hd. unfold dump_byte in Hd. rewrite Hdec in Hd. cbn in Hd.
    destruct (flush _ _) as [out buffer] in Hd. cbn in Hd.
    eapply (IH (length s)); [simpl; lia|done| |exact Hd|done]. done.
  - cbn [dump_bytes] in Hd. rewrite (dump_byte_more _ _ _ _ _ _ Hdec Hst) in Hd. cbn [mbind option_bind] in Hd.
    unfold is_lead in El. rewrite Ec in El. apply within_true in El. bool_facts.
    apply dump_cont_valid in Hd as (bs & s1 & e1 & -> & Hbs & Hd1 & He1); simpl; try done.
    + rewrite app_comm_cons. simpl in Hbs. rewrite Hsr in Hbs.
      constructor; [apply utf8_char_ranges; split; [lia|done]|].
      eapply (IH (length s1)); [simpl; rewrite length_app; lia|done|exact He1|done|done].
    + unfold lead_bits. repeat case_bool; range_facts; lia.
    + rewrite Hsr. unfold lead_bits, cont_ranges. repeat case_bool; range_facts; unfold zlen; simpl; lia.
Qed.

(** [dump_escaped] with the strict handler accepts exactly valid UTF-8. *)
Lemma dump_escaped_utf8 ea s : is_Some (dump_escaped ea handler_strict s) ↔ utf8 s.
Proof.
  split.
  - intros [t Ht]. unfold dump_escaped in Ht. apply bind_Some in Ht as (e & Hd & Ht).
    case_bool; [|done]. bool_facts. by apply (dump_bytes_utf8 ea s newEscaper e).
  - intros Hu. destruct (dump_escaped_valid ea handler_strict s Hu) as (t & -> & _). eauto.
Qed.

(** ** The string buffer never overflows

    The least code point so far in each state of the automaton. *)
Definition min_bits (state : Z) : Z :=
  if (state =? 4) || (state =? 6) then 0 else if state =? 2 then 2 else 1.

Definition lead_min_check (v : Z) : bool :=
  let '(state, cp) := decode UTF8_ACCEPT 0 v in negb (within 0xC2 0xF4 v) || (min_bits state <=? cp).

Definition cont_min_check (state v : Z) : bool :=
  let state' := (decode state 0 v).1 in
  (state' =? UTF8_REJECT)
  || ((if state' =? 0 then 0x80 else min_bits state') <=? min_bits state * 64 + v mod 64).

Lemma lead_min_checked v : 0 ≤ v < 256 → lead_min_check v = true.
Proof. intros. apply (forallb_seqZ lead_min_check 0 256); [by vm_compute|lia]. Qed.

Lemma cont_min_checked state v : 2 ≤ state ≤ 8 → 0 ≤ v < 256 → cont_min_check state v = true.
Proof.
  intros Hs Hv. apply (forallb_seqZ (cont_min_check state) 0 256); [|lia].
  apply (forallb_seqZ (λ state, forallb (cont_min_check state) (seqZ 0 256)) 2 7); [by vm_compute|lia].
Qed.

(** What holds between two bytes of any string.  Inside a code point the
    bytes copied since the last accepted one are counted, and the code point
    so far is large enough not to be a character that is escaped. *)
Record buffered (ea : bool) (e : Escaper) : Prop := {
  bf_last : (e_bytes_after_last_accept e ≤ 499)%nat;
  bf_from : (e_bytes_after_last_accept e ≤ length (e_buffer e))%nat;
  bf_copied : (length (e_buffer e)
                 ≤ e_bytes_after_last_accept e + if ea then 0 else e_undumped_chars e)%nat;
  bf_peak : (e_peak e ≤ STRING_BUFFER_SIZE)%nat;
  bf_state :
    e_state e = UTF8_ACCEPT ∧ e_undumped_chars e = 0%nat ∨
    2 ≤ e_state e ≤ 8 ∧ (e_undumped_chars e + length (state_ranges (e_state e)) ≤ 4)%nat ∧
      min_bits (e_state e) ≤ e_codepoint e ∧
      (e_codepoint e + 1) * 64 ^ zlen (state_ranges (e_state e)) ≤ 2 ^ 26;
}.

Lemma min_bits_nonneg state : 0 ≤ min_bits state.
Proof. unfold min_bits. repeat case_bool; lia. Qed.

(** The next state of the automaton, in every situation. *)
Lemma buffered_decode ea e c state cp :
  buffered ea e → decode (e_state e) (e_codepoint e) (byte_val c) = (state, cp) →
  state = UTF8_REJECT ∨
  state = UTF8_ACCEPT ∧ (e_undumped_chars e ≤ 3)%nat ∧ (e_undumped_chars e = 0%nat ∨ 0x80 ≤ cp) ∨
  2 ≤ state ≤ 8 ∧ (S (e_undumped_chars e) + length (state_ranges state) ≤ 4)%nat ∧ min_bits state ≤ cp ∧
    (cp + 1) * 64 ^ zlen (state_ranges state) ≤ 2 ^ 26.
Proof.
  intros Hb Hd. pose proof (byte_val_range c) as Hc. destruct (bf_state _ _ Hb) as [[Hs Hu]|(Hs & Hu & Hm & Hp)].
  - rewrite Hs, Hu in *. destruct (is_lead (byte_val c)) eqn:El.
    2:{ left. pose proof (decode_not_lead (e_codepoint e) c El) as Hn. by rewrite Hd in Hn. }
    right. destruct (decode_lead (e_codepoint e) c El) as (state' & Hd' & Hr & Hst).
    rewrite Hd in Hd'. injection Hd' as <- ->. unfold is_lead in El.
    destruct (byte_val c <=? 0x7F) eqn:Ec; [left; subst; split_and!; [done|lia|by left]|right].
    apply within_true in El. bool_facts. split; [done|]. rewrite Hr.
    pose proof (lead_min_checked _ Hc) as Hmin. unfold lead_min_check in Hmin.
    change (decode UTF8_ACCEPT 0 (byte_val c)) with (decode UTF8_ACCEPT (e_codepoint e) (byte_val c)) in Hmin.
    rewrite Hd, (proj2 (within_true _ _ _) El) in Hmin. simpl in Hmin. bool_facts.
    unfold cont_ranges, lead_bits in *. repeat case_bool; bool_facts; simpl; unfold zlen; simpl length; lia.
  - destruct (state_ranges (e_state e)) as [|[lo hi] ranges] eqn:Er.
    { unfold state_ranges in Er. repeat case_bool; bool_facts; try done; lia. }
    pose proof (min_bits_nonneg (e_state e)). simpl in Hu.
    rewrite zlen_cons, Z.pow_add_r in Hp by (pose proof (zlen_nonneg ranges); lia).
    assert (Hpow : 1 ≤ 64 ^ zlen ranges)
      by (pose proof (Z.pow_pos_nonneg 64 (zlen ranges) ltac:(lia) (zlen_nonneg ranges)); lia).
    assert (Hcp : 0 ≤ e_codepoint e) by lia. clear H.
    assert (Hcp' : 0 ≤ e_codepoint e < 2 ^ 26) by nia.
    pose proof (decode_cont _ _ c lo hi ranges Hs Er Hcp') as Hdc.
    pose proof (cont_min_checked _ _ Hs Hc) as Hmin. unfold cont_min_check in Hmin.
    replace (decode (e_state e) 0 (byte_val c)).1 with state in Hmin
      by (change (decode (e_state e) 0 (byte_val c)).1 with (decode (e_state e) (e_codepoint e) (byte_val c)).1;
          by rewrite Hd).
    destruct (within lo hi (byte_val c)); [right|left; by rewrite Hd in Hdc].
    destruct Hdc as (state' & Hd' & Hsr & Hst). rewrite Hd in Hd'. injection Hd' as -> ->.
    assert (Hmod : 0 ≤ byte_val c mod 64 < 64) by (apply Z.mod_pos_bound; lia).
    destruct (bool_decide (ranges = [])) eqn:Eb; bool_facts; subst.
    + left. simpl in Hu. split_and!; [done|lia|]. right. change (0 =? UTF8_REJECT) with false in Hmin.
      simpl in Hmin. apply Z.leb_le in Hmin. lia.
    + right. split; [done|]. simpl in Hu |- *. split; [lia|].
      apply orb_true_iff in Hmin as [Hmin|Hmin]; bool_facts; [unfold UTF8_REJECT in *; lia|].
      rewrite (proj2 (Z.eqb_neq state' 0)) in Hmin by lia. split; [lia|nia].
Qed.

(** A flushed buffer, between two code points. *)
Lemma flush_buffered ea cp out buffer peak :
  (peak ≤ STRING_BUFFER_SIZE)%nat →
  buffered ea (mkEscaper cp UTF8_ACCEPT (flush out buffer).1 (flush out buffer).2
                 (length (flush out buffer).2) 0 peak).
Proof.
  intros Hp. pose proof (flush_free out buffer). constructor; simpl; [done|lia|destruct ea; lia|done|by left].
Qed.

Lemma replacement_length ea : (length (replacement ea) ≤ 6)%nat.
Proof. destruct ea; simpl; lia. Qed.

Lemma dump_byte_buffered ea h c e e' again :
  buffered ea e → dump_byte ea h c e = Some (e', again) → buffered ea e'.
Proof.
  intros Hb. unfold dump_byte. destruct (decode _ _ _) as [state cp] eqn:Hd.
  pose proof (bf_last _ _ Hb) as Hl. pose proof (bf_from _ _ Hb) as Hf.
  pose proof (bf_copied _ _ Hb) as Hc. pose proof (bf_peak _ _ Hb) as Hp.
  assert (Hcut : (length (take (e_bytes_after_last_accept e) (e_buffer e)) = e_bytes_after_last_accept e)%nat)
    by (rewrite length_take; lia).
  destruct (buffered_decode _ _ _ _ _ Hb Hd) as [->|[(-> & Hu & Hcp)|(Hs & Hu & Hm & Hpow)]].
  - replace (UTF8_REJECT =? UTF8_ACCEPT) with false by done. replace (UTF8_REJECT =? UTF8_REJECT) with true by done.
    destruct h; [done| |].
    + set (buffer := take _ _ ++ replacement ea). pose proof (replacement_length ea).
      assert (Hlen : (length buffer ≤ 505)%nat) by (unfold buffer; rewrite length_app, Hcut; lia).
      pose proof (flush_buffered ea cp (e_out e) buffer (Nat.max (e_peak e) (length buffer))) as Hfl.
      destruct (flush (e_out e) buffer) as [out' buffer']. intros [= <- <-]. apply Hfl.
      unfold STRING_BUFFER_SIZE in *. lia.
    + intros [= <- <-]. constructor; simpl; [done|lia|destruct ea; lia|done|by left].
  - replace (UTF8_ACCEPT =? UTF8_ACCEPT) with true by done. cbv zeta.
    set (buffer := e_buffer e ++ escape_codepoint ea cp c).
    pose proof (flush_buffered ea cp (e_out e) buffer) as Hfl.
    destruct (flush (e_out e) buffer) as [out' buffer']. intros [= <- <-]. apply Hfl.
    apply Nat.max_lub; [done|]. unfold buffer. rewrite length_app. apply escape_fits.
    destruct Hcp as [Hz|Hcp]; [left; destruct ea; lia|]. destruct ea; [left; lia|right]. split_and!; [done|done|lia].
  - destruct (Z.eqb_spec state UTF8_ACCEPT) as [->|]; [unfold UTF8_ACCEPT in *; lia|].
    destruct (Z.eqb_spec state UTF8_REJECT) as [->|]; [unfold UTF8_REJECT in *; lia|].
    intros [= <- <-]. constructor; unfold STRING_BUFFER_SIZE in *; simpl;
      [done|destruct ea; rewrite ?length_app; simpl in *; lia..|right; split_and!; done || lia].
Qed.

Lemma dump_bytes_buffered ea h s e e' :
  buffered ea e → dump_bytes ea h s e = Some e' → buffered ea e'.
Proof.
  revert e. induction s as [|c s IH]; intros e Hb; simpl; [by intros [= <-]|].
  intros ([e1 again] & H1 & H2)%bind_Some. pose proof (dump_byte_buffered _ _ _ _ _ _ Hb H1) as Hb1.
  destruct again; [|by eapply IH]. apply bind_Some in H2 as ([e2 again2] & H2 & H3).
  eapply IH; [|exact H3]. by eapply dump_byte_buffered.
Qed.

(** A byte is read again at most once. *)
Lemma dump_byte_again_once ea h c e e1 e2 again :
  dump_byte ea h c e = Some (e1, true) → dump_byte ea h c e1 = Some (e2, again) → again = false.
Proof.
  unfold dump_byte at 1. destruct (decode _ _ _) as [state cp].
  case_bool; [by destruct (flush _ _); intros [=]|]. case_bool; [|done].
  assert (Hz : e_undumped_chars e1 = 0%nat → dump_byte ea h c e1 = Some (e2, again) → again = false).
  { intros Hu. unfold dump_byte. destruct (decode _ _ _) as [state' cp']. rewrite Hu.
    case_bool; [destruct (flush _ _); by intros [= <- <-]|]. case_bool; [|by intros [= <- <-]].
    destruct h; [done|destruct (flush _ _); by intros [= <- <-]|by intros [= <- <-]]. }
  destruct h; [done|destruct (flush _ _)|]; intros [= <- _]; by apply Hz.
Qed.

Lemma buffered_new ea : buffered ea newEscaper.
Proof. constructor; unfold STRING_BUFFER_SIZE; simpl; [lia..|by left]. Qed.

Lemma dump_bytes_throws ea h s e : dump_bytes ea h s e = None → h = handler_strict.
Proof.
  assert (Hb : ∀ c e, dump_byte ea h c e = None → h = handler_strict).
  { intros c e0. unfold dump_byte. destruct (decode _ _ _) as [state cp].
    case_bool; [by destruct (flush _ _)|]. case_bool; [|done]. by destruct h; [|destruct (flush _ _)|]. }
  revert e. induction s as [|c s IH]; intros e; simpl; [done|].
  destruct (dump_byte ea h c e) as [[e1 [|]]|] eqn:E1; simpl; [|apply IH|intros _; by eapply Hb].
  destruct (dump_byte ea h c e1) as [[e2 again]|] eqn:E2; simpl; [apply IH|intros _; by eapply Hb].
Qed.

(** C34: The strict error handler of the serializer, which the gateway uses,
    throws for exactly the strings that are not well-formed UTF-8: the
    table-driven automaton of [decode] accepts what RFC 3629 defines, and a
    string that ends inside a code point is refused too. *)
Theorem strict_dump_accepts_utf8 (ensure_ascii : bool) (s : bytes) :
  is_Some (dump_escaped ensure_ascii handler_strict s) ↔ utf8 s.
Proof. apply dump_escaped_utf8. Qed.

(** C35: Escaping never leaves the 512-character string buffer, for any bytes
    (valid UTF-8 or not), any error handler and with or without
    [ensure_ascii]; and only the strict handler throws. *)
Theorem string_buffer_in_bounds (ensure_ascii : bool) (h : error_handler_t) (s : bytes) :
  match dump_bytes ensure_ascii h s newEscaper with
  | Some e => (e_peak e ≤ STRING_BUFFER_SIZE)%nat
  | None => h = handler_strict
  end.
Proof.
  destruct (dump_bytes _ _ _ _) as [e|] eqn:E.
  - exact (bf_peak _ _ (dump_bytes_buffered _ _ _ _ _ (buffered_new _) E)).
  - by eapply dump_bytes_throws.
Qed.
