(* ===== verification/JsonRound.v ===== *)
(** * Serializing and parsing back

    [dump_integer] against [std::to_string], the round trip of [dump] and
    [parse], and the instance [nlohmann] of [JsonLib]. *)

From S2P Require Import Prelude.
From S2P Require Import Text Double Grisu GrisuDigits GrisuRound.
From S2P Require Import Json.
From S2P Require Import JsonLexer.
From S2P Require Import JsonParser.
From S2P Require Import JsonDump.
From stdpp Require Import pretty.
From Stdlib Require Import Sorted.
#[local] Open Scope Z_scope.

(** ** Decimal digits *)

Definition digit (n : Z) : ascii := byte_of (0x30 + n).

Lemma pretty_char_digit n : (n < 10)%N → pretty_N_char n = digit (Z.of_N n).
Proof.
  intros Hn. assert (n = 0 ∨ n = 1 ∨ n = 2 ∨ n = 3 ∨ n = 4 ∨ n = 5 ∨ n = 6 ∨ n = 7 ∨ n = 8 ∨ n = 9)%N
    as Hc by lia.
  repeat (destruct Hc as [->|Hc]; [done|]). by subst.
Qed.

Lemma pretty_N_go_list x s :
  list_ascii_of_string (pretty_N_go x s)
    = list_ascii_of_string (pretty_N_go x "") ++ list_ascii_of_string s.
Proof.
  revert s. induction (N.lt_wf_0 x) as [x _ IH]. intros s.
  destruct (decide (x = 0)%N) as [->|Hx]; [by rewrite !pretty_N_go_0|].
  rewrite !(pretty_N_go_step x) by lia.
  rewrite (IH (x `div` 10)%N) by (apply N.div_lt; lia).
  rewrite (IH (x `div` 10)%N ltac:(apply N.div_lt; lia) (String _ "")). by rewrite <- app_assoc.
Qed.

Lemma dec_small z : 0 ≤ z < 10 → dec z = [digit z].
Proof.
  intros Hz. assert (z = 0 ∨ z = 1 ∨ z = 2 ∨ z = 3 ∨ z = 4 ∨ z = 5 ∨ z = 6 ∨ z = 7 ∨ z = 8 ∨ z = 9)
    as Hc by lia.
  repeat (destruct Hc as [->|Hc]; [done|]). by subst.
Qed.

Lemma dec_step z : 10 ≤ z → dec z = dec (z / 10) ++ [digit (z mod 10)].
Proof.
  intros Hz.
  assert (Hd : ∀ y, 0 < y → dec y = list_ascii_of_string (pretty_N_go (Z.to_N y) "")).
  { intros [|p|p] Hy; [lia| |lia]. done. }
  rewrite (Hd z) by lia. rewrite pretty_N_go_step by lia. rewrite pretty_N_go_list.
  rewrite (Hd (z / 10)) by (Z.to_euclidean_division_equations; lia).
  rewrite Z2N.inj_div by lia. f_equal. simpl. f_equal.
  rewrite pretty_char_digit by (apply N.mod_lt; lia). by rewrite N2Z.inj_mod, Z2N.id by lia.
Qed.

Lemma dec_negative z : z < 0 → dec z = byte_of 0x2D :: dec (- z).
Proof. intros Hz. destruct z as [|p|p]; [lia|lia|]. done. Qed.

Lemma dec_two z : 100 ≤ z → dec z = dec (z / 100) ++ [digit (z mod 100 / 10); digit (z mod 10)].
Proof.
  intros Hz. rewrite dec_step by lia. rewrite (dec_step (z / 10)) by euclid. rewrite <- app_assoc.
  rewrite Z.div_div by lia. simpl. repeat f_equal. euclid.
Qed.

Lemma dec_two_small z : 10 ≤ z < 100 → dec z = [digit (z / 10); digit (z mod 10)].
Proof. intros Hz. rewrite dec_step by lia. by rewrite dec_small by euclid. Qed.

(** ** dump_integer writes the decimal text *)

Lemma zlen_dec_pos z : 0 ≤ z → 1 ≤ zlen (dec z).
Proof.
  intros Hz. destruct (decide (z < 10)); [by rewrite dec_small by lia|].
  rewrite dec_step, zlen_app by lia. pose proof (zlen_nonneg (dec (z / 10))). unfold zlen. simpl. lia.
Qed.

Lemma count_digits_loop_dec fuel x n :
  0 ≤ x < 10 ^ (4 * Z.of_nat fuel) → (0 < fuel)%nat → count_digits_loop fuel x n = n + zlen (dec x) - 1.
Proof.
  revert x n. induction fuel as [|fuel IH]; intros x n Hx Hf; [lia|]. cbn [count_digits_loop].
  assert (H1 : ∀ y, 10 ≤ y → zlen (dec y) = zlen (dec (y / 10)) + 1).
  { intros y Hy. rewrite dec_step, zlen_app by lia. done. }
  assert (H0 : ∀ y, 0 ≤ y < 10 → zlen (dec y) = 1) by (intros y Hy; by rewrite dec_small).
  assert (Hdd : x / 10 / 10 = x / 100 ∧ x / 100 / 10 = x / 1000 ∧ x / 1000 / 10 = x / 10000)
    by (rewrite !Z.div_div by lia; done). destruct Hdd as (D1 & D2 & D3).
  case_bool; bool_facts; [rewrite H0; lia|].
  case_bool; bool_facts; [rewrite H1, H0 by euclid; lia|].
  case_bool; bool_facts; [rewrite H1, H1, D1, H0 by euclid; lia|].
  case_bool; bool_facts; [rewrite H1, H1, D1, H1, D2, H0 by euclid; lia|].
  assert (Hp : 10 ^ (4 * Z.of_nat (S fuel)) = 10000 * 10 ^ (4 * Z.of_nat fuel)).
  { replace (4 * Z.of_nat (S fuel)) with (4 + 4 * Z.of_nat fuel) by lia. by rewrite Z.pow_add_r by lia. }
  rewrite IH; [rewrite (H1 x), (H1 (x / 10)), D1, (H1 (x / 100)), D2, (H1 (x / 1000)), D3 by euclid; lia| |].
  - split; [euclid|]. apply Z.div_lt_upper_bound; lia.
  - destruct fuel; [simpl in Hx; change (10 ^ 4) with 10000 in Hx; lia|lia].
Qed.

(** Writing before the pointer, in a buffer split there. *)
Lemma put_one_spec (pre post : bytes) x c ptr :
  ptr = S (length pre) → <[(ptr - 1)%nat := c]> (pre ++ x :: post) = pre ++ c :: post.
Proof. intros ->. simpl. rewrite Nat.sub_0_r. by rewrite insert_app_r_alt, Nat.sub_diag by lia. Qed.

Lemma put_two_spec i (pre post : bytes) x y ptr :
  ptr = S (S (length pre)) →
  put_two i (pre ++ x :: y :: post) ptr
    = (pre ++ (digits_to_99 i).1 :: (digits_to_99 i).2 :: post, length pre).
Proof.
  intros ->. unfold put_two. simpl. rewrite Nat.sub_0_r.
  rewrite (insert_app_r_alt pre), Nat.sub_succ_l, Nat.sub_diag by lia. simpl.
  by rewrite (insert_app_r_alt pre), Nat.sub_diag by lia.
Qed.

(** The last one or two digits. *)
Definition fill_last (r : Z * bytes * nat) : bytes :=
  let '(abs_value, buffer, ptr) := r in
  if abs_value >=? 10 then (put_two abs_value buffer ptr).1
  else <[(ptr - 1)%nat := byte_of (0x30 + abs_value)]> buffer.

Lemma fill_last_spec abs (pre room post : bytes) :
  0 ≤ abs < 100 → length room = length (dec abs) →
  fill_last (abs, pre ++ room ++ post, length pre + length room)%nat = pre ++ dec abs ++ post.
Proof.
  intros Habs. unfold fill_last. rewrite Z.geb_leb. case_bool; bool_facts.
  - rewrite dec_two_small by lia. destruct room as [|x [|y [|]]]; try done. intros _. cbn [app length].
    by rewrite put_two_spec by lia.
  - rewrite dec_small by lia. destruct room as [|x [|]]; try done. intros _. cbn [app length].
    by rewrite put_one_spec by lia.
Qed.

(** The digits fill the room in front of the pointer exactly. *)
Lemma fill_spec fuel abs (pre room post : bytes) :
  0 ≤ abs < 100 ^ (Z.of_nat fuel + 1) → length room = length (dec abs) →
  fill_last (fill_loop fuel abs (pre ++ room ++ post) (length pre + length room)%nat)
    = pre ++ dec abs ++ post.
Proof.
  revert abs room post. induction fuel as [|fuel IH]; intros abs room post Habs Hroom.
  { change (100 ^ (Z.of_nat 0 + 1)) with 100 in Habs. apply fill_last_spec; [lia|done]. }
  cbn [fill_loop]. rewrite Z.geb_leb. case_bool; bool_facts; [|apply fill_last_spec; [lia|done]].
  rewrite dec_two in Hroom |- * by lia. rewrite length_app in Hroom. simpl in Hroom.
  destruct room as [|y room _] using rev_ind; [simpl in Hroom; lia|].
  destruct room as [|x room _] using rev_ind; [rewrite length_app in Hroom; simpl in Hroom; lia|].
  rewrite !length_app in *. cbn [length] in *.
  replace (pre ++ ((room ++ [x]) ++ [y]) ++ post) with ((pre ++ room) ++ x :: y :: post)
    by (by rewrite <- !app_assoc).
  rewrite put_two_spec by (rewrite length_app; lia). rewrite <- app_assoc, length_app.
  rewrite IH; [|split; [euclid|]|lia].
  - rewrite <- !app_assoc. unfold digits_to_99, digit. simpl.
    by replace (abs mod 100 mod 10) with (abs mod 10) by euclid.
  - apply Z.div_lt_upper_bound; [lia|]. replace (Z.of_nat (S fuel) + 1) with (1 + (Z.of_nat fuel + 1)) in Habs by lia.
    rewrite Z.pow_add_r in Habs by lia. lia.
Qed.

Lemma dec_length_bound x n : 0 ≤ x < 10 ^ Z.of_nat (S n) → (length (dec x) ≤ S n)%nat.
Proof.
  revert x. induction n as [|n IH]; intros x Hx; [by rewrite dec_small by (simpl in Hx; lia)|].
  destruct (decide (x < 10)); [rewrite dec_small by lia; simpl; lia|].
  rewrite dec_step, length_app by lia. simpl. specialize (IH (x / 10)).
  replace (Z.of_nat (S (S n))) with (1 + Z.of_nat (S n)) in Hx by lia. rewrite Z.pow_add_r in Hx by lia.
  assert (0 ≤ x / 10 < 10 ^ Z.of_nat (S n)) by (split; [euclid|apply Z.div_lt_upper_bound; lia]).
  specialize (IH ltac:(done)). lia.
Qed.

(** The characters after the sign. *)
Lemma fill_buffer (sign : bytes) abs (buf : bytes) :
  0 < abs < 2 ^ 64 → (length sign ≤ 1)%nat → length buf = NUMBER_BUFFER_SIZE →
  take (length sign) buf = sign →
  take (Z.to_nat (zlen sign + count_digits abs))
    (fill_last (fill_loop 10 abs buf (Z.to_nat (zlen sign + count_digits abs)))) = sign ++ dec abs.
Proof.
  intros Ha Hs Hl Ht. unfold NUMBER_BUFFER_SIZE in *.
  pose proof (dec_length_bound abs 19 ltac:(simpl; lia)) as Hd.
  unfold count_digits. rewrite count_digits_loop_dec by (simpl; lia).
  replace (Z.to_nat (zlen sign + (1 + zlen (dec abs) - 1))) with (length sign + length (dec abs))%nat
    by (unfold zlen; lia).
  assert (Hsplit : buf = sign ++ take (length (dec abs)) (drop (length sign) buf)
                             ++ drop (length sign + length (dec abs)) buf).
  { rewrite <- Ht at 1. rewrite <- drop_drop, !take_drop. done. }
  assert (Hroom : length (take (length (dec abs)) (drop (length sign) buf)) = length (dec abs))
    by (rewrite length_take, length_drop; lia).
  set (room := take (length (dec abs)) (drop (length sign) buf)) in *.
  rewrite Hsplit at 1. rewrite <- Hroom. rewrite fill_spec by (simpl; lia).
  rewrite Hroom, app_assoc. apply take_app_exact. by rewrite length_app.
Qed.

(** [dump_integer] writes the text of [std::to_string], whatever the buffer
    held before. *)
Lemma dump_integer_text buffer x :
  - 2 ^ 63 ≤ x < 2 ^ 64 → length buffer = NUMBER_BUFFER_SIZE → dump_integer buffer x = dec x.
Proof.
  intros Hx Hb. unfold dump_integer. destruct (Z.eqb_spec x 0) as [->|Hnz]; [done|].
  destruct (Z.ltb_spec x 0) as [Hneg|Hpos].
  - rewrite dec_negative by done.
    replace (remove_sign x) with (- x)
      by (unfold remove_sign; rewrite (u64_small (- (x + 1))) by lia; rewrite u64_small by lia; lia).
    pose proof (fill_buffer [byte_of 0x2D] (- x) (<[0%nat := byte_of 0x2D]> buffer)) as Hf.
    change (zlen [byte_of 0x2D]) with 1 in Hf.
    destruct (fill_loop _ _ _ _) as [[abs' buffer'] ptr]. apply Hf; [lia|done| |by destruct buffer].
    by rewrite length_insert.
  - pose proof (fill_buffer [] x buffer) as Hf. change (zlen (@nil ascii)) with 0 in Hf.
    destruct (fill_loop _ _ _ _) as [[abs' buffer'] ptr]. apply Hf; [lia|simpl; lia|done|done].
Qed.

(** ** The lexer reads the decimal text back *)

Lemma digit_is_digit n : 0 ≤ n < 10 → is_digit (digit n) = true ∧ digit_val (digit n) = n.
Proof.
  intros Hn. unfold is_digit, digit_val, digit. rewrite byte_val_of, u8_small by lia.
  split; [|lia]. apply andb_true_iff. rewrite !Z.leb_le. lia.
Qed.

Lemma dec_digits z : 0 ≤ z → Forall (λ c, is_digit c = true) (dec z) ∧ digits_val (dec z) = z.
Proof.
  intros Hz. induction (Z.lt_wf 0 z) as [z _ IH].
  destruct (decide (z < 10)).
  - rewrite dec_small by lia. destruct (digit_is_digit z) as [Hd Hv]; [lia|].
    split; [by constructor|]. unfold digits_val. simpl. lia.
  - rewrite dec_step by lia. destruct (IH (z / 10)) as [Hd Hv]; [euclid|euclid|].
    destruct (digit_is_digit (z mod 10)) as [Hd' Hv']; [euclid|]. split; [by apply Forall_app; split; [|constructor]|].
    rewrite digits_val_app, Hv. simpl. rewrite Hv'. euclid.
Qed.

(** The first digit is zero only for zero. *)
Lemma dec_head z : 0 < z → ∃ c t, dec z = c :: t ∧ 0x31 ≤ byte_val c ≤ 0x39.
Proof.
  intros Hz. induction (Z.lt_wf 0 z) as [z _ IH].
  destruct (decide (z < 10)).
  - rewrite dec_small by lia. exists (digit z), []. split; [done|]. unfold digit.
    rewrite byte_val_of, u8_small by lia. lia.
  - rewrite dec_step by lia. destruct (IH (z / 10)) as (c & t & -> & Hc); [euclid|euclid|].
    by exists c, (t ++ [digit (z mod 10)]).
Qed.

(** What may follow a value: the end, or a character that ends a number. *)
Definition delimited (rest : bytes) : Prop :=
  match rest with [] => True | c :: _ => byte_val c ∈ [0x2C; 0x5D; 0x7D; 0x0A] end.

(** The labels that loop over digits, and those at which a number may end. *)
Definition digit_state (st : number_state) : Prop :=
  st ∈ [scan_number_any1; scan_number_decimal2; scan_number_any2].

Lemma number_loop_run st ty buf ds rest :
  digit_state st → Forall (λ c, is_digit c = true) ds →
  number_loop st ty buf (ds ++ rest) = number_loop st ty (buf ++ ds) rest.
Proof.
  intros Hst Hds. revert buf. induction Hds as [|c ds Hc Hds IH]; intros buf; [by rewrite app_nil_r|].
  assert (Hn : number_next st (byte_val c) = Goto st ∧ type_at st ty = ty).
  { unfold is_digit in Hc. bool_facts. unfold digit_state in Hst. rewrite !elem_of_cons in Hst.
    destruct Hst as [->|[->|[->|Hst]]]; [..|by apply elem_of_nil in Hst]; simpl;
      by rewrite (proj2 (within_true 0x30 0x39 _)) by lia. }
  destruct Hn as [Hn Ht]. simpl. rewrite Hn, Ht, IH. by rewrite <- app_assoc.
Qed.

Lemma number_loop_end st ty buf rest :
  digit_state st ∨ st = scan_number_zero → delimited rest → number_loop st ty buf rest = Some (ty, buf, rest).
Proof.
  intros Hst Hr. assert (Hn : ∀ z, z ∈ [eof; 0x2C; 0x5D; 0x7D; 0x0A] → number_next st z = Done).
  { unfold digit_state in Hst. rewrite !elem_of_cons in Hst. intros z Hz. rewrite !elem_of_cons in Hz.
    destruct Hz as [->|[->|[->|[->|[->|Hz]]]]]; [..|by apply elem_of_nil in Hz];
      destruct Hst as [[->|[->|[->|Hst]]]| ->]; try done; by apply elem_of_nil in Hst. }
  destruct rest as [|c rest]; simpl; [by rewrite (Hn eof) by (by left)|]. by rewrite Hn by (by right).
Qed.

Lemma number_loop_digits ty buf ds rest :
  Forall (λ c, is_digit c = true) ds → delimited rest →
  number_loop scan_number_any1 ty buf (ds ++ rest) = Some (ty, buf ++ ds, rest).
Proof.
  intros Hds Hr. assert (digit_state scan_number_any1) by (by left).
  rewrite number_loop_run by done. apply number_loop_end; auto.
Qed.

(** The fraction and the exponent of a number. *)
Lemma number_loop_exponent st ty buf ex rest :
  digit_state st → st ≠ scan_number_any2 ∨ ex = [] → delimited rest →
  ex = [] ∨ (∃ sign ds, ex = "e"%char :: sign :: ds ∧ (sign = "+"%char ∨ sign = "-"%char) ∧ ds ≠ [] ∧ all_digits ds) →
  number_loop st ty buf (ex ++ rest) = Some (match ex with [] => ty | _ => type_float end, buf ++ ex, rest).
Proof.
  intros Hst Hst2 Hr [->|(sign & ds & -> & Hs & Hne & Hd)].
  { rewrite app_nil_r. apply number_loop_end; auto. }
  destruct Hst2 as [Hst2|]; [|done].
  assert (He : number_next st (byte_val "e") = Goto scan_number_exponent).
  { unfold digit_state in Hst. rewrite !elem_of_cons in Hst.
    destruct Hst as [->|[->|[->|Hst]]]; [done|done|done|by apply elem_of_nil in Hst]. }
  destruct ds as [|d ds]; [done|]. apply Forall_cons in Hd as [Hd Hds].
  assert (Hdig : number_next scan_number_sign (byte_val d) = Goto scan_number_any2).
  { unfold is_digit in Hd. bool_facts. simpl. by rewrite (proj2 (within_true 0x30 0x39 _)) by lia. }
  cbn [app number_loop]. rewrite He. cbn [type_at].
  assert (number_next scan_number_exponent (byte_val sign) = Goto scan_number_sign) as -> by (by destruct Hs as [->| ->]).
  cbn [type_at]. rewrite Hdig. cbn [type_at]. rewrite number_loop_run by (done || (right; right; by left)).
  rewrite number_loop_end by (done || (left; right; right; by left)). by rewrite <- !app_assoc.
Qed.

(** After the integral part, in state [zero] or [any1]. *)
Lemma number_loop_float st ty buf int frac ex rest :
  st = scan_number_zero ∨ st = scan_number_any1 → float_number int frac ex → delimited rest →
  number_loop st ty buf ((match frac with [] => [] | _ => "."%char :: frac end) ++ ex ++ rest) =
    Some (type_float, buf ++ (match frac with [] => [] | _ => "."%char :: frac end) ++ ex, rest).
Proof.
  intros Hst [_ _ Hf He Hfl] Hr. destruct frac as [|d frac].
  - destruct Hfl as [|Hne]; [done|]. simpl app. destruct He as [->|(sign & ds & Eex & He)]; [done|].
    destruct Hst as [-> | ->].
    + rewrite Eex. transitivity (number_loop scan_number_any1 ty buf (ex ++ rest)); [by rewrite Eex|].
      rewrite number_loop_exponent; [by rewrite Eex|by left|by left|done|right; eauto].
    + rewrite number_loop_exponent; [by rewrite Eex|by left|by left|done|right; eauto].
  - apply Forall_cons in Hf as [Hd Hf].
    assert (number_next st (byte_val ".") = Goto scan_number_decimal1) as Hn by (by destruct Hst as [->| ->]).
    assert (number_next scan_number_decimal1 (byte_val d) = Goto scan_number_decimal2) as Hn2.
    { unfold is_digit in Hd. bool_facts. simpl. by rewrite (proj2 (within_true 0x30 0x39 _)) by lia. }
    cbn [app number_loop]. rewrite Hn. cbn [type_at]. rewrite Hn2. cbn [type_at].
    rewrite number_loop_run by (done || (right; by left)).
    rewrite number_loop_exponent; [|right; by left|by left|done|done].
    rewrite <- !app_assoc. by destruct ex.
Qed.

Lemma scan_first c s : is_whitespace (byte_val c) = false → scan false (c :: s) = scan_token (byte_val c) s.
Proof. intros Hc. unfold scan. simpl. by rewrite Hc. Qed.

Lemma scan_true c s : byte_val c ≠ 0xEF → scan true (c :: s) = scan false (c :: s).
Proof. intros Hc. unfold scan, skip_bom, get. by rewrite (proj2 (Z.eqb_neq _ _) Hc). Qed.

(** At a digit or a minus sign [scan] goes to [scan_number]. *)
Lemma scan_at_number c s :
  0x30 ≤ byte_val c ≤ 0x39 ∨ byte_val c = 0x2D → scan false (c :: s) = scan_number (byte_val c) s.
Proof.
  intros Hc. rewrite scan_first.
  - unfold scan_token. do 10 (case_bool; [bool_facts; lia|]). bool_facts.
    replace ((byte_val c =? 0x2D) || within 0x30 0x39 (byte_val c)) with true; [done|].
    symmetry. apply orb_true_iff. rewrite within_true, Z.eqb_eq. lia.
  - unfold is_whitespace. rewrite !orb_false_iff, !Z.eqb_neq. lia.
Qed.

Lemma scan_unsigned z rest :
  0 ≤ z ≤ UINT64_MAX → delimited rest → scan false (dec z ++ rest) = (value_unsigned z, rest).
Proof.
  intros Hz Hr. destruct (decide (z = 0)) as [->|Hnz].
  - rewrite dec_small by lia. simpl. rewrite scan_at_number by (left; by vm_compute).
    destruct rest as [|c rest]; [done|]. simpl in Hr.
    rewrite !elem_of_cons in Hr. unfold scan_number. simpl.
    destruct Hr as [->|[->|[->|[->|Hr]]]]; [done..|by apply elem_of_nil in Hr].
  - destruct (dec_head z) as (c & t & Ez & Hc); [lia|].
    destruct (dec_digits z) as [Hd Hv]; [lia|]. rewrite Ez in *. simpl app.
    rewrite scan_at_number by lia. unfold scan_number.
    rewrite (proj2 (Z.eqb_neq _ 0x2D)), (proj2 (Z.eqb_neq _ 0x30)) by lia.
    rewrite number_loop_digits by (done || by inversion Hd). rewrite byte_of_val. simpl app.
    unfold number_token, strtoull. simpl. rewrite Hv. by rewrite (proj2 (Z.leb_le _ _)) by lia.
Qed.

Lemma scan_integer z rest :
  - 2 ^ 63 ≤ z < 0 → delimited rest → scan false (dec z ++ rest) = (value_integer z, rest).
Proof.
  intros Hz Hr. rewrite dec_negative by lia. destruct (dec_head (- z)) as (c & t & Ez & Hc); [lia|].
  destruct (dec_digits (- z)) as [Hd Hv]; [lia|]. simpl app.
  rewrite scan_at_number by (right; by vm_compute). unfold scan_number.
  replace (byte_val (byte_of 0x2D) =? 0x2D) with true by done. rewrite Ez in *. cbn [app number_loop].
  unfold number_next at 1. rewrite (proj2 (Z.eqb_neq _ 0x30)), (proj2 (within_true 0x31 0x39 _)) by lia.
  cbn [type_at]. rewrite number_loop_digits by (done || by inversion Hd).
  unfold number_token, strtoll. cbn [app drop].
  rewrite Hv. rewrite Z.opp_involutive. by rewrite (proj2 (Z.leb_le _ _)) by lia.
Qed.

(** The texts of floating-point numbers. *)
Lemma number_loop_number buf int frac ex rest c t ty :
  float_number int frac ex → delimited rest → int = c :: t →
  number_loop (if byte_val c =? 0x30 then scan_number_zero else scan_number_any1) ty (buf ++ [c])
      (t ++ (match frac with [] => [] | _ => "."%char :: frac end) ++ ex ++ rest) =
    Some (type_float, buf ++ number_text int frac ex, rest).
Proof.
  intros Hn Hr Ei. pose proof Hn as [Hi Hl _ _ _]. unfold number_text. rewrite Ei in Hi, Hl |- *.
  apply Forall_cons in Hi as [Hc Ht]. destruct (byte_val c =? 0x30) eqn:E0; bool_facts.
  - assert (t = []) as ->.
    { destruct Hl as [[= _ ->]|[_ Hl]]; [done|]. simpl in Hl. unfold digit_val in Hl. lia. }
    cbn [app]. erewrite number_loop_float; [|by left|exact Hn|done]. by rewrite <- app_assoc.
  - rewrite number_loop_run by (done || by left). erewrite number_loop_float; [|by right|exact Hn|done].
    by rewrite <- !app_assoc.
Qed.

Lemma scan_float text rest :
  float_text text → delimited rest → scan false (text ++ rest) = (value_float (strtod text), rest).
Proof.
  intros (int & frac & ex & Hn & Htext) Hr. pose proof Hn as [Hi Hl _ _ _].
  destruct int as [|c t] eqn:Ei; [by destruct Hl as [|[]]|]. apply Forall_cons in Hi as [Hc _].
  unfold is_digit in Hc. bool_facts.
  destruct Htext as [-> | ->]; unfold number_text at 1; rewrite <- ?app_comm_cons, <- !app_assoc.
  - rewrite scan_at_number by lia. unfold scan_number. rewrite (proj2 (Z.eqb_neq _ 0x2D)) by lia.
    rewrite byte_of_val. rewrite (number_loop_number [] (c :: t) frac ex rest c t) by done. done.
  - rewrite scan_at_number by (right; by vm_compute). unfold scan_number.
    change (byte_val "-" =? 0x2D) with true. cbn [type_at app number_loop].
    assert (number_next scan_number_minus (byte_val c)
      = Goto (if byte_val c =? 0x30 then scan_number_zero else scan_number_any1)) as ->.
    { simpl. case_bool; [done|]. bool_facts. by rewrite (proj2 (within_true 0x31 0x39 _)) by lia. }
    rewrite byte_of_val. rewrite (number_loop_number ["-"%char] (c :: t) frac ex rest c t) by done. done.
Qed.

Lemma float_text_head text : float_text text → ∃ c t, text = c :: t ∧ byte_val c < 0x80.
Proof.
  intros (int & frac & ex & [Hi Hl _ _ _] & [-> | ->]); [|by eexists _, _].
  destruct int as [|c t]; [by destruct Hl as [|[]]|]. apply Forall_cons in Hi as [Hc _].
  unfold is_digit in Hc. bool_facts. eexists c, _. split; [done|lia].
Qed.

Lemma scan_quoted ea s t rest :
  escapes ea s t → scan false ((lit "'" ++ t ++ lit "'") ++ rest) = (value_string s, rest).
Proof.
  intros Ht. replace ((lit "'" ++ t ++ lit "'") ++ rest) with (byte_of 0x22 :: t ++ byte_of 0x22 :: rest)
    by (by rewrite <- !app_assoc).
  rewrite scan_first by done. unfold scan_token. simpl. by eapply scan_string_escapes.
Qed.

(** ** Elements and members from the left *)

Lemma elements_cons_left us v ts l :
  derives us v → derives_elements ts l → derives_elements (us ++ value_separator :: ts) (v :: l).
Proof.
  intros Hd. induction 1 as [us' v' Hd'|ts l us' v' He IH Hd'].
  - apply (E_more us [v] us' v'); [by constructor|done].
  - rewrite app_comm_cons, app_assoc. apply (E_more _ (v :: l)); done.
Qed.

Lemma key_lt_asym a b : key_lt a b = true → key_lt b a = false ∧ a ≠ b.
Proof.
  intros Hab. split.
  - destruct (key_lt b a) eqn:Hba; [|done]. pose proof (key_lt_trans _ _ _ Hab Hba) as Haa.
    by rewrite key_lt_irrefl in Haa.
  - intros ->. by rewrite key_lt_irrefl in Hab.
Qed.

Lemma assign_after k v k' w m :
  key_lt k k' = true → assign_member k' w ((k, v) :: m) = (k, v) :: assign_member k' w m.
Proof.
  intros Hk. destruct (key_lt_asym _ _ Hk) as [Ha Hne]. simpl.
  by rewrite bool_decide_eq_false_2, Ha by done.
Qed.

Lemma assign_keys (P : bytes → Prop) k v m :
  Forall (λ kv, P kv.1) (assign_member k v m) → P k ∧ Forall (λ kv, P kv.1) m.
Proof.
  induction m as [|[k' w] m IH]; simpl; [intros Hf; apply Forall_cons in Hf as [? _]; by split|].
  repeat case_bool; bool_facts; subst; intros Hf; apply Forall_cons in Hf as [Hk Hf]; simpl in Hk.
  - split; [done|by constructor].
  - done.
  - destruct (IH Hf). split; [done|by constructor].
Qed.

Lemma members_cons_left k us v ts m :
  derives us v → derives_members ts m → Forall (λ kv, key_lt k kv.1 = true) m →
  derives_members (value_string k :: name_separator :: us ++ value_separator :: ts) ((k, v) :: m).
Proof.
  intros Hd. induction 1 as [k' us' v' Hd'|ts m k' us' v' Hm IH Hd']; intros Hlt.
  - apply Forall_cons in Hlt as [Hlt _]. simpl in Hlt.
    pose proof (M_more _ _ k' us' v' (M_one k us v Hd) Hd') as H. by rewrite assign_after in H.
  - apply (assign_keys (λ k', key_lt k k' = true)) in Hlt as [Hlt Hm'].
    pose proof (M_more _ _ k' us' v' (IH Hm') Hd') as H. rewrite assign_after in H by done.
    simpl in H. by rewrite <- app_assoc in H.
Qed.

(** ** The equations of [dump] on containers *)

Lemma dump_list_cons {A} (f : A → option bytes) x y l :
  dump_list f (x :: y :: l) = (a ← f x; b ← dump_list f (y :: l); Some (a ++ lit "," ++ b)).
Proof. done. Qed.

Section Round.
Context (ensure_ascii : bool) (h : error_handler_t).

Lemma dump_array_cons j l :
  dump ensure_ascii h (JArray (j :: l)) =
    (body ← dump_list (dump ensure_ascii h) (j :: l); Some (lit "[" ++ body ++ lit "]")).
Proof. done. Qed.

Lemma dump_object_cons kv m :
  dump ensure_ascii h (JObject (kv :: m)) =
    (body ← dump_list (dump_member ensure_ascii h (dump ensure_ascii h)) (kv :: m); Some (lit "{" ++ body ++ lit "}")).
Proof. done. Qed.

(** ** The round trip *)

(** A text is read as the tokens of a value, whatever delimiter follows. *)
Definition text_of {A} (P : list token → A → Prop) (text : bytes) (v : A) : Prop :=
  (∃ c t, text = c :: t ∧ byte_val c < 0x80) ∧
  ∃ ts, P ts v ∧ ∀ rest, delimited rest → reads (text ++ rest) ts rest.

Lemma text_token t text v :
  derives [t] v → (∃ c s, text = c :: s ∧ byte_val c < 0x80) →
  (∀ rest, delimited rest → scan false (text ++ rest) = (t, rest)) → text_of derives text v.
Proof. intros Hd Hc Hs. split; [done|]. exists [t]. split; [done|]. intros rest Hr. by apply reads_one, Hs. Qed.

Lemma dec_text z : ∃ c t, dec z = c :: t ∧ byte_val c < 0x80.
Proof.
  destruct (decide (z < 0)) as [Hn|Hn]; [rewrite dec_negative by done; by eexists _, _|].
  destruct (decide (z = 0)) as [->|Hz]; [by eexists _, _|].
  destruct (dec_head z) as (c & t & -> & Hc); [lia|]. exists c, t. split; [done|lia].
Qed.

Lemma delimited_comma s : delimited (lit "," ++ s).
Proof. simpl. by left. Qed.

(** The comma-separated list of texts. *)
Lemma reads_comma text ts text' ts' rest :
  (∀ rest, delimited rest → reads (text ++ rest) ts rest) →
  (∀ rest, delimited rest → reads (text' ++ rest) ts' rest) →
  delimited rest → reads ((text ++ lit "," ++ text') ++ rest) (ts ++ value_separator :: ts') rest.
Proof.
  intros H1 H2 Hr. rewrite <- !app_assoc. apply reads_app. exists (lit "," ++ text' ++ rest).
  split; [apply H1, delimited_comma|]. econstructor; [|by apply H2]. done.
Qed.

Lemma dump_elements l :
  l ≠ [] → Forall (λ j, ∃ text, dump ensure_ascii h j = Some text ∧ text_of derives text (canon j)) l →
  ∃ text, dump_list (dump ensure_ascii h) l = Some text ∧ text_of derives_elements text (map canon l).
Proof.
  intros Hne Hl. induction Hl as [|j l (text & Ed & Hc & ts & Hd & Hr) Hl IH]; [done|].
  destruct l as [|j' l].
  - exists text. split; [done|]. split; [done|]. exists ts. split; [by constructor|done].
  - destruct IH as (text' & Ed' & _ & ts' & He & Hr'); [done|].
    exists (text ++ lit "," ++ text'). split; [|split].
    + by rewrite dump_list_cons, Ed, Ed'.
    + destruct Hc as (c & t & -> & ?). by eexists c, _.
    + exists (ts ++ value_separator :: ts'). split; [by apply elements_cons_left|].
      intros rest Hrest. by apply reads_comma.
Qed.

Lemma dump_member_text k v :
  utf8 k → (∃ text, dump ensure_ascii h v = Some text ∧ text_of derives text (canon v)) →
  ∃ text ts, dump_member ensure_ascii h (dump ensure_ascii h) (k, v) = Some text ∧ (∃ c t, text = c :: t ∧ byte_val c < 0x80) ∧
    derives ts (canon v) ∧
    ∀ rest, delimited rest → reads (text ++ rest) (value_string k :: name_separator :: ts) rest.
Proof.
  intros Hk (text & Ed & _ & ts & Hd & Hr). destruct (dump_escaped_valid ensure_ascii h k Hk) as (t & Et & He).
  exists ((lit "'" ++ t ++ lit "'") ++ lit ":" ++ text), ts. split_and!.
  - unfold dump_member, dump_string. rewrite Et. simpl. by rewrite Ed.
  - by eexists _, _.
  - done.
  - intros rest Hrest. rewrite <- app_assoc. econstructor; [by eapply scan_quoted|].
    rewrite <- app_assoc. econstructor; [|by apply Hr]. done.
Qed.

Lemma dump_members m :
  m ≠ [] → StronglySorted member_lt m → Forall (λ kv, utf8 kv.1) m →
  Forall (λ kv, ∃ text, dump ensure_ascii h kv.2 = Some text ∧ text_of derives text (canon kv.2)) m →
  ∃ text, dump_list (dump_member ensure_ascii h (dump ensure_ascii h)) m = Some text ∧
    text_of derives_members text (map (λ kv, (kv.1, canon kv.2)) m).
Proof.
  intros Hne Hs. induction Hs as [|[k v] m Hs IH Hlt]; [done|]. intros Hk Hv.
  apply Forall_cons in Hk as [Hk Hks]. apply Forall_cons in Hv as [Hv Hvs].
  destruct (dump_member_text k v Hk Hv) as (text & ts & Ed & Hc & Hd & Hr).
  destruct m as [|kv' m].
  - exists text. split; [exact Ed|]. split; [done|]. exists (value_string k :: name_separator :: ts).
    split; [by constructor|done].
  - destruct IH as (text' & Ed' & _ & ts' & Hm & Hr'); [done..|].
    exists (text ++ lit "," ++ text'). split; [|split].
    + by rewrite dump_list_cons, Ed, Ed'.
    + destruct Hc as (c & t & -> & ?). by eexists c, _.
    + exists (value_string k :: name_separator :: ts ++ value_separator :: ts'). split.
      * apply members_cons_left; [done|done|].
        apply (proj2 (Forall_map (λ kv : bytes * json, (kv.1, canon kv.2)) _ (kv' :: m))). exact Hlt.
      * intros rest Hrest. apply (reads_comma text (value_string k :: name_separator :: ts)); done.
Qed.

(** A container around its contents. *)
Lemma text_container {A} (P : list token → A → Prop) (opening closing : ascii) t1 t2 text v w :
  byte_val opening < 0x80 → byte_val closing ∈ [0x5D; 0x7D] →
  (∀ rest, scan false (opening :: rest) = (t1, rest)) → (∀ rest, scan false (closing :: rest) = (t2, rest)) →
  text_of P text v → (∀ ts, P ts v → derives (t1 :: ts ++ [t2]) w) →
  text_of derives (opening :: text ++ [closing]) w.
Proof.
  intros Ho Hc H1 H2 (_ & ts & HP & Hr) Hw. split; [by eexists _, _|]. exists (t1 :: ts ++ [t2]).
  split; [by apply Hw|]. intros rest Hrest. rewrite <- app_comm_cons, <- app_assoc. econstructor; [apply H1|].
  apply reads_app. exists (closing :: rest). split; [|by apply reads_one].
  apply Hr. simpl. rewrite !elem_of_cons in *. naive_solver.
Qed.

Lemma dump_text j :
  json_wf j →
  ∃ text, dump ensure_ascii h j = Some text ∧ text_of derives text (canon j).
Proof.
  induction j as [ |b|z|z|t|s|l IH|m IH] using json_ind'; intros Hw; inversion Hw; subst.
  - eexists. split; [done|]. by eapply text_token; [constructor|by eexists _, _|].
  - eexists. split; [done|]. destruct b; by eapply text_token; [constructor|by eexists _, _|].
  - eexists. split; [simpl; by rewrite dump_integer_text by (unfold INT64_MAX in *; done || lia)|].
    simpl. case_bool; bool_facts.
    + eapply text_token; [constructor|apply dec_text|]. intros. apply scan_unsigned; [|done].
      unfold INT64_MAX, UINT64_MAX in *. lia.
    + eapply text_token; [constructor|apply dec_text|]. intros. apply scan_integer; [lia|done].
  - eexists. split; [simpl; by rewrite dump_integer_text by (unfold UINT64_MAX in *; done || lia)|].
    eapply text_token; [constructor|apply dec_text|]. intros. by apply scan_unsigned.
  - destruct (dump_float_spec number_buffer0 t) as (text & Ht & Hs & Ed); [done|done|].
    exists text. split; [exact Ed|]. eapply text_token; [|by apply float_text_head|].
    + constructor. rename select (double_ok t) into Ht'. apply Ht'.
    + intros. rewrite scan_float by done. by rewrite Hs.
  - destruct (dump_escaped_valid ensure_ascii h s) as (t & Et & He); [done|].
    eexists. split; [simpl; unfold dump_string; by rewrite Et|].
    eapply text_token; [constructor|by eexists _, _|]. intros. by eapply scan_quoted.
  - destruct l as [|j l].
    + eexists. split; [done|]. split; [by eexists _, _|]. exists [begin_array; end_array].
      split; [constructor|]. intros rest _. econstructor; [done|]. by apply reads_one.
    + destruct (dump_elements (j :: l)) as (text & Ed & Ht); [done| |].
      { rewrite Forall_forall in *. auto. }
      exists (lit "[" ++ text ++ lit "]"). split; [by rewrite dump_array_cons, Ed|].
      eapply (text_container derives_elements "["%char "]"%char); [done|by left|done|done|exact Ht|].
      intros ts He. by constructor.
  - destruct m as [|kv m].
    + eexists. split; [done|]. split; [by eexists _, _|]. exists [begin_object; end_object].
      split; [constructor|]. intros rest _. econstructor; [done|]. by apply reads_one.
    + destruct (dump_members (kv :: m)) as (text & Ed & Ht); [done|done|done| |].
      { rewrite Forall_forall in *. auto. }
      exists (lit "{" ++ text ++ lit "}"). split; [by rewrite dump_object_cons, Ed|].
      eapply (text_container derives_members "{"%char "}"%char); [done|by right; left|done|done|exact Ht|].
      intros ts He. by constructor.
Qed.
End Round.

(** A text that reads as a value is parsed to it. *)
Lemma parse_text text j : text_of derives text j → parse text = Parsed j.
Proof.
  intros ((c & t & Et & Hc) & ts & Hd & Hr). apply (parse_complete text ts); [|done].
  destruct (derives_cons _ _ Hd) as (t0 & us & ->). specialize (Hr [] I). rewrite app_nil_r in Hr.
  inversion Hr as [|? ? s1 ? ? E1 Hr1]; subst. exists [], []. split; [|done].
  exists t0, us, s1. split_and!; [done| |done]. by rewrite scan_true by lia.
Qed.

(** A serialized value is parsed back, with its numbers in the form the parser
    gives them. *)
Lemma parse_dump ea h j :
  json_wf j →
  ∃ text, dump ea h j = Some text ∧ parse text = Parsed (canon j).
Proof.
  intros Hw. destruct (dump_text ea h j Hw) as (text & Ed & Ht). exists text. split; [done|by apply parse_text].
Qed.

(** [dump] throws for no well-formed value. *)
Lemma dump_total ea h j : json_wf j → is_Some (dump ea h j).
Proof. intros Hw. destruct (parse_dump ea h j Hw) as (text & -> & _). by eexists. Qed.

Lemma parse_of_dump j text :
  json_wf j → dump false handler_strict j = Some text → parse text = Parsed (canon j).
Proof.
  intros Hw Hd. destruct (parse_dump false handler_strict j Hw) as (text' & Hd' & Hp). congruence.
Qed.

(** ** The instance *)

(** [json::parse] and [value.dump()] with their default arguments. *)
#[export] Instance nlohmann : JsonLib := {|
  json_read := parse;
  json_dump := dump false handler_strict;
  json_read_wf := parse_wf;
  json_dump_wf := dump_total false handler_strict;
  json_read_dump := parse_of_dump;
|}.

Definition sample_text : bytes :=
  lit "{'z':[1,-2,'\u00e9\ud83d\ude00\n',null,true],'a':{},'n':18446744073709551615,'x':[-2.5e-7,1e300,-0.0]}".

Definition sample_value : json := match parse sample_text with Parsed j => j | Raised _ => JNull end.

(** C36: Every value the parser returns is well formed: its strings and keys are
    valid UTF-8, its keys strictly increasing, its integers within 64 bits and
    its floating-point numbers finite.  So the gateway can serialize whatever
    it has parsed: [dump] does not throw, and its text parses to the same value
    again (a negative zero integer becomes an unsigned zero). *)
Theorem parsed_is_serializable (ensure_ascii : bool) (h : error_handler_t) (text : bytes) (j : json) :
  parse text = Parsed j →
  json_wf j ∧ ∃ text', dump ensure_ascii h j = Some text' ∧ parse text' = Parsed (canon j).
Proof. intros Hw%parse_wf. split; [done|by apply parse_dump]. Qed.

Lemma parsed_is_serializable_witness :
  parse sample_text = Parsed sample_value ∧ json_wf sample_value ∧
  ∃ text', dump false handler_strict sample_value = Some text' ∧ parse text' = Parsed (canon sample_value).
Proof.
  split; [vm_compute; reflexivity|].
  apply (parsed_is_serializable false handler_strict sample_text sample_value). vm_compute. reflexivity.
Defined.
