(* ===== verification/JsonPretty.v ===== *)
(** * Pretty printing

    The other half of [class serializer] of [nlohmann/json.hpp]: [dump] with
    [pretty_print], the growing [indent_string] it takes the indentation from,
    and [basic_json::dump] with all its arguments.  The indentation is read
    out of the buffer of [indent_string] with an unchecked length; reading
    beyond it is an outcome of its own. *)

From Stdlib Require Import Sorted.
From S2P Require Import Prelude Double Grisu GrisuRound Json JsonLexer JsonParser JsonDump JsonRound.
#[local] Open Scope Z_scope.

(** ** The model *)

Inductive written (A : Type) :=
  | Wrote (a : A)      (* the output so far *)
  | Threw              (* an exception of [dump_escaped] *)
  | ReadBeyond.        (* a read beyond the buffer of [indent_string] *)
#[global] Arguments Wrote {A} a.
#[global] Arguments Threw {A}.
#[global] Arguments ReadBeyond {A}.

#[export] Instance written_bind : MBind written := fun A B f m =>
  match m with Wrote a => f a | Threw => Threw | ReadBeyond => ReadBeyond end.

Definition or_throw {A} (m : option A) : written A := match m with Some a => Wrote a | None => Threw end.

Definition NL : ascii := byte_of 0x0A.

(** [o->write_characters(s.c_str(), n)]: the characters of the string, then its terminator. *)
Definition write_characters (s : bytes) (n : Z) : written bytes :=
  if n <=? zlen s then Wrote (take (Z.to_nat n) s)
  else if n =? zlen s + 1 then Wrote (s ++ [byte_of 0])
  else ReadBeyond.

(** [if (indent_string.size() < new_indent) indent_string.resize(indent_string.size() * 2, ' ')] *)
Definition grow (indent_string : bytes) (new_indent : Z) : bytes :=
  if zlen indent_string <? new_indent
  then indent_string ++ replicate (length indent_string) " "%char
  else indent_string.

(** The elements of a container with [",\n"] between them; [f] returns its
    output and the new [indent_string]. *)
Section List.
Context {A : Type} (f : A → bytes → written (bytes * bytes)).

Fixpoint pretty_list (l : list A) (indent_string : bytes) : written (bytes * bytes) :=
  match l with
  | [] => Wrote ([], indent_string)
  | [x] => f x indent_string
  | x :: rest =>
      '(a, indent_string) ← f x indent_string;
      '(b, indent_string) ← pretty_list rest indent_string;
      Wrote (a ++ (","%char :: [NL]) ++ b, indent_string)
  end.
End List.

Section Pretty.
Context (ensure_ascii : bool) (h : error_handler_t) (indent_step : Z).

Section One.
Context (dump_one : json → Z → bytes → written (bytes * bytes)).

Definition pretty_element (new_indent : Z) (v : json) (indent_string : bytes) : written (bytes * bytes) :=
  indent ← write_characters indent_string new_indent;
  '(text, indent_string) ← dump_one v new_indent indent_string;
  Wrote (indent ++ text, indent_string).

Definition pretty_member (new_indent : Z) (kv : bytes * json) (indent_string : bytes) : written (bytes * bytes) :=
  indent ← write_characters indent_string new_indent;
  key ← or_throw (dump_escaped ensure_ascii h kv.1);
  '(text, indent_string) ← dump_one kv.2 new_indent indent_string;
  Wrote (indent ++ (lit "'" ++ key ++ lit "'") ++ (":"%char :: " "%char :: text), indent_string).

(** The line breaks and brackets around the elements of a non-empty container. *)
Definition pretty_container {A} (opening closing : ascii)
    (one : Z → A → bytes → written (bytes * bytes)) (l : list A) (current_indent : Z) (indent_string : bytes)
    : written (bytes * bytes) :=
  let new_indent := u32 (current_indent + indent_step) in
  let indent_string := grow indent_string new_indent in
  '(body, indent_string) ← pretty_list (one new_indent) l indent_string;
  indent ← write_characters indent_string current_indent;
  Wrote (opening :: NL :: body ++ NL :: indent ++ [closing], indent_string).
End One.

(** [dump] with [pretty_print]. *)
Fixpoint dump_pretty (val : json) (current_indent : Z) (indent_string : bytes) : written (bytes * bytes) :=
  match val with
  | JObject [] => Wrote (lit "{}", indent_string)
  | JObject members =>
      pretty_container "{"%char "}"%char (pretty_member dump_pretty) members current_indent indent_string
  | JArray [] => Wrote (lit "[]", indent_string)
  | JArray elements =>
      pretty_container "["%char "]"%char (pretty_element dump_pretty) elements current_indent indent_string
  | _ => text ← or_throw (dump ensure_ascii h val); Wrote (text, indent_string)
  end.
End Pretty.

Definition INDENT_STRING_SIZE : nat := 512.

(** [basic_json::dump] *)
Definition basic_dump (indent : Z) (indent_char : ascii) (ensure_ascii : bool) (h : error_handler_t) (j : json)
    : written bytes :=
  if 0 <=? indent then
    '(text, _) ← dump_pretty ensure_ascii h (u32 indent) j 0 (replicate INDENT_STRING_SIZE indent_char);
    Wrote text
  else or_throw (dump ensure_ascii h j).

(** ** The indentation *)

(** A buffer of white space that is long enough for one more level. *)
Definition roomy (indent_step : Z) (indent_string : bytes) : Prop :=
  indent_step ≤ zlen indent_string ∧ Forall (λ c, is_whitespace (byte_val c) = true) indent_string.

Lemma grow_roomy step s current :
  roomy step s → 0 ≤ current ≤ zlen s → 0 ≤ step →
  let n := u32 (current + step) in roomy step (grow s n) ∧ 0 ≤ n ≤ zlen (grow s n) ∧ zlen s ≤ zlen (grow s n).
Proof.
  intros [Hl Hw] Hc Hs. cbv zeta. assert (Hn : 0 ≤ u32 (current + step) ≤ current + step).
  { unfold u32. pose proof (Z.mod_pos_bound (current + step) (2 ^ 32) ltac:(lia)).
    pose proof (Z.mod_le (current + step) (2 ^ 32) ltac:(lia) ltac:(lia)). lia. }
  set (n := u32 _) in *. clearbody n. unfold grow, roomy. destruct (Z.ltb_spec (zlen s) n).
  - rewrite zlen_app. unfold zlen in *. rewrite length_replicate. split_and!; try lia.
    apply Forall_app. split; [done|]. by apply Forall_replicate.
  - split_and!; done || lia.
Qed.

Lemma write_indent s n :
  0 ≤ n ≤ zlen s → Forall (λ c, is_whitespace (byte_val c) = true) s →
  ∃ w, write_characters s n = Wrote w ∧ Forall (λ c, is_whitespace (byte_val c) = true) w.
Proof.
  intros Hn Hw. unfold write_characters. rewrite (proj2 (Z.leb_le _ _)) by lia. eexists. split; [done|].
  by apply Forall_take.
Qed.

(** ** Reading it back *)

Lemma scan_ws w s : Forall (λ c, is_whitespace (byte_val c) = true) w → scan false (w ++ s) = scan false s.
Proof.
  intros Hw. unfold scan. simpl. induction Hw as [|c w Hc Hw IH]; [done|]. simpl. by rewrite Hc.
Qed.

Lemma reads_ws w s t ts s' :
  Forall (λ c, is_whitespace (byte_val c) = true) w → reads s (t :: ts) s' → reads (w ++ s) (t :: ts) s'.
Proof. intros Hw Hr. inversion Hr; subst. econstructor; [by rewrite scan_ws|done]. Qed.

(** White space in front of a text. *)
Lemma text_of_ws {A} (P : list token → A → Prop) w text v :
  (∀ ts, P ts v → ∃ t us, ts = t :: us) → Forall (λ c, is_whitespace (byte_val c) = true) w →
  text_of P text v → text_of P (w ++ text) v.
Proof.
  intros Hne Hw ((c & t & -> & Hc) & ts & HP & Hr). split.
  - destruct Hw as [|c' w Hc' Hw]; [by exists c, t|]. exists c', (w ++ c :: t). split; [done|].
    unfold is_whitespace in Hc'. bool_facts. lia.
  - exists ts. split; [done|]. intros rest Hrest. destruct (Hne ts HP) as (t0 & us & ->).
    rewrite <- app_assoc. apply reads_ws; [done|by apply Hr].
Qed.

Section Back.
Context (ensure_ascii : bool) (h : error_handler_t) (step : Z) (Hstep : 0 ≤ step).

(** What a piece of the output promises: with a roomy buffer it is written,
    the buffer stays roomy, and the text reads as [v]. *)
Definition prints {A} (P : list token → A → Prop) (out : bytes → written (bytes * bytes)) (n : Z) (v : A) : Prop :=
  ∀ s, roomy step s → 0 ≤ n ≤ zlen s →
  ∃ text s', out s = Wrote (text, s') ∧ roomy step s' ∧ zlen s ≤ zlen s' ∧ text_of P text v.

Lemma reads_break text ts text' t' ts' rest :
  (∀ rest, delimited rest → reads (text ++ rest) ts rest) →
  (∀ rest, delimited rest → reads (text' ++ rest) (t' :: ts') rest) →
  delimited rest → reads ((text ++ ([","%char; NL]) ++ text') ++ rest) (ts ++ value_separator :: t' :: ts') rest.
Proof.
  intros H1 H2 Hr. rewrite <- !app_assoc. apply reads_app. exists ([","%char; NL] ++ text' ++ rest).
  split; [apply H1; by left|]. econstructor; [done|]. apply (reads_ws [NL]); [by repeat constructor|by apply H2].
Qed.

Lemma prints_element n j :
  prints derives (dump_pretty ensure_ascii h step j n) n (canon j) →
  prints derives (pretty_element (dump_pretty ensure_ascii h step) n j) n (canon j).
Proof.
  intros Hp s Hs Hn. destruct (write_indent s n Hn (proj2 Hs)) as (w & Ew & Hw).
  destruct (Hp s Hs Hn) as (text & s' & Ed & Hs' & Hl & Ht). exists (w ++ text), s'. split_and!; try done.
  - unfold pretty_element. rewrite Ew. simpl. by rewrite Ed.
  - apply text_of_ws; [|done|done]. intros ts. apply derives_cons.
Qed.

Lemma prints_elements n l :
  l ≠ [] → Forall (λ j, prints derives (pretty_element (dump_pretty ensure_ascii h step) n j) n (canon j)) l →
  prints derives_elements (pretty_list (pretty_element (dump_pretty ensure_ascii h step) n) l) n (map canon l).
Proof.
  intros Hne Hl. induction Hl as [|j l Hj Hl IH]; [done|]. intros s Hs Hn.
  destruct (Hj s Hs Hn) as (text & s1 & Ed & Hs1 & Hl1 & Hc & ts & Hd & Hr). destruct l as [|j' l].
  - exists text, s1. split_and!; try done. split; [done|]. exists ts. split; [by constructor|done].
  - destruct (IH ltac:(done) s1 Hs1 ltac:(lia)) as (text' & s2 & Ed' & Hs2 & Hl2 & _ & ts' & He & Hr').
    exists (text ++ [","%char; NL] ++ text'), s2. split_and!; [|done|lia|].
    + cbn [pretty_list] in Ed' |- *. rewrite Ed. simpl. simpl in Ed'. by rewrite Ed'.
    + split; [destruct Hc as (c & t & -> & ?); by eexists c, _|].
      destruct (elements_cons _ _ He) as (t' & us & -> & _). exists (ts ++ value_separator :: t' :: us).
      split; [by apply elements_cons_left|]. intros rest Hrest. by apply reads_break.
Qed.

(** A member: its key, a colon and the value. *)
Definition derives_member (k : bytes) (ts : list token) (v : json) : Prop :=
  ∃ us, ts = value_string k :: name_separator :: us ∧ derives us v.

Lemma prints_member n k v :
  utf8 k → prints derives (dump_pretty ensure_ascii h step v n) n (canon v) →
  prints (derives_member k) (pretty_member ensure_ascii h (dump_pretty ensure_ascii h step) n (k, v)) n (canon v).
Proof.
  intros Hk Hp s Hs Hn. destruct (write_indent s n Hn (proj2 Hs)) as (w & Ew & Hw).
  destruct (Hp s Hs Hn) as (text & s' & Ed & Hs' & Hl & Hc & ts & Hd & Hr).
  destruct (dump_escaped_valid ensure_ascii h k Hk) as (t & Et & He).
  exists (w ++ (lit "'" ++ t ++ lit "'") ++ ":"%char :: " "%char :: text), s'. split_and!; try done.
  - unfold pretty_member. rewrite Ew. simpl. rewrite Et. simpl. by rewrite Ed.
  - apply text_of_ws; [by intros ? (us & -> & _); eauto|done|]. split; [by eexists _, _|].
    exists (value_string k :: name_separator :: ts). split; [by exists ts|]. intros rest Hrest. rewrite <- app_assoc.
    econstructor; [by eapply scan_quoted|]. rewrite <- app_comm_cons. econstructor; [done|].
    destruct (derives_cons _ _ Hd) as (t0 & us & ->). apply (reads_ws [" "%char]); [by repeat constructor|by apply Hr].
Qed.

Lemma prints_members n m :
  m ≠ [] → StronglySorted member_lt m → Forall (λ kv, utf8 kv.1) m →
  Forall (λ kv, prints derives (dump_pretty ensure_ascii h step kv.2 n) n (canon kv.2)) m →
  prints derives_members (pretty_list (pretty_member ensure_ascii h (dump_pretty ensure_ascii h step) n) m) n
    (map (λ kv, (kv.1, canon kv.2)) m).
Proof.
  intros Hne Hs. induction Hs as [|[k v] m Hs IH Hlt]; [done|]. intros Hk Hv s Hrs Hn.
  apply Forall_cons in Hk as [Hk Hks]. apply Forall_cons in Hv as [Hv Hvs].
  destruct (prints_member n k v Hk Hv s Hrs Hn) as (text & s1 & Ed & Hs1 & Hl1 & Hc & ts0 & (ts & -> & Hd) & Hr).
  destruct m as [|kv' m].
  - exists text, s1. split_and!; try done. split; [done|]. eexists. split; [by constructor|done].
  - destruct (IH ltac:(done) Hks Hvs s1 Hs1 ltac:(lia)) as (text' & s2 & Ed' & Hs2 & Hl2 & _ & ts' & Hm & Hr').
    exists (text ++ [","%char; NL] ++ text'), s2. split_and!; [|done|lia|].
    + cbn [pretty_list] in Ed' |- *. rewrite Ed. simpl. simpl in Ed'. by rewrite Ed'.
    + split; [destruct Hc as (c & t & -> & ?); by eexists c, _|].
      destruct (members_cons _ _ Hm) as (k' & us & ->).
      exists (value_string k :: name_separator :: ts ++ value_separator :: value_string k' :: us). split.
      * apply members_cons_left; [done|done|].
        apply (proj2 (Forall_map (λ kv : bytes * json, (kv.1, canon kv.2)) _ (kv' :: m))). exact Hlt.
      * intros rest Hrest. apply (reads_break text (value_string k :: name_separator :: ts)); done.
Qed.

(** A container around its contents. *)
Lemma prints_container {A B} (P : list token → B → Prop) (opening closing : ascii) t1 t2
    (one : Z → A → bytes → written (bytes * bytes)) l n v w :
  byte_val opening < 0x80 →
  (∀ rest, scan false (opening :: rest) = (t1, rest)) → (∀ rest, scan false (closing :: rest) = (t2, rest)) →
  (∀ ts, P ts v → ∃ t us, ts = t :: us) → (∀ ts, P ts v → derives (t1 :: ts ++ [t2]) w) →
  (∀ n', prints P (pretty_list (one n') l) n' v) →
  prints derives (pretty_container step opening closing one l n) n w.
Proof.
  intros Ho H1 H2 Hne Hw Hp s Hs Hn. destruct (grow_roomy step s n Hs Hn Hstep) as (Hg & Hn' & Hl').
  unfold pretty_container. set (n' := u32 (n + step)) in *. set (s1 := grow s n') in *. clearbody n' s1.
  destruct (Hp n' s1 Hg Hn') as (body & s2 & Ed & Hs2 & Hl2 & _ & ts & HP & Hr).
  destruct (write_indent s2 n ltac:(lia) (proj2 Hs2)) as (ind & Ei & Hi).
  eexists _, s2. split; [rewrite Ed; simpl; by rewrite Ei|]. split_and!; [done|lia|]. split; [by eexists _, _|].
  exists (t1 :: ts ++ [t2]). split; [by apply Hw|]. intros rest _. simpl. econstructor; [apply H1|].
  rewrite <- app_assoc. apply reads_app. exists ((NL :: ind ++ [closing]) ++ rest). split.
  - destruct (Hne ts HP) as (t & us & ->). apply (reads_ws [NL]); [by repeat constructor|]. apply Hr.
    simpl. rewrite !elem_of_cons. by auto.
  - replace ((NL :: ind ++ [closing]) ++ rest) with ((NL :: ind) ++ closing :: rest) by (simpl; by rewrite <- app_assoc).
    apply reads_ws; [by constructor|]. by apply reads_one.
Qed.

Lemma prints_scalar j n :
  json_wf j → (∀ s, dump_pretty ensure_ascii h step j n s = (text ← or_throw (dump ensure_ascii h j); Wrote (text, s))) →
  prints derives (dump_pretty ensure_ascii h step j n) n (canon j).
Proof.
  intros Hw He s Hs Hn. destruct (dump_text ensure_ascii h j Hw) as (text & Ed & Ht). exists text, s.
  split_and!; try done. by rewrite He, Ed.
Qed.

Lemma prints_empty j n text t1 t2 :
  (∀ s, dump_pretty ensure_ascii h step j n s = Wrote (text, s)) → (∃ c t, text = c :: t ∧ byte_val c < 0x80) →
  derives [t1; t2] (canon j) → (∀ rest, reads (text ++ rest) [t1; t2] rest) →
  prints derives (dump_pretty ensure_ascii h step j n) n (canon j).
Proof.
  intros He Hc Hd Hr s Hs Hn. exists text, s. split_and!; try done. split; [done|]. exists [t1; t2]. by split.
Qed.

Lemma prints_value j : json_wf j → ∀ n, prints derives (dump_pretty ensure_ascii h step j n) n (canon j).
Proof.
  induction j as [ |b|z|z|t|s|l IH|m IH] using json_ind'; intros Hw n; inversion Hw; subst; try (by apply prints_scalar).
  - destruct l as [|j l].
    + eapply prints_empty; [done|by eexists _, _|constructor|]. intros rest. econstructor; [done|]. by apply reads_one.
    + apply (prints_container derives_elements "["%char "]"%char begin_array end_array _ _ _ (map canon (j :: l)));
        [done..|by intros ts (t & us & -> & _)%elements_cons; eauto|intros ts He; by constructor|].
      intros n'. apply prints_elements; [done|]. rewrite Forall_forall in *. intros x Hx. apply prints_element. auto.
  - destruct m as [|kv m].
    + eapply prints_empty; [done|by eexists _, _|constructor|]. intros rest. econstructor; [done|]. by apply reads_one.
    + apply (prints_container derives_members "{"%char "}"%char begin_object end_object _ _ _
        (map (λ kv, (kv.1, canon kv.2)) (kv :: m)));
        [done..|by intros ts (k & us & ->)%members_cons; eauto|intros ts He; by constructor|].
      intros n'. apply prints_members; [done..|]. rewrite Forall_forall in *. auto.
Qed.
End Back.

(** ** Properties *)

(** C31: Round trip of the JSON library.  Serializing a well-formed value
    succeeds, and parsing the text gives the value back (with the numbers that
    are not negative stored as unsigned), for every error handler, with or
    without [ensure_ascii], compact or indented by up to 512 characters of any
    white space.  So escapes, surrogate pairs, the two-digits-at-a-time integer
    conversion, the shortest texts of floating-point numbers and the layout are
    all inverted by the lexer, and the indentation never reads outside its
    buffer. *)
Theorem dump_round_trip (indent : Z) (indent_char : ascii) (ensure_ascii : bool) (h : error_handler_t) (j : json) :
  json_wf j → indent ≤ 512 → is_whitespace (byte_val indent_char) = true →
  ∃ text, basic_dump indent indent_char ensure_ascii h j = Wrote text ∧ parse text = Parsed (canon j).
Proof.
  intros Hw Hi Hc. unfold basic_dump. destruct (Z.leb_spec 0 indent).
  - assert (Hu : u32 indent = indent) by (apply u32_small; lia). rewrite Hu.
    destruct (prints_value ensure_ascii h indent ltac:(done) j Hw 0 (replicate INDENT_STRING_SIZE indent_char))
      as (text & s & Ed & _ & _ & Ht).
    + split; [unfold zlen; rewrite length_replicate; unfold INDENT_STRING_SIZE; lia|by apply Forall_replicate].
    + unfold zlen. lia.
    + exists text. rewrite Ed. split; [done|by apply parse_text].
  - destruct (parse_dump ensure_ascii h j Hw) as (text & -> & Hp). by exists text.
Qed.

(** The indentation is read beyond its buffer when it is wide: [indent_string]
    grows by doubling once, from 512 to 1024 characters, whatever is asked
    for, and an indentation of more than 1025 is read from it all the same. *)
Theorem wide_indent_reads_beyond (indent : Z) (ensure_ascii : bool) (h : error_handler_t) :
  1025 < indent ≤ INT_MAX → basic_dump indent " "%char ensure_ascii h (JArray [JNull]) = ReadBeyond.
Proof.
  intros Hi. unfold basic_dump, INT_MAX in *. rewrite (proj2 (Z.leb_le _ _)), u32_small by lia.
  cbn [dump_pretty]. unfold pretty_container. cbv zeta. rewrite Z.add_0_l, u32_small by lia.
  assert (Hg : zlen (grow (replicate INDENT_STRING_SIZE " "%char) indent) = 1024).
  { unfold grow. rewrite (proj2 (Z.ltb_lt _ _)) by (unfold zlen; rewrite length_replicate; unfold INDENT_STRING_SIZE; lia).
    rewrite zlen_app. unfold zlen. by rewrite !length_replicate. }
  set (s := grow _ _) in *. clearbody s. cbn [pretty_list]. unfold pretty_element, write_characters.
  rewrite Hg. by rewrite (proj2 (Z.leb_gt _ _)), (proj2 (Z.eqb_neq _ _)) by lia.
Qed.

(** ** Witness *)

Lemma dump_round_trip_witness :
  ∃ text, basic_dump 4 " "%char true handler_strict sample_value = Wrote text ∧ parse text = Parsed (canon sample_value).
Proof.
  apply (dump_round_trip 4 " "%char true handler_strict sample_value).
  - apply (parse_wf sample_text). vm_compute. reflexivity.
  - lia.
  - vm_compute. reflexivity.
Defined.
