(* ===== verification/RuntimeConfig.v ===== *)
(** * Run-time configuration

    Models [include/control/RuntimeConfig.hpp] and
    [src/control/RuntimeConfig.cpp]: validation of a fetched configuration and
    the version check that guards its adoption.  A thrown exception is
    [None]. *)

From S2P Require Import Prelude Json Protocol.
#[local] Open Scope Z_scope.

Record RuntimeConfig := mkRuntimeConfig {
  version : Z;
  max_payload_size : Z;
  max_connections_per_client : Z;
  max_requests_per_client_per_second : Z;
  slow_client_output_limit : Z;
  log_level : bytes;
  request_queue_capacity_display : Z;
}.

Definition defaultRuntimeConfig : RuntimeConfig :=
  {| version := 1;
     max_payload_size := 1048576;
     max_connections_per_client := 2;
     max_requests_per_client_per_second := 100;
     slow_client_output_limit := 8 * 1024 * 1024;
     log_level := lit "INFO";
     request_queue_capacity_display := 4096 |}.

Definition integerInRange (j : json) (field : bytes) (minimum maximum : Z) : option Z :=
  value ← json_at field j;
  if negb (is_number_integer value)
     || (is_number_unsigned value
         && match value with JUnsigned n => n >? u64 maximum | _ => false end)
  then None
  else
    number ← get_int64 value;
    if (number <? minimum) || (number >? maximum) then None else Some number.

Definition valid_log_level (l : bytes) : bool :=
  bool_decide (l = lit "DEBUG") || bool_decide (l = lit "INFO")
  || bool_decide (l = lit "WARN") || bool_decide (l = lit "ERROR").

Section Parse.
Context `{JsonLib}.

(** The parsed configuration, or [None] for every failure (an exception is
    caught and reported as false). *)
Definition parseRuntimeConfig_body (json_body : bytes) : option RuntimeConfig :=
  j ← json_parse json_body;
  v ← integerInRange j (lit "version") 1 INT64_MAX;
  payload ← integerInRange j (lit "max_payload_size") 10 (MAX_PAYLOAD_SIZE + 10);
  conns ← integerInRange j (lit "max_connections_per_client") 1 INT_MAX;
  rate ← integerInRange j (lit "max_requests_per_client_per_second") 1 INT_MAX;
  slow ← integerInRange j (lit "slow_client_output_limit") (payload + 4) (64 * 1024 * 1024);
  level ← json_at (lit "log_level") j ≫= get_string;
  display ← integerInRange j (lit "request_queue_capacity_display") 1 65536;
  if negb (valid_log_level level) then None
  else Some (mkRuntimeConfig v payload conns rate slow level display).

(** [parseRuntimeConfig(json_body, config)]: the result and the final value of
    the output parameter. *)
Definition parseRuntimeConfig (json_body : bytes) (config : RuntimeConfig)
    : bool * RuntimeConfig :=
  match parseRuntimeConfig_body json_body with
  | Some parsed => (true, parsed)
  | None => (false, config)
  end.
End Parse.

Definition applyRuntimeConfigIfNewer (current candidate : RuntimeConfig) : bool * RuntimeConfig :=
  if version candidate <=? version current then (false, current) else (true, candidate).

(** What the data plane relies on: every field within the documented range,
    in particular an output limit that holds the largest frame. *)
Definition config_ok (c : RuntimeConfig) : Prop :=
  1 ≤ version c ≤ INT64_MAX ∧
  10 ≤ max_payload_size c ≤ MAX_PAYLOAD_SIZE + 10 ∧
  1 ≤ max_connections_per_client c ≤ INT_MAX ∧
  1 ≤ max_requests_per_client_per_second c ≤ INT_MAX ∧
  max_payload_size c + 4 ≤ slow_client_output_limit c ≤ 64 * 1024 * 1024 ∧
  valid_log_level (log_level c) = true ∧
  1 ≤ request_queue_capacity_display c ≤ 65536.

(** ** Lemmas *)

Lemma integerInRange_Some j field lo hi n :
  0 ≤ hi ≤ INT64_MAX →
  integerInRange j field lo hi = Some n →
  lo ≤ n ≤ hi ∧ (json_at field j = Some (JInteger n) ∨
                 ∃ z, json_at field j = Some (JUnsigned z) ∧ n = to_int64 z ∧ z ≤ hi).
Proof.
  intros Hhi. unfold integerInRange. destruct (json_at field j) as [v|]; [|done]. simpl.
  destruct v; simpl; try done; repeat case_bool; try done;
    rewrite ?Z.gtb_ltb in *; bool_facts; intros [= <-]; (split; [lia|]).
  - by left.
  - right. eexists. split_and!; [done|done|].
    rewrite u64_small in E by (unfold INT64_MAX in *; lia). lia.
Qed.

(** The checks are exact: an integer literal of the document within the
    range is accepted and kept. *)
Lemma integerInRange_accepts j field lo hi z :
  json_at field j = Some (JUnsigned z) → 0 ≤ z → lo ≤ z ≤ hi → hi ≤ INT64_MAX →
  integerInRange j field lo hi = Some z.
Proof.
  intros Hat H0 Hz Hhi. unfold integerInRange. rewrite Hat. simpl.
  rewrite u64_small by (unfold INT64_MAX in *; lia).
  destruct (z >? hi) eqn:E; [rewrite Z.gtb_ltb in E; bool_facts; lia|]. simpl.
  rewrite to_int64_small by lia.
  by rewrite E, (proj2 (Z.ltb_ge z lo)) by lia.
Qed.

Lemma defaultRuntimeConfig_ok : config_ok defaultRuntimeConfig.
Proof. unfold config_ok. split_and!; vm_compute; congruence. Qed.

Lemma parseRuntimeConfig_body_ok `{JsonLib} b c :
  parseRuntimeConfig_body b = Some c → config_ok c.
Proof.
  unfold parseRuntimeConfig_body. intros Hp.
  repeat (apply bind_Some in Hp as (? & ? & Hp)). case_bool; [done|]. injection Hp as <-.
  repeat match goal with
  | H : integerInRange _ _ _ _ = Some _ |- _ =>
      apply integerInRange_Some in H as [? _]; [|unfold INT64_MAX, INT_MAX, MAX_PAYLOAD_SIZE; lia]
  end.
  bool_facts. unfold config_ok. simpl. split_and!; try done; lia.
Qed.

Lemma applyRuntimeConfig_ok cur cand :
  config_ok cur → config_ok cand → config_ok (applyRuntimeConfigIfNewer cur cand).2.
Proof. unfold applyRuntimeConfigIfNewer. by case_bool. Qed.

(** ** Theorems *)

(** A configuration is accepted only as a whole and only within its
    documented ranges: a successful parse yields a configuration that
    satisfies every bound the data plane relies on, and a failed one leaves
    the output parameter untouched. *)
Theorem parseRuntimeConfig_validates `{JsonLib} b c :
  let '(ok, c') := parseRuntimeConfig b c in
  (ok = true → config_ok c') ∧ (ok = false → c' = c).
Proof.
  unfold parseRuntimeConfig. destruct (parseRuntimeConfig_body b) eqn:E; split; try done.
  intros _. by eapply parseRuntimeConfig_body_ok.
Qed.

(** Adoption is monotone.  Whatever sequence of validated candidates is
    offered, the adopted version never decreases, the snapshot stays
    valid, a candidate that is not newer is ignored, and the snapshot is
    always one of the offered configurations or the initial one. *)
Theorem config_adoption_monotone cur cands :
  config_ok cur → Forall config_ok cands →
  let final := fold_left (fun c cand => (applyRuntimeConfigIfNewer c cand).2) cands cur in
  config_ok final ∧ version cur ≤ version final ∧ final ∈ cur :: cands ∧
  Forall (λ cand, version cand ≤ version final) cands.
Proof.
  intros Hcur Hc. revert cur Hcur. induction Hc as [|cand cands Hok Hcs IH]; intros cur Hcur; simpl.
  { split_and!; [done|lia|set_solver|constructor]. }
  destruct (IH (applyRuntimeConfigIfNewer cur cand).2) as (Hf & Hv & Hin & Hall);
    [by apply applyRuntimeConfig_ok|].
  unfold applyRuntimeConfigIfNewer in *. destruct (version cand <=? version cur) eqn:E; bool_facts;
    simpl in *; (split_and!; [done|lia|set_solver|constructor; [lia|done]]).
Qed.

Lemma config_adoption_monotone_witness :
  let newer := mkRuntimeConfig 3 64 1 5 1024 (lit "WARN") 10 in
  let final := fold_left (fun c cand => (applyRuntimeConfigIfNewer c cand).2)
                 [newer; defaultRuntimeConfig] defaultRuntimeConfig in
  final = newer ∧ version defaultRuntimeConfig ≤ version final.
Proof.
  intros newer final. split; [reflexivity|].
  refine (proj1 (proj2 (config_adoption_monotone defaultRuntimeConfig
    [newer; defaultRuntimeConfig] _ _))).
  - apply defaultRuntimeConfig_ok.
  - repeat constructor; try apply defaultRuntimeConfig_ok; vm_compute; congruence.
Defined.
