(* ===== verification/Logger.v ===== *)
(** * The logger

    Models [src/common/Logger.cpp]: the configured level with its once-only
    initialisation from GATEWAY_LOG_LEVEL, the filter, and the lines written to
    the two standard streams.  The text [vfprintf] makes of a format and its
    arguments, and the hash of the calling thread's id, are arguments of the
    calls.  Levels: 0 DEBUG, 1 INFO, 2 WARN, 3 anything else. *)

From S2P Require Import Prelude Text.
#[local] Open Scope Z_scope.

Inductive Stream := stdout | stderr.
#[export] Instance Stream_eq_dec : EqDecision Stream.
Proof. solve_decision. Defined.

(** The variables of the unnamed namespace, the value of GATEWAY_LOG_LEVEL in
    the environment of the process, and what was written so far. *)
Record Logger := mkLogger {
  env_level : option bytes;
  initialized : bool;
  configured_level : Z;
  written : list (Stream * bytes);
}.

Definition newLogger (env : option bytes) : Logger := mkLogger env false 1 [].

Definition parseLevel (level : bytes) : Z :=
  if bool_decide (level = lit "DEBUG") then 0
  else if bool_decide (level = lit "INFO") then 1
  else if bool_decide (level = lit "WARN") then 2
  else 3.

(** The initialiser of the function-local static runs on the first call only. *)
Definition initializeLogLevel (lg : Logger) : Logger :=
  if initialized lg then lg
  else mkLogger (env_level lg) true (parseLevel (default (lit "INFO") (env_level lg))) (written lg).

Definition debugLoggingEnabled (lg : Logger) : bool * Logger :=
  let lg := initializeLogLevel lg in
  (configured_level lg =? 0, lg).

Definition log_line (level : bytes) (thread : Z) (message : bytes) : bytes :=
  lit "[" ++ level ++ lit "] [Thread " ++ dec thread ++ lit "] " ++ message ++ [LF].

(** The mutex makes the three writes one. *)
Definition writeLog (stream : Stream) (level : bytes) (thread : Z) (message : bytes) (lg : Logger) : Logger :=
  mkLogger (env_level lg) (initialized lg) (configured_level lg)
    (written lg ++ [(stream, log_line level thread message)]).

Definition setGatewayLogLevel (level : bytes) (lg : Logger) : Logger :=
  let lg := initializeLogLevel lg in
  mkLogger (env_level lg) (initialized lg) (parseLevel level) (written lg).

Definition gatewayLog (stream : Stream) (level : bytes) (thread : Z) (message : bytes) (lg : Logger) : Logger :=
  let lg := initializeLogLevel lg in
  let message_level := if bool_decide (level = lit "INFO") then 1 else 3 in
  if message_level <? configured_level lg then lg else writeLog stream level thread message lg.

Definition gatewayDebugLog (thread : Z) (message : bytes) (lg : Logger) : Logger :=
  let '(enabled, lg) := debugLoggingEnabled lg in
  if negb enabled then lg else writeLog stdout (lit "DEBUG") thread message lg.

(** The macros [LOG_DEBUG], [LOG_INFO] and [LOG_ERROR], and a change of level. *)
Inductive LogCall :=
  | LogDebug (thread : Z) (message : bytes)
  | LogInfo (thread : Z) (message : bytes)
  | LogError (thread : Z) (message : bytes)
  | SetLevel (level : bytes).

Definition log_call (lg : Logger) (c : LogCall) : Logger :=
  match c with
  | LogDebug t m => gatewayDebugLog t m lg
  | LogInfo t m => gatewayLog stdout (lit "INFO") t m lg
  | LogError t m => gatewayLog stderr (lit "ERROR") t m lg
  | SetLevel level => setGatewayLogLevel level lg
  end.

(** ** What the logger promises *)

(** A line is written exactly if the level name in force lets it pass. *)
Definition passes (name : bytes) (c : LogCall) : list (Stream * bytes) :=
  match c with
  | LogDebug t m => if bool_decide (name = lit "DEBUG") then [(stdout, log_line (lit "DEBUG") t m)] else []
  | LogInfo t m =>
      if bool_decide (name = lit "DEBUG" ∨ name = lit "INFO") then [(stdout, log_line (lit "INFO") t m)] else []
  | LogError t m => [(stderr, log_line (lit "ERROR") t m)]
  | SetLevel _ => []
  end.

(** The lines of a sequence of calls when the level is [name] at the start. *)
Fixpoint log_spec (name : bytes) (cs : list LogCall) : list (Stream * bytes) :=
  match cs with
  | [] => []
  | SetLevel level :: cs => log_spec level cs
  | c :: cs => passes name c ++ log_spec name cs
  end.

(** [name] is the level in force. *)
Definition in_force (name : bytes) (lg : Logger) : Prop :=
  configured_level (initializeLogLevel lg) = parseLevel name.

Lemma initialize_idemp lg : initializeLogLevel (initializeLogLevel lg) = initializeLogLevel lg.
Proof. unfold initializeLogLevel. by destruct (initialized lg) eqn:E; rewrite ?E. Qed.

Lemma initialize_written lg : written (initializeLogLevel lg) = written lg.
Proof. unfold initializeLogLevel. by destruct (initialized lg). Qed.

Lemma initialize_done lg : initialized (initializeLogLevel lg) = true.
Proof. unfold initializeLogLevel. by destruct (initialized lg) eqn:E; rewrite ?E. Qed.

Lemma initialized_same lg : initialized lg = true → initializeLogLevel lg = lg.
Proof. unfold initializeLogLevel. by intros ->. Qed.

(** A call that logs writes what passes, and leaves the level alone. *)
Lemma log_call_writes name lg c :
  in_force name lg → (∀ level, c ≠ SetLevel level) →
  written (log_call lg c) = written lg ++ passes name c ∧ in_force name (log_call lg c).
Proof.
  intros Hf Hc. unfold in_force in *. rewrite <- (initialize_written lg).
  pose proof (initialize_done lg) as Hd. pose proof (initialize_idemp lg) as Hi.
  destruct c; simpl; try (by edestruct Hc); unfold gatewayDebugLog, gatewayLog, debugLoggingEnabled;
    set (lg1 := initializeLogLevel lg) in *; clearbody lg1; clear lg; rename lg1 into lg.
  all: unfold parseLevel in *; repeat case_bool; bool_facts; subst; simpl in *;
    rewrite ?initialized_same, ?app_nil_r by done; simpl; try done; try lia; try naive_solver lia.
Qed.

Lemma log_calls_spec cs : ∀ name lg,
  in_force name lg → written (fold_left log_call cs lg) = written lg ++ log_spec name cs.
Proof.
  induction cs as [|c cs IH]; intros name lg Hf; cbn [fold_left]; [by rewrite app_nil_r|].
  assert (Hstep : (∀ level, c ≠ SetLevel level) →
    written (fold_left log_call cs (log_call lg c)) = written lg ++ passes name c ++ log_spec name cs).
  { intros Hc. destruct (log_call_writes name lg c Hf Hc) as [Hw Hf'].
    by rewrite (IH name _ Hf'), Hw, <- app_assoc. }
  destruct c as [t m|t m|t m|level]; cbn [log_spec].
  4:{ clear Hstep. rewrite (IH level).
    - simpl. by rewrite initialize_written.
    - unfold in_force. simpl. by rewrite initialized_same by (simpl; apply initialize_done). }
  all: by apply Hstep.
Qed.

(** The log of a process: every ERROR line is written, INFO and DEBUG lines
    exactly under the level in force, which is the one last set, or that of
    the environment (INFO if there is none) before any was set: the lazy
    initialisation never undoes a change of level. *)
Theorem log_history env cs :
  written (fold_left log_call cs (newLogger env)) = log_spec (default (lit "INFO") env) cs.
Proof. by rewrite (log_calls_spec cs (default (lit "INFO") env)). Qed.
