(* ===== verification/HttpParser.v ===== *)
(** * The HTTP response parser of the control-plane client

    Models [include/control/HttpResponseParser.hpp] and
    [src/control/HttpResponseParser.cpp].  Positions in [received_] are
    natural numbers, [npos] is [None]. *)

From S2P Require Import Prelude Text ControlTypes.
#[local] Open Scope Z_scope.

(** ** Fields *)

Definition is_blank (c : ascii) : bool := (byte_val c =? 32) || (byte_val c =? 9).

(** [trimAsciiWhitespace] *)
Definition trimAsciiWhitespace (value : bytes) : bytes := strip is_blank value.

(** [parseContentLength]: [None] when it returns false, otherwise the value
    it stores, which is one more than the limit for any number above it. *)
Fixpoint content_digits (text : bytes) (parsed : Z) : option Z :=
  match text with
  | [] => Some parsed
  | c :: text =>
      if negb (is_digit c) then None
      else if parsed >? (MAX_CONTROL_PLANE_HTTP_BODY_BYTES - digit_val c) / 10
      then Some (MAX_CONTROL_PLANE_HTTP_BODY_BYTES + 1)
      else content_digits text (parsed * 10 + digit_val c)
  end.

Definition parseContentLength (raw_value : bytes) : option Z :=
  let text := trimAsciiWhitespace raw_value in
  if zlen text =? 0 then None else content_digits text 0.

(** ** The parser *)

Record HttpResponseParser := mkParser {
  received_ : bytes;
  content_length_ : option Z;
  body_offset_ : nat;
  status_code_ : Z;
  headers_parsed_ : bool;
  done_ : bool;
  result_ : HttpResult;
}.

#[export] Instance eta_Parser : Eta HttpResponseParser := fun p =>
  mkParser (received_ p) (content_length_ p) (body_offset_ p) (status_code_ p)
    (headers_parsed_ p) (done_ p) (result_ p).

Definition set_received_ : bytes → HttpResponseParser → HttpResponseParser := ltac:(setter received_).
Definition set_content_length_ : option Z → HttpResponseParser → HttpResponseParser := ltac:(setter content_length_).
Definition set_body_offset_ : nat → HttpResponseParser → HttpResponseParser := ltac:(setter body_offset_).
Definition set_status_code_ : Z → HttpResponseParser → HttpResponseParser := ltac:(setter status_code_).
Definition set_headers_parsed_ : bool → HttpResponseParser → HttpResponseParser := ltac:(setter headers_parsed_).
Definition set_done_ : bool → HttpResponseParser → HttpResponseParser := ltac:(setter done_).
Definition set_result_ : HttpResult → HttpResponseParser → HttpResponseParser := ltac:(setter result_).

(** The constructor. *)
Definition newParser : HttpResponseParser :=
  mkParser [] None 0 0 false false (mkHttpResult NoError 0 []).

Definition fail (error : HttpError) (status_code : Z) (p : HttpResponseParser) : HttpResponseParser :=
  set_done_ true (set_result_ (mkHttpResult error status_code []) p).

(** The loop over the header lines: what it found, or the error it stops
    with; with the final [content_length_].  [None]: out of fuel. *)
Inductive HeaderLines :=
  | LinesOk (has_transfer_encoding : bool) (content_length : option Z)
  | LinesBad (error : HttpError) (content_length : option Z).

Definition line_end (received : bytes) (header_end cursor : nat) : nat :=
  match find_from CRLF received cursor with
  | Some e => if (header_end <? e)%nat then header_end else e
  | None => header_end
  end.

Fixpoint header_lines (fuel : nat) (received : bytes) (header_end cursor : nat)
    (has_transfer_encoding : bool) (content_length : option Z) : option HeaderLines :=
  if negb (cursor <? header_end)%nat then Some (LinesOk has_transfer_encoding content_length)
  else
    match fuel with
    | O => None
    | S fuel =>
      let le := line_end received header_end cursor in
      if (le =? cursor)%nat then Some (LinesBad MalformedResponse content_length)
      else
        let line := take (le - cursor) (drop cursor received) in
        match find (lit ":") line with
        | None | Some O => Some (LinesBad MalformedResponse content_length)
        | Some separator =>
          let name := lowerAscii (take separator line) in
          let value := drop (separator + 1) line in
          if bool_decide (name = lit "content-length") then
            match content_length with
            | Some _ => Some (LinesBad DuplicateContentLength content_length)
            | None =>
              match parseContentLength value with
              | None => Some (LinesBad MalformedResponse content_length)
              | Some parsed =>
                  if parsed >? MAX_CONTROL_PLANE_HTTP_BODY_BYTES
                  then Some (LinesBad BodyTooLarge content_length)
                  else header_lines fuel received header_end (le + 2)
                         has_transfer_encoding (Some parsed)
              end
            end
          else if bool_decide (name = lit "transfer-encoding") then
            header_lines fuel received header_end (le + 2) true content_length
          else if bool_decide (name = lit "upgrade") || bool_decide (name = lit "content-encoding")
          then Some (LinesBad MalformedResponse content_length)
          else header_lines fuel received header_end (le + 2) has_transfer_encoding content_length
        end
    end.

(** The status code of a well-formed status line. *)
Definition char_at (s : bytes) (i : nat) : Z :=
  match s !! i with Some c => byte_val c | None => -1 end.

Definition status_of_line (line : bytes) : option Z :=
  if (zlen line <? 12)
     || (negb (bool_decide (take 8 line = lit "HTTP/1.0"))
         && negb (bool_decide (take 8 line = lit "HTTP/1.1")))
     || negb (char_at line 8 =? 32)
     || (char_at line 9 <? 49) || (char_at line 9 >? 53)
     || (char_at line 10 <? 48) || (char_at line 10 >? 57)
     || (char_at line 11 <? 48) || (char_at line 11 >? 57)
     || ((zlen line >? 12) && negb (char_at line 12 =? 32))
  then None
  else Some ((char_at line 9 - 48) * 100 + (char_at line 10 - 48) * 10 + (char_at line 11 - 48)).

(** [parseHeaders].  A line ends after its start, so the cursor advances and
    [S (length received)] iterations are enough ([header_lines_total]). *)
Definition parseHeaders (header_end : nat) (p : HttpResponseParser) : bool * HttpResponseParser :=
  let received := received_ p in
  match find CRLF received with
  | None => (false, fail MalformedResponse 0 p)
  | Some status_end =>
    if (header_end <=? status_end)%nat then (false, fail MalformedResponse 0 p)
    else
      match status_of_line (take status_end received) with
      | None => (false, fail MalformedResponse 0 p)
      | Some status =>
        let p := set_status_code_ status p in
        match header_lines (S (length received)) received header_end (status_end + 2) false
                (content_length_ p) with
        | None => (false, p)
        | Some (LinesBad error cl) => (false, fail error status (set_content_length_ cl p))
        | Some (LinesOk te cl) =>
          let p := set_content_length_ cl p in
          match te, cl with
          | true, Some _ => (false, fail MalformedResponse status p)
          | true, None => (false, fail UnsupportedTransferEncoding status p)
          | false, None => (false, fail MissingContentLength status p)
          | false, Some _ => (true, p)
          end
        end
      end
  end.

Definition finishBodyIfComplete (p : HttpResponseParser) : HttpResponseParser :=
  match content_length_ p with
  | None => p
  | Some n =>
    let body_bytes := zlen (received_ p) - Z.of_nat (body_offset_ p) in
    if body_bytes >? n then fail MalformedResponse (status_code_ p) p
    else if body_bytes <? n then p
    else
      let error := if (status_code_ p <? 200) || (status_code_ p >=? 300)
                   then HttpStatusError else hr_error (result_ p) in
      set_done_ true
        (set_result_ (mkHttpResult error (status_code_ p)
                        (take (Z.to_nat n) (drop (body_offset_ p) (received_ p)))) p)
  end.

Definition consume (chunk : bytes) (p : HttpResponseParser) : HttpResponseParser :=
  if done_ p then p
  else
    let p := set_received_ (received_ p ++ chunk) p in
    if headers_parsed_ p then finishBodyIfComplete p
    else
      match find (CRLF ++ CRLF) (received_ p) with
      | None =>
          if zlen (received_ p) >? MAX_CONTROL_PLANE_HTTP_HEADER_BYTES
          then fail HeaderTooLarge 0 p else p
      | Some header_end =>
        if Z.of_nat header_end + 4 >? MAX_CONTROL_PLANE_HTTP_HEADER_BYTES
        then fail HeaderTooLarge 0 p
        else
          match parseHeaders header_end p with
          | (false, p) => p
          | (true, p) =>
              finishBodyIfComplete (set_headers_parsed_ true (set_body_offset_ (header_end + 4) p))
          end
      end.

Definition finishOnTransportError (error : HttpError) (p : HttpResponseParser) : HttpResponseParser :=
  if done_ p then p else fail error (status_code_ p) p.

Definition finishOnEof (p : HttpResponseParser) : HttpResponseParser :=
  if done_ p then p
  else fail (if headers_parsed_ p then PrematureEof else MalformedResponse) (status_code_ p) p.

Definition takeResult (p : HttpResponseParser) : HttpResult := result_ p.

(** A sequence of reads. *)
Definition consume_all (chunks : list bytes) (p : HttpResponseParser) : HttpResponseParser :=
  fold_left (fun p chunk => consume chunk p) chunks p.

(** ** Lemmas: the header lines *)

(** [header_end] is where the blank line after the headers begins. *)
Definition ends_headers (received : bytes) (header_end : nat) : Prop :=
  CRLF `prefix_of` drop header_end received ∧ (header_end + 2 ≤ length received)%nat.

Lemma line_end_spec received header_end cursor :
  ends_headers received header_end → (cursor < header_end)%nat →
  (cursor ≤ line_end received header_end cursor ≤ header_end)%nat ∧
  find_from CRLF received cursor ≠ None.
Proof.
  intros [Hp Hl] Hc. unfold line_end.
  destruct (find_from CRLF received cursor) as [e|] eqn:Ef.
  - unfold find_from in Ef. apply fmap_Some in Ef as (i & _ & ->).
    destruct (Nat.ltb_spec header_end (cursor + i)); split; try lia; done.
  - unfold find_from in Ef. apply fmap_None in Ef.
    destruct (find_None _ _ Ef (header_end - cursor)%nat); [rewrite length_drop; lia|].
    rewrite drop_drop. by replace (cursor + (header_end - cursor))%nat with header_end by lia.
Qed.

Lemma header_lines_total fuel received header_end cursor te cl :
  (header_end < cursor + fuel)%nat → is_Some (header_lines fuel received header_end cursor te cl).
Proof.
  revert cursor te cl. induction fuel as [|fuel IH]; intros cursor te cl Hf; cbn [header_lines].
  - destruct (Nat.ltb_spec cursor header_end); simpl; [lia|]. by eexists.
  - destruct (Nat.ltb_spec cursor header_end); cbn [negb]; [|by eexists]. cbv zeta.
    destruct (Nat.eqb_spec (line_end received header_end cursor) cursor) as [|Hne]; [by eexists|].
    assert (Hge : (cursor ≤ line_end received header_end cursor)%nat).
    { unfold line_end. destruct (find_from CRLF received cursor) eqn:Ef; [|lia].
      unfold find_from in Ef. apply fmap_Some in Ef as (i & _ & ->). case_bool; lia. }
    repeat (case_match || case_bool); try (by eexists); apply IH; lia.
Qed.

Lemma header_lines_fuel fuel k received header_end cursor te cl r :
  header_lines fuel received header_end cursor te cl = Some r →
  header_lines (fuel + k) received header_end cursor te cl = Some r.
Proof.
  revert cursor te cl. induction fuel as [|fuel IH]; intros cursor te cl; cbn [header_lines Nat.add].
  - destruct (negb _) eqn:En; [|done]. destruct k; cbn [header_lines]; by rewrite En.
  - destruct (negb _); [done|]. cbv zeta.
    repeat (case_match || case_bool); try done; apply IH.
Qed.

(** More text after the headers does not change what the loop finds. *)
Lemma header_lines_app fuel received t header_end cursor te cl :
  ends_headers received header_end →
  header_lines fuel (received ++ t) header_end cursor te cl =
  header_lines fuel received header_end cursor te cl.
Proof.
  intros He. revert cursor te cl. induction fuel as [|fuel IH]; intros cursor te cl; cbn [header_lines].
  { done. }
  destruct (Nat.ltb_spec cursor header_end) as [Hc|]; cbn [negb]; [|done]. cbv zeta.
  destruct (line_end_spec received header_end cursor He Hc) as [Hr Hf].
  assert (Hle : line_end (received ++ t) header_end cursor = line_end received header_end cursor).
  { unfold line_end. destruct (find_from CRLF received cursor) as [e|] eqn:Ef; [|done].
    destruct He as [_ Hlen]. by rewrite (find_from_app _ _ t _ _ Ef) by lia. }
  rewrite Hle. destruct He as [_ Hlen].
  rewrite drop_app_le, take_app_le by (rewrite ?length_drop; lia).
  repeat (case_match || case_bool); try done; by rewrite IH.
Qed.

Lemma content_digits_range text parsed n :
  0 ≤ parsed ≤ MAX_CONTROL_PLANE_HTTP_BODY_BYTES → content_digits text parsed = Some n → 0 ≤ n.
Proof.
  revert parsed. induction text as [|c text IH]; intros parsed Hp; simpl; [intros [= <-]; lia|].
  unfold is_digit, digit_val. case_bool; [done|]. bool_facts.
  destruct (_ >? _) eqn:Eg; rewrite Z.gtb_ltb in Eg; bool_facts.
  - intros [= <-]. unfold MAX_CONTROL_PLANE_HTTP_BODY_BYTES. lia.
  - apply IH. unfold MAX_CONTROL_PLANE_HTTP_BODY_BYTES in *.
    pose proof (Z.mul_div_le (1024 * 1024 - (byte_val c - 48)) 10 ltac:(lia)). lia.
Qed.

(** The content length the loop accepts is within the limit. *)
Definition length_ok (cl : option Z) : Prop :=
  match cl with Some n => 0 ≤ n ≤ MAX_CONTROL_PLANE_HTTP_BODY_BYTES | None => True end.

Lemma header_lines_length fuel received header_end cursor te cl te' cl' :
  length_ok cl → header_lines fuel received header_end cursor te cl = Some (LinesOk te' cl') →
  length_ok cl'.
Proof.
  revert cursor te cl. induction fuel as [|fuel IH]; intros cursor te cl Hok; cbn [header_lines].
  - case_bool; [|done]. by intros [= <- <-].
  - case_bool; [by intros [= <- <-]|]. cbv zeta.
    case_bool; [done|]. destruct (find _ _) as [[|sep]|]; [done| |done].
    destruct (bool_decide (_ = lit "content-length")).
    + destruct cl as [?|]; [done|].
      destruct (parseContentLength _) as [n|] eqn:Ep; [|done].
      destruct (n >? _) eqn:Eg; [done|]. rewrite Z.gtb_ltb in Eg. bool_facts. apply IH.
      simpl. split; [|done]. unfold parseContentLength in Ep. case_bool; [done|].
      eapply content_digits_range; [|exact Ep]. unfold MAX_CONTROL_PLANE_HTTP_BODY_BYTES. lia.
    + destruct (bool_decide (_ = lit "transfer-encoding")); [by apply IH|].
      destruct (_ || _); [done|]. by apply IH.
Qed.

(** ** The head of a response, as a function of the bytes received *)

Inductive Head :=
  | HeadMore                                    (* the blank line has not arrived *)
  | HeadBad (error : HttpError) (status : Z)
  | HeadOk (header_end : nat) (status length : Z).

Definition head_at (x : bytes) (h : nat) : Head :=
  match find CRLF x with
  | None => HeadBad MalformedResponse 0
  | Some status_end =>
    if (h <=? status_end)%nat then HeadBad MalformedResponse 0
    else
      match status_of_line (take status_end x) with
      | None => HeadBad MalformedResponse 0
      | Some status =>
        match header_lines (S (length x)) x h (status_end + 2) false None with
        | None => HeadMore
        | Some (LinesBad error _) => HeadBad error status
        | Some (LinesOk true (Some _)) => HeadBad MalformedResponse status
        | Some (LinesOk true None) => HeadBad UnsupportedTransferEncoding status
        | Some (LinesOk false None) => HeadBad MissingContentLength status
        | Some (LinesOk false (Some n)) => HeadOk h status n
        end
      end
  end.

Definition head (x : bytes) : Head :=
  match find (CRLF ++ CRLF) x with
  | None => if zlen x >? MAX_CONTROL_PLANE_HTTP_HEADER_BYTES then HeadBad HeaderTooLarge 0 else HeadMore
  | Some h =>
      if Z.of_nat h + 4 >? MAX_CONTROL_PLANE_HTTP_HEADER_BYTES then HeadBad HeaderTooLarge 0
      else head_at x h
  end.

Lemma ends_headers_find x h : find (CRLF ++ CRLF) x = Some h → ends_headers x h.
Proof.
  intros Hf. pose proof (find_bound _ _ _ Hf) as Hb. apply find_Some in Hf as (_ & [k Hk] & _).
  simpl in Hb. split; [|lia]. exists (CRLF ++ k). by rewrite Hk.
Qed.

(** Once the head is decided, more bytes do not change it. *)
Lemma head_at_app x t h :
  ends_headers x h → head_at x h ≠ HeadMore → head_at (x ++ t) h = head_at x h.
Proof.
  intros He. unfold head_at. destruct He as [Hp Hl].
  destruct (find CRLF x) as [e|] eqn:Ef.
  2:{ destruct (find_None _ _ Ef h); [lia|done]. }
  rewrite (find_app _ _ t _ Ef). case_bool; [done|].
  pose proof (find_bound _ _ _ Ef) as Hb. simpl in Hb. rewrite take_app_le by lia.
  destruct (status_of_line _) as [status|]; [|done].
  rewrite header_lines_app by done.
  destruct (header_lines_total (S (length x)) x h (e + 2) false None ltac:(lia)) as [r Hr].
  replace (S (length (x ++ t))) with (S (length x) + length t)%nat by (rewrite length_app; lia).
  by rewrite (header_lines_fuel _ _ _ _ _ _ _ _ Hr), Hr.
Qed.

Lemma head_at_decided x h : ends_headers x h → head_at x h ≠ HeadMore.
Proof.
  intros [Hp Hl]. unfold head_at. destruct (find CRLF x) as [e|]; [|done]. case_bool; [done|].
  destruct (status_of_line _); [|done].
  destruct (header_lines_total (S (length x)) x h (e + 2) false None ltac:(lia)) as [r ->].
  by destruct r as [[] []|].
Qed.

Lemma head_app x t : head x ≠ HeadMore → head (x ++ t) = head x.
Proof.
  unfold head. destruct (find (CRLF ++ CRLF) x) as [h|] eqn:Ef.
  - rewrite (find_app _ _ t _ Ef). case_bool; [done|]. apply head_at_app. by apply ends_headers_find.
  - destruct (_ >? _) eqn:Eg; [|done]. intros _. rewrite Z.gtb_ltb in Eg. bool_facts.
    destruct (find (CRLF ++ CRLF) (x ++ t)) as [h|] eqn:Ef'.
    + pose proof (find_app_new _ _ _ _ Ef Ef') as Hn. simpl in Hn.
      destruct (Z.of_nat h + 4 >? _) eqn:Eg'; [done|]. rewrite Z.gtb_ltb in Eg'. bool_facts.
      unfold zlen in Eg. lia.
    + destruct (zlen (x ++ t) >? _) eqn:Eg'; [done|]. rewrite Z.gtb_ltb in Eg'. bool_facts.
      rewrite zlen_app in Eg'. pose proof (zlen_nonneg t). lia.
Qed.

(** The errors of the head are never taken for an answer of the server. *)
Definition protocol_error (e : HttpError) : Prop := e ≠ NoError ∧ e ≠ HttpStatusError.

#[export] Instance protocol_error_dec e : Decision (protocol_error e).
Proof. unfold protocol_error. apply _. Defined.

Lemma header_lines_error fuel x h cursor te cl e cl' :
  header_lines fuel x h cursor te cl = Some (LinesBad e cl') → protocol_error e.
Proof.
  revert cursor te cl. induction fuel as [|fuel IH]; intros cursor te cl; cbn [header_lines];
    (case_bool; [done|]); [done|]. cbv zeta.
  repeat (case_match || case_bool); try (by intros [= <- _]); apply IH.
Qed.

Lemma head_error x e st : head x = HeadBad e st → protocol_error e.
Proof.
  unfold head, head_at.
  repeat (case_match || case_bool); intros [=]; subst; try done.
  match goal with H : header_lines _ _ _ _ _ _ = _ |- _ => by apply header_lines_error in H end.
Qed.

Lemma head_ok x h st n :
  head x = HeadOk h st n →
  find (CRLF ++ CRLF) x = Some h ∧ Z.of_nat h + 4 ≤ MAX_CONTROL_PLANE_HTTP_HEADER_BYTES ∧
  0 ≤ n ≤ MAX_CONTROL_PLANE_HTTP_BODY_BYTES ∧ 100 ≤ st ≤ 599.
Proof.
  unfold head. destruct (find (CRLF ++ CRLF) x) as [h'|] eqn:Ef; [|by case_bool].
  destruct (_ >? _) eqn:Eg; [done|]. rewrite Z.gtb_ltb in Eg. bool_facts. unfold head_at.
  destruct (find CRLF x) as [e|]; [|done]. case_bool; [done|].
  destruct (status_of_line _) as [status|] eqn:Es; [|done].
  destruct (header_lines _ _ _ _ _ _) as [[[] [cl|]|]|] eqn:El; try done.
  intros [= <- <- <-]. pose proof (header_lines_length _ _ _ _ _ None _ _ I El) as Hn.
  split_and!; [done|lia|apply Hn|apply Hn|..]; unfold status_of_line in Es; case_bool; try done;
    injection Es as <-; rewrite ?Z.gtb_ltb in *; bool_facts; lia.
Qed.

#[global] Arguments header_lines : simpl never.
#[global] Arguments find : simpl never.

(** [consume] on a new parser, in terms of the head. *)
Definition parsed (x : bytes) (h : nat) (st n : Z) : HttpResponseParser :=
  mkParser x (Some n) (h + 4) st true false (mkHttpResult NoError 0 []).

Lemma consume_new x :
  match head x with
  | HeadMore => consume x newParser = set_received_ x newParser
  | HeadBad e st =>
      done_ (consume x newParser) = true ∧ received_ (consume x newParser) = x ∧
      result_ (consume x newParser) = mkHttpResult e st []
  | HeadOk h st n => consume x newParser = finishBodyIfComplete (parsed x h st n)
  end.
Proof.
  unfold head, consume.
  cbn [newParser done_ headers_parsed_ received_ content_length_ set_received_ app].
  destruct (find (CRLF ++ CRLF) x) as [h|] eqn:Ef; [|by destruct (_ >? _)].
  destruct (_ >? _); [done|].
  pose proof (head_at_decided x h (ends_headers_find _ _ Ef)) as Hd.
  unfold head_at, parseHeaders in *.
  cbn [newParser done_ headers_parsed_ received_ content_length_ set_received_ set_status_code_
       set_content_length_].
  destruct (find CRLF x) as [e|]; [|done]. destruct (h <=? e)%nat; [done|].
  destruct (status_of_line _) as [status|]; [|done].
  by destruct (header_lines _ _ _ _ _ _) as [[[] [cl|]|]|].
Qed.

(** ** The reads that deliver a response *)

Lemma finishBody_parsed x h st n :
  let b := zlen x - Z.of_nat (h + 4) in
  finishBodyIfComplete (parsed x h st n) =
  if b >? n then fail MalformedResponse st (parsed x h st n)
  else if b <? n then parsed x h st n
  else mkParser x (Some n) (h + 4) st true true
         (mkHttpResult (if (st <? 200) || (st >=? 300) then HttpStatusError else NoError) st
            (take (Z.to_nat n) (drop (h + 4) x))).
Proof. reflexivity. Qed.

(** Two reads are one read of the bytes of both. *)
Lemma consume_step a b :
  done_ (consume a newParser) = false → consume b (consume a newParser) = consume (a ++ b) newParser.
Proof.
  pose proof (consume_new a) as Ha. pose proof (consume_new (a ++ b)) as Hab.
  destruct (head a) as [|e st|h st n] eqn:Eh.
  - rewrite Ha. reflexivity.
  - destruct Ha as (-> & _). done.
  - rewrite head_app, Eh in Hab by congruence. rewrite Ha, Hab, finishBody_parsed. cbv zeta.
    destruct (_ >? n); [done|]. destruct (_ <? n); [|done]. reflexivity.
Qed.

Lemma consume_done chunk p : done_ p = true → consume chunk p = p.
Proof. unfold consume. by intros ->. Qed.

Lemma consume_all_done chunks p : done_ p = true → consume_all chunks p = p.
Proof.
  revert p. induction chunks as [|c chunks IH]; intros p Hp; [done|].
  change (consume_all (c :: chunks) p) with (consume_all chunks (consume c p)).
  by rewrite consume_done by done; apply IH.
Qed.

(** The reads up to the one that decides the response are one read. *)
Lemma consume_all_prefix a chunks :
  ∃ k, consume_all chunks (consume a newParser) = consume (a ++ concat (take k chunks)) newParser ∧
       (k = length chunks ∨ done_ (consume (a ++ concat (take k chunks)) newParser) = true).
Proof.
  revert a. induction chunks as [|c chunks IH]; intros a.
  { exists 0%nat. simpl. rewrite app_nil_r. by split; [|left]. }
  change (consume_all (c :: chunks) (consume a newParser))
    with (consume_all chunks (consume c (consume a newParser))).
  destruct (done_ (consume a newParser)) eqn:Ed.
  - exists 0%nat. simpl. rewrite app_nil_r. rewrite consume_done by done.
    split; [by apply consume_all_done|by right].
  - rewrite consume_step by done. destruct (IH (a ++ c)) as (k & Hk & Hd).
    exists (S k). simpl. rewrite app_assoc. split; [done|]. destruct Hd as [->|Hd]; [by left|by right].
Qed.

(** A response decided before its last byte is not accepted. *)
Lemma consume_early a b :
  done_ (consume a newParser) = true → b ≠ [] →
  protocol_error (hr_error (result_ (consume (a ++ b) newParser))).
Proof.
  intros Hd Hb. pose proof (consume_new a) as Ha. pose proof (consume_new (a ++ b)) as Hab.
  destruct (head a) as [|e st|h st n] eqn:Eh.
  - by rewrite Ha in Hd.
  - rewrite head_app, Eh in Hab by congruence. destruct Hab as (_ & _ & ->). by eapply head_error.
  - rewrite head_app, Eh in Hab by congruence. rewrite Ha, finishBody_parsed in Hd.
    rewrite Hab, finishBody_parsed. cbv zeta in *.
    assert (n < zlen (a ++ b) - Z.of_nat (h + 4)) as Hlt.
    { rewrite zlen_app. assert (0 < zlen b) by (destruct b; [done|rewrite zlen_cons; pose proof (zlen_nonneg b); lia]).
      destruct (_ >? n) eqn:E1; [rewrite Z.gtb_ltb in E1; bool_facts; lia|].
      destruct (_ <? n) eqn:E2; [done|]. bool_facts. lia. }
    rewrite Z.gtb_ltb. apply Z.ltb_lt in Hlt. by rewrite Hlt.
Qed.

(** ** What an accepted response looks like *)

(** The value of a string of digits. *)
Definition dec_value (text : bytes) : Z := fold_left (λ v c, v * 10 + digit_val c) text 0.

(** The field name, lower-cased, and the value of a header line. *)
Definition line_name (line : bytes) : bytes :=
  match find (lit ":") line with Some sep => lowerAscii (take sep line) | None => [] end.

Definition line_value (line : bytes) : bytes :=
  match find (lit ":") line with Some sep => drop (sep + 1) line | None => [] end.

Definition is_length_line (line : bytes) : bool := bool_decide (line_name line = lit "content-length").

(** A field that does not change how the body is framed. *)
Definition neutral (line : bytes) : Prop :=
  line_name line ≠ [] ∧ line_name line ≠ lit "transfer-encoding" ∧
  line_name line ≠ lit "upgrade" ∧ line_name line ≠ lit "content-encoding".

(** A line that announces a body of [n] bytes. *)
Definition announces (n : Z) (line : bytes) : Prop :=
  let text := trimAsciiWhitespace (line_value line) in
  text ≠ [] ∧ Forall (λ c, is_digit c = true) text ∧ dec_value text = n.

Definition render_lines (lines : list bytes) : bytes := concat ((λ l, l ++ CRLF) <$> lines).

Lemma content_digits_sound text v n :
  0 ≤ v ≤ MAX_CONTROL_PLANE_HTTP_BODY_BYTES →
  content_digits text v = Some n → n ≤ MAX_CONTROL_PLANE_HTTP_BODY_BYTES →
  Forall (λ c, is_digit c = true) text ∧ fold_left (λ v c, v * 10 + digit_val c) text v = n.
Proof.
  revert v. induction text as [|c text IH]; intros v Hv; simpl; [by intros [= <-]|].
  destruct (is_digit c) eqn:Ed; [simpl|done].
  destruct (_ >? _) eqn:Eg; [intros [= <-]; lia|]. rewrite Z.gtb_ltb in Eg.
  assert (0 ≤ digit_val c ≤ 9) as Hd by (unfold is_digit, digit_val in *; bool_facts; lia).
  bool_facts. intros Hc Hn.
  destruct (IH (v * 10 + digit_val c)) as [? ?]; [|done|done|by split; [constructor|]].
  unfold MAX_CONTROL_PLANE_HTTP_BODY_BYTES in *.
  pose proof (Z.mul_div_le (1024 * 1024 - digit_val c) 10 ltac:(lia)). lia.
Qed.

Lemma dec_value_grows text v :
  Forall (λ c, is_digit c = true) text → 0 ≤ v → v ≤ fold_left (λ v c, v * 10 + digit_val c) text v.
Proof.
  intros Ht. revert v. induction Ht as [|c text Hc Ht IH]; intros v Hv; simpl; [lia|].
  unfold is_digit, digit_val in *. bool_facts.
  etrans; [|apply IH; lia]. lia.
Qed.

Lemma content_digits_complete text v :
  Forall (λ c, is_digit c = true) text → 0 ≤ v →
  fold_left (λ v c, v * 10 + digit_val c) text v ≤ MAX_CONTROL_PLANE_HTTP_BODY_BYTES →
  content_digits text v = Some (fold_left (λ v c, v * 10 + digit_val c) text v).
Proof.
  intros Ht. revert v. induction Ht as [|c text Hc Ht IH]; intros v Hv Hm; [done|].
  cbn [content_digits fold_left] in *. rewrite Hc. cbn [negb].
  assert (0 ≤ digit_val c ≤ 9) as Hd by (unfold is_digit, digit_val in *; bool_facts; lia).
  pose proof (dec_value_grows text (v * 10 + digit_val c) Ht ltac:(lia)) as Hg.
  destruct (_ >? _) eqn:Eg; [|apply IH; [lia|done]]. rewrite Z.gtb_ltb in Eg. bool_facts.
  assert (v ≤ (MAX_CONTROL_PLANE_HTTP_BODY_BYTES - digit_val c) / 10); [|lia].
  apply Z.div_le_lower_bound; lia.
Qed.

Lemma parseContentLength_spec line n :
  n ≤ MAX_CONTROL_PLANE_HTTP_BODY_BYTES →
  parseContentLength (line_value line) = Some n ↔ announces n line.
Proof.
  intros Hn. unfold parseContentLength, announces. cbv zeta.
  set (text := trimAsciiWhitespace _). destruct (Z.eqb_spec (zlen text) 0) as [Hz|Hz];
    rewrite zlen_0 in Hz; [split; [done|by intros (Hne & _)]|]. split.
  - intros Hc. destruct (content_digits_sound text 0 n) as [? ?];
      [unfold MAX_CONTROL_PLANE_HTTP_BODY_BYTES; lia|done..|by split_and!].
  - intros (_ & Hd & <-). apply content_digits_complete; [done|lia|done].
Qed.

(** One iteration of the loop over the lines, on the text of the line. *)
Definition line_step (line : bytes) (te : bool) (cl : option Z) : HeaderLines + bool * option Z :=
  if bool_decide (line_name line = []) then inl (LinesBad MalformedResponse cl)
  else if is_length_line line then
    match cl, parseContentLength (line_value line) with
    | Some _, _ => inl (LinesBad DuplicateContentLength cl)
    | None, None => inl (LinesBad MalformedResponse cl)
    | None, Some parsed =>
        if parsed >? MAX_CONTROL_PLANE_HTTP_BODY_BYTES then inl (LinesBad BodyTooLarge cl)
        else inr (te, Some parsed)
    end
  else if bool_decide (line_name line = lit "transfer-encoding") then inr (true, cl)
  else if bool_decide (line_name line = lit "upgrade")
          || bool_decide (line_name line = lit "content-encoding")
  then inl (LinesBad MalformedResponse cl)
  else inr (te, cl).

Lemma lowerAscii_nil (s : bytes) : lowerAscii s = [] ↔ s = [].
Proof. unfold lowerAscii. destruct s; simpl; split; congruence. Qed.

Lemma header_lines_step fuel x he cursor te cl :
  (cursor < he)%nat →
  let le := line_end x he cursor in
  header_lines (S fuel) x he cursor te cl =
  if (le =? cursor)%nat then Some (LinesBad MalformedResponse cl)
  else match line_step (take (le - cursor) (drop cursor x)) te cl with
       | inl r => Some r
       | inr (te', cl') => header_lines fuel x he (le + 2) te' cl'
       end.
Proof.
  intros Hc. unfold header_lines; fold header_lines. apply Nat.ltb_lt in Hc as ->. cbn [negb]. cbv zeta.
  destruct (_ =? cursor)%nat; [done|].
  set (line := take _ _). unfold line_step, is_length_line, line_name, line_value.
  destruct (find (lit ":") line) as [[|sep]|] eqn:Ef.
  - by rewrite take_0.
  - rewrite (bool_decide_eq_false_2 (lowerAscii (take (S sep) line) = [])).
    2:{ rewrite lowerAscii_nil. apply find_bound in Ef. destruct line; simpl in *; [lia|done]. }
    destruct (bool_decide (_ = lit "content-length")).
    { destruct cl; [done|]. destruct (parseContentLength _); [|done]. by destruct (_ >? _). }
    destruct (bool_decide (_ = lit "transfer-encoding")); [done|]. by destruct (_ || _).
  - done.
Qed.

Lemma line_step_accepts line te cl cl' :
  line_step line te cl = inr (false, cl') →
  neutral line ∧ te = false ∧
  (if is_length_line line
   then cl = None ∧ ∃ n, cl' = Some n ∧ n ≤ MAX_CONTROL_PLANE_HTTP_BODY_BYTES ∧ announces n line
   else cl' = cl).
Proof.
  unfold line_step, neutral. destruct (bool_decide (line_name line = [])) eqn:E0; [done|]. bool_facts.
  destruct (is_length_line line) eqn:El.
  - unfold is_length_line in El. bool_facts. destruct cl; [done|].
    destruct (parseContentLength _) as [m|] eqn:Ep; [|done].
    destruct (_ >? _) eqn:Eg; [done|]. rewrite Z.gtb_ltb in Eg. bool_facts. intros [= -> <-].
    rewrite El. split_and!; try done. exists m. split_and!; [done..|]. by apply parseContentLength_spec.
  - destruct (bool_decide (_ = lit "transfer-encoding")) eqn:Et; [done|].
    destruct (_ || _) eqn:Eu; [done|]. bool_facts. by intros [= -> <-].
Qed.

Lemma line_step_rejects line te cl r : line_step line te cl = inl r → ∃ e, r = LinesBad e cl.
Proof.
  unfold line_step. repeat (case_match || case_bool); try done; intros [= <-]; by eexists.
Qed.

(** The start of the lines, and where a line ends. *)
Lemma head_no_empty_line x he e :
  find (CRLF ++ CRLF) x = Some he → CRLF `prefix_of` drop e x → (e < he)%nat → (e + 2 < he)%nat.
Proof.
  intros (Hl & [k Hk] & Hmin)%find_Some [j Hj] Hlt.
  assert (Hd : drop he x = drop (he - e) (drop e x)) by (rewrite drop_drop; f_equal; lia).
  rewrite Hk, Hj in Hd.
  destruct (he - e)%nat as [|[|[|d]]] eqn:Ed; [lia|by injection Hd| |lia].
  exfalso. apply (Hmin e); [done|]. exists (CRLF ++ k). rewrite Hj. simpl in Hd.
  rewrite drop_0 in Hd. by subst j.
Qed.

Lemma line_end_crlf x he cursor :
  find (CRLF ++ CRLF) x = Some he → (cursor < he)%nat →
  let le := line_end x he cursor in
  CRLF `prefix_of` drop le x ∧ (cursor ≤ le)%nat ∧ ((le + 2 < he)%nat ∨ le = he).
Proof.
  intros Hf Hc. pose proof (ends_headers_find _ _ Hf) as He.
  destruct (line_end_spec x he cursor He Hc) as [Hr Hn]. cbv zeta.
  assert (Hp : CRLF `prefix_of` drop (line_end x he cursor) x).
  { unfold line_end. destruct (find_from CRLF x cursor) as [e|] eqn:Ef; [|done].
    case_bool; [apply He|]. unfold find_from in Ef. apply fmap_Some in Ef as (i & Hi & ->).
    apply find_Some in Hi as (_ & Hi & _). by rewrite drop_drop in Hi. }
  split_and!; [done|lia|]. destruct (decide (line_end x he cursor = he)); [by right|left].
  eapply head_no_empty_line; [done|done|lia].
Qed.

Lemma take_line x he cursor le :
  CRLF `prefix_of` drop le x → (cursor ≤ le ≤ he)%nat →
  take (he + 2 - cursor) (drop cursor x) =
  (take (le - cursor) (drop cursor x) ++ CRLF) ++ take (he + 2 - (le + 2)) (drop (le + 2) x).
Proof.
  intros [k Hk] Hr.
  assert (Hd : drop cursor x = take (le - cursor) (drop cursor x) ++ drop le x).
  { rewrite <- (take_drop (le - cursor) (drop cursor x)) at 1. rewrite drop_drop.
    by replace (cursor + (le - cursor))%nat with le by lia. }
  assert (Hl : length (take (le - cursor) (drop cursor x)) = (le - cursor)%nat).
  { rewrite length_take, length_drop. assert (length (drop le x) = length (CRLF ++ k)) as Hl by (by rewrite Hk).
    rewrite length_drop in Hl. simpl in Hl. lia. }
  rewrite <- (drop_drop x 2 le), Hk. rewrite Hd at 1. rewrite Hk, !take_app, Hl.
  rewrite take_ge by lia. rewrite <- app_assoc. f_equal.
  replace (he + 2 - cursor - (le - cursor))%nat with (S (S (he - le))) by lia.
  replace (he + 2 - (le + 2))%nat with (he - le)%nat by lia. simpl.
  by rewrite drop_0, take_nil, Nat.sub_0_r.
Qed.

(** The lines of an accepted head: none changes the framing, exactly one
    announces the length. *)
Lemma header_lines_sound fuel x he cursor te cl n :
  find (CRLF ++ CRLF) x = Some he → (cursor < he ∨ cursor = he + 2)%nat →
  header_lines fuel x he cursor te cl = Some (LinesOk false (Some n)) →
  ∃ lines, take (he + 2 - cursor) (drop cursor x) = render_lines lines ∧
    Forall neutral lines ∧ te = false ∧
    match cl with
    | Some m => m = n ∧ filter is_length_line lines = []
    | None => ∃ l, filter is_length_line lines = [l] ∧ announces n l
    end.
Proof.
  intros Hf. revert cursor te cl.
  assert (Hbase : ∀ te cl, Some (LinesOk te cl) = Some (LinesOk false (Some n)) →
    ∃ lines, take (he + 2 - (he + 2)) (drop (he + 2) x) = render_lines lines ∧
      Forall neutral lines ∧ te = false ∧
      match cl with
      | Some m => m = n ∧ filter is_length_line lines = []
      | None => ∃ l, filter is_length_line lines = [l] ∧ announces n l
      end).
  { intros te cl [= -> ->]. exists []. rewrite Nat.sub_diag. by rewrite take_0. }
  induction fuel as [|fuel IH]; intros cursor te cl Hc.
  { unfold header_lines. destruct (Nat.ltb_spec cursor he); [done|].
    destruct Hc as [?| ->]; [lia|]. apply Hbase. }
  destruct Hc as [Hc| ->].
  2:{ unfold header_lines. destruct (Nat.ltb_spec (he + 2) he); [lia|]. apply Hbase. }
  rewrite header_lines_step by done. cbv zeta.
  destruct (line_end_crlf x he cursor Hf Hc) as (Hp & Hge & Hnext).
  set (le := line_end x he cursor) in *. destruct (_ =? _)%nat; [done|].
  set (line := take (le - cursor) (drop cursor x)).
  destruct (line_step line te cl) as [r|[te' cl']] eqn:Es.
  { destruct (line_step_rejects _ _ _ _ Es) as (e & ->). done. }
  intros Hl.
  destruct (IH (le + 2)%nat te' cl') as (lines & Hlines & Hall & -> & Hcl); [lia|done|].
  apply line_step_accepts in Es as (Hneu & -> & Hstep).
  exists (line :: lines). split_and!; [|by constructor|done|].
  { rewrite (take_line x he cursor le Hp ltac:(lia)), Hlines. done. }
  rewrite filter_cons. destruct (is_length_line line) eqn:El; simpl.
  - destruct Hstep as (-> & m & -> & _ & Hm). destruct Hcl as [-> ->]. by exists line.
  - by subst cl'.
Qed.

(** ** Well-formed responses are accepted *)

Definition no_cr (s : bytes) : Prop := Forall (λ c, c ≠ CR) s.

Lemma neutral_nonempty line : neutral line → line ≠ [].
Proof. intros [Hn _] ->. by apply Hn. Qed.

Lemma find_line_end l t : no_cr l → find CRLF (l ++ CRLF ++ t) = Some (length l).
Proof.
  intros Hl. unfold CRLF at 1. rewrite find_skip by done. fold CRLF. rewrite find_here. simpl.
  f_equal. lia.
Qed.

Lemma find_head_end lines t :
  Forall no_cr lines → Forall (λ l, l ≠ []) lines →
  find (CRLF ++ CRLF) (CRLF ++ render_lines lines ++ CRLF ++ t) = Some (length (render_lines lines)).
Proof.
  intros Hl Hn. revert Hl. induction Hn as [|l lines Hne Hn IH]; intros Hl.
  { apply (find_here (CRLF ++ CRLF) t). }
  apply Forall_cons in Hl as [Hl Hls]. specialize (IH Hls).
  change (render_lines (l :: lines)) with ((l ++ CRLF) ++ render_lines lines).
  rewrite <- !app_assoc. destruct l as [|c l]; [done|].
  change (CRLF ++ (c :: l) ++ CRLF ++ render_lines lines ++ CRLF ++ t)
    with (CR :: LF :: (c :: l) ++ CRLF ++ render_lines lines ++ CRLF ++ t).
  rewrite find_next.
  2:{ intros [k Hk]. injection Hk as Hk _. apply Forall_cons in Hl as [Hc _]. done. }
  rewrite find_next by (by intros [k Hk]).
  change (CRLF ++ CRLF) with (CR :: LF :: CRLF) in *.
  rewrite find_skip by exact Hl. rewrite IH. simpl. f_equal. rewrite !length_app. simpl. lia.
Qed.

Lemma line_step_complete line cl :
  neutral line →
  (if is_length_line line
   then cl = None → ∀ n, n ≤ MAX_CONTROL_PLANE_HTTP_BODY_BYTES → announces n line →
        line_step line false cl = inr (false, Some n)
   else line_step line false cl = inr (false, cl)).
Proof.
  intros (H0 & H1 & H2 & H3). unfold line_step.
  rewrite (bool_decide_eq_false_2 _ H0). destruct (is_length_line line).
  - intros -> n Hn Ha. apply parseContentLength_spec in Ha as ->; [|done].
    rewrite Z.gtb_ltb. by destruct (Z.ltb_spec MAX_CONTROL_PLANE_HTTP_BODY_BYTES n); [lia|].
  - rewrite (bool_decide_eq_false_2 _ H1), (bool_decide_eq_false_2 _ H2).
    by rewrite (bool_decide_eq_false_2 _ H3).
Qed.

(** The loop walks over the lines one by one. *)
Lemma header_lines_walk fuel pre line lines t he cl :
  no_cr line → neutral line →
  (he + 2 = length pre + length (render_lines (line :: lines)))%nat →
  header_lines (S fuel) (pre ++ render_lines (line :: lines) ++ t) he (length pre) false cl =
  match line_step line false cl with
  | inl r => Some r
  | inr (te', cl') =>
      header_lines fuel ((pre ++ line ++ CRLF) ++ render_lines lines ++ t) he
        (length (pre ++ line ++ CRLF)) te' cl'
  end.
Proof.
  intros Hl Hn. change (render_lines (line :: lines)) with ((line ++ CRLF) ++ render_lines lines).
  rewrite !length_app. change (length CRLF) with 2%nat. intros Hhe.
  assert (length line ≠ 0%nat) by (intros ?%nil_length_inv; by apply neutral_nonempty in Hn).
  assert (Hx : pre ++ ((line ++ CRLF) ++ render_lines lines) ++ t =
               (pre ++ line ++ CRLF) ++ render_lines lines ++ t) by (by rewrite <- !app_assoc).
  rewrite header_lines_step by lia. cbv zeta. rewrite <- Hx.
  set (x := pre ++ ((line ++ CRLF) ++ render_lines lines) ++ t).
  assert (Hd : drop (length pre) x = line ++ CRLF ++ render_lines lines ++ t).
  { unfold x. rewrite drop_app_length. by rewrite <- !app_assoc. }
  assert (Hle : line_end x he (length pre) = (length pre + length line)%nat).
  { unfold line_end, find_from. rewrite Hd, find_line_end by done. simpl.
    by destruct (Nat.ltb_spec he (length pre + length line)); [lia|]. }
  rewrite Hle, Hd. destruct (Nat.eqb_spec (length pre + length line) (length pre)); [lia|].
  rewrite take_app_exact by lia. by rewrite <- Nat.add_assoc.
Qed.

Lemma header_lines_complete fuel pre lines t he cl n :
  Forall no_cr lines → Forall neutral lines → n ≤ MAX_CONTROL_PLANE_HTTP_BODY_BYTES →
  (length lines ≤ fuel)%nat → (he + 2 = length pre + length (render_lines lines))%nat →
  match cl with
  | Some m => m = n ∧ filter is_length_line lines = []
  | None => ∃ l, filter is_length_line lines = [l] ∧ announces n l
  end →
  header_lines fuel (pre ++ render_lines lines ++ t) he (length pre) false cl =
  Some (LinesOk false (Some n)).
Proof.
  intros Hcr Hn Hmax. revert fuel pre cl Hcr. induction Hn as [|l lines Hne Hn IH];
    intros fuel pre cl Hcr Hfuel Hhe Hcl.
  - simpl in Hhe. destruct cl as [m|]; [destruct Hcl as [-> _]|by destruct Hcl as (? & ? & _)].
    destruct fuel; unfold header_lines; fold header_lines;
      by destruct (Nat.ltb_spec (length pre) he); [lia|].
  - apply Forall_cons in Hcr as [Hl Hcr]. simpl in Hfuel. destruct fuel as [|fuel]; [lia|].
    rewrite header_lines_walk by done.
    assert (Hhe' : (he + 2 = length (pre ++ l ++ CRLF) + length (render_lines lines))%nat).
    { change (render_lines (l :: lines)) with ((l ++ CRLF) ++ render_lines lines) in Hhe.
      rewrite !length_app in *. lia. }
    pose proof (line_step_complete l cl Hne) as Hs. rewrite filter_cons in Hcl.
    destruct (is_length_line l) eqn:El; cbn in Hcl.
    + destruct cl as [m|]; [by destruct Hcl|]. destruct Hcl as (l' & [= <- Hnil] & Ha).
      rewrite (Hs eq_refl n Hmax Ha). apply IH; [done|lia|done|done].
    + rewrite Hs. apply IH; [done|lia|done|done].
Qed.

(** A response as it is on the wire. *)
Definition render_response (status_line : bytes) (lines : list bytes) (body : bytes) : bytes :=
  status_line ++ CRLF ++ render_lines lines ++ CRLF ++ body.

(** The framing of a response: the status line is well formed, no line
    changes the framing, exactly one announces the length, which is that of
    the body, and both parts are within their limits. *)
Definition well_framed (status_line : bytes) (lines : list bytes) (body : bytes) (st : Z) : Prop :=
  status_of_line status_line = Some st ∧ Forall neutral lines ∧
  (∃ l, filter is_length_line lines = [l] ∧ announces (zlen body) l) ∧
  zlen (status_line ++ CRLF ++ render_lines lines ++ CRLF) ≤ MAX_CONTROL_PLANE_HTTP_HEADER_BYTES ∧
  zlen body ≤ MAX_CONTROL_PLANE_HTTP_BODY_BYTES.

Definition status_error (st : Z) : HttpError :=
  if (200 <=? st) && (st <? 300) then NoError else HttpStatusError.

Lemma status_error_code st :
  (if (st <? 200) || (st >=? 300) then HttpStatusError else NoError) = status_error st.
Proof.
  unfold status_error. rewrite Z.geb_leb.
  destruct (Z.ltb_spec st 200), (Z.leb_spec 300 st), (Z.leb_spec 200 st), (Z.ltb_spec st 300);
    try done; lia.
Qed.

(** The head of accepted bytes. *)
Lemma head_sound x h st n :
  head x = HeadOk h st n →
  ∃ status_line lines,
    x = status_line ++ CRLF ++ render_lines lines ++ CRLF ++ drop (h + 4) x ∧
    (h + 4)%nat = length (status_line ++ CRLF ++ render_lines lines ++ CRLF) ∧
    status_of_line status_line = Some st ∧ Forall neutral lines ∧
    ∃ l, filter is_length_line lines = [l] ∧ announces n l.
Proof.
  intros Hh. destruct (head_ok _ _ _ _ Hh) as (Hf & _). revert Hh. unfold head. rewrite Hf.
  destruct (_ >? _); [done|]. unfold head_at.
  destruct (find CRLF x) as [e|] eqn:Ee; [|done]. destruct (Nat.leb_spec h e); [done|].
  destruct (status_of_line _) as [status|] eqn:Es; [|done].
  destruct (header_lines _ _ _ _ _ _) as [[[] [cl|]|]|] eqn:El; try done. intros [= -> ->].
  pose proof (find_bound _ _ _ Hf) as Hb. simpl in Hb.
  apply find_Some in Ee as (_ & He & _).
  pose proof (head_no_empty_line _ _ _ Hf He ltac:(lia)) as Hnext.
  apply header_lines_sound in El as (lines & Hlines & Hn & _ & Hl); [|done|lia].
  exists (take e x), lines.
  assert (Hx : x = take e x ++ CRLF ++ render_lines lines ++ CRLF ++ drop (h + 4) x).
  { destruct He as [k Hk]. apply find_Some in Hf as (_ & [k' Hk'] & _).
    rewrite <- (take_drop e x) at 1. rewrite Hk. do 2 f_equal.
    assert (Hd : drop (e + 2) x = k) by (rewrite <- drop_drop, Hk; apply drop_0).
    rewrite <- Hd, <- Hlines, <- (take_drop (h + 2 - (e + 2)) (drop (e + 2) x)) at 1. f_equal.
    rewrite drop_drop. replace (e + 2 + (h + 2 - (e + 2)))%nat with (h + 2)%nat by lia.
    rewrite <- (drop_drop x 2 h), <- (drop_drop x 4 h), Hk'. simpl. by rewrite !drop_0. }
  split_and!; [done| |done|done|done].
  assert (length x = (length (take e x ++ CRLF ++ render_lines lines ++ CRLF)
                      + length (drop (h + 4) x))%nat) as Hlen.
  { rewrite Hx at 1. rewrite !length_app. lia. }
  rewrite length_drop in Hlen. lia.
Qed.

(** The head of a well-framed response. *)
Lemma head_complete status_line lines body st :
  well_framed status_line lines body st → no_cr status_line → Forall no_cr lines →
  head (render_response status_line lines body) =
  HeadOk (length status_line + length (render_lines lines)) st (zlen body).
Proof.
  intros (Hs & Hn & Hl & Hh & Hb) Hcs Hcl. unfold head, render_response.
  change (CRLF ++ CRLF) with (CR :: LF :: CRLF). rewrite find_skip by exact Hcs.
  change (CR :: LF :: CRLF) with (CRLF ++ CRLF). rewrite find_head_end by (done || by eapply Forall_impl; [|apply neutral_nonempty]). cbn [fmap option_fmap option_map].
  rewrite !zlen_app in Hh. change (zlen CRLF) with 2 in Hh. unfold zlen in Hh.
  rewrite Z.gtb_ltb. destruct (Z.ltb_spec MAX_CONTROL_PLANE_HTTP_HEADER_BYTES
    (Z.of_nat (length status_line + length (render_lines lines)) + 4)); [lia|].
  unfold head_at. rewrite find_line_end by exact Hcs.
  assert (Hne : (length lines ≤ length (render_lines lines) ∧ 0 < length (render_lines lines))%nat).
  { split.
    - clear. induction lines as [|l lines IH]; [done|].
      change (render_lines (l :: lines)) with ((l ++ CRLF) ++ render_lines lines).
      rewrite !length_app. simpl. lia.
    - destruct lines as [|l lines]; [by destruct Hl as (? & ? & _)|].
      change (render_lines (l :: lines)) with ((l ++ CRLF) ++ render_lines lines).
      rewrite !length_app. simpl. lia. }
  destruct (Nat.leb_spec (length status_line + length (render_lines lines)) (length status_line)); [lia|].
  rewrite take_app_length, Hs.
  rewrite (app_assoc status_line CRLF).
  replace (length status_line + 2)%nat with (length (status_line ++ CRLF)) by (by rewrite length_app).
  rewrite (header_lines_complete _ _ _ _ _ None (zlen body)); [done|done|done|done| | |done];
    rewrite !length_app; simpl; lia.
Qed.

(** ** Properties *)

Lemma consume_decided x :
  done_ (consume x newParser) = true → ¬ protocol_error (hr_error (result_ (consume x newParser))) →
  ∃ status_line lines body st,
    x = render_response status_line lines body ∧ well_framed status_line lines body st ∧
    result_ (consume x newParser) = mkHttpResult (status_error st) st body.
Proof.
  pose proof (consume_new x) as Hx. destruct (head x) as [|e st|h st n] eqn:Eh.
  - by rewrite Hx.
  - destruct Hx as (_ & _ & ->). intros _ []. by eapply head_error.
  - rewrite Hx, finishBody_parsed. cbv zeta. destruct (_ >? n) eqn:Eg; [intros _ []; done|].
    destruct (_ <? n) eqn:El; [done|]. intros _ _. rewrite Z.gtb_ltb in Eg. bool_facts.
    destruct (head_ok _ _ _ _ Eh) as (_ & Hh & Hn & Hst).
    destruct (head_sound _ _ _ _ Eh) as (sl & lines & Hsplit & Hlen & Hs & Hneu & Hl).
    assert (Hbody : zlen (drop (h + 4) x) = n).
    { unfold zlen. rewrite length_drop. unfold zlen in *. lia. }
    exists sl, lines, (drop (h + 4) x), st. split; [done|]. split.
    + unfold well_framed. rewrite Hbody. split_and!; [done..| |lia].
      unfold zlen at 1. rewrite <- Hlen. lia.
    + cbn [result_]. rewrite status_error_code, take_ge; [done|]. unfold zlen in Hbody. lia.
Qed.

(** A text that is a complete response in one read is one in any reads. *)
Lemma consume_all_whole chunks :
  done_ (consume (concat chunks) newParser) = true →
  ¬ protocol_error (hr_error (result_ (consume (concat chunks) newParser))) →
  consume_all chunks newParser = consume (concat chunks) newParser.
Proof.
  intros _ Herr. destruct (consume_all_prefix [] chunks) as (k & Hk & Hd).
  change (consume [] newParser) with newParser in Hk. rewrite !app_nil_l in *. rewrite Hk.
  destruct Hd as [->|Hd]; [by rewrite firstn_all|].
  destruct (decide (concat (drop k chunks) = [])) as [He|He].
  - rewrite <- (take_drop k chunks) at 2. by rewrite concat_app, He, app_nil_r.
  - destruct Herr. rewrite <- (take_drop k chunks), concat_app. by apply consume_early.
Qed.

Lemma consume_received x : received_ (consume x newParser) = x.
Proof.
  pose proof (consume_new x) as Hx. destruct (head x); [by rewrite Hx|apply Hx|].
  rewrite Hx, finishBody_parsed. cbv zeta. destruct (_ >? _); [done|]. by destruct (_ <? _).
Qed.

Lemma consume_open x :
  done_ (consume x newParser) = false →
  zlen x ≤ MAX_CONTROL_PLANE_HTTP_HEADER_BYTES + MAX_CONTROL_PLANE_HTTP_BODY_BYTES.
Proof.
  pose proof (consume_new x) as Hx. destruct (head x) as [|e st|h st n] eqn:Eh.
  - intros _. revert Eh. unfold head. destruct (find _ x) as [h|] eqn:Ef.
    + case_bool; [done|]. intros Hm. by apply head_at_decided in Hm; [|apply ends_headers_find].
    + rewrite Z.gtb_ltb. case_bool; [done|]. bool_facts. unfold MAX_CONTROL_PLANE_HTTP_BODY_BYTES. lia.
  - destruct Hx as (-> & _). done.
  - rewrite Hx, finishBody_parsed. cbv zeta. destruct (_ >? n); [done|].
    destruct (_ <? n) eqn:El; [|done]. bool_facts. destruct (head_ok _ _ _ _ Eh) as (_ & ? & ? & _). lia.
Qed.

(** C23: Splitting a response into reads does not change how it is parsed:
    for every sequence of reads the parser ends in the state that a single
    read of a prefix of the reads gives, and it stops before the last read
    only when that state is final; and when the whole text in one read is a
    complete response of the server, every sequence of reads of that text
    ends in the same state. *)
Theorem http_chunking (chunks : list bytes) :
  (∃ k, consume_all chunks newParser = consume (concat (take k chunks)) newParser ∧
        (k = length chunks ∨ done_ (consume_all chunks newParser) = true)) ∧
  (done_ (consume (concat chunks) newParser) = true ∧
   ¬ protocol_error (hr_error (result_ (consume (concat chunks) newParser))) →
   consume_all chunks newParser = consume (concat chunks) newParser).
Proof.
  destruct (consume_all_prefix [] chunks) as (k & Hk & Hd).
  change (consume [] newParser) with newParser in Hk. rewrite !app_nil_l in *.
  split; [exists k; by rewrite Hk|]. intros [Hdone Herr]. by apply consume_all_whole.
Qed.

(** C24: The parser accepts exactly the framed responses (soundness): when it
    is done with an error that is not a protocol error, the bytes read so far
    are a status line, header lines of which none changes the framing and
    exactly one announces the length, and a body of exactly that length, all
    within the limits; the result is that body with its status, an error
    unless the status is a success. *)
Theorem http_accepts_framed (chunks : list bytes)
    (Hdone : done_ (consume_all chunks newParser) = true)
    (Hok : ¬ protocol_error (hr_error (takeResult (consume_all chunks newParser)))) :
  ∃ k status_line lines body st,
    concat (take k chunks) = render_response status_line lines body ∧
    well_framed status_line lines body st ∧
    takeResult (consume_all chunks newParser) = mkHttpResult (status_error st) st body.
Proof.
  destruct (consume_all_prefix [] chunks) as (k & Hk & _).
  change (consume [] newParser) with newParser in Hk. rewrite app_nil_l in Hk.
  rewrite Hk in *. destruct (consume_decided _ Hdone Hok) as (sl & lines & body & st & ? & ? & ?).
  by exists k, sl, lines, body, st.
Qed.

(** C25: The parser accepts every framed response (completeness): whatever
    reads deliver a well-framed response whose status line and header lines
    contain no carriage return, the parser finishes with its status and its
    body. *)
Theorem http_roundtrip (status_line : bytes) (lines : list bytes) (body : bytes) (st : Z)
    (chunks : list bytes)
    (Hw : well_framed status_line lines body st)
    (Hcr : Forall no_cr (status_line :: lines))
    (Hchunks : concat chunks = render_response status_line lines body) :
  done_ (consume_all chunks newParser) = true ∧
  takeResult (consume_all chunks newParser) = mkHttpResult (status_error st) st body.
Proof.
  apply Forall_cons in Hcr as [Hs Hl].
  pose proof (consume_new (render_response status_line lines body)) as Hx.
  rewrite (head_complete _ _ _ st) in Hx by done. rewrite finishBody_parsed in Hx. cbv zeta in Hx.
  assert (Hlen : zlen (render_response status_line lines body) -
    Z.of_nat (length status_line + length (render_lines lines) + 4) = zlen body).
  { unfold render_response. rewrite !zlen_app. unfold zlen. simpl. lia. }
  rewrite Hlen in Hx. rewrite Z.gtb_ltb, Z.ltb_irrefl in Hx.
  assert (Hbody : take (Z.to_nat (zlen body))
    (drop (length status_line + length (render_lines lines) + 4) (render_response status_line lines body)) = body).
  { unfold render_response. rewrite !app_assoc, drop_app_exact by (rewrite !length_app; simpl; lia).
    apply take_ge. unfold zlen. lia. }
  rewrite Hbody, status_error_code in Hx.
  rewrite consume_all_whole; rewrite Hchunks, Hx; [done|done|].
  unfold protocol_error, status_error. cbn [result_ hr_error]. case_bool; naive_solver.
Qed.

(** The parser's memory is bounded: with reads of at most [c] bytes it
    never holds more than the header limit, the body limit and one read. *)
Theorem http_memory_bounded (c : Z) (chunks : list bytes)
    (Hc : Forall (λ chunk, zlen chunk ≤ c) chunks) (Hc0 : 0 ≤ c) :
  zlen (received_ (consume_all chunks newParser)) ≤
  MAX_CONTROL_PLANE_HTTP_HEADER_BYTES + MAX_CONTROL_PLANE_HTTP_BODY_BYTES + c.
Proof.
  revert Hc.
  change newParser with (consume [] newParser).
  assert (Hnil : zlen (received_ (consume [] newParser)) ≤
    MAX_CONTROL_PLANE_HTTP_HEADER_BYTES + MAX_CONTROL_PLANE_HTTP_BODY_BYTES + c).
  { rewrite consume_received, zlen_nil.
    unfold MAX_CONTROL_PLANE_HTTP_HEADER_BYTES, MAX_CONTROL_PLANE_HTTP_BODY_BYTES. lia. }
  revert Hnil. generalize (@nil ascii). induction chunks as [|b chunks IH]; intros a Ha Hc; [done|].
  change (consume_all (b :: chunks) (consume a newParser))
    with (consume_all chunks (consume b (consume a newParser))).
  apply Forall_cons in Hc as [Hb Hc]. destruct (done_ (consume a newParser)) eqn:Ed.
  - rewrite consume_done by done. by apply IH.
  - rewrite consume_step by done. apply IH; [|done].
    rewrite consume_received, zlen_app. pose proof (consume_open _ Ed). lia.
Qed.

(** ** Witnesses *)

Definition sample_status : bytes := lit "HTTP/1.1 200 OK".
Definition sample_lines : list bytes := [lit "Content-Type: application/json"; lit "Content-Length: 11"].
Definition sample_body : bytes := lit "{'a':false}".
Definition sample_text : bytes := render_response sample_status sample_lines sample_body.
Definition sample_reads : list bytes := [take 20 sample_text; take 45 (drop 20 sample_text); drop 65 sample_text].

Lemma http_chunking_witness :
  consume_all sample_reads newParser = consume sample_text newParser.
Proof.
  refine (proj2 (http_chunking sample_reads) _). split; [vm_compute; reflexivity|].
  vm_compute. intros [H _]. by apply H.
Defined.

Lemma http_accepts_framed_witness :
  ∃ k status_line lines body st,
    concat (take k sample_reads) = render_response status_line lines body ∧
    well_framed status_line lines body st ∧
    takeResult (consume_all sample_reads newParser) = mkHttpResult (status_error st) st body.
Proof.
  refine (http_accepts_framed sample_reads _ _); [vm_compute; reflexivity|].
  vm_compute. intros [H _]. by apply H.
Defined.

Lemma http_roundtrip_witness :
  done_ (consume_all sample_reads newParser) = true ∧
  takeResult (consume_all sample_reads newParser) = mkHttpResult NoError 200 sample_body.
Proof.
  refine (http_roundtrip sample_status sample_lines sample_body 200 sample_reads _ _ _).
  - split_and!; [vm_compute; reflexivity|repeat constructor; vm_compute; discriminate| |
      vm_compute; discriminate|vm_compute; discriminate].
    exists (lit "Content-Length: 11"). split; [vm_compute; reflexivity|].
    split_and!; [vm_compute; discriminate|vm_compute; repeat constructor|vm_compute; reflexivity].
  - repeat constructor; vm_compute; discriminate.
  - vm_compute; reflexivity.
Defined.

Lemma http_memory_bounded_witness :
  zlen (received_ (consume_all sample_reads newParser)) ≤
  MAX_CONTROL_PLANE_HTTP_HEADER_BYTES + MAX_CONTROL_PLANE_HTTP_BODY_BYTES + 4096.
Proof.
  refine (http_memory_bounded 4096 sample_reads _ _); [|lia].
  repeat constructor; vm_compute; discriminate.
Defined.
