(* ===== verification/Socket.v ===== *)
(** * Sockets with a deadline

    Models [include/control/SocketDeadline.hpp] and
    [src/control/SocketDeadline.cpp]: a blocking-style client socket all of
    whose operations share one absolute deadline.  The operating system is the
    record [World]: the answer to the [k]-th system call of the calling
    thread and how long it takes.  Times are nanoseconds of the steady
    clock. *)

From S2P Require Import Prelude Text ControlTypes.
#[local] Open Scope Z_scope.

(** ** The operating system *)

Inductive PollAnswer := PollReady (revents : Z) | PollTimeout | PollIntr | PollError.
Inductive SendAnswer := SendCount (n : Z) | SendIntr | SendAgain | SendError.
Inductive RecvAnswer := RecvData (b : bytes) | RecvEof | RecvIntr | RecvAgain | RecvError.
Inductive ConnectAnswer := ConnectDone | ConnectInProgress | ConnectIntr | ConnectError.

(** What one thread sees of the system; [nat] is the number of the call. *)
Record World := mkWorld {
  w_cost : nat → Z;                          (* duration of a call that does not wait *)
  w_resolve_cost : nat → Z;                  (* duration of getaddrinfo *)
  w_poll : nat → Z → Z → PollAnswer * Z;     (* descriptor, timeout; with its duration *)
  w_send : nat → Z → bytes → SendAnswer;
  w_recv : nat → Z → Z → RecvAnswer;
  w_resolve : nat → bytes → bytes → option (list Z);
  w_socket : nat → gset Z → Z;
  w_connect : nat → Z → Z → ConnectAnswer;
  w_sockopt : nat → Z → option Z;            (* SO_ERROR *)
}.

(** The state of the calling thread's side: the calls made, the clock, the
    descriptors it holds open, and the bytes that went out and came in on
    each descriptor. *)
Record Net := mkNet {
  n_tick : nat;
  n_clock : Z;
  n_open : gset Z;
  n_out : gmap Z bytes;
  n_in : gmap Z bytes;
}.

#[export] Instance eta_Net : Eta Net := fun s =>
  mkNet (n_tick s) (n_clock s) (n_open s) (n_out s) (n_in s).

Definition set_n_open : gset Z → Net → Net := ltac:(setter n_open).
Definition set_n_out : gmap Z bytes → Net → Net := ltac:(setter n_out).
Definition set_n_in : gmap Z bytes → Net → Net := ltac:(setter n_in).

Definition POLLIN : Z := 1.
Definition POLLOUT : Z := 4.
Definition POLLERR : Z := 8.
Definition POLLHUP : Z := 16.
Definition POLLNVAL : Z := 32.

Definition MILLISECOND : Z := 1000000.

(** One call has been made and took [c]. *)
Definition pass (c : Z) (s : Net) : Net :=
  mkNet (S (n_tick s)) (n_clock s + c) (n_open s) (n_out s) (n_in s).

Definition out_of (fd : Z) (s : Net) : bytes := default [] (n_out s !! fd).
Definition in_of (fd : Z) (s : Net) : bytes := default [] (n_in s !! fd).

Record SocketDeadline := mkSocketDeadline {
  sd_fd_ : Z;
  sd_deadline_ : Z;
}.

Record SocketReadResult := mkRead {
  srr_error : HttpError;
  srr_size : Z;
  srr_eof : bool;
}.

Section Socket.
Context (w : World).

Definition call (s : Net) : Net := pass (w_cost w (n_tick s)) s.

(** [std::chrono::steady_clock::now()] *)
Definition steady_now (s : Net) : Z * Net := (n_clock s, call s).

Definition close_fd (fd : Z) (s : Net) : Net := set_n_open (n_open s ∖ {[fd]}) (call s).

(** [remainingMilliseconds] *)
Definition remainingMilliseconds (deadline : Z) (s : Net) : option Z * Net :=
  let '(now, s) := steady_now s in
  if deadline <=? now then (None, s)
  else (Some (Z.min ((deadline - now + (MILLISECOND - 1)) / MILLISECOND) INT_MAX), s).

(** [waitForSocket]; [None]: out of fuel. *)
Fixpoint waitForSocket (fuel : nat) (fd events deadline : Z) (failure : HttpError) (s : Net)
    : option (HttpError * Net) :=
  match fuel with
  | O => None
  | S fuel =>
    match remainingMilliseconds deadline s with
    | (None, s) => Some (DeadlineExceeded, s)
    | (Some timeout, s) =>
      let '(answer, elapsed) := w_poll w (n_tick s) fd timeout in
      let s := pass elapsed s in
      match answer with
      | PollReady revents =>
          if negb (Z.land revents POLLNVAL =? 0) then Some (failure, s)
          else if negb (Z.land revents (Z.lor events (Z.lor POLLERR POLLHUP)) =? 0)
          then Some (NoError, s)
          else waitForSocket fuel fd events deadline failure s
      | PollTimeout => Some (DeadlineExceeded, s)
      | PollIntr => waitForSocket fuel fd events deadline failure s
      | PollError => Some (failure, s)
      end
    end
  end.

(** [sendAll], from [offset] on. *)
Fixpoint send_loop (fuel : nat) (sd : SocketDeadline) (data : bytes) (offset : nat) (s : Net)
    : option (HttpError * Net) :=
  if negb (offset <? length data)%nat then Some (NoError, s)
  else
    match fuel with
    | O => None
    | S fuel =>
      match remainingMilliseconds (sd_deadline_ sd) s with
      | (None, s) => Some (DeadlineExceeded, s)
      | (Some _, s) =>
        let rest := drop offset data in
        let answer := w_send w (n_tick s) (sd_fd_ sd) rest in
        let s := call s in
        match answer with
        | SendCount n =>
            if n >? 0
            then send_loop fuel sd data (offset + Z.to_nat n)
                   (set_n_out (<[sd_fd_ sd := out_of (sd_fd_ sd) s ++ take (Z.to_nat n) rest]> (n_out s)) s)
            else Some (SendFailed, s)
        | SendIntr => send_loop fuel sd data offset s
        | SendAgain =>
            match waitForSocket fuel (sd_fd_ sd) POLLOUT (sd_deadline_ sd) SendFailed s with
            | None => None
            | Some (waited, s) =>
                if negb (bool_decide (waited = NoError)) then Some (waited, s)
                else send_loop fuel sd data offset s
            end
        | SendError => Some (SendFailed, s)
        end
      end
    end.

Definition sendAll (fuel : nat) (sd : SocketDeadline) (data : bytes) (s : Net)
    : option (HttpError * Net) :=
  send_loop fuel sd data 0 s.

(** [receive]: the result, and what was written to the buffer. *)
Fixpoint receive (fuel : nat) (sd : SocketDeadline) (capacity : Z) (s : Net)
    : option (SocketReadResult * bytes * Net) :=
  match fuel with
  | O => None
  | S fuel =>
    match remainingMilliseconds (sd_deadline_ sd) s with
    | (None, s) => Some (mkRead DeadlineExceeded 0 false, [], s)
    | (Some _, s) =>
      let answer := w_recv w (n_tick s) (sd_fd_ sd) capacity in
      let s := call s in
      match answer with
      | RecvData b =>
          let s := set_n_in (<[sd_fd_ sd := in_of (sd_fd_ sd) s ++ b]> (n_in s)) s in
          Some (mkRead NoError (zlen b) false, b, s)
      | RecvEof => Some (mkRead NoError 0 true, [], s)
      | RecvIntr => receive fuel sd capacity s
      | RecvAgain =>
          match waitForSocket fuel (sd_fd_ sd) POLLIN (sd_deadline_ sd) ReceiveFailed s with
          | None => None
          | Some (waited, s) =>
              if negb (bool_decide (waited = NoError)) then Some (mkRead waited 0 false, [], s)
              else receive fuel sd capacity s
          end
      | RecvError => Some (mkRead ReceiveFailed 0 false, [], s)
      end
    end
  end.

(** The end of an attempt whose connection is in progress; [next] is the rest
    of the loop. *)
Definition finish_connect (fuel : nat) (candidate deadline : Z)
    (next : Net → option ((SocketDeadline + HttpError) * Net)) (s : Net)
    : option ((SocketDeadline + HttpError) * Net) :=
  match waitForSocket fuel candidate POLLOUT deadline ConnectFailed s with
  | None => None
  | Some (waited, s) =>
    if bool_decide (waited = DeadlineExceeded) then Some (inr waited, close_fd candidate s)
    else if negb (bool_decide (waited = NoError)) then next (close_fd candidate s)
    else
      let socket_error := w_sockopt w (n_tick s) candidate in
      let s := call s in
      match socket_error with
      | Some 0 => Some (inl (mkSocketDeadline candidate deadline), s)
      | _ => next (close_fd candidate s)
      end
  end.

(** The attempts of [connect] on the resolved addresses: the connected
    socket, or the error.  The destructor of [UniqueFd] closes the candidate
    on every path that does not release it. *)
Fixpoint connect_loop (fuel : nat) (addresses : list Z) (deadline : Z) (s : Net)
    : option ((SocketDeadline + HttpError) * Net) :=
  match addresses with
  | [] => Some (inr ConnectFailed, s)
  | address :: addresses =>
    match remainingMilliseconds deadline s with
    | (None, s) => Some (inr DeadlineExceeded, s)
    | (Some _, s) =>
      let candidate := w_socket w (n_tick s) (n_open s) in
      let s := call s in
      if candidate =? -1 then connect_loop fuel addresses deadline s
      else
        let s := set_n_open ({[candidate]} ∪ n_open s) s in
        let s := set_n_out (<[candidate := []]> (n_out s)) s in
        let s := set_n_in (<[candidate := []]> (n_in s)) s in
        let answer := w_connect w (n_tick s) candidate address in
        let s := call s in
        match answer with
        | ConnectError => connect_loop fuel addresses deadline (close_fd candidate s)
        | ConnectDone => Some (inl (mkSocketDeadline candidate deadline), s)
        | ConnectInProgress | ConnectIntr =>
            finish_connect fuel candidate deadline (connect_loop fuel addresses deadline) s
        end
    end
  end.

(** [SocketDeadline::connect] *)
Definition connect (fuel : nat) (host : bytes) (port timeout_ms : Z) (not_after : option Z) (s : Net)
    : option ((SocketDeadline + HttpError) * Net) :=
  let '(expired, s) :=
    match not_after with
    | Some limit => let '(now, s) := steady_now s in (limit <=? now, s)
    | None => (false, s)
    end in
  if expired then Some (inr DeadlineExceeded, s)
  else
    let resolved := w_resolve w (n_tick s) host (dec port) in
    let s := pass (w_resolve_cost w (n_tick s)) s in
    match resolved with
    | None => Some (inr ResolveFailed, s)
    | Some addresses =>
      let '(now, s) := steady_now s in
      let deadline := now + timeout_ms * MILLISECOND in
      let deadline := match not_after with Some limit => Z.min deadline limit | None => deadline end in
      connect_loop fuel addresses deadline s
    end.

(** [closeSocket], also the destructor. *)
Definition closeSocket (sd : SocketDeadline) (s : Net) : SocketDeadline * Net :=
  if sd_fd_ sd =? -1 then (sd, s)
  else (mkSocketDeadline (-1) (sd_deadline_ sd), close_fd (sd_fd_ sd) s).

(** The move constructor and the move assignment of distinct objects: the new
    value of the target and of the source. *)
Definition move_construct (other : SocketDeadline) : SocketDeadline * SocketDeadline :=
  (other, mkSocketDeadline (-1) (sd_deadline_ other)).

Definition move_assign (this other : SocketDeadline) (s : Net)
    : SocketDeadline * SocketDeadline * Net :=
  let '(_, s) := closeSocket this s in
  (other, mkSocketDeadline (-1) (sd_deadline_ other), s).

End Socket.

(** ** What the operating system promises

    [δ] bounds the time a call takes beyond what it was asked to wait. *)
Class Lawful (w : World) (δ : Z) := {
  law_cost k : 1 ≤ w_cost w k ≤ δ;
  law_resolve_cost k : 1 ≤ w_resolve_cost w k;
  law_poll k fd t : 1 ≤ (w_poll w k fd t).2 ≤ Z.max 0 t * MILLISECOND + δ;
  law_send k fd b n : w_send w k fd b = SendCount n → n ≤ zlen b;
  law_recv k fd c b : w_recv w k fd c = RecvData b → 0 < zlen b ≤ c;
  law_socket k held : w_socket w k held = -1 ∨ (0 ≤ w_socket w k held ∧ w_socket w k held ∉ held);
}.

(** Time has passed and nothing else has changed. *)
Record quiet (s s' : Net) : Prop := mkQuiet {
  q_open : n_open s' = n_open s;
  q_out : n_out s' = n_out s;
  q_in : n_in s' = n_in s;
  q_clock : n_clock s < n_clock s';
}.

(** The loop has time left for its fuel. *)
Definition enough (deadline : Z) (fuel : nat) (s : Net) : Prop :=
  Z.max 0 (deadline - n_clock s) < Z.of_nat fuel.

Section Lemmas.
Context (w : World) (δ : Z) `{!Lawful w δ}.

Lemma δ_pos : 1 ≤ δ.
Proof using Type*. destruct (law_cost 0); lia. Qed.

Lemma call_quiet s : quiet s (call w s) ∧ n_clock (call w s) ≤ n_clock s + δ.
Proof using Type*. unfold call, pass. destruct (law_cost (n_tick s)). split; [split; [done..|simpl; lia]|simpl; lia]. Qed.

Lemma quiet_trans s s' s'' : quiet s s' → quiet s' s'' → quiet s s''.
Proof. intros [] []. split; congruence || lia. Qed.

Lemma enough_later deadline fuel s s' :
  enough deadline (S fuel) s → n_clock s < deadline → n_clock s < n_clock s' → enough deadline fuel s'.
Proof. unfold enough. lia. Qed.

Lemma remaining_spec deadline s :
  let '(r, s') := remainingMilliseconds w deadline s in
  s' = call w s ∧
  match r with
  | None => deadline ≤ n_clock s
  | Some t => n_clock s < deadline ∧ 0 < t ∧ t * MILLISECOND < deadline - n_clock s + MILLISECOND
  end.
Proof.
  unfold remainingMilliseconds, steady_now.
  destruct (Z.leb_spec deadline (n_clock s)); [done|]. split; [done|]. split; [done|].
  set (x := deadline - n_clock s). assert (0 < x) by lia.
  pose proof (Z.mul_div_le (x + (MILLISECOND - 1)) MILLISECOND ltac:(done)).
  pose proof (Z.div_le_lower_bound (x + (MILLISECOND - 1)) MILLISECOND 1 ltac:(done)) as Hlow.
  unfold MILLISECOND, INT_MAX in *. lia.
Qed.

Definition wait_errors (failure e : HttpError) : Prop := e = NoError ∨ e = DeadlineExceeded ∨ e = failure.

Lemma waitForSocket_spec fuel fd events deadline failure s :
  enough deadline fuel s →
  ∃ e s', waitForSocket w fuel fd events deadline failure s = Some (e, s') ∧
    quiet s s' ∧ wait_errors failure e ∧
    n_clock s' ≤ Z.max (n_clock s + δ) (deadline + MILLISECOND + 3 * δ).
Proof using Type*.
  pose proof δ_pos as Hδ. unfold wait_errors.
  revert s. induction fuel as [|fuel IH]; intros s Hf; [unfold enough in Hf; lia|]. cbn [waitForSocket].
  pose proof (remaining_spec deadline s) as Hr.
  destruct (remainingMilliseconds w deadline s) as [r s1]. destruct Hr as [-> Hr].
  destruct (call_quiet s) as [Hq1 Hc1]. set (s1 := call w s) in *. clearbody s1.
  destruct r as [t|]; [|exists DeadlineExceeded, s1; split_and!; try done; tauto || lia].
  destruct Hr as (Hlt & Ht0 & Ht).
  pose proof (law_poll (n_tick s1) fd t) as Hp. destruct (w_poll w (n_tick s1) fd t) as [answer c].
  cbn [snd] in Hp. rewrite Z.max_r in Hp by lia.
  assert (Hq2 : quiet s (pass c s1)).
  { eapply quiet_trans; [done|]. split; [done..|]. unfold pass. simpl. lia. }
  assert (Hc2 : n_clock (pass c s1) ≤ deadline + MILLISECOND + 2 * δ) by (unfold pass; simpl; lia).
  set (s2 := pass c s1) in *. clearbody s2.
  destruct (IH s2) as (e & s' & -> & Hq & He & Hc); [eapply enough_later; [done|lia|apply Hq2]|].
  assert (Hloop : ∃ e' s'', Some (e, s') = Some (e', s'') ∧ quiet s s'' ∧
    (e' = NoError ∨ e' = DeadlineExceeded ∨ e' = failure) ∧
    n_clock s'' ≤ Z.max (n_clock s + δ) (deadline + MILLISECOND + 3 * δ)).
  { exists e, s'. split_and!; [done|by eapply quiet_trans|done|lia]. }
  destruct answer as [revents| | |]; [do 2 (case_bool; [by eexists _, s2; split_and!; [done|done|tauto|lia]|])| | |];
    first [exact Hloop|by eexists _, s2; split_and!; [done|done|tauto|lia]].
Qed.

(** The bytes on [fd] have grown by [b]; nothing else but the clock differs. *)
Record sent (fd : Z) (b : bytes) (s s' : Net) : Prop := mkSent {
  st_open : n_open s' = n_open s;
  st_in : n_in s' = n_in s;
  st_out : out_of fd s' = out_of fd s ++ b;
  st_others : ∀ fd', fd' ≠ fd → n_out s' !! fd' = n_out s !! fd';
  st_clock : n_clock s ≤ n_clock s';
}.

Lemma quiet_sent fd b s s' s'' : quiet s s' → sent fd b s' s'' → sent fd b s s''.
Proof.
  intros [? Ho ? ?] []. split; try congruence; try lia.
  - unfold out_of in *. by rewrite <- Ho.
  - intros fd' Hne. rewrite <- Ho. auto.
Qed.

Lemma quiet_is_sent fd s s' : quiet s s' → sent fd [] s s'.
Proof. intros [? Ho ? ?]. split; try done; [unfold out_of; by rewrite Ho, app_nil_r|by rewrite Ho|lia]. Qed.

(** What [send_loop] promises from [offset] on. *)
Definition send_outcome (sd : SocketDeadline) (data : bytes) (offset : nat) (s : Net)
    (o : option (HttpError * Net)) : Prop :=
  ∃ e s' k, o = Some (e, s') ∧
    sent (sd_fd_ sd) (take k (drop offset data)) s s' ∧
    (e = NoError ↔ (offset + k)%nat = length data) ∧ (offset + k ≤ length data)%nat ∧
    wait_errors SendFailed e ∧
    n_clock s' ≤ Z.max (n_clock s + δ) (sd_deadline_ sd + MILLISECOND + 4 * δ).

Lemma send_stops sd data offset s e s' :
  (offset < length data)%nat → e ≠ NoError → wait_errors SendFailed e → quiet s s' →
  n_clock s' ≤ Z.max (n_clock s + δ) (sd_deadline_ sd + MILLISECOND + 4 * δ) →
  send_outcome sd data offset s (Some (e, s')).
Proof.
  intros Ho He1 He2 Hq Hc. exists e, s', 0%nat. rewrite take_0.
  split_and!; [done|by apply quiet_is_sent|split; [done|lia]|lia|done|lia].
Qed.

(** Going on after quiet calls. *)
Lemma send_continues sd data offset s s2 o :
  quiet s s2 → n_clock s2 + δ ≤ sd_deadline_ sd + MILLISECOND + 4 * δ →
  send_outcome sd data offset s2 o → send_outcome sd data offset s o.
Proof.
  intros Hq Hc2 (e & s' & k & -> & Hs & Hk & Hle & He & Hc).
  exists e, s', k. split_and!; try done; [by eapply quiet_sent|lia].
Qed.

(** Going on after [n] bytes were taken. *)
Lemma send_advances sd data offset s s2 n o :
  (offset + n ≤ length data)%nat → quiet s s2 → n_clock s2 + δ ≤ sd_deadline_ sd + MILLISECOND + 4 * δ →
  send_outcome sd data (offset + n)
    (set_n_out (<[sd_fd_ sd := out_of (sd_fd_ sd) s2 ++ take n (drop offset data)]> (n_out s2)) s2) o →
  send_outcome sd data offset s o.
Proof.
  intros Hn [? Ho2 ? ?] Hc2 (e & s' & k & -> & Hs & Hk & Hle & He & Hc).
  exists e, s', (n + k)%nat. split_and!; [done| |rewrite Hk; lia|lia|done|simpl in *; lia].
  rewrite <- take_take_drop, drop_drop. destruct Hs as [? ? Hout Hoth ?].
  split; try (simpl in *; congruence || lia).
  - rewrite Hout. unfold out_of at 1. simpl. rewrite lookup_insert_eq. simpl.
    unfold out_of. by rewrite Ho2, <- app_assoc.
  - intros fd' Hne. rewrite Hoth by done. simpl. by rewrite lookup_insert_ne, Ho2.
Qed.

Lemma send_loop_spec fuel sd data offset s :
  (offset ≤ length data)%nat → enough (sd_deadline_ sd) fuel s →
  send_outcome sd data offset s (send_loop w fuel sd data offset s).
Proof using Type*.
  pose proof δ_pos as Hδ. assert (0 ≤ MILLISECOND) as Hms by done. set (d := sd_deadline_ sd).
  revert offset s. induction fuel as [|fuel IH]; intros offset s Ho Hf; [unfold enough in Hf; lia|].
  cbn [send_loop]. destruct (Nat.ltb_spec offset (length data)) as [Hlt|]; cbn [negb].
  2:{ exists NoError, s, 0%nat. rewrite take_0.
      split_and!; [done|split; try done; by rewrite app_nil_r|split; [lia|done]|lia|by left|lia]. }
  pose proof (remaining_spec d s) as Hr. fold d.
  destruct (remainingMilliseconds w d s) as [r s1]. destruct Hr as [-> Hr].
  destruct (call_quiet s) as [Hq1 Hc1]. set (s1 := call w s) in *. clearbody s1.
  destruct r as [t|]; [|apply send_stops; [done|done|unfold wait_errors; tauto|done|fold d; lia]].
  destruct Hr as (Hlt' & _).
  destruct (call_quiet s1) as [Hq2' Hc2]. assert (Hq2 : quiet s (call w s1)) by (by eapply quiet_trans).
  clear Hq2'. set (a := w_send w (n_tick s1) (sd_fd_ sd) (drop offset data)).
  assert (Ha : ∀ n, a = SendCount n → n ≤ zlen (drop offset data)) by (intros n Hn; by eapply law_send).
  clearbody a. set (s2 := call w s1) in *. clearbody s2.
  assert (Hf2 : enough d fuel s2) by (eapply enough_later; [done|done|apply Hq2]).
  destruct a as [n| | |].
  - destruct (n >? 0) eqn:En; rewrite Z.gtb_ltb in En; bool_facts;
      [|apply send_stops; [done|done|unfold wait_errors; tauto|done|fold d; lia]].
    specialize (Ha n eq_refl). unfold zlen in Ha. rewrite length_drop in Ha.
    eapply (send_advances sd data offset s s2 (Z.to_nat n)); [lia|done|fold d; lia|]. apply IH; [lia|done].
  - apply (send_continues sd data offset s s2); [done|fold d; lia|by apply IH].
  - destruct (waitForSocket_spec fuel (sd_fd_ sd) POLLOUT d SendFailed s2 Hf2)
      as (e & s3 & -> & Hq3' & He & Hc3).
    assert (Hq3 : quiet s s3) by (by eapply quiet_trans).
    destruct (decide (e = NoError)) as [->|Hne].
    + rewrite bool_decide_eq_true_2 by done. cbn [negb].
      apply (send_continues sd data offset s s3); [done|fold d; lia|]. apply IH; [done|].
      eapply enough_later; [done|done|apply Hq3].
    + rewrite bool_decide_eq_false_2 by done. cbn [negb]. apply send_stops; [done|done|done|done|fold d; lia].
  - apply send_stops; [done|done|unfold wait_errors; tauto|done|fold d; lia].
Qed.

(** The bytes read from [fd] have grown by [b]; time has passed. *)
Record got (fd : Z) (b : bytes) (s s' : Net) : Prop := mkGot {
  gt_open : n_open s' = n_open s;
  gt_out : n_out s' = n_out s;
  gt_in : in_of fd s' = in_of fd s ++ b;
  gt_clock : n_clock s < n_clock s';
}.

Lemma quiet_got fd b s s' s'' : quiet s s' → got fd b s' s'' → got fd b s s''.
Proof.
  intros [? ? Hi ?] []. split; try congruence; try lia. unfold in_of in *. by rewrite <- Hi.
Qed.

Lemma quiet_is_got fd s s' : quiet s s' → got fd [] s s'.
Proof. intros [? ? Hi ?]. split; try done. unfold in_of. by rewrite Hi, app_nil_r. Qed.

(** The possible results of [receive]. *)
Definition read_ok (capacity : Z) (r : SocketReadResult) (b : bytes) : Prop :=
  srr_size r = zlen b ∧ zlen b ≤ capacity ∧ wait_errors ReceiveFailed (srr_error r) ∧
  (srr_error r = NoError → srr_eof r = false → b ≠ []) ∧
  (srr_error r ≠ NoError ∨ srr_eof r = true → b = []).

(** What [receive] promises. *)
Definition receive_outcome (sd : SocketDeadline) (capacity : Z) (s : Net)
    (o : option (SocketReadResult * bytes * Net)) : Prop :=
  ∃ r b s', o = Some (r, b, s') ∧
    got (sd_fd_ sd) b s s' ∧ read_ok capacity r b ∧ (b ≠ [] → n_clock s < sd_deadline_ sd) ∧
    n_clock s' ≤ Z.max (n_clock s + δ) (sd_deadline_ sd + MILLISECOND + 4 * δ).

Lemma receive_stops sd capacity s e eof s' :
  0 ≤ capacity → (e ≠ NoError ∨ eof = true) → wait_errors ReceiveFailed e → quiet s s' →
  n_clock s' ≤ Z.max (n_clock s + δ) (sd_deadline_ sd + MILLISECOND + 4 * δ) →
  receive_outcome sd capacity s (Some (mkRead e 0 eof, [], s')).
Proof.
  intros Hcap Hd He Hq Hc. eexists _, _, s'. split; [done|]. split; [by apply quiet_is_got|].
  split; [|by split]. split; [done|]. split; [exact Hcap|]. split; [done|].
  split; [|done]. simpl. intros ? ?. destruct Hd; congruence.
Qed.

Lemma receive_continues sd capacity s s2 o :
  quiet s s2 → n_clock s2 + δ ≤ sd_deadline_ sd + MILLISECOND + 4 * δ → n_clock s < sd_deadline_ sd →
  receive_outcome sd capacity s2 o → receive_outcome sd capacity s o.
Proof.
  intros Hq2 Hc2 Hlt (r & b & s' & -> & Hg & Hok & _ & Hc).
  exists r, b, s'. split; [done|]. split; [by eapply quiet_got|]. split; [done|]. split; [done|lia].
Qed.

Lemma receive_data sd capacity s s2 b :
  0 < zlen b ≤ capacity → quiet s s2 → n_clock s < sd_deadline_ sd →
  n_clock s2 ≤ Z.max (n_clock s + δ) (sd_deadline_ sd + MILLISECOND + 4 * δ) →
  receive_outcome sd capacity s
    (Some (mkRead NoError (zlen b) false, b,
           set_n_in (<[sd_fd_ sd := in_of (sd_fd_ sd) s2 ++ b]> (n_in s2)) s2)).
Proof.
  intros Hb [? ? Hi ?] Hlt Hc. eexists _, b, _. split; [done|]. split; [|split; [|split; [done|done]]].
  - split; try done. unfold in_of at 1. simpl. rewrite lookup_insert_eq. simpl. unfold in_of. by rewrite Hi.
  - unfold read_ok, wait_errors. simpl. split_and!; [done|lia|tauto| |by intros [?|?]].
    intros _ _ ->. by destruct Hb.
Qed.

Lemma receive_spec fuel sd capacity s :
  0 ≤ capacity → enough (sd_deadline_ sd) fuel s →
  receive_outcome sd capacity s (receive w fuel sd capacity s).
Proof using Type*.
  intros Hcap. pose proof δ_pos as Hδ. assert (0 ≤ MILLISECOND) as Hms by done. set (d := sd_deadline_ sd).
  revert s. induction fuel as [|fuel IH]; intros s Hf; [unfold enough in Hf; lia|].
  cbn [receive]. pose proof (remaining_spec d s) as Hr. fold d.
  destruct (remainingMilliseconds w d s) as [r s1]. destruct Hr as [-> Hr].
  destruct (call_quiet s) as [Hq1 Hc1]. set (s1 := call w s) in *. clearbody s1.
  destruct r as [t|]; [|apply receive_stops; [done|by left|unfold wait_errors; tauto|done|fold d; lia]].
  destruct Hr as (Hlt' & _).
  destruct (call_quiet s1) as [Hq2' Hc2]. assert (Hq2 : quiet s (call w s1)) by (by eapply quiet_trans).
  clear Hq2'. set (a := w_recv w (n_tick s1) (sd_fd_ sd) capacity).
  assert (Ha : ∀ b, a = RecvData b → 0 < zlen b ≤ capacity) by (intros b Hb; by eapply law_recv).
  clearbody a. set (s2 := call w s1) in *. clearbody s2.
  destruct a as [b| | | |].
  - apply receive_data; [by apply Ha|done|done|fold d; lia].
  - apply receive_stops; [done|by right|unfold wait_errors; tauto|done|fold d; lia].
  - apply (receive_continues sd capacity s s2); [done|fold d; lia|done|].
    apply IH. eapply enough_later; [done|done|apply Hq2].
  - destruct (waitForSocket_spec fuel (sd_fd_ sd) POLLIN d ReceiveFailed s2)
      as (e & s3 & -> & Hq3' & He & Hc3); [eapply enough_later; [done|done|apply Hq2]|].
    assert (Hq3 : quiet s s3) by (by eapply quiet_trans).
    destruct (decide (e = NoError)) as [->|Hne].
    + rewrite bool_decide_eq_true_2 by done. apply (receive_continues sd capacity s s3); [done|fold d; lia|done|].
      apply IH. eapply enough_later; [done|done|apply Hq3].
    + rewrite bool_decide_eq_false_2 by done. apply receive_stops; [done|by left|done|done|fold d; lia].
  - apply receive_stops; [done|by left|unfold wait_errors; tauto|done|fold d; lia].
Qed.

Lemma enough_mono deadline fuel s s' :
  enough deadline fuel s → n_clock s ≤ n_clock s' → enough deadline fuel s'.
Proof. unfold enough. lia. Qed.

(** A new connection, or nothing held. *)
Definition connected (deadline : Z) (held : gset Z) (r : SocketDeadline + HttpError) (s' : Net) : Prop :=
  match r with
  | inl sd => sd_deadline_ sd = deadline ∧ 0 ≤ sd_fd_ sd ∧ sd_fd_ sd ∉ held ∧
              n_open s' = {[sd_fd_ sd]} ∪ held ∧ out_of (sd_fd_ sd) s' = [] ∧ in_of (sd_fd_ sd) s' = []
  | inr e => n_open s' = held ∧ e ≠ NoError ∧ e ≠ HttpStatusError
  end.

Lemma close_fd_quiet fd s held :
  n_open s = {[fd]} ∪ held → fd ∉ held →
  n_open (close_fd w fd s) = held ∧ n_clock s < n_clock (close_fd w fd s) ≤ n_clock s + δ.
Proof using Type*.
  intros Ho Hn. destruct (call_quiet s) as [[? ? ? ?] ?]. 
  change (n_clock (close_fd w fd s)) with (n_clock (call w s)).
  change (n_open (close_fd w fd s)) with (n_open s ∖ {[fd]}). split; [|lia].
  rewrite Ho. clear -Hn. set_solver.
Qed.

(** What an attempt and the loop promise, from the clock [t0] on. *)
Definition connect_outcome (deadline t0 : Z) (held : gset Z)
    (o : option ((SocketDeadline + HttpError) * Net)) : Prop :=
  ∃ r s', o = Some (r, s') ∧ connected deadline held r s' ∧
    t0 ≤ n_clock s' ≤ Z.max (t0 + δ) (deadline + MILLISECOND + 7 * δ).

(** A socket just opened holds nothing else and has carried nothing. *)
Definition fresh_socket (fd : Z) (held : gset Z) (s : Net) : Prop :=
  0 ≤ fd ∧ fd ∉ held ∧ n_open s = {[fd]} ∪ held ∧ out_of fd s = [] ∧ in_of fd s = [].

Lemma fresh_socket_quiet fd held s s' : fresh_socket fd held s → quiet s s' → fresh_socket fd held s'.
Proof. unfold fresh_socket, out_of, in_of. intros (? & ? & ? & ? & ?) [-> -> -> _]. done. Qed.

Lemma finish_connect_spec fuel fd deadline held t0 next s :
  enough deadline fuel s → fresh_socket fd held s → t0 ≤ n_clock s ≤ deadline + 3 * δ →
  (∀ s2, n_open s2 = held → t0 ≤ n_clock s2 ≤ deadline + MILLISECOND + 6 * δ →
     connect_outcome deadline t0 held (next s2)) →
  connect_outcome deadline t0 held (finish_connect w fuel fd deadline next s).
Proof using Type*.
  intros Hf Hfr Hc Hnext. pose proof δ_pos as Hδ. assert (0 ≤ MILLISECOND) as Hms by done.
  unfold finish_connect.
  destruct (waitForSocket_spec fuel fd POLLOUT deadline ConnectFailed s Hf) as (e & s5 & -> & Hq5 & He & Hc5).
  pose proof (fresh_socket_quiet _ _ _ _ Hfr Hq5) as (H0 & Hnew & Ho5 & _). destruct Hq5 as [? Hq5 Hi5 Hc5'].
  destruct (close_fd_quiet fd s5 held Ho5 Hnew) as [Hcl Hclc].
  destruct (decide (e = DeadlineExceeded)) as [->|Hne1].
  { rewrite bool_decide_eq_true_2 by done. eexists _, _. split; [done|]. split; [by split|lia]. }
  rewrite (bool_decide_eq_false_2 (e = DeadlineExceeded)) by done.
  destruct (decide (e = NoError)) as [->|Hne2].
  2:{ rewrite bool_decide_eq_false_2 by done. apply Hnext; [done|lia]. }
  rewrite bool_decide_eq_true_2 by done. cbn [negb]. cbv zeta.
  destruct (call_quiet s5) as [Hq6 Hc6]. set (s6 := call w s5) in *. clearbody s6.
  assert (Hfr6 : fresh_socket fd held s6).
  { eapply fresh_socket_quiet; [|exact Hq6]. eapply fresh_socket_quiet; [exact Hfr|by split]. }
  destruct Hfr6 as (_ & _ & Ho6 & Hout & Hin). destruct Hq6.
  destruct (close_fd_quiet fd s6 held Ho6 Hnew) as [Hcl6 Hclc6].
  destruct (w_sockopt w (n_tick s5) fd) as [[| |]|]; try (apply Hnext; [done|lia]).
  eexists _, s6. split; [done|]. split; [by split_and!|lia].
Qed.

Lemma connect_loop_spec fuel addresses deadline s :
  enough deadline fuel s → connect_outcome deadline (n_clock s) (n_open s) (connect_loop w fuel addresses deadline s).
Proof using Type*.
  pose proof δ_pos as Hδ. assert (0 ≤ MILLISECOND) as Hms by done.
  revert s. induction addresses as [|address addresses IH]; intros s Hf; cbn [connect_loop].
  { exists (inr ConnectFailed), s. split_and!; done || lia. }
  pose proof (remaining_spec deadline s) as Hr.
  destruct (remainingMilliseconds w deadline s) as [r s1]. destruct Hr as [-> Hr].
  destruct (call_quiet s) as [[Ho1 _ _ Hc1'] Hc1]. set (s1 := call w s) in *. clearbody s1.
  destruct r as [t|]; [|exists (inr DeadlineExceeded), s1; split_and!; done || lia].
  destruct Hr as (Hlt & _).
  assert (Hnext : ∀ s2, n_open s2 = n_open s → n_clock s ≤ n_clock s2 ≤ deadline + MILLISECOND + 6 * δ →
    connect_outcome deadline (n_clock s) (n_open s) (connect_loop w fuel addresses deadline s2)).
  { intros s2 Ho Hc. destruct (IH s2) as (r & s' & -> & Hcon & Hc'); [eapply enough_mono; [done|lia]|].
    rewrite Ho in Hcon. exists r, s'. split_and!; done || lia. }
  pose proof (law_socket (n_tick s1) (n_open s1)) as Hs. cbv zeta.
  set (fd := w_socket w (n_tick s1) (n_open s1)) in *. clearbody fd.
  destruct (call_quiet s1) as [[Ho2 _ _ Hc2] Hc2']. set (s2 := call w s1) in *. clearbody s2.
  destruct (Z.eqb_spec fd (-1)) as [|Hfd]; [apply Hnext; [congruence|lia]|].
  destruct Hs as [|[Hfd0 Hfresh]]; [done|]. rewrite Ho1 in Hfresh.
  set (s3 := set_n_in _ _).
  assert (Hfr : fresh_socket fd (n_open s) s3).
  { unfold fresh_socket, out_of, in_of. simpl. rewrite !lookup_insert_eq. split_and!; done || congruence. }
  assert (Hc3 : n_clock s3 = n_clock s2) by done. clearbody s3.
  destruct (call_quiet s3) as [Hq4 Hc4]. set (s4 := call w s3) in *. clearbody s4.
  pose proof (fresh_socket_quiet _ _ _ _ Hfr Hq4) as Hfr4. destruct Hq4 as [_ _ _ Hc4'].
  destruct (w_connect w (n_tick s3) fd address);
    try (apply finish_connect_spec; [eapply enough_mono; [done|lia]|done|lia|exact Hnext]).
  - destruct Hfr4 as (? & ? & ? & ? & ?). eexists _, s4. split; [done|]. split; [by split_and!|lia].
  - destruct Hfr4 as (? & Hn & Ho & _). destruct (close_fd_quiet fd s4 (n_open s) Ho Hn). apply Hnext; [done|lia].
Qed.

(** [connect] within [timeout_ms], and never beyond [not_after]: the deadline
    it gives the connection, and how long it takes. *)
Lemma connect_spec fuel host port timeout_ms not_after s R :
  (∀ k, w_resolve_cost w k ≤ R) → 0 ≤ timeout_ms → timeout_ms * MILLISECOND < Z.of_nat fuel →
  ∃ r s' deadline, connect w fuel host port timeout_ms not_after s = Some (r, s') ∧
    connected deadline (n_open s) r s' ∧
    deadline - n_clock s' ≤ timeout_ms * MILLISECOND ∧
    deadline ≤ n_clock s + δ + R + timeout_ms * MILLISECOND ∧
    match not_after with Some limit => deadline ≤ limit | None => True end ∧
    n_clock s < n_clock s' ≤ Z.max (n_clock s + R + 3 * δ) (deadline + MILLISECOND + 7 * δ).
Proof using Type*.
  intros HR Ht Hfuel. pose proof δ_pos as Hδ. assert (0 ≤ MILLISECOND) as Hms by done.
  assert (0 ≤ timeout_ms * MILLISECOND) by lia.
  pose proof (law_resolve_cost 0) as HR0. specialize (HR 0%nat) as HR0'. unfold connect.
  set (start := match not_after with Some limit => _ | None => _ end).
  assert (Hstart : n_open start.2 = n_open s ∧ n_clock s ≤ n_clock start.2 ≤ n_clock s + δ ∧
    (start.1 = true → n_clock s < n_clock start.2 ∧
       match not_after with Some limit => limit ≤ n_clock s | None => False end)).
  { unfold start, steady_now. destruct not_after as [limit|]; cbn [fst snd]; [|split_and!; done || lia].
    destruct (call_quiet s) as [[] ?]. split_and!; done || lia. }
  destruct start as [expired s1]. cbn [fst snd] in Hstart. destruct Hstart as (Ho1 & Hc1 & Hexp).
  destruct expired.
  { specialize (Hexp eq_refl) as [Hlt Hlimit]. destruct not_after as [limit|]; [|done].
    exists (inr DeadlineExceeded), s1, limit. by split_and!; try done; try lia. }
  clear Hexp. pose proof (law_resolve_cost (n_tick s1)) as Hr1. specialize (HR (n_tick s1)).
  destruct (w_resolve w (n_tick s1) host (dec port)) as [addresses|].
  2:{ exists (inr ResolveFailed), (pass (w_resolve_cost w (n_tick s1)) s1),
        (match not_after with Some limit => Z.min (n_clock s) limit | None => n_clock s end).
      split; [done|]. cbn [pass n_clock n_open connected].
      destruct not_after; split_and!; done || lia. }
  set (s2 := pass _ s1). assert (Hc2 : n_clock s2 = n_clock s1 + w_resolve_cost w (n_tick s1)) by done.
  assert (Ho2 : n_open s2 = n_open s) by done. clearbody s2. unfold steady_now. cbv zeta.
  destruct (call_quiet s2) as [[Ho3 _ _ Hc3] Hc3']. set (s3 := call w s2) in *. clearbody s3.
  set (deadline := match not_after with Some limit => _ | None => _ end).
  assert (Hd : deadline ≤ n_clock s2 + timeout_ms * MILLISECOND ∧
    match not_after with Some limit => deadline ≤ limit | None => True end).
  { unfold deadline. destruct not_after; lia. }
  clearbody deadline.
  assert (Hen : enough deadline fuel s3) by (unfold enough; lia).
  destruct (connect_loop_spec fuel addresses deadline s3 Hen) as (r & s' & -> & Hcon & Hc).
  exists r, s', deadline. rewrite Ho3, Ho2 in Hcon. split; [done|]. split; [done|].
  split_and!; [lia|lia|apply Hd|lia|lia].
Qed.
End Lemmas.

(** ** Properties *)

(** C29: Sending with a deadline: on a system that keeps its promises,
    [sendAll] always returns, within one millisecond and a few calls of its
    deadline; the peer's side has received exactly a prefix of the data, all
    of it if and only if no error is reported, and nothing else has been
    sent on any descriptor. *)
Theorem sendAll_delivers (w : World) (δ : Z) (fuel : nat) (sd : SocketDeadline) (data : bytes) (s : Net)
    (HL : Lawful w δ) (Hfuel : Z.max 0 (sd_deadline_ sd - n_clock s) < Z.of_nat fuel) :
  ∃ e s' k, sendAll w fuel sd data s = Some (e, s') ∧
    out_of (sd_fd_ sd) s' = out_of (sd_fd_ sd) s ++ take k data ∧
    (e = NoError ↔ k = length data) ∧ (k ≤ length data)%nat ∧
    (e = NoError ∨ e = DeadlineExceeded ∨ e = SendFailed) ∧
    n_open s' = n_open s ∧ (∀ fd, fd ≠ sd_fd_ sd → n_out s' !! fd = n_out s !! fd) ∧
    n_clock s' ≤ Z.max (n_clock s + δ) (sd_deadline_ sd + MILLISECOND + 4 * δ).
Proof.
  destruct (send_loop_spec w δ fuel sd data 0 s) as (e & s' & k & Hr & [] & Hk & Hle & He & Hc); [lia|done|].
  exists e, s', k. rewrite drop_0 in *. split_and!; try done; apply Hk.
Qed.

(** ** A sample system

    Calls take one nanosecond; every third poll is interrupted; every third
    send would block, the others take at most nine bytes; the call numbered
    [base] and every second one after it read the next twenty bytes of
    [text]. *)
Definition sample_world (base : nat) (text : bytes) : World :=
  mkWorld (fun _ => 1) (fun _ => 1000)
    (fun k _ _ => if (Nat.modulo k 3 =? 0)%nat then (PollIntr, 1) else (PollReady POLLOUT, 1))
    (fun k _ b => if (Nat.modulo k 3 =? 0)%nat then SendAgain else SendCount (Z.min (zlen b) 9))
    (fun k _ c => let b := take 20 (drop (10 * (k - base)) text) in
                  if zlen b =? 0 then RecvEof else if zlen b <=? c then RecvData b else RecvError)
    (fun _ _ _ => Some [1; 2])
    (fun k held => if (k <? 4)%nat then -1 else 1 + foldr Z.max 2 (elements held))
    (fun _ _ _ => ConnectInProgress)
    (fun _ _ => Some 0).

Lemma foldr_max_le (l : list Z) x : x ∈ l → x ≤ foldr Z.max 2 l.
Proof. induction 1; simpl; lia. Qed.

Lemma foldr_max_lower (l : list Z) : 2 ≤ foldr Z.max 2 l.
Proof. induction l; simpl; lia. Qed.

#[export] Instance sample_lawful base text : Lawful (sample_world base text) 1.
Proof.
  split; simpl.
  - lia.
  - lia.
  - intros k _ t. unfold MILLISECOND. destruct (_ =? 0)%nat; simpl; lia.
  - intros k _ b n. destruct (_ =? 0)%nat; [done|]. intros [= <-]. lia.
  - intros k _ c b. set (b' := take 20 _). destruct (Z.eqb_spec (zlen b') 0); [done|].
    destruct (Z.leb_spec (zlen b') c); [|done]. intros [= <-]. pose proof (zlen_nonneg b'). lia.
  - intros k held. case_bool; [by left|right]. pose proof (foldr_max_lower (elements held)).
    split; [lia|]. intros Hin%elem_of_elements%foldr_max_le. lia.
Qed.

Lemma sendAll_delivers_witness :
  let w := sample_world 60 [] in
  let data := lit "POST /auth/check HTTP/1.1" in
  let s := mkNet 0 0 {[5]} ∅ ∅ in
  ∃ e s' k, sendAll w 200 (mkSocketDeadline 5 100) data s = Some (e, s') ∧
    out_of 5 s' = out_of 5 s ++ take k data ∧
    (e = NoError ↔ k = length data) ∧ (k ≤ length data)%nat ∧
    (e = NoError ∨ e = DeadlineExceeded ∨ e = SendFailed) ∧
    n_open s' = n_open s ∧ (∀ fd, fd ≠ 5 → n_out s' !! fd = n_out s !! fd) ∧
    n_clock s' ≤ Z.max (n_clock s + 1) (100 + MILLISECOND + 4 * 1).
Proof.
  refine (sendAll_delivers (sample_world 60 []) 1 200 (mkSocketDeadline 5 100)
            (lit "POST /auth/check HTTP/1.1") (mkNet 0 0 {[5]} ∅ ∅) _ _).
  cbn [sd_deadline_ n_clock]. lia.
Defined.

(** ** [SocketUtil.hpp]

    [setNonBlocking], with the answers of the two [fcntl] calls: the flags of
    the descriptor ([-1] on failure) and the result of setting new ones.  The
    second component is what the descriptor's flags were asked to become. *)

Definition O_NONBLOCK : Z := 2048.

Definition setNonBlocking (getfl : Z) (setfl : Z → Z) : bool * option Z :=
  let flags := getfl in
  if flags =? -1 then (false, None)
  else
    let new_flags := Z.lor flags O_NONBLOCK in
    let result := setfl new_flags in
    if result =? -1 then (false, Some new_flags) else (true, Some new_flags).

(** It succeeds exactly when both calls do, and it asks for the non-blocking
    bit and for no other change. *)
Lemma setNonBlocking_spec getfl setfl :
  ((setNonBlocking getfl setfl).1 = true ↔ getfl ≠ -1 ∧ setfl (Z.lor getfl O_NONBLOCK) ≠ -1) ∧
  ∀ flags, (setNonBlocking getfl setfl).2 = Some flags →
    Z.testbit flags 11 = true ∧ ∀ i, i ≠ 11 → Z.testbit flags i = Z.testbit getfl i.
Proof.
  assert (Hb : ∀ i, Z.testbit O_NONBLOCK i = bool_decide (i = 11)).
  { intros i. change O_NONBLOCK with (2 ^ 11). rewrite Z.pow2_bits_eqb by lia. destruct (Z.eqb_spec 11 i); case_bool_decide; lia || done. }
  assert (Hl : Z.testbit (Z.lor getfl O_NONBLOCK) 11 = true ∧
    ∀ i, i ≠ 11 → Z.testbit (Z.lor getfl O_NONBLOCK) i = Z.testbit getfl i).
  { split; [|intros i Hi]; rewrite Z.lor_spec, Hb; [apply orb_true_r|]. rewrite bool_decide_eq_false_2 by done. apply orb_false_r. }
  unfold setNonBlocking. repeat case_bool; bool_facts; simpl; (split; [naive_solver|]); intros flags; [done|..];
    by intros [= <-].
Qed.
