(* ===== verification/Client.v ===== *)
(** * The control-plane client

    Models [include/control/ControlPlaneClient.hpp] and
    [src/control/ControlPlaneClient.cpp]: one HTTP/1.1 request per connection,
    over a socket with a deadline, its answer parsed incrementally.  Every
    operation returns [None] when it runs out of fuel (which [request_spec]
    excludes); inside, [None] is an exception. *)

From S2P Require Import Prelude Text ControlTypes Json JsonRound RuntimeConfig HttpParser Socket.
#[local] Open Scope Z_scope.

Record ControlPlaneClient := mkClient {
  host_ : bytes;
  cp_port_ : Z;
  timeout_ms_ : Z;
  gateway_token_ : bytes;
}.

(** [validateHeaderValue]: false when it throws. *)
Definition validateHeaderValue (value : bytes) : bool :=
  negb (bool_decide (is_Some (find [CR] value)) || bool_decide (is_Some (find [LF] value))).

(** The constructor; [None] when it throws. *)
Definition newClient (host : bytes) (port timeout_ms : Z) (gateway_token : bytes)
    : option ControlPlaneClient :=
  if zlen host =? 0 then None
  else if (port <? 1) || (port >? 65535) then None
  else if timeout_ms <=? 0 then None
  else if negb (validateHeaderValue host) then None
  else if negb (validateHeaderValue gateway_token) then None
  else Some (mkClient host port timeout_ms gateway_token).

Definition hostHeader (c : ControlPlaneClient) : bytes :=
  let host := host_ c in
  let bracketed :=
    (zlen host >=? 2) && bool_decide (host !! 0%nat = Some "["%char)
    && bool_decide (last host = Some "]"%char) in
  let host := if bool_decide (is_Some (find (lit ":") host)) && negb bracketed
              then lit "[" ++ host ++ lit "]" else host in
  host ++ lit ":" ++ dec (cp_port_ c).

(** The text of a request. *)
Definition request_lines (c : ControlPlaneClient) (method path body : bytes) : list bytes :=
  [method ++ lit " " ++ path ++ lit " HTTP/1.1";
   lit "Host: " ++ hostHeader c;
   lit "Accept: application/json";
   lit "X-Gateway-Token: " ++ gateway_token_ c]
  ++ (if bool_decide (method = lit "POST")
      then [lit "Content-Type: application/json"; lit "Content-Length: " ++ dec (zlen body)]
      else [])
  ++ [lit "Connection: close"].

Definition serialized (c : ControlPlaneClient) (method path body : bytes) : bytes :=
  render_lines (request_lines c method path body) ++ CRLF
  ++ (if bool_decide (method = lit "POST") then body else []).

Definition READ_SIZE : Z := 4096.

Section Client.
Context (w : World) `{JsonLib}.

(** The loop that reads the answer. *)
Fixpoint read_response (fuel : nat) (sd : SocketDeadline) (parser : HttpResponseParser) (s : Net)
    : option (HttpResponseParser * Net) :=
  if done_ parser then Some (parser, s)
  else
    match fuel with
    | O => None
    | S fuel =>
      match receive w fuel sd READ_SIZE s with
      | None => None
      | Some (received, buffer, s) =>
        if negb (bool_decide (srr_error received = NoError))
        then Some (finishOnTransportError (srr_error received) parser, s)
        else if srr_eof received then Some (finishOnEof parser, s)
        else read_response fuel sd (consume (take (Z.to_nat (srr_size received)) buffer) parser) s
      end
    end.

(** [requestJsonOnce]; the socket is closed by its destructor. *)
Definition requestJsonOnce (fuel : nat) (c : ControlPlaneClient) (method path body : bytes)
    (not_after : option Z) (s : Net) : option (option HttpResult * Net) :=
  if negb (validateHeaderValue method) || negb (validateHeaderValue path) then Some (None, s)
  else if (zlen path =? 0) || negb (bool_decide (path !! 0%nat = Some "/"%char))
          || (negb (bool_decide (method = lit "GET")) && negb (bool_decide (method = lit "POST")))
  then Some (Some (mkHttpResult MalformedResponse 0 []), s)
  else
    match connect w fuel (host_ c) (cp_port_ c) (timeout_ms_ c) not_after s with
    | None => None
    | Some (inr connect_error, s) => Some (Some (mkHttpResult connect_error 0 []), s)
    | Some (inl socket, s) =>
      match sendAll w fuel socket (serialized c method path body) s with
      | None => None
      | Some (sent, s) =>
        if negb (bool_decide (sent = NoError))
        then Some (Some (mkHttpResult sent 0 []), (closeSocket w socket s).2)
        else
          match read_response fuel socket newParser s with
          | None => None
          | Some (parser, s) => Some (Some (takeResult parser), (closeSocket w socket s).2)
          end
      end
    end.

Definition requestJson := requestJsonOnce.

(** How an answer of [/auth/check] is read. *)
Definition auth_of_response (response : HttpResult) : AuthResult :=
  let result := mkAuthResult Unavailable (hr_error response) (hr_status_code response) [] in
  if negb (http_ok response) then result
  else
    let invalid := mkAuthResult Unavailable InvalidJson (hr_status_code response) [] in
    match json_parse (hr_body response) with
    | None => invalid
    | Some body =>
      match (if is_object body then json_at (lit "allowed") body ≫= get_bool else None) : option bool with
      | None => invalid
      | Some allowed =>
        let reason : bytes :=
          match json_at (lit "code") body ≫= get_string with
          | Some code => code
          | None => default [] (json_at (lit "reason") body ≫= get_string)
          end in
        mkAuthResult (if allowed then Allowed else Denied) (hr_error response)
          (hr_status_code response) reason
      end
    end.

Definition checkAuth (fuel : nat) (c : ControlPlaneClient) (client_id token : bytes)
    (not_after : option Z) (s : Net) : option (option AuthResult * Net) :=
  match json_dump (json_of_pairs [(lit "client_id", JString client_id); (lit "token", JString token)]) with
  | None => Some (None, s)
  | Some payload =>
    match requestJson fuel c (lit "POST") (lit "/auth/check") payload not_after s with
    | None => None
    | Some (None, s) => Some (None, s)
    | Some (Some response, s) => Some (Some (auth_of_response response), s)
    end
  end.

(** [fetchConfig(config)]: the result and the final value of [config]. *)
Definition fetchConfig (fuel : nat) (c : ControlPlaneClient) (config : RuntimeConfig) (s : Net)
    : option (option (bool * RuntimeConfig) * Net) :=
  match requestJson fuel c (lit "GET") (lit "/config") [] None s with
  | None => None
  | Some (None, s) => Some (None, s)
  | Some (Some response, s) =>
    if negb (http_ok response) then Some (Some (false, config), s)
    else
      match parseRuntimeConfig (hr_body response) defaultRuntimeConfig with
      | (false, _) => Some (Some (false, config), s)
      | (true, parsed) => Some (Some (true, parsed), s)
      end
  end.

End Client.

(** ** Lemmas: the texts *)

Lemma validateHeaderValue_spec v : validateHeaderValue v = true → one_line v.
Proof.
  unfold validateHeaderValue. intros Hv. bool_facts.
  apply Forall_and. split; apply find_char_None, eq_None_not_Some; done.
Qed.


Lemma lit_one_line s : forallb (λ c, negb (Ascii.eqb c CR) && negb (Ascii.eqb c LF)) (lit s) = true → one_line (lit s).
Proof.
  intros Hs. unfold one_line. rewrite Forall_forall. intros c Hc. rewrite forallb_forall in Hs.
  apply list_elem_of_In in Hc. specialize (Hs c Hc). apply andb_true_iff in Hs as [H1 H2].
  rewrite negb_true_iff, Ascii.eqb_neq in *. done.
Qed.

Ltac one_line :=
  repeat first [done|by apply lit_one_line|apply dec_one_line|apply one_line_app].

(** What the constructor has checked. *)
Definition client_ok (c : ControlPlaneClient) : Prop :=
  host_ c ≠ [] ∧ 1 ≤ cp_port_ c ≤ 65535 ∧ 0 < timeout_ms_ c ∧
  one_line (host_ c) ∧ one_line (gateway_token_ c).

Lemma newClient_ok host port timeout_ms token c :
  newClient host port timeout_ms token = Some c →
  client_ok c ∧ c = mkClient host port timeout_ms token.
Proof.
  unfold newClient. repeat (case_bool; [done|]). intros [= <-]. rewrite ?Z.gtb_ltb in *. bool_facts.
  split; [|done]. unfold client_ok; simpl. split_and!; try lia.
  - intros ->. done.
  - by apply validateHeaderValue_spec.
  - by apply validateHeaderValue_spec.
Qed.

Lemma request_lines_one_line c method path body :
  client_ok c → one_line method → one_line path →
  Forall one_line (request_lines c method path body) ∧ Forall (λ l, l ≠ []) (request_lines c method path body).
Proof.
  intros (_ & _ & _ & Hh & Ht) Hm Hp.
  assert (Hhost : one_line (hostHeader c)) by (unfold hostHeader; case_bool; one_line).
  unfold request_lines. rewrite !Forall_app, !Forall_cons.
  destruct (bool_decide _); rewrite ?Forall_cons; split_and!;
    try apply Forall_nil_2; one_line; by destruct method.
Qed.

(** ** Lemmas: a request *)

Section Request.
Context (w : World) (δ : Z) `{!Lawful w δ}.

(** Reading ends with a final parser: either it is the one of the bytes that
    came in on the descriptor, or it reports a transport error. *)
Lemma read_response_spec fuel sd x s :
  in_of (sd_fd_ sd) s = x → enough (sd_deadline_ sd) fuel s →
  ∃ p s', read_response w (S fuel) sd (consume x newParser) s = Some (p, s') ∧ done_ p = true ∧
    (protocol_error (hr_error (result_ p)) ∨ p = consume (in_of (sd_fd_ sd) s') newParser) ∧
    n_open s' = n_open s ∧ n_out s' = n_out s ∧
    n_clock s ≤ n_clock s' ≤ Z.max (n_clock s + δ) (sd_deadline_ sd + MILLISECOND + 5 * δ).
Proof using Type*.
  pose proof (δ_pos w δ) as Hδ. assert (0 ≤ MILLISECOND) as Hms by done.
  revert x s. induction fuel as [|fuel IH]; intros x s Hx Hf; [unfold enough in Hf; lia|].
  remember (S fuel) as fuel' eqn:Ef. cbn [read_response].
  destruct (done_ (consume x newParser)) eqn:Ed.
  { exists (consume x newParser), s. rewrite Hx. split_and!; try done; try lia; by right. }
  destruct (receive_spec w δ fuel' sd READ_SIZE s) as (r & b & s1 & -> & Hg & Hok & Hlt & Hc); [done|done|].
  destruct Hok as (Hsize & _ & Herr & Hdata & _). destruct Hg as [Ho Hout Hin Hclk].
  destruct (decide (srr_error r = NoError)) as [He|He].
  2:{ rewrite bool_decide_eq_false_2 by done. cbn [negb]. eexists _, s1. split; [done|].
      unfold finishOnTransportError. rewrite Ed. split_and!; try done; [|lia|lia].
      left. split; [done|]. simpl. destruct Herr as [->|[->| ->]]; done. }
  rewrite bool_decide_eq_true_2 by done. cbn [negb]. destruct (srr_eof r) eqn:Eeof.
  { eexists _, s1. split; [done|]. unfold finishOnEof. rewrite Ed.
    split_and!; try done; [|lia|lia]. left. by destruct (headers_parsed_ _). }
  rewrite Hsize. unfold zlen. rewrite Nat2Z.id, firstn_all, consume_step by done.
  specialize (Hdata He eq_refl). specialize (Hlt Hdata). subst fuel'.
  destruct (IH (x ++ b) s1) as (p & s' & -> & Hdone & Hp & Ho' & Hout' & Hc').
  { by rewrite Hin, Hx. }
  { unfold enough in *. lia. }
  exists p, s'. split_and!; try done; [congruence|congruence|lia|lia].
Qed.

(** The requests the client makes: a valid method and an absolute path. *)
Definition valid_request (method path : bytes) : bool :=
  validateHeaderValue method && validateHeaderValue path
  && bool_decide (path !! 0%nat = Some "/"%char)
  && (bool_decide (method = lit "GET") || bool_decide (method = lit "POST")).

(** The wire evidence behind an answer of the server: a connection on which
    the whole request went out and exactly one well-framed response came in. *)
Definition exchange (request : bytes) (held : gset Z) (res : HttpResult) (s' : Net) : Prop :=
  ∃ fd status_line lines body st,
    fd ∉ held ∧ out_of fd s' = request ∧ in_of fd s' = render_response status_line lines body ∧
    well_framed status_line lines body st ∧ res = mkHttpResult (status_error st) st body.

Lemma closeSocket_spec sd held s :
  0 ≤ sd_fd_ sd → n_open s = {[sd_fd_ sd]} ∪ held → sd_fd_ sd ∉ held →
  let s' := (closeSocket w sd s).2 in
  n_open s' = held ∧ n_out s' = n_out s ∧ n_in s' = n_in s ∧ n_clock s < n_clock s' ≤ n_clock s + δ.
Proof using Type*.
  intros Hfd Ho Hn. unfold closeSocket. destruct (Z.eqb_spec (sd_fd_ sd) (-1)); [lia|]. cbn [snd].
  by destruct (close_fd_quiet w δ (sd_fd_ sd) s held Ho Hn).
Qed.

Lemma request_spec fuel c method path body not_after s R :
  (∀ k, w_resolve_cost w k ≤ R) → client_ok c → valid_request method path = true →
  timeout_ms_ c * MILLISECOND + 1 < Z.of_nat fuel →
  ∃ res s' deadline, requestJsonOnce w fuel c method path body not_after s = Some (Some res, s') ∧
    n_open s' = n_open s ∧
    (protocol_error (hr_error res) ∨ exchange (serialized c method path body) (n_open s) res s') ∧
    deadline ≤ n_clock s + δ + R + timeout_ms_ c * MILLISECOND ∧
    match not_after with Some limit => deadline ≤ limit | None => True end ∧
    n_clock s' ≤ Z.max (n_clock s + R + 6 * δ) (deadline + MILLISECOND + 10 * δ).
Proof using Type*.
  intros HR (_ & _ & Ht & _) Hv Hfuel. pose proof (δ_pos w δ) as Hδ.
  assert (0 ≤ MILLISECOND) as Hms by done. assert (0 ≤ timeout_ms_ c * MILLISECOND) by lia.
  unfold valid_request in Hv. apply andb_true_iff in Hv as [[[Hm Hp]%andb_true_iff Hslash]%andb_true_iff Hgp].
  unfold requestJsonOnce. rewrite Hm, Hp, Hslash. cbn [negb orb].
  assert (zlen path =? 0 = false) as ->.
  { apply Z.eqb_neq. rewrite zlen_0. intros ->. by bool_facts. }
  rewrite <- negb_orb, Hgp. cbn [negb orb].
  destruct (connect_spec w δ fuel (host_ c) (cp_port_ c) (timeout_ms_ c) not_after s R)
    as (r & s1 & deadline & -> & Hcon & Hleft & Hd & Hna & Hc1); [done|lia|lia|].
  destruct r as [sd|e].
  2:{ destruct Hcon as (Ho & He). eexists _, s1, deadline. split; [done|]. split_and!; try done; [by left|lia]. }
  destruct Hcon as (Hdl & Hfd & Hfresh & Ho1 & Hout1 & Hin1).
  destruct fuel as [|fuel]; [lia|].
  assert (Hen : enough (sd_deadline_ sd) fuel s1) by (unfold enough; lia).
  destruct (send_loop_spec w δ (S fuel) sd (serialized c method path body) 0 s1)
    as (e & s2 & k & Hsend & [Ho2 Hin2 Hout2 _ Hc2] & Hk & _ & Herr & Hc2'); [lia|unfold enough in *; lia|].
  unfold sendAll. rewrite Hsend, Hdl in *. rewrite drop_0 in Hout2.
  destruct (decide (e = NoError)) as [He|He].
  2:{ rewrite bool_decide_eq_false_2 by done. cbn [negb].
      destruct (closeSocket_spec sd (n_open s) s2) as (Ho3 & _ & _ & Hc3); [done|congruence|done|].
      eexists _, _, deadline. split; [done|]. split_and!; try done; [|lia].
      left. split; [done|]. simpl. destruct Herr as [->|[->| ->]]; done. }
  rewrite bool_decide_eq_true_2 by done. cbn [negb]. apply Hk in He. cbn [Nat.add] in He.
  rewrite He, firstn_all, Hout1 in Hout2. cbn [app] in Hout2.
  change newParser with (consume [] newParser).
  destruct (read_response_spec fuel sd [] s2) as (p & s3 & -> & Hdone & Hp' & Ho3 & Hout3 & Hc3).
  { unfold in_of in *. by rewrite Hin2. } { rewrite Hdl. eapply enough_mono; [done|lia]. }
  rewrite Hdl in Hc3.
  destruct (closeSocket_spec sd (n_open s) s3) as (Ho4 & Hout4 & Hin4 & Hc4); [done|congruence|done|].
  eexists _, _, deadline. split; [done|]. split; [done|]. split; [|split_and!; done || lia].
  destruct Hp' as [?|Hp']; [by left|].
  destruct (decide (protocol_error (hr_error (result_ p)))) as [|Hno]; [by left|right].
  rewrite Hp' in Hdone, Hno. destruct (consume_decided _ Hdone Hno) as (sl & lines & rb & st & Hin & Hw & Hres).
  exists (sd_fd_ sd), sl, lines, rb, st. split; [done|]. unfold out_of, in_of in *.
  rewrite Hout4, Hin4, Hout3. split; [done|]. split; [done|]. split; [done|].
  unfold takeResult. by rewrite Hp'.
Qed.
End Request.

(** ** Properties *)

(** C28: Requests cannot be split or injected: for every client the
    constructor accepts and every valid method and path, the text sent is the
    request lines, a blank line and the body; no line contains a carriage
    return or a line feed, and the first blank line of the text is the
    intended one, so a server that reads up to it sees exactly these lines
    and then the body, whatever the configured host and token are. *)
Theorem request_no_injection (host : bytes) (port timeout_ms : Z) (token : bytes)
    (c : ControlPlaneClient) (method path body : bytes)
    (Hc : newClient host port timeout_ms token = Some c)
    (Hv : valid_request method path = true) :
  let lines := request_lines c method path body in
  let text := serialized c method path body in
  ∃ blank, find (CRLF ++ CRLF) text = Some blank ∧ Forall one_line lines ∧
    take (blank + 2) text = render_lines lines ∧
    drop (blank + 4) text = (if bool_decide (method = lit "POST") then body else []).
Proof.
  apply newClient_ok in Hc as [Hok _]. unfold valid_request in Hv.
  apply andb_true_iff in Hv as [[[Hm Hp]%andb_true_iff _]%andb_true_iff _].
  destruct (request_lines_one_line c method path body Hok) as [Hl Hne];
    [by apply validateHeaderValue_spec..|].
  cbv zeta. set (lines := request_lines c method path body) in *. set (t := if bool_decide _ then _ else _).
  assert (Htext : serialized c method path body = render_lines lines ++ CRLF ++ t) by done.
  assert (Hcons : ∃ l ls, lines = l :: ls) by (by eexists _, _). clearbody lines.
  destruct Hcons as (l & ls & ->). apply Forall_cons in Hl as [Hl Hls], Hne as [Hlne Hne].
  assert (Hcr : ∀ x, one_line x → no_cr x) by (intros x Hx; eapply Forall_impl; [exact Hx|by intros ? []]).
  change (render_lines (l :: ls)) with ((l ++ CRLF) ++ render_lines ls) in *. rewrite <- !app_assoc in Htext.
  exists (length l + length (render_lines ls))%nat. split.
  - rewrite Htext. change (CRLF ++ CRLF) with (CR :: LF :: CRLF). rewrite find_skip by (by apply Hcr).
    change (CR :: LF :: CRLF) with (CRLF ++ CRLF). rewrite find_head_end; [done| |done].
    eapply Forall_impl; [exact Hls|exact Hcr].
  - split; [by constructor|]. rewrite Htext. rewrite !app_assoc. split.
    + rewrite <- app_assoc. apply take_app_exact. rewrite !length_app. simpl. lia.
    + apply drop_app_exact. rewrite !length_app. simpl. lia.
Qed.

(** What the client trusts: the answer to [/auth/check] is taken from the
    body of a successful response, from a JSON object whose member [allowed]
    is a boolean. *)
Lemma auth_of_response_trusted `{JsonLib} res :
  ar_outcome (auth_of_response res) ≠ Unavailable →
  http_ok res = true ∧
  ∃ j b, json_parse (hr_body res) = Some j ∧ json_at (lit "allowed") j = Some (JBoolean b) ∧
         ar_outcome (auth_of_response res) = if b then Allowed else Denied.
Proof.
  unfold auth_of_response. destruct (http_ok res); [|done]. cbn [negb].
  destruct (json_parse (hr_body res)) as [j|]; [|done].
  destruct (is_object j); [|done].
  destruct (json_at (lit "allowed") j) as [v|] eqn:Ea; [|done].
  destruct v as [|b| | | | | |]; try done. intros _. split; [done|]. exists j, b. done.
Qed.

Lemma http_ok_answered res : http_ok res = true → ¬ protocol_error (hr_error res).
Proof. unfold http_ok, protocol_error. intros Hok. bool_facts. tauto. Qed.

Lemma auth_request_valid : valid_request (lit "POST") (lit "/auth/check") = true.
Proof. vm_compute. reflexivity. Qed.

Lemma config_request_valid : valid_request (lit "GET") (lit "/config") = true.
Proof. vm_compute. reflexivity. Qed.

(** The deadline and the time a call may take. *)
Definition in_time (c : ControlPlaneClient) (δ R : Z) (not_after : option Z) (s s' : Net) : Prop :=
  ∃ deadline, deadline ≤ n_clock s + δ + R + timeout_ms_ c * MILLISECOND ∧
    match not_after with Some limit => deadline ≤ limit | None => True end ∧
    n_clock s' ≤ Z.max (n_clock s + R + 6 * δ) (deadline + MILLISECOND + 10 * δ).

(** The wire evidence of an answer to [/auth/check] for [client_id] and
    [token]: a request with exactly these credentials went out, and exactly
    one well-framed successful response came in, whose body is a JSON object
    with the answer. *)
Definition auth_evidence `{JsonLib} (c : ControlPlaneClient) (client_id token : bytes) (answer : bool)
    (held : gset Z) (s' : Net) : Prop :=
  ∃ payload res j,
    json_dump (json_of_pairs [(lit "client_id", JString client_id); (lit "token", JString token)]) = Some payload ∧
    exchange (serialized c (lit "POST") (lit "/auth/check") payload) held res s' ∧
    http_ok res = true ∧ json_parse (hr_body res) = Some j ∧
    json_at (lit "allowed") j = Some (JBoolean answer).

Lemma checkAuth_spec `{JsonLib} w δ `{!Lawful w δ} fuel c client_id token not_after s R :
  (∀ k, w_resolve_cost w k ≤ R) → client_ok c → timeout_ms_ c * MILLISECOND + 1 < Z.of_nat fuel →
  ∃ r s', checkAuth w fuel c client_id token not_after s = Some (r, s') ∧ n_open s' = n_open s ∧
    (s' = s ∨ in_time c δ R not_after s s') ∧
    match r with
    | None => s' = s
    | Some result =>
        match ar_outcome result with
        | Allowed => auth_evidence c client_id token true (n_open s) s'
        | Denied => auth_evidence c client_id token false (n_open s) s'
        | Unavailable => True
        end
    end.
Proof.
  intros HR Hc Hf. unfold checkAuth. destruct (json_dump _) as [payload|] eqn:Ed.
  2:{ exists None, s. split_and!; try done; by left. }
  destruct (request_spec w δ fuel c (lit "POST") (lit "/auth/check") payload not_after s R)
    as (res & s' & d & Hrun & Ho & Hex & Hd & Hna & Hc'); [done|done|apply auth_request_valid|done|].
  unfold requestJson. rewrite Hrun. exists (Some (auth_of_response res)), s'.
  split; [done|]. split; [done|]. split; [right; by exists d|].
  assert (Hev : ar_outcome (auth_of_response res) ≠ Unavailable → ∃ b : bool,
    ar_outcome (auth_of_response res) = (if b then Allowed else Denied) ∧
    auth_evidence c client_id token b (n_open s) s').
  { intros (Hok & j & b & Hj & Ha & Hout)%auth_of_response_trusted. exists b. split; [done|].
    exists payload, res, j. split_and!; try done. destruct Hex as [He|]; [|done].
    by apply http_ok_answered in Hok. }
  destruct (ar_outcome (auth_of_response res)) eqn:Eo; [| |done];
    destruct Hev as ([|] & ? & ?); done.
Qed.

(** C26: The control-plane check fails closed and ends in time.  On a system
    that keeps its promises [checkAuth] always returns; it holds no
    descriptor afterwards; it ends within its timeout (and the given limit)
    plus name resolution, one millisecond and a few calls; and it reports
    Allowed or Denied only if a connection carried exactly the request for
    these credentials and exactly one well-framed successful response whose
    JSON body says so. *)
Theorem checkAuth_fail_closed `{JsonLib} (w : World) (δ R : Z) (fuel : nat)
    (host : bytes) (port timeout_ms : Z) (gateway_token : bytes) (c : ControlPlaneClient)
    (client_id token : bytes) (not_after : option Z) (s : Net)
    (HL : Lawful w δ) (HR : ∀ k, w_resolve_cost w k ≤ R)
    (Hc : newClient host port timeout_ms gateway_token = Some c)
    (Hfuel : timeout_ms * MILLISECOND + 1 < Z.of_nat fuel) :
  ∃ r s', checkAuth w fuel c client_id token not_after s = Some (r, s') ∧ n_open s' = n_open s ∧
    (s' = s ∨ in_time c δ R not_after s s') ∧
    ∀ result, r = Some result →
      (ar_outcome result = Allowed → auth_evidence c client_id token true (n_open s) s') ∧
      (ar_outcome result = Denied → auth_evidence c client_id token false (n_open s) s').
Proof.
  apply newClient_ok in Hc as [Hok ->].
  destruct (checkAuth_spec w δ fuel (mkClient host port timeout_ms gateway_token) client_id token not_after s R)
    as (r & s' & Hrun & Ho & Ht & Hr); [done|done|done|].
  exists r, s'. split_and!; [done|done|done|]. intros result ->.
  destruct (ar_outcome result); split; done.
Qed.

(** C27: A fetched configuration is validated and traceable: [fetchConfig]
    always returns, in time and without holding a descriptor; it changes the
    caller's configuration only when it reports success, and then to one
    whose every field is within its documented range, parsed from the body of
    the one well-framed successful response to [GET /config]. *)
Theorem fetchConfig_validates `{JsonLib} (w : World) (δ R : Z) (fuel : nat)
    (host : bytes) (port timeout_ms : Z) (gateway_token : bytes) (c : ControlPlaneClient)
    (config : RuntimeConfig) (s : Net)
    (HL : Lawful w δ) (HR : ∀ k, w_resolve_cost w k ≤ R)
    (Hc : newClient host port timeout_ms gateway_token = Some c)
    (Hfuel : timeout_ms * MILLISECOND + 1 < Z.of_nat fuel) :
  ∃ ok config' s', fetchConfig w fuel c config s = Some (Some (ok, config'), s') ∧
    n_open s' = n_open s ∧ in_time c δ R None s s' ∧
    (ok = false → config' = config) ∧
    (ok = true → config_ok config' ∧
       ∃ res, exchange (serialized c (lit "GET") (lit "/config") []) (n_open s) res s' ∧
              http_ok res = true ∧ parseRuntimeConfig_body (hr_body res) = Some config').
Proof.
  apply newClient_ok in Hc as [Hok ->]. set (c := mkClient _ _ _ _) in *.
  destruct (request_spec w δ fuel c (lit "GET") (lit "/config") [] None s R)
    as (res & s' & d & Hrun & Ho & Hex & Hd & Hna & Hc'); [done|done|apply config_request_valid|done|].
  unfold fetchConfig, requestJson. rewrite Hrun.
  assert (Htime : in_time c δ R None s s') by (by exists d).
  destruct (http_ok res) eqn:Eok; cbn [negb].
  2:{ exists false, config, s'. by split_and!. }
  unfold parseRuntimeConfig. destruct (parseRuntimeConfig_body (hr_body res)) as [cfg|] eqn:Ep.
  2:{ exists false, config, s'. by split_and!. }
  exists true, cfg, s'. split_and!; try done. intros _. split; [by eapply parseRuntimeConfig_body_ok|].
  exists res. split_and!; try done. destruct Hex as [He|]; [|done]. by apply http_ok_answered in Eok.
Qed.

(** ** Witnesses *)

Definition sample_docs : JsonLib := nlohmann.

Definition sample_answer : bytes :=
  render_response (lit "HTTP/1.1 200 OK") [lit "Content-Length: 16"] (lit "{'allowed':true}").

Definition sample_client : ControlPlaneClient := mkClient (lit "::1") 8080 1 (lit "secret").
Definition sample_net : Net := mkNet 0 0 ∅ ∅ ∅.

(** The sample exchange: the first socket fails, the second connects, the
    request goes out in pieces, some after waiting, and the response comes in
    several reads. *)
Definition sample_os : World := sample_world 135 sample_answer.

Example sample_exchange :
  match checkAuth (H := sample_docs) sample_os 300 sample_client (lit "c") (lit "t") None sample_net with
  | Some (Some result, s') => Some (ar_outcome result, out_of 3 s', in_of 3 s')
  | _ => None
  end =
  Some (Allowed,
        serialized sample_client (lit "POST") (lit "/auth/check") (lit "{'client_id':'c','token':'t'}"),
        sample_answer).
Proof. vm_compute. reflexivity. Qed.

Lemma request_no_injection_witness :
  let c := sample_client in
  let lines := request_lines c (lit "GET") (lit "/config") [] in
  let text := serialized c (lit "GET") (lit "/config") [] in
  ∃ blank, find (CRLF ++ CRLF) text = Some blank ∧ Forall one_line lines ∧
    take (blank + 2) text = render_lines lines ∧
    drop (blank + 4) text = (if bool_decide (lit "GET" = lit "POST") then [] else []).
Proof.
  refine (request_no_injection (lit "::1") 8080 1 (lit "secret") sample_client (lit "GET") (lit "/config") [] _ _);
    vm_compute; reflexivity.
Defined.

Lemma checkAuth_fail_closed_witness :
  let fuel := Z.to_nat 1000010 in
  ∃ r s', checkAuth (H := sample_docs) sample_os fuel sample_client (lit "c") (lit "t") (Some 5) sample_net
          = Some (r, s') ∧
    n_open s' = n_open sample_net ∧
    (s' = sample_net ∨ in_time sample_client 1 1000 (Some 5) sample_net s') ∧
    ∀ result, r = Some result →
      (ar_outcome result = Allowed →
       auth_evidence (H := sample_docs) sample_client (lit "c") (lit "t") true (n_open sample_net) s') ∧
      (ar_outcome result = Denied →
       auth_evidence (H := sample_docs) sample_client (lit "c") (lit "t") false (n_open sample_net) s').
Proof.
  refine (checkAuth_fail_closed (H := sample_docs) sample_os 1 1000 (Z.to_nat 1000010)
            (lit "::1") 8080 1 (lit "secret") sample_client (lit "c") (lit "t") (Some 5) sample_net _ _ _ _).
  - intros k. simpl. lia.
  - vm_compute. reflexivity.
  - rewrite Z2Nat.id; unfold MILLISECOND; lia.
Defined.

Lemma fetchConfig_validates_witness :
  let fuel := Z.to_nat 1000010 in
  ∃ ok config' s', fetchConfig (H := sample_docs) sample_os fuel sample_client defaultRuntimeConfig sample_net
                   = Some (Some (ok, config'), s') ∧
    n_open s' = n_open sample_net ∧ in_time sample_client 1 1000 None sample_net s' ∧
    (ok = false → config' = defaultRuntimeConfig) ∧
    (ok = true → config_ok config' ∧
       ∃ res, exchange (serialized sample_client (lit "GET") (lit "/config") []) (n_open sample_net) res s' ∧
              http_ok res = true ∧
              parseRuntimeConfig_body (H := sample_docs) (hr_body res) = Some config').
Proof.
  refine (fetchConfig_validates (H := sample_docs) sample_os 1 1000 (Z.to_nat 1000010)
            (lit "::1") 8080 1 (lit "secret") sample_client defaultRuntimeConfig sample_net _ _ _ _).
  - intros k. simpl. lia.
  - vm_compute. reflexivity.
  - rewrite Z2Nat.id; unfold MILLISECOND; lia.
Defined.
