(* ===== verification/Handlers.v ===== *)
(** * Request handlers

    Models [src/business/Handlers.cpp], [src/business/Dispatcher.cpp] and
    [src/business/LogStorage.cpp] with their headers.  The handlers read and
    write the process-wide counters and the log storage, passed as the state
    [HState]; an exception that leaves a handler is [None]. *)

From S2P Require Import Prelude Text Json JsonRound Protocol ControlTypes Stats.
#[local] Open Scope Z_scope.

(** ** LogStorage *)

(** [ls_stream_ok] is the state of the stream in use: once an output
    operation fails the error bits stay set and later output does nothing.
    [ls_lines] are the lines written. *)
Record LogStorage := mkLogStorage {
  ls_use_stdout : bool;
  ls_is_open : bool;
  ls_stream_ok : bool;
  ls_lines : list bytes;
}.

(** The constructor: [env_path] is the value of GATEWAY_LOG_PATH,
    [has_parent] whether the path has a parent, [mkdir_ok] whether creating
    it succeeds (it throws otherwise, which is swallowed and leaves the file
    unopened) and [open_ok] whether opening the file succeeds. *)
Definition newLogStorage (env_path : option bytes) (has_parent mkdir_ok open_ok : bool) : LogStorage :=
  match env_path with
  | None | Some [] => mkLogStorage true false true []
  | Some _ =>
      if has_parent && negb mkdir_ok then mkLogStorage false false true []
      else mkLogStorage false open_ok open_ok []
  end.

(** [append]: [io_ok] is whether this write and flush succeed. *)
Definition append (io_ok : bool) (log_line : bytes) (l : LogStorage) : bool * LogStorage :=
  if negb (ls_use_stdout l) && negb (ls_is_open l) then (false, l)
  else
    let ok := ls_stream_ok l && io_ok in
    (ok, mkLogStorage (ls_use_stdout l) (ls_is_open l) ok
           (if ok then ls_lines l ++ [log_line] else ls_lines l)).

(** ** Handlers *)

Record HState := mkHState {
  hs_stats : StatsManager;
  hs_log : LogStorage;
}.

Definition with_stats (f : StatsManager → StatsManager) (h : HState) : HState :=
  mkHState (f (hs_stats h)) (hs_log h).

(** One value that [handleStats] reads: an atomic load of a counter, or a call
    of a getter of the server, which locks the queue or loads an atomic. *)
Inductive StatsLoad :=
  | Load_total_requests | Load_total_logs | Load_total_errors | Load_read_bytes | Load_write_bytes
  | Load_connections
  | Load_request_queue_size | Load_response_queue_size
  | Load_request_queue_capacity | Load_response_queue_capacity
  | Load_request_queue_peak | Load_response_queue_peak
  | Load_request_queue_rejected | Load_response_queue_rejected
  | Load_snapshot (member : StatsSnapshot)
  | Load_auth_queue_size | Load_auth_queue_capacity | Load_auth_queue_peak
  | Load_auth_in_flight.

#[export] Instance StatsLoad_eq_dec : EqDecision StatsLoad.
Proof. solve_decision. Defined.

(** The order in which [handleStats] reads.  Other threads run between any two
    of the reads. *)
Definition stats_order : list StatsLoad :=
  [Load_total_requests; Load_total_logs; Load_total_errors; Load_read_bytes; Load_write_bytes;
   Load_connections;
   Load_request_queue_size; Load_response_queue_size;
   Load_request_queue_capacity; Load_response_queue_capacity;
   Load_request_queue_peak; Load_response_queue_peak;
   Load_request_queue_rejected; Load_response_queue_rejected]
    ++ map Load_snapshot snapshot
    ++ [Load_auth_queue_size; Load_auth_queue_capacity; Load_auth_queue_peak; Load_auth_in_flight].

(** What a handler observes of its surroundings during one call: the formatted
    local time, whether the log write succeeds, and what the reads of
    [handleStats] returned. *)
Record HandlerEnv := mkHandlerEnv {
  he_timestamp : bytes;
  he_log_io_ok : bool;
  he_loads : StatsLoad → Z;
}.

(** A response that copies the routing fields of its request, with every
    other field at its default. *)
Definition reply (request : Request) (type : MessageType) (payload : bytes) : Response :=
  {| rs_fd := rq_fd request;
     rs_conn_id := rq_conn_id request;
     rs_version := rq_version request;
     rs_type := type;
     rs_request_id := rq_request_id request;
     rs_status_code := 0;
     rs_payload := payload;
     rs_client_id_to_authenticate := None;
     rs_close_connection := false;
     rs_skip_write := false |}.

(** One call to the control plane's [/auth/check]: the result, or [None] when
    the call throws. *)
Class ControlPlane := control_check : bytes → bytes → option Z → option AuthResult.

Record AuthHandlingResult := mkAuthHandlingResult {
  ah_response : Response;
  ah_outcome : AuthOutcome;
}.

Section Handlers.
Context `{JsonLib}.

(** [makeErrorResponse(request)] *)
Definition makeErrorResponse (request : Request) : Response :=
  reply request ERROR_RESP (lit "{'status':400,'message':'unknown type'}").

(** [makeErrorResponse(request, status, message)] *)
Definition makeErrorResponseMsg (request : Request) (status : Z) (message : bytes)
    : option Response :=
  payload ← json_dump (json_of_pairs [(lit "status", JInteger status);
                                      (lit "message", JString message)]);
  Some (reply request ERROR_RESP payload).

Definition handlePing (request : Request) : Response :=
  reply request PONG (lit "{'status':0,'message':'pong'}").

Definition handleEcho (request : Request) : Response :=
  reply request ECHO_RESP (rq_payload request).

(** The JSON shape LOG_PUSH requires. *)
Definition valid_log_entry (j : json) : bool :=
  is_object j
  && contains (lit "level") j && contains (lit "service") j && contains (lit "message") j
  && from_option is_string false (json_at (lit "level") j)
  && from_option is_string false (json_at (lit "service") j)
  && from_option is_string false (json_at (lit "message") j).

Definition handleLogPush (env : HandlerEnv) (request : Request) (h : HState)
    : option Response * HState :=
  if zlen (rq_payload request) =? 0 then
    (Some (reply request ERROR_RESP (lit "{'status':400,'message':'payload is empty'}")),
     with_stats incrementErrors h)
  else if zlen (rq_payload request) >? 4096 then
    (Some (reply request ERROR_RESP (lit "{'status':400,'message':'payload too large'}")),
     with_stats incrementErrors h)
  else
    match json_read (rq_payload request) with
    | Raised parse_error =>
        (makeErrorResponseMsg request 400 (lit "invalid json"), with_stats incrementErrors h)
    | Raised out_of_range => (None, h)
    | Parsed j =>
      if negb (valid_log_entry j) then
        (makeErrorResponseMsg request 400 (lit "invalid log format"),
         with_stats incrementErrors h)
      else
        let line := he_timestamp env ++ lit " fd=" ++ dec (rq_fd request)
                      ++ lit " request_id=" ++ dec (rq_request_id request)
                      ++ lit " payload=" ++ rq_payload request in
        let '(is_written, log) := append (he_log_io_ok env) line (hs_log h) in
        let h := mkHState (hs_stats h) log in
        if is_written then
          (Some (reply request LOG_ACK (lit "{'status':'success'}")),
           with_stats incrementLogMessages h)
        else
          (Some (reply request ERROR_RESP (lit "{'status':500, 'message':'log write failed.'}")),
           with_stats incrementErrors h)
    end.

(** The members of the STATS report and the read each comes from. *)
Definition stats_members : list (bytes * StatsLoad) :=
  [(lit "total_requests", Load_total_requests);
   (lit "total_logs", Load_total_logs);
   (lit "total_errors", Load_total_errors);
   (lit "total_recv_bytes", Load_read_bytes);
   (lit "total_sent_bytes", Load_write_bytes);
   (lit "active_connections", Load_connections);
   (lit "total_request_queue_backlog", Load_request_queue_size);
   (lit "total_response_queue_backlog", Load_response_queue_size);
   (lit "request_queue_capacity", Load_request_queue_capacity);
   (lit "response_queue_capacity", Load_response_queue_capacity);
   (lit "request_queue_peak", Load_request_queue_peak);
   (lit "response_queue_peak", Load_response_queue_peak);
   (lit "request_queue_rejected", Load_request_queue_rejected);
   (lit "response_queue_rejected", Load_response_queue_rejected);
   (lit "auth_queue_capacity", Load_auth_queue_capacity);
   (lit "auth_queue_backlog", Load_auth_queue_size);
   (lit "auth_queue_peak", Load_auth_queue_peak);
   (lit "auth_queue_rejected", Load_snapshot snap_auth_queue_rejected);
   (lit "auth_in_flight", Load_auth_in_flight);
   (lit "auth_tasks_cancelled_before_start", Load_snapshot snap_auth_tasks_cancelled_before_start);
   (lit "auth_allowed", Load_snapshot snap_auth_allowed);
   (lit "auth_denied", Load_snapshot snap_auth_denied);
   (lit "auth_unavailable", Load_snapshot snap_auth_unavailable);
   (lit "auth_duration_count", Load_snapshot snap_auth_duration_count);
   (lit "auth_duration_total_us", Load_snapshot snap_auth_duration_total_us);
   (lit "response_queue_rejected_normal", Load_snapshot snap_response_queue_rejected_normal);
   (lit "response_queue_rejected_auth", Load_snapshot snap_response_queue_rejected_auth);
   (lit "slow_client_closed", Load_snapshot snap_slow_client_closed);
   (lit "stale_response_dropped", Load_snapshot snap_stale_response_dropped)].

Definition stats_fields (env : HandlerEnv) : list (bytes * Z) :=
  map (λ m, (m.1, he_loads env m.2)) stats_members.

Definition handleStats (env : HandlerEnv) (request : Request) : option Response :=
  payload ← json_dump (json_of_pairs (map (λ kv, (kv.1, JUnsigned kv.2)) (stats_fields env)));
  Some (reply request STATS_RESP payload).

(** [Dispatcher::dispatch] *)
Definition dispatch (env : HandlerEnv) (request : Request) (h : HState)
    : option Response * HState :=
  let h := with_stats incrementRequests h in
  match rq_type request with
  | AUTH =>
      (makeErrorResponseMsg request 500 (lit "AUTH reached normal worker"),
       with_stats incrementErrors h)
  | PING => (Some (handlePing request), h)
  | ECHO => (Some (handleEcho request), h)
  | LOG_PUSH => handleLogPush env request h
  | STATS => (handleStats env request, h)
  | _ => (Some (makeErrorResponse request), h)
  end.

(** [handleAuth].  The first component is the credentials of a well-formed
    AUTH payload; every exception inside the [try] block, the control-plane
    call included, ends in the INVALID_REQUEST denial. *)
Definition auth_credentials (payload : bytes) : option (bytes * bytes) :=
  j ← json_parse payload;
  if negb (is_object j) || negb (contains (lit "client_id") j) || negb (contains (lit "token") j)
  then None
  else
    client_id ← json_at (lit "client_id") j ≫= get_string;
    token ← json_at (lit "token") j ≫= get_string;
    Some (client_id, token).

Definition invalid_auth (request : Request) : AuthHandlingResult :=
  let resp := reply request AUTH_RESP (lit "{'allowed':false,'code':'INVALID_REQUEST'}") in
  {| ah_response :=
       mkResponse (rs_fd resp) (rs_conn_id resp) (rs_version resp) (rs_type resp)
         (rs_request_id resp) 400 (rs_payload resp) None true false;
     ah_outcome := Denied |}.

Definition handleAuth `{ControlPlane} (request : Request) (not_after : option Z) (h : HState)
    : AuthHandlingResult * HState :=
  match auth_credentials (rq_payload request) with
  | None => (invalid_auth request, with_stats incrementErrors h)
  | Some (client_id, token) =>
    match control_check client_id token not_after with
    | None => (invalid_auth request, with_stats incrementErrors h)
    | Some result =>
      if bool_decide (ar_outcome result = Allowed) then
        let resp := reply request AUTH_RESP (lit "{'allowed':true,'code':'OK'}") in
        (mkAuthHandlingResult (set_rs_client_id_to_authenticate (Some client_id) resp) Allowed, h)
      else
        let h := with_stats incrementErrors h in
        let denied := bool_decide (ar_outcome result = Denied) in
        let code := if denied
                    then (if zlen (ar_reason_code result) =? 0 then lit "INVALID_CREDENTIALS"
                          else ar_reason_code result)
                    else lit "AUTH_UNAVAILABLE" in
        match json_dump (json_of_pairs [(lit "allowed", JBoolean false);
                                        (lit "code", JString code)]) with
        | None => (invalid_auth request, with_stats incrementErrors h)
        | Some payload =>
          let resp := reply request AUTH_RESP payload in
          (mkAuthHandlingResult
             (mkResponse (rs_fd resp) (rs_conn_id resp) (rs_version resp) AUTH_RESP
                (rs_request_id resp) (if denied then 401 else 503) payload None true false)
             (ar_outcome result), h)
        end
    end
  end.

End Handlers.

(** ** What the rest of the gateway relies on *)

(** A response answers a request when it carries its routing fields. *)
Definition answers (request : Request) (r : Response) : Prop :=
  rs_fd r = rq_fd request ∧ rs_conn_id r = rq_conn_id request ∧
  rs_version r = rq_version request ∧ rs_request_id r = rq_request_id request ∧
  rs_skip_write r = false.

(** A response of a normal worker never changes the connection's
    authentication state and never closes it. *)
Definition plain (r : Response) : Prop :=
  rs_client_id_to_authenticate r = None ∧ rs_close_connection r = false ∧ rs_type r ≠ AUTH_RESP.

(** The message type of the answer to a request. *)
Definition answer_type (t rt : MessageType) : Prop :=
  match t with
  | PING => rt = PONG
  | ECHO => rt = ECHO_RESP
  | LOG_PUSH => rt = LOG_ACK ∨ rt = ERROR_RESP
  | STATS => rt = STATS_RESP
  | _ => rt = ERROR_RESP
  end.

(** ** Lemmas *)

Lemma reply_answers request t p : answers request (reply request t p).
Proof. done. Qed.

Lemma reply_plain request t p : t ≠ AUTH_RESP → plain (reply request t p).
Proof. done. Qed.

#[export] Hint Resolve reply_answers reply_plain : gateway.

Lemma makeErrorResponseMsg_reply `{JsonLib} request status msg r :
  makeErrorResponseMsg request status msg = Some r → ∃ p, r = reply request ERROR_RESP p.
Proof. unfold makeErrorResponseMsg. intros (p & _ & [= <-])%bind_Some. eauto. Qed.

Lemma handleLogPush_reply `{JsonLib} env request h r h' :
  handleLogPush env request h = (Some r, h') →
  ∃ t p, r = reply request t p ∧ (t = LOG_ACK ∨ t = ERROR_RESP).
Proof.
  unfold handleLogPush, append. intros Hh. repeat case_match; simplify_eq; eauto 6.
  all: match goal with H : makeErrorResponseMsg _ _ _ = Some _ |- _ =>
         apply makeErrorResponseMsg_reply in H as [? ->] end; eauto 6.
Qed.

Lemma dispatch_reply `{JsonLib} env request h r h' :
  dispatch env request h = (Some r, h') →
  ∃ t p, r = reply request t p ∧ answer_type (rq_type request) t.
Proof.
  unfold dispatch, answer_type, handlePing, handleEcho, makeErrorResponse.
  intros Hd. destruct (rq_type request); try (injection Hd as <- _; eauto 6; fail).
  - by eapply handleLogPush_reply.
  - unfold handleStats in Hd. injection Hd as Hd _.
    apply bind_Some in Hd as (p & _ & [= <-]). eauto.
  - injection Hd as Hd _. apply makeErrorResponseMsg_reply in Hd as [? ->]. eauto.
Qed.

Lemma dispatch_safe `{JsonLib} env request h r h' :
  dispatch env request h = (Some r, h') → answers request r ∧ plain r.
Proof.
  intros (t & p & -> & Ht)%dispatch_reply. split; [done|]. apply reply_plain.
  intros ->. unfold answer_type in Ht. by repeat case_match; naive_solver.
Qed.

Lemma handleStats_safe `{JsonLib} env request r :
  handleStats env request = Some r → answers request r ∧ plain r.
Proof. unfold handleStats. by intros (p & _ & [= <-])%bind_Some. Qed.

Lemma auth_credentials_Some `{JsonLib} payload client_id token :
  auth_credentials payload = Some (client_id, token) →
  ∃ j, json_parse payload = Some j ∧ json_at (lit "client_id") j = Some (JString client_id) ∧
       json_at (lit "token") j = Some (JString token).
Proof.
  unfold auth_credentials. intros (j & Hj & Hr)%bind_Some. case_bool; [done|].
  apply bind_Some in Hr as (c & Hc & Hr). apply bind_Some in Hr as (t & Ht & [= -> ->]).
  apply bind_Some in Hc as (jc & Hc & Hc'). apply bind_Some in Ht as (jt & Ht & Ht').
  destruct jc, jt; simplify_eq/=. eauto.
Qed.

(** The credentials a payload yields are valid UTF-8, so they can be
    serialized, and the text yields them again. *)
Lemma credentials_forwarded `{JsonLib} client_id token :
  utf8 client_id → utf8 token →
  ∃ body, json_dump (json_of_pairs [(lit "client_id", JString client_id); (lit "token", JString token)])
            = Some body ∧ auth_credentials body = Some (client_id, token).
Proof.
  intros Hc Ht. set (j := json_of_pairs _).
  assert (Hw : json_wf j).
  { apply json_of_pairs_wf. repeat constructor; simpl; try done; by apply ascii_text_utf8. }
  destruct (json_dump_wf j Hw) as [body Hb]. exists body. split; [done|].
  assert (Hr : json_read body = Parsed j).
  { by rewrite (json_read_dump j body Hw). }
  unfold auth_credentials, json_parse. by rewrite Hr.
Qed.

(** The response of an AUTH worker: an [AUTH_RESP] that answers the request
    and either authenticates a client or closes the connection. *)
Lemma handleAuth_safe `{JsonLib, ControlPlane} request not_after h :
  let '(res, _) := handleAuth request not_after h in
  answers request (ah_response res) ∧ rs_type (ah_response res) = AUTH_RESP ∧
  match rs_client_id_to_authenticate (ah_response res) with
  | Some c => ah_outcome res = Allowed ∧ rs_close_connection (ah_response res) = false
  | None => ah_outcome res ≠ Allowed ∧ rs_close_connection (ah_response res) = true
  end.
Proof.
  unfold handleAuth. repeat case_match; simplify_eq; simpl; bool_facts; split_and!; try done.
Qed.

(** ** Theorems *)

(** Every response of the dispatcher goes back to the connection and
    request it answers: it carries the request's fd, connection id, version
    and request id, has the message type the protocol pairs with the
    request's type, and can neither authenticate nor close the connection. *)
Theorem dispatch_answers `{JsonLib} env request h r h' :
  dispatch env request h = (Some r, h') →
  answers request r ∧ plain r ∧ answer_type (rq_type request) (rs_type r) ∧
  (rq_type request = ECHO → rs_payload r = rq_payload request).
Proof.
  intros Hd. pose proof (dispatch_safe _ _ _ _ _ Hd) as [? ?].
  destruct (dispatch_reply _ _ _ _ _ Hd) as (t & p & -> & ?). split_and!; try done.
  intros E. unfold dispatch in Hd. rewrite E in Hd. injection Hd as _ <- _. done.
Qed.

(** ** Exceptions and the STATS report *)

Lemma makeErrorResponseMsg_total `{JsonLib} request status msg :
  - 2 ^ 63 ≤ status ≤ INT64_MAX → utf8 msg → is_Some (makeErrorResponseMsg request status msg).
Proof.
  intros Hs Hm. unfold makeErrorResponseMsg.
  destruct (json_dump_wf (json_of_pairs [(lit "status", JInteger status); (lit "message", JString msg)]))
    as [p ->]; [|by eexists].
  apply json_of_pairs_wf. repeat constructor; simpl; try done; try (by apply ascii_text_utf8); lia.
Qed.

(** The values read for the report are within their 64 bits. *)
Definition report_ok (env : HandlerEnv) : Prop :=
  Forall (λ kv, 0 ≤ kv.2 ≤ UINT64_MAX) (stats_fields env).

Definition report_json (env : HandlerEnv) : json :=
  json_of_pairs (map (λ kv, (kv.1, JUnsigned kv.2)) (stats_fields env)).

Lemma report_json_wf env : report_ok env → json_wf (report_json env).
Proof.
  intros Hr. apply json_of_pairs_wf, Forall_map. unfold report_ok in Hr.
  assert (Hk : Forall (λ kv : bytes * Z, utf8 kv.1) (stats_fields env)).
  { repeat constructor; by apply ascii_text_utf8. }
  rewrite Forall_forall in *. intros kv Hkv. split; [by apply Hk|]. constructor. by apply Hr.
Qed.

(** C40: The only exception that leaves the dispatcher is the one of a LOG_PUSH
    payload with a number beyond the range of [double], which the JSON parser
    reports as [out_of_range] and [handleLogPush] does not catch; every other
    request is answered, whatever its payload, as long as the counters
    it reads are within their 64 bits. *)
Theorem dispatch_exceptions `{JsonLib} env request h :
  report_ok env →
  (dispatch env request h).1 = None ↔
    rq_type request = LOG_PUSH ∧ 0 < zlen (rq_payload request) ≤ 4096 ∧
    json_read (rq_payload request) = Raised out_of_range.
Proof.
  intros Hrep. assert (Hmsg : ∀ status msg, 0 ≤ status ≤ 500 → ascii_text msg = true →
    makeErrorResponseMsg request status msg ≠ None).
  { intros status msg Hs Hm Hn. destruct (makeErrorResponseMsg_total request status msg) as [r Hr];
      [unfold INT64_MAX; lia|by apply ascii_text_utf8|congruence]. }
  unfold dispatch. destruct (rq_type request) eqn:Et; simpl; try (split; [done|by intros [? _]]).
  - unfold handleLogPush. pose proof (zlen_nonneg (rq_payload request)).
    case_bool; [bool_facts; split; [done|lia]|]. rewrite Z.gtb_ltb.
    case_bool; bool_facts; [split; [done|lia]|].
    destruct (json_read (rq_payload request)) as [j|[|]]; simpl.
    + split; [|by intros (_ & _ & ?)]. case_bool; simpl; [intros Hn; by apply Hmsg in Hn|].
      destruct (append _ _ _) as [[|] log]; done.
    + split; [intros Hn; by apply Hmsg in Hn|by intros (_ & _ & ?)].
    + split; [|done]. intros _. split_and!; [done|lia|lia|done].
  - split; [|by intros [? _]]. unfold handleStats. fold (report_json env).
    destruct (json_dump_wf _ (report_json_wf _ Hrep)) as [p ->]. done.
  - split; [|by intros [? _]]. intros Hn. by apply Hmsg in Hn.
Qed.

(** The answer to STATS, member by member. *)
Lemma handleStats_spec `{JsonLib} env request :
  report_ok env →
  ∃ r j, handleStats env request = Some r ∧ rs_request_id r = rq_request_id request ∧
    json_read (rs_payload r) = Parsed j ∧
    ∀ name load, (name, load) ∈ stats_members → json_at name j = Some (JUnsigned (he_loads env load)).
Proof.
  intros Hr. pose proof (report_json_wf env Hr) as Hw. unfold handleStats. fold (report_json env).
  destruct (json_dump_wf _ Hw) as [p Hp]. rewrite Hp. exists (reply request STATS_RESP p), (canon (report_json env)).
  split; [done|]. split; [done|]. split.
  - by apply (json_read_dump (report_json env)).
  - intros name load Hin. change (canon (report_json env)) with (report_json env).
    apply json_of_pairs_at.
    + change (NoDup ((map (λ kv : bytes * Z, (kv.1, JUnsigned kv.2)) (stats_fields env)).*1)).
      unfold stats_fields. rewrite <- !list_fmap_compose. simpl.
      apply (bool_decide_unpack _). by vm_compute.
    + unfold stats_fields. rewrite map_map. apply list_elem_of_fmap. by exists (name, load).
Qed.

(** The STATS report is faithful: the payload of the answer is a JSON text
    that parses to an object in which every counter and gauge has, under its
    name, exactly the value read for it. *)
Theorem stats_report_faithful `{JsonLib} env request :
  report_ok env →
  ∃ r j, handleStats env request = Some r ∧ rs_request_id r = rq_request_id request ∧
    json_read (rs_payload r) = Parsed j ∧
    ∀ name load, (name, load) ∈ stats_members → json_at name j = Some (JUnsigned (he_loads env load)).
Proof. apply handleStats_spec. Qed.

(** Where an authenticated identity comes from. *)
(** An approval is for the credentials of the request. *)
Lemma handleAuth_granted `{JsonLib, ControlPlane} request not_after h c :
  rs_client_id_to_authenticate (ah_response (handleAuth request not_after h).1) = Some c →
  ∃ token result, auth_credentials (rq_payload request) = Some (c, token) ∧
    control_check c token not_after = Some result ∧ ar_outcome result = Allowed.
Proof.
  unfold handleAuth. destruct (auth_credentials (rq_payload request)) as [[client_id token]|]; [|done].
  destruct (control_check client_id token not_after) as [result|] eqn:Ek; [|done].
  destruct (bool_decide (ar_outcome result = Allowed)) eqn:Ea; [|by repeat case_match].
  intros [= <-]. bool_facts. eauto.
Qed.

Lemma handleAuth_authenticates `{JsonLib, ControlPlane} request not_after h c :
  rs_client_id_to_authenticate (ah_response (handleAuth request not_after h).1) = Some c →
  ∃ j token result,
    json_parse (rq_payload request) = Some j ∧
    json_at (lit "client_id") j = Some (JString c) ∧
    json_at (lit "token") j = Some (JString token) ∧
    control_check c token not_after = Some result ∧ ar_outcome result = Allowed.
Proof.
  intros (token & result & Hc & ? & ?)%handleAuth_granted.
  destruct (auth_credentials_Some _ _ _ Hc) as (j & ? & ? & ?). eauto 10.
Qed.

(** Authentication fails closed.  The gateway authenticates a client only
    if the payload is a JSON object with string members [client_id] and
    [token] and the control plane allowed exactly that pair; in every other
    case (malformed payload, denial, unavailability, any exception) the
    response closes the connection. *)
Theorem handleAuth_fail_closed `{JsonLib, ControlPlane} request not_after h :
  let res := (handleAuth request not_after h).1 in
  let r := ah_response res in
  answers request r ∧ rs_type r = AUTH_RESP ∧
  (∀ c, rs_client_id_to_authenticate r = Some c ↔
     ∃ j token result,
       json_parse (rq_payload request) = Some j ∧
       json_at (lit "client_id") j = Some (JString c) ∧
       json_at (lit "token") j = Some (JString token) ∧
       control_check c token not_after = Some result ∧ ar_outcome result = Allowed) ∧
  (rs_client_id_to_authenticate r = None → rs_close_connection r = true ∧ ah_outcome res ≠ Allowed).
Proof.
  pose proof (handleAuth_safe request not_after h) as Hs.
  destruct (handleAuth request not_after h) as [res h'] eqn:E. simpl in *.
  destruct Hs as (? & ? & Hc). split_and!; [done|done| |by intros E'; rewrite E' in Hc; destruct Hc].
  intros c. split.
  - intros Er. apply (handleAuth_authenticates request not_after h). by rewrite E.
  - intros (j & token & result & Hj & Hcid & Htok & Hck & Ho).
    unfold handleAuth, auth_credentials in E. rewrite Hj in E. simpl in E.
    assert (is_object j = true) as Hobj by (by destruct j).
    assert (contains (lit "client_id") j = true) as Hcc by (apply contains_at; eauto).
    assert (contains (lit "token") j = true) as Hct by (apply contains_at; eauto).
    rewrite Hobj, Hcc, Hct, Hcid, Htok in E. simpl in E.
    rewrite Hck, Ho in E. by injection E as <- _.
Qed.

(** LOG_PUSH acknowledges only what was written: a LOG_ACK means that the
    line carrying the payload was appended to the log, any other answer
    leaves the log's lines as they were, and once the log stream has failed
    no later push is acknowledged. *)
Theorem handleLogPush_durable `{JsonLib} env request h r h' :
  handleLogPush env request h = (Some r, h') →
  (rs_type r = LOG_ACK →
     ls_stream_ok (hs_log h) = true ∧
     ∃ prefix, ls_lines (hs_log h') = ls_lines (hs_log h) ++ [prefix ++ rq_payload request]) ∧
  (rs_type r ≠ LOG_ACK → ls_lines (hs_log h') = ls_lines (hs_log h)) ∧
  (ls_stream_ok (hs_log h) = false → ls_stream_ok (hs_log h') = false ∧ rs_type r ≠ LOG_ACK).
Proof.
  unfold handleLogPush, append. intros Hh.
  destruct (zlen _ =? 0); [by injection Hh as <- <-|].
  destruct (zlen _ >? 4096); [by injection Hh as <- <-|].
  destruct (json_read _) as [j|[|]].
  2:{ injection Hh as Hr <-. by apply makeErrorResponseMsg_reply in Hr as [? ->]. }
  2:{ done. }
  destruct (negb (valid_log_entry j)).
  { injection Hh as Hr <-. by apply makeErrorResponseMsg_reply in Hr as [? ->]. }
  destruct (negb _ && _); [by injection Hh as <- <-|].
  destruct (ls_stream_ok (hs_log h)), (he_log_io_ok env); simpl in Hh; injection Hh as <- <-; simpl;
    split_and!; try done.
  intros _. split; [done|].
  exists (he_timestamp env ++ lit " fd=" ++ dec (rq_fd request) ++ lit " request_id="
            ++ dec (rq_request_id request) ++ lit " payload="). by rewrite <- !app_assoc.
Qed.

(** ** Witnesses *)

(** The modelled JSON library, for evaluating the handlers. *)
Definition sample_json : JsonLib := nlohmann.

Definition sample_env : HandlerEnv :=
  mkHandlerEnv (lit "[2026-01-01 00:00:00]") true (λ _, 0).
Definition sample_hstate : HState := mkHState newStats (newLogStorage None false true true).

Lemma dispatch_answers_witness :
  let request := mkRequest 5 7 1 ECHO 42 (lit "hello") in
  let r := reply request ECHO_RESP (lit "hello") in
  answers request r ∧ plain r ∧ answer_type ECHO (rs_type r) ∧
  (rq_type request = ECHO → rs_payload r = lit "hello").
Proof.
  intros request r.
  refine (@dispatch_answers sample_json sample_env request sample_hstate r
            (with_stats incrementRequests sample_hstate) _).
  reflexivity.
Defined.

Lemma handleLogPush_durable_witness :
  let request := mkRequest 5 7 1 LOG_PUSH 42 (lit "{'level':'INFO','service':'s','message':'m'}") in
  let '(r, h') := @handleLogPush sample_json sample_env request sample_hstate in
  (LOG_ACK = LOG_ACK →
     ls_stream_ok (hs_log sample_hstate) = true ∧
     ∃ prefix, ls_lines (hs_log h') = ls_lines (hs_log sample_hstate) ++ [prefix ++ lit "{'level':'INFO','service':'s','message':'m'}"]).
Proof.
  intros request.
  refine (proj1 (@handleLogPush_durable sample_json sample_env request sample_hstate
    (reply request LOG_ACK (lit "{'status':'success'}"))
    (@handleLogPush sample_json sample_env request sample_hstate).2 _)).
  reflexivity.
Defined.

Lemma dispatch_exceptions_witness :
  let request := mkRequest 5 7 1 LOG_PUSH 42 (lit "[1e999]") in
  (@dispatch sample_json sample_env request sample_hstate).1 = None ↔
    LOG_PUSH = LOG_PUSH ∧ 0 < zlen (lit "[1e999]") ≤ 4096 ∧
    @json_read sample_json (lit "[1e999]") = Raised out_of_range.
Proof.
  refine (@dispatch_exceptions sample_json sample_env
            (mkRequest 5 7 1 LOG_PUSH 42 (lit "[1e999]")) sample_hstate _).
  apply Forall_forall. intros kv Hkv. vm_compute in Hkv.
  repeat (apply elem_of_cons in Hkv as [->|Hkv]; [vm_compute; by split|]). by apply elem_of_nil in Hkv.
Defined.

Lemma stats_report_faithful_witness :
  ∃ r j, @handleStats sample_json sample_env (mkRequest 5 7 1 STATS 42 []) = Some r ∧ rs_request_id r = 42 ∧
    @json_read sample_json (rs_payload r) = Parsed j ∧
    ∀ name load, (name, load) ∈ stats_members → json_at name j = Some (JUnsigned (he_loads sample_env load)).
Proof.
  refine (@stats_report_faithful sample_json sample_env (mkRequest 5 7 1 STATS 42 []) _).
  apply Forall_forall. intros kv Hkv. vm_compute in Hkv.
  repeat (apply elem_of_cons in Hkv as [->|Hkv]; [vm_compute; by split|]). by apply elem_of_nil in Hkv.
Defined.
