(* ===== verification/Server.v ===== *)
(** * The TCP server: state and operations

    Models [include/net/TcpServer.hpp], [include/net/Connection.hpp],
    [include/business/AuthTask.hpp] and [src/net/TcpServer.cpp].

    The reactor thread's code is written as functions on the record [Server];
    one call of an operating-system function takes its answer from the
    environment.  The other threads (normal workers, AUTH workers, the
    configuration puller, callers of [stop], the signal handler) are modelled
    by their atomic actions ([run_action]).  They interleave with the reactor
    at every access of the reactor to shared state: [sync] runs the actions
    the schedule places there.  Between two such accesses the reactor only
    touches state that no other thread reads or writes ([connections_],
    [rate_limit_windows_], the descriptors), so these are all the
    interleavings that matter.  The test hooks under [#ifndef NDEBUG] are in
    [Hooks]; the debug assertion on the work accounting is the event
    [OAssertFailed]. *)

From S2P Require Import Prelude Text Json Protocol BlockQueue Notifier ControlTypes Stats RuntimeConfig.
From S2P Require Import Logger Handlers.
#[local] Open Scope Z_scope.

(** ** Data *)

Inductive ServerState := RUNNING | DRAINING | STOPPED.

#[export] Instance ServerState_eq_dec : EqDecision ServerState.
Proof. solve_decision. Defined.

Inductive ResponseProducer := NormalWorker | AuthWorker.
Inductive ResponseOrigin := Local_ | Worker_.

#[export] Instance ResponseProducer_eq_dec : EqDecision ResponseProducer.
Proof. solve_decision. Defined.

(** A [std::shared_ptr<AuthCancellation>] is the address of its cell, [None]
    when empty. *)
Record Connection := mkConnection {
  c_fd : Z;
  c_conn_id : Z;
  c_input_buffer : bytes;
  c_output_buffer : bytes;
  c_write_offset : Z;
  c_client_id : bytes;
  c_authenticated : bool;
  c_auth_pending : bool;
  c_closing : bool;
  c_read_eof : bool;
  c_in_flight_work : Z;
  c_auth_cancellation : option nat;
}.

#[export] Instance eta_Connection : Eta Connection := fun s =>
  mkConnection (c_fd s) (c_conn_id s) (c_input_buffer s) (c_output_buffer s)
    (c_write_offset s) (c_client_id s) (c_authenticated s) (c_auth_pending s)
    (c_closing s) (c_read_eof s) (c_in_flight_work s) (c_auth_cancellation s).

Definition set_c_fd : Z → Connection → Connection := ltac:(setter c_fd).
Definition set_c_conn_id : Z → Connection → Connection := ltac:(setter c_conn_id).
Definition set_c_input_buffer : bytes → Connection → Connection := ltac:(setter c_input_buffer).
Definition set_c_output_buffer : bytes → Connection → Connection := ltac:(setter c_output_buffer).
Definition set_c_write_offset : Z → Connection → Connection := ltac:(setter c_write_offset).
Definition set_c_client_id : bytes → Connection → Connection := ltac:(setter c_client_id).
Definition set_c_authenticated : bool → Connection → Connection := ltac:(setter c_authenticated).
Definition set_c_auth_pending : bool → Connection → Connection := ltac:(setter c_auth_pending).
Definition set_c_closing : bool → Connection → Connection := ltac:(setter c_closing).
Definition set_c_read_eof : bool → Connection → Connection := ltac:(setter c_read_eof).
Definition set_c_in_flight_work : Z → Connection → Connection := ltac:(setter c_in_flight_work).
Definition set_c_auth_cancellation : option nat → Connection → Connection := ltac:(setter c_auth_cancellation).

Definition newConnection (fd conn_id : Z) : Connection :=
  mkConnection fd conn_id [] [] 0 (lit "client_" ++ dec conn_id) false false false false 0 None.

(** [ConnectionKey]: the identity of a connection across descriptor reuse. *)
Definition conn_key (c : Connection) : Z * Z := (c_fd c, c_conn_id c).
Definition request_key (r : Request) : Z * Z := (rq_fd r, rq_conn_id r).
Definition response_key (r : Response) : Z * Z := (rs_fd r, rs_conn_id r).

Record AuthTask := mkAuthTask {
  at_request : Request;
  at_cancellation : nat;
}.

Definition task_key (t : AuthTask) : Z * Z := request_key (at_request t).

(** [makeAuthTask] *)
Definition makeAuthTask (request : Request) (cancellation : option nat) : option AuthTask :=
  match cancellation with
  | Some a => if bool_decide (rq_type request = AUTH) then Some (mkAuthTask request a) else None
  | None => None
  end.

Record RateLimitWindow := mkWindow {
  rw_started_at : Z;
  rw_count : Z;
}.

(** Where a worker thread is between two atomic actions. *)
Inductive WorkerPC :=
  | WIdle                      (* about to pop *)
  | WNormal (r : Request)      (* about to dispatch *)
  | WStats (r : Request) (loads : list (StatsLoad * Z))  (* in handleStats, with what it has read *)
  | WCheck (t : AuthTask)      (* about to test the cancellation flag *)
  | WAuth (t : AuthTask)       (* in the control-plane call *)
  | WPush (r : Response)       (* in enqueueWorkerResponse, about to push *)
  | WReject (key : Z * Z)      (* the push was refused *)
  | WNotify                    (* about to notify the reactor *)
  | WLeave                     (* AUTH worker: the in-flight guard ends *)
  | WExit                      (* pop returned false *)
  | WLastStop                  (* last producer: about to stop the response queue *)
  | WLastNotify
  | WDone.

Record Worker := mkWorker {
  w_kind : ResponseProducer;
  w_pc : WorkerPC;
}.

(** What the reactor has observably done. *)
Inductive Obs :=
  | OAccept (fd conn_id : Z)
  | OClose (fd conn_id : Z)
  | ORecv (conn_id : Z) (b : bytes)
  | OSend (conn_id : Z) (b : bytes)
  | OAppend (conn_id : Z) (r : Response)
  | OAuthenticated (conn_id : Z) (client_id : bytes)
  | OAdmit (r : Request)
  | OAdmitAuth (r : Request)
  | OAnswer (conn_id request_id : Z)  (* a worker's response is matched to admitted work *)
  | OAssertFailed.

Record Server := mkServer {
  port_ : Z;
  listen_fd_ : Z;
  epfd_ : Z;
  signal_stop_requested_ : bool;
  state_ : ServerState;
  started_ : bool;
  shutdown_finished_ : bool;
  stop_requested_ : bool;
  response_producers_remaining_ : Z;
  auth_in_flight_ : Z;
  shutdown_deadline_ : Z;  (* nanoseconds of the steady clock *)
  shutdown_timeout_ : Z;  (* milliseconds *)
  configured_worker_count_ : Z;
  configured_auth_worker_count_ : Z;
  next_conn_id_ : Z;
  request_queue_ : BlockQueue Request;
  auth_queue_ : BlockQueue AuthTask;
  response_queue_ : BlockQueue Response;
  notifier_ : ReactorNotifier;
  rejected_response_connections_ : gset (Z * Z);
  connections_ : gmap Z Connection;
  workers_ : list Worker;  (* workers_ followed by auth_workers_ *)
  runtime_config_ : RuntimeConfig;
  rate_limit_windows_ : gmap bytes RateLimitWindow;
  puller_busy_ : bool;  (* the configuration puller is in fetchConfig *)
  logger_ : Logger;  (* the state of the logger *)
  hstate_ : HState;  (* StatsManager and LogStorage, the process-wide singletons *)
  cancellations_ : list bool;  (* the AuthCancellation cells, by address *)
  ready_file_ : bool;  (* whether the readiness file exists *)
  k_interest : gmap Z Z;  (* kernel: the epoll interest list *)
  k_open : gset Z;  (* kernel: the descriptors the reactor holds open *)
  k_ticks : nat;  (* how many environment answers were used *)
  trace_ : list Obs;  (* what the reactor has done, oldest first *)
}.

#[export] Instance eta_Server : Eta Server := fun s =>
  mkServer (port_ s) (listen_fd_ s) (epfd_ s) (signal_stop_requested_ s)
    (state_ s) (started_ s) (shutdown_finished_ s) (stop_requested_ s)
    (response_producers_remaining_ s) (auth_in_flight_ s) (shutdown_deadline_ s) (shutdown_timeout_ s)
    (configured_worker_count_ s) (configured_auth_worker_count_ s) (next_conn_id_ s) (request_queue_ s)
    (auth_queue_ s) (response_queue_ s) (notifier_ s) (rejected_response_connections_ s)
    (connections_ s) (workers_ s) (runtime_config_ s) (rate_limit_windows_ s) (puller_busy_ s) (logger_ s)
    (hstate_ s) (cancellations_ s) (ready_file_ s) (k_interest s)
    (k_open s) (k_ticks s) (trace_ s).

Definition set_port_ : Z → Server → Server := ltac:(setter port_).
Definition set_listen_fd_ : Z → Server → Server := ltac:(setter listen_fd_).
Definition set_epfd_ : Z → Server → Server := ltac:(setter epfd_).
Definition set_signal_stop_requested_ : bool → Server → Server := ltac:(setter signal_stop_requested_).
Definition set_state_ : ServerState → Server → Server := ltac:(setter state_).
Definition set_started_ : bool → Server → Server := ltac:(setter started_).
Definition set_shutdown_finished_ : bool → Server → Server := ltac:(setter shutdown_finished_).
Definition set_stop_requested_ : bool → Server → Server := ltac:(setter stop_requested_).
Definition set_response_producers_remaining_ : Z → Server → Server := ltac:(setter response_producers_remaining_).
Definition set_auth_in_flight_ : Z → Server → Server := ltac:(setter auth_in_flight_).
Definition set_shutdown_deadline_ : Z → Server → Server := ltac:(setter shutdown_deadline_).
Definition set_shutdown_timeout_ : Z → Server → Server := ltac:(setter shutdown_timeout_).
Definition set_configured_worker_count_ : Z → Server → Server := ltac:(setter configured_worker_count_).
Definition set_configured_auth_worker_count_ : Z → Server → Server := ltac:(setter configured_auth_worker_count_).
Definition set_next_conn_id_ : Z → Server → Server := ltac:(setter next_conn_id_).
Definition set_request_queue_ : BlockQueue Request → Server → Server := ltac:(setter request_queue_).
Definition set_auth_queue_ : BlockQueue AuthTask → Server → Server := ltac:(setter auth_queue_).
Definition set_response_queue_ : BlockQueue Response → Server → Server := ltac:(setter response_queue_).
Definition set_notifier_ : ReactorNotifier → Server → Server := ltac:(setter notifier_).
Definition set_rejected_response_connections_ : gset (Z * Z) → Server → Server := ltac:(setter rejected_response_connections_).
Definition set_connections_ : gmap Z Connection → Server → Server := ltac:(setter connections_).
Definition set_workers_ : list Worker → Server → Server := ltac:(setter workers_).
Definition set_runtime_config_ : RuntimeConfig → Server → Server := ltac:(setter runtime_config_).
Definition set_rate_limit_windows_ : gmap bytes RateLimitWindow → Server → Server := ltac:(setter rate_limit_windows_).
Definition set_puller_busy_ : bool → Server → Server := ltac:(setter puller_busy_).
Definition set_logger_ : Logger → Server → Server := ltac:(setter logger_).
Definition set_hstate_ : HState → Server → Server := ltac:(setter hstate_).
Definition set_cancellations_ : list bool → Server → Server := ltac:(setter cancellations_).
Definition set_ready_file_ : bool → Server → Server := ltac:(setter ready_file_).
Definition set_k_interest : gmap Z Z → Server → Server := ltac:(setter k_interest).
Definition set_k_open : gset Z → Server → Server := ltac:(setter k_open).
Definition set_k_ticks : nat → Server → Server := ltac:(setter k_ticks).
Definition set_trace_ : list Obs → Server → Server := ltac:(setter trace_).

(** Shorthands for the counters and the trace. *)
Definition stat (f : StatsManager → StatsManager) (s : Server) : Server :=
  set_hstate_ (with_stats f (hstate_ s)) s.
Definition emit (e : Obs) (s : Server) : Server := set_trace_ (trace_ s ++ [e]) s.
Definition put_connection (c : Connection) (s : Server) : Server :=
  set_connections_ (<[c_fd c := c]> (connections_ s)) s.

(** ** Responses built by the server itself *)

Definition makeOverloadResponse (request : Request) (close_connection : bool) : Response :=
  mkResponse (rq_fd request) (rq_conn_id request) (rq_version request) ERROR_RESP
    (rq_request_id request) 503 (lit "{'status':503,'message':'gateway overloaded'}")
    None close_connection false.

Definition makeInternalErrorResponse (request : Request) : Response :=
  mkResponse (rq_fd request) (rq_conn_id request) (rq_version request) ERROR_RESP
    (rq_request_id request) 500 (lit "{'status':500,'message':'internal server error'}")
    None false false.

Definition makeInternalAuthErrorResponse (request : Request) : Response :=
  let response := makeInternalErrorResponse request in
  let response := set_rs_type AUTH_RESP response in
  let response := set_rs_payload (lit "{'allowed':false,'code':'INTERNAL_ERROR'}") response in
  set_rs_close_connection true response.

(** ** Construction *)

(** The main constructor; [None] when it throws.  (The control-plane client
    it owns is modelled on its own.) *)
Definition newServer (port request_queue_capacity response_queue_capacity shutdown_timeout_ms
    worker_count auth_worker_count auth_queue_capacity : Z) (log : LogStorage) (logger : Logger) : option Server :=
  if (auth_worker_count =? 0) || (auth_worker_count >? 16) then None
  else if (auth_queue_capacity =? 0) || (auth_queue_capacity >? 65536) then None
  else Some
    {| port_ := port; listen_fd_ := -1; epfd_ := -1; signal_stop_requested_ := false;
       state_ := STOPPED; started_ := false; shutdown_finished_ := false;
       stop_requested_ := false; response_producers_remaining_ := 0; auth_in_flight_ := 0;
       shutdown_deadline_ := 0; shutdown_timeout_ := Z.max shutdown_timeout_ms 1;
       configured_worker_count_ := worker_count;
       configured_auth_worker_count_ := auth_worker_count;
       next_conn_id_ := 1;
       request_queue_ := newBlockQueue (Z.max request_queue_capacity 1);
       auth_queue_ := newBlockQueue (Z.max auth_queue_capacity 1);
       response_queue_ := newBlockQueue (Z.max response_queue_capacity 1);
       notifier_ := newNotifier; rejected_response_connections_ := ∅; connections_ := ∅;
       workers_ := []; runtime_config_ := defaultRuntimeConfig; rate_limit_windows_ := ∅;
       puller_busy_ := false; logger_ := logger;
       hstate_ := mkHState newStats log; cancellations_ := []; ready_file_ := false;
       k_interest := ∅; k_open := ∅; k_ticks := 0; trace_ := [] |}.

(** ** The other threads *)

(** What one action of a worker observes: the time stamp and outcome of a log
    write, the control plane's answer, whether the handler throws something
    it does not itself turn into a response, and the measured duration. *)
Record WorkerEnv := mkWorkerEnv {
  we_timestamp : bytes;
  we_log_io_ok : bool;
  we_control : ControlPlane;
  we_throws : bool;
  we_duration_us : Z;
  we_interrupts : nat;
}.

Inductive Action :=
  | AWorker (i : nat) (env : WorkerEnv)        (* worker i's next atomic action *)
  | APullBegin                                 (* the configuration puller starts a round *)
  | APullEnd (fetched : option RuntimeConfig)  (* and ends it *)
  | AStopRequest                               (* stop(): the flag *)
  | ASignal                                    (* the signal handler: the flag *)
  | ANotify (interrupts : nat).                (* their wake-up of the reactor *)

Section Server.
Context `{JsonLib}.

(** What a read of [handleStats] returns: the getters of [StatsManager], and
    [getRequestQueueSize] and the like of the server. *)
Definition load_value (load : StatsLoad) (s : Server) : Z :=
  let stats := hs_stats (hstate_ s) in
  match load with
  | Load_total_requests => getTotalRequests stats
  | Load_total_logs => getTotalLogMessages stats
  | Load_total_errors => getTotalErrors stats
  | Load_read_bytes => getReadBytes stats
  | Load_write_bytes => getWriteBytes stats
  | Load_connections => getConnections stats
  | Load_request_queue_size => size (request_queue_ s)
  | Load_response_queue_size => size (response_queue_ s)
  | Load_request_queue_capacity => capacity (request_queue_ s)
  | Load_response_queue_capacity => capacity (response_queue_ s)
  | Load_request_queue_peak => peakSize (request_queue_ s)
  | Load_response_queue_peak => peakSize (response_queue_ s)
  | Load_request_queue_rejected => getRequestQueueRejected stats
  | Load_response_queue_rejected => getResponseQueueRejected stats
  | Load_snapshot member => snapshot_load member stats
  | Load_auth_queue_size => size (auth_queue_ s)
  | Load_auth_queue_capacity => capacity (auth_queue_ s)
  | Load_auth_queue_peak => peakSize (auth_queue_ s)
  | Load_auth_in_flight => auth_in_flight_ s
  end.

(** The value that a read returned. *)
Definition loaded (loads : list (StatsLoad * Z)) (load : StatsLoad) : Z :=
  default 0 (snd <$> List.find (fun lv => bool_decide (lv.1 = load)) loads).

Definition notify_reactor (interrupts : nat) (s : Server) : Server :=
  set_notifier_ (notify interrupts (notifier_ s)).2 s.

Definition set_pc (i : nat) (pc : WorkerPC) (s : Server) : Server :=
  set_workers_ (alter (fun w => mkWorker (w_kind w) pc) i (workers_ s)) s.

(** [normalWorkerLoop] and [authWorkerLoop]: the next atomic action of worker
    [i], with [enqueueWorkerResponse] and [onResponseProducerExited] inlined
    at their atomic actions ([WPush] to [WNotify], [WExit] to [WLastNotify]). *)

Definition worker_pop (i : nat) (kind : ResponseProducer) (s : Server) : Server :=
  match kind with
  | NormalWorker =>
      match pop (request_queue_ s) with
      | Some (Some r, q) => set_pc i (WNormal r) (set_request_queue_ q s)
      | Some (None, _) => set_pc i WExit s
      | None => s
      end
  | AuthWorker =>
      match pop (auth_queue_ s) with
      | Some (Some t, q) => set_pc i (WCheck t) (set_auth_queue_ q s)
      | Some (None, _) => set_pc i WExit s
      | None => s
      end
  end.

(** The response of the handler, or the one of the [catch] clauses. *)
Definition worker_respond (i : nat) (r : Request) (resp : option Response) (s : Server) : Server :=
  match resp with
  | Some resp => set_pc i (WPush resp) s
  | None => set_pc i (WPush (makeInternalErrorResponse r)) (stat incrementErrors s)
  end.

(** [Dispatcher::dispatch]; for STATS its first part, up to the call of
    [handleStats], whose reads are actions of their own. *)
Definition worker_dispatch (i : nat) (env : WorkerEnv) (r : Request) (s : Server) : Server :=
  if negb (we_throws env) && bool_decide (rq_type r = STATS)
  then set_pc i (WStats r []) (stat incrementRequests s)
  else
    let '(resp, h) :=
      if we_throws env then (None, hstate_ s)
      else dispatch (mkHandlerEnv (we_timestamp env) (we_log_io_ok env) (loaded [])) r (hstate_ s) in
    worker_respond i r resp (set_hstate_ h s).

(** [handleStats]: one read, or the response when all were made. *)
Definition worker_stats (i : nat) (env : WorkerEnv) (r : Request) (loads : list (StatsLoad * Z)) (s : Server)
    : Server :=
  match stats_order !! length loads with
  | Some load => set_pc i (WStats r (loads ++ [(load, load_value load s)])) s
  | None =>
      let resp :=
        if we_throws env then None
        else handleStats (mkHandlerEnv (we_timestamp env) (we_log_io_ok env) (loaded loads)) r in
      worker_respond i r resp s
  end.

(** The constructor and the destructor of [AtomicCounterGuard]. *)
Definition AtomicCounterGuard_enter (counter : Z) : Z := u64 (counter + 1).
Definition AtomicCounterGuard_leave (counter : Z) : Z := u64 (counter - 1).

Definition worker_check (i : nat) (t : AuthTask) (s : Server) : Server :=
  if default false (cancellations_ s !! at_cancellation t)
  then set_pc i WIdle (stat incrementAuthTaskCancelledBeforeStart s)
  else
    let s := set_auth_in_flight_ (AtomicCounterGuard_enter (auth_in_flight_ s)) s in
    set_pc i (WAuth t) (stat incrementRequests s).

Definition worker_auth (i : nat) (env : WorkerEnv) (t : AuthTask) (s : Server) : Server :=
  if we_throws env then
    let s := stat incrementErrors s in
    let s := stat (recordAuthResult Unavailable (we_duration_us env)) s in
    set_pc i (WPush (makeInternalAuthErrorResponse (at_request t))) s
  else
    let not_after :=
      if bool_decide (state_ s = RUNNING) then None else Some (shutdown_deadline_ s) in
    let '(handled, h) := @handleAuth _ (we_control env) (at_request t) not_after (hstate_ s) in
    let s := set_hstate_ h s in
    let s := stat (recordAuthResult (ah_outcome handled) (we_duration_us env)) s in
    set_pc i (WPush (ah_response handled)) s.

Definition worker_push (i : nat) (kind : ResponseProducer) (r : Response) (s : Server) : Server :=
  match push r (response_queue_ s) with
  | (PushOK, q) => set_pc i WNotify (set_response_queue_ q s)
  | (_, q) =>
      let s := set_response_queue_ q s in
      let s := stat incrementErrors s in
      let s := match kind with
               | AuthWorker => stat incrementResponseQueueRejectedAuth s
               | NormalWorker => stat incrementResponseQueueRejectedNormal s
               end in
      set_pc i (WReject (response_key r)) s
  end.

Definition worker_exit (i : nat) (s : Server) : Server :=
  let old := response_producers_remaining_ s in
  let s := set_response_producers_remaining_ (u32 (old - 1)) s in
  set_pc i (if old =? 1 then WLastStop else WDone) s.

Definition worker_step (i : nat) (env : WorkerEnv) (s : Server) : Server :=
  match workers_ s !! i with
  | None => s
  | Some (mkWorker kind pc) =>
    match pc with
    | WIdle => worker_pop i kind s
    | WNormal r => worker_dispatch i env r s
    | WStats r loads => worker_stats i env r loads s
    | WCheck t => worker_check i t s
    | WAuth t => worker_auth i env t s
    | WPush r => worker_push i kind r s
    | WReject key =>
        set_pc i WNotify
          (set_rejected_response_connections_ ({[key]} ∪ rejected_response_connections_ s) s)
    | WNotify =>
        set_pc i (match kind with AuthWorker => WLeave | NormalWorker => WIdle end)
          (notify_reactor (we_interrupts env) s)
    | WLeave => set_pc i WIdle (set_auth_in_flight_ (AtomicCounterGuard_leave (auth_in_flight_ s)) s)
    | WExit => worker_exit i s
    | WLastStop => set_pc i WLastNotify (set_response_queue_ (stop (response_queue_ s)) s)
    | WLastNotify => set_pc i WDone (notify_reactor (we_interrupts env) s)
    | WDone => s
    end
  end.

(** [configPullerLoop]: a round starts while the server is [RUNNING], and
    ends with the configuration [fetchConfig] produced, if it succeeded. *)
Definition config_pull_begin (s : Server) : Server :=
  if bool_decide (state_ s = RUNNING) then set_puller_busy_ true s else s.

Definition config_pull_end (fetched : option RuntimeConfig) (s : Server) : Server :=
  if puller_busy_ s then
    let s := set_puller_busy_ false s in
    match fetched with
    | Some config =>
        let '(applied, config) := applyRuntimeConfigIfNewer (runtime_config_ s) config in
        let s := set_runtime_config_ config s in
        if applied
        then set_logger_ (setGatewayLogLevel (log_level config) (logger_ s)) s
        else s
    | None => s
    end
  else s.

Definition run_action (a : Action) (s : Server) : Server :=
  match a with
  | AWorker i env => worker_step i env s
  | APullBegin => config_pull_begin s
  | APullEnd fetched => config_pull_end fetched s
  | AStopRequest => set_stop_requested_ true s
  | ASignal => set_signal_stop_requested_ true s
  | ANotify interrupts => notify_reactor interrupts s
  end.

Definition run_actions (l : list Action) (s : Server) : Server :=
  fold_left (fun s a => run_action a s) l s.

(** ** The environment of the reactor

    The answer to the [n]-th use of the environment: the steady clock's
    value, whether an [epoll_ctl] and the [unlink] of the readiness file
    succeed, and the actions other threads perform before the reactor's next
    access to shared state. *)
Record Env := mkEnv {
  clock : nat → Z;
  ctl_ok : nat → bool;
  unlink_ok : nat → bool;
  sched : nat → list Action;
}.

Context (E : Env).

Definition tick (s : Server) : Server := set_k_ticks (S (k_ticks s)) s.

Definition sync (s : Server) : Server :=
  tick (run_actions (sched E (k_ticks s)) s).

(** [steady_clock::now()] *)
Definition now (s : Server) : Z * Server := (clock E (k_ticks s), tick s).

(** Epoll event bits. *)
Definition EPOLLIN : Z := 1.
Definition EPOLLOUT : Z := 4.
Definition EPOLLERR : Z := 8.
Definition EPOLLHUP : Z := 16.
Definition EPOLLRDHUP : Z := 8192.
Definition EPOLLET : Z := 2147483648.
Definition CLIENT_BASE_EVENTS : Z := Z.lor EPOLLET EPOLLRDHUP.

Definition has_flag (flags bits : Z) : bool := negb (Z.land flags bits =? 0).

(** ** Connections: queries *)

Definition connectionEvents (s : Server) (c : Connection) : Z :=
  let events := CLIENT_BASE_EVENTS in
  let events :=
    if bool_decide (state_ s = RUNNING) && negb (c_closing c) && negb (c_read_eof c)
    then Z.lor events EPOLLIN else events in
  if c_write_offset c <? zlen (c_output_buffer c) then Z.lor events EPOLLOUT else events.

Definition canCloseAfterDrain (s : Server) (c : Connection) : bool :=
  let output_empty := c_write_offset c >=? zlen (c_output_buffer c) in
  let drain_requested :=
    c_closing c || c_read_eof c || bool_decide (state_ s = DRAINING) in
  drain_requested && (c_in_flight_work c =? 0) && output_empty.

Definition authenticated_as (client_id : bytes) (exclude_fd : Z) (fdc : Z * Connection) : Prop :=
  fdc.1 ≠ exclude_fd ∧ c_authenticated fdc.2 = true ∧ c_client_id fdc.2 = client_id.

Definition countAuthenticatedConnectionsForClient (client_id : bytes) (exclude_fd : Z)
    (s : Server) : Z :=
  Z.of_nat (base.size (filter (authenticated_as client_id exclude_fd) (connections_ s))).

(** ** Closing *)

Definition closeConnection (fd : Z) (s : Server) : Server :=
  match connections_ s !! fd with
  | None => s
  | Some c =>
    let s := sync s in
    let s := match c_auth_cancellation c with
             | Some a => set_cancellations_ (<[a := true]> (cancellations_ s)) s
             | None => s
             end in
    let s := set_connections_ (delete fd (connections_ s)) s in
    let s := if c_authenticated c
                && (countAuthenticatedConnectionsForClient (c_client_id c) (-1) s =? 0)
             then set_rate_limit_windows_ (delete (c_client_id c) (rate_limit_windows_ s)) s
             else s in
    let s := if epfd_ s =? -1 then s else set_k_interest (delete fd (k_interest s)) s in
    let s := set_k_open (k_open s ∖ {[fd]}) s in
    emit (OClose fd (c_conn_id c)) (stat decrementConnections s)
  end.

Definition modifyConnectionEvents (fd events : Z) (s : Server) : bool * Server :=
  let ok := ctl_ok E (k_ticks s) && bool_decide (is_Some (k_interest s !! fd)) in
  let s := tick s in
  if ok then (true, set_k_interest (<[fd := events]> (k_interest s)) s)
  else (false, closeConnection fd s).

Definition maybeCloseAfterDrain (fd : Z) (s : Server) : Server :=
  match connections_ s !! fd with
  | Some c => if canCloseAfterDrain s c then closeConnection fd s else s
  | None => s
  end.

Definition markReadEof (fd : Z) (s : Server) : Server :=
  match connections_ s !! fd with
  | None => s
  | Some current =>
    if c_read_eof current then maybeCloseAfterDrain fd s
    else
      let current := set_c_read_eof true current in
      let s := put_connection current s in
      if canCloseAfterDrain s current then closeConnection fd s
      else (modifyConnectionEvents fd (connectionEvents s current) s).2
  end.

(** [getRuntimeConfigSnapshot] *)
Definition getRuntimeConfigSnapshot (s : Server) : RuntimeConfig * Server :=
  let s := sync s in (runtime_config_ s, s).

(** ** Rate limiting *)

Definition allowRequestForClient (client_id : bytes) (config : RuntimeConfig) (s : Server)
    : bool * Server :=
  let '(now, s) := now s in
  let window := default (mkWindow 0 0) (rate_limit_windows_ s !! client_id) in
  let window :=
    if (rw_started_at window =? 0) || (now - rw_started_at window >=? 1000000000)
    then mkWindow now 0 else window in
  let '(allowed, window) :=
    if rw_count window >=? max_requests_per_client_per_second config
    then (false, window)
    else (true, mkWindow (rw_started_at window) (rw_count window + 1)) in
  (allowed, set_rate_limit_windows_ (<[client_id := window]> (rate_limit_windows_ s)) s).

(** ** Responses: from the queue to the connection's output buffer *)

(** The authentication part of [applyResponse]: the response to write and the
    updated connection. *)
Definition apply_authentication (config : RuntimeConfig) (response : Response)
    (current : Connection) (s : Server) : Response * Connection * Server :=
  match rs_client_id_to_authenticate response with
  | Some client_id =>
    let authenticated := countAuthenticatedConnectionsForClient client_id (c_fd current) s in
    if authenticated >=? max_connections_per_client config then
      let response := set_rs_client_id_to_authenticate None response in
      let response := set_rs_close_connection true response in
      let response := set_rs_type AUTH_RESP response in
      let response :=
        set_rs_payload (lit "{'allowed':false,'reason':'max connections exceeded'}") response in
      (response, current, stat incrementAuthFailure (stat incrementErrors s))
    else
      (response, set_c_client_id client_id (set_c_authenticated true current),
       emit (OAuthenticated (c_conn_id current) client_id) (stat incrementAuthSuccess s))
  | None =>
    if bool_decide (rs_type response = AUTH_RESP)
    then (response, current, stat incrementAuthFailure s)
    else (response, current, s)
  end.

(** The output part: encode, check the output limit, append. *)
Definition apply_output (config : RuntimeConfig) (response : Response) (current : Connection)
    (s : Server) : Server :=
  let encoded := encode response in
  let pending_bytes := zlen (c_output_buffer current) - c_write_offset current in
  if pending_bytes + zlen encoded >? slow_client_output_limit config then
    let s := stat incrementSlowClientClosed (stat incrementErrors s) in
    closeConnection (rs_fd response) s
  else
    let current :=
      if c_write_offset current >? 0 then
        set_c_write_offset 0
          (set_c_output_buffer
             (drop (Z.to_nat (c_write_offset current)) (c_output_buffer current)) current)
      else current in
    let current := set_c_output_buffer (c_output_buffer current ++ encoded) current in
    let current := set_c_closing (c_closing current || rs_close_connection response) current in
    let s := emit (OAppend (c_conn_id current) response) (put_connection current s) in
    (modifyConnectionEvents (rs_fd response) (connectionEvents s current) s).2.

Definition applyResponse (response : Response) (origin : ResponseOrigin) (s : Server) : Server :=
  let '(config, s) := getRuntimeConfigSnapshot s in
  match connections_ s !! rs_fd response with
  | None => stat incrementStaleResponseDropped s
  | Some current =>
    if negb (c_conn_id current =? rs_conn_id response)
    then stat incrementStaleResponseDropped s
    else
      let '(current, s) :=
        match origin with
        | Worker_ =>
            if c_in_flight_work current =? 0 then (current, emit OAssertFailed s)
            else (set_c_in_flight_work (c_in_flight_work current - 1) current,
                  emit (OAnswer (c_conn_id current) (rs_request_id response)) s)
        | Local_ => (current, s)
        end in
      let current :=
        if bool_decide (rs_type response = AUTH_RESP) || rs_close_connection response
        then set_c_auth_cancellation None (set_c_auth_pending false current)
        else current in
      let '(response, current, s) := apply_authentication config response current s in
      let s := put_connection current s in
      if rs_close_connection response && rs_skip_write response
      then closeConnection (rs_fd response) s
      else apply_output config response current s
  end.

(** [drainResponseQueue]: [None] when more than [fuel] responses were popped. *)
Fixpoint drainResponseQueue (fuel : nat) (s : Server) : option Server :=
  match fuel with
  | O => None
  | S fuel =>
    let s := sync s in
    match tryPop (response_queue_ s) with
    | (None, q) => Some (set_response_queue_ q s)
    | (Some response, q) =>
        drainResponseQueue fuel (applyResponse response Worker_ (set_response_queue_ q s))
    end
  end.

Definition close_rejected (key : Z * Z) (s : Server) : Server :=
  match connections_ s !! key.1 with
  | Some c => if c_conn_id c =? key.2 then closeConnection key.1 s else s
  | None => s
  end.

Definition drainRejectedResponses (s : Server) : Server :=
  let s := sync s in
  let rejected := rejected_response_connections_ s in
  let s := set_rejected_response_connections_ ∅ s in
  fold_left (fun s key => close_rejected key s) (elements rejected) s.

(** ** Requests: from the input buffer to the queues *)

(** What one pass over the decoded requests builds up. *)
Record Batch := mkBatch {
  b_conn : Connection;
  b_requests : list Request;
  b_auth_tasks : list AuthTask;
  b_local : list Response;
  b_close_now : bool;
}.

Definition local_error (current : Connection) (request : Request) (status : Z) (payload : bytes)
    : Response :=
  mkResponse (c_fd current) (c_conn_id current) (rq_version request) ERROR_RESP
    (rq_request_id request) status payload None false false.

(** The loop over [decoded_requests]; it stops at the first request that
    closes the connection. *)
Fixpoint classify (config : RuntimeConfig) (decoded : list Request) (b : Batch) (s : Server)
    : Batch * Server :=
  match decoded with
  | [] => (b, s)
  | request :: decoded =>
    let current := b_conn b in
    let close b := mkBatch (b_conn b) (b_requests b) (b_auth_tasks b) (b_local b) true in
    if zlen (rq_payload request) + 10 >? max_payload_size config
    then (close b, stat incrementErrors s)
    else if negb (c_authenticated current) then
      if negb (bool_decide (rq_type request = AUTH)) || c_auth_pending current
      then (close b, stat incrementErrors s)
      else
        let current := set_c_auth_pending true current in
        let cancellation := length (cancellations_ s) in
        let s := set_cancellations_ (cancellations_ s ++ [false]) s in
        match makeAuthTask request (Some cancellation) with
        | None =>
            (mkBatch current (b_requests b) (b_auth_tasks b) (b_local b) true,
             stat incrementErrors s)
        | Some task =>
            let current := set_c_auth_cancellation (Some cancellation) current in
            classify config decoded
              (mkBatch current (b_requests b) (b_auth_tasks b ++ [task]) (b_local b)
                 (b_close_now b)) s
        end
    else if bool_decide (rq_type request = AUTH) then
      let response := local_error current request 400
                        (lit "{'status':400,'message':'already authenticated'}") in
      classify config decoded
        (mkBatch current (b_requests b) (b_auth_tasks b) (b_local b ++ [response])
           (b_close_now b)) s
    else
      let '(allowed, s) := allowRequestForClient (c_client_id current) config s in
      if allowed then
        classify config decoded
          (mkBatch current (b_requests b ++ [request]) (b_auth_tasks b) (b_local b)
             (b_close_now b)) s
      else
        let response := local_error current request 429
                          (lit "{'status':429,'message':'rate limited'}") in
        classify config decoded
          (mkBatch current (b_requests b) (b_auth_tasks b) (b_local b ++ [response])
             (b_close_now b)) (stat incrementErrors s)
  end.

(** [++connection->second.in_flight_work], when the connection is still the
    one the work belongs to.  (The count is bounded by the capacities of the
    queues, so the increment does not wrap.) *)
Definition count_in_flight (key : Z * Z) (s : Server) : Server :=
  match connections_ s !! key.1 with
  | Some c => if c_conn_id c =? key.2
              then put_connection (set_c_in_flight_work (c_in_flight_work c + 1) c) s else s
  | None => s
  end.

(** The loop that enqueues the AUTH tasks; the local responses are those of
    the refused ones. *)
Fixpoint enqueue_auth (tasks : list AuthTask) (local : list Response) (s : Server)
    : list Response * Server :=
  match tasks with
  | [] => (local, s)
  | task :: tasks =>
    let s := sync s in
    match push task (auth_queue_ s) with
    | (PushOK, q) =>
        let s := emit (OAdmitAuth (at_request task)) (set_auth_queue_ q s) in
        enqueue_auth tasks local (count_in_flight (task_key task) s)
    | (_, q) =>
        let s := set_auth_queue_ q s in
        let s := stat incrementErrors s in
        let s := stat incrementAuthQueueRejected s in
        let s := stat (recordAuthResult Unavailable 0) s in
        let overload := makeOverloadResponse (at_request task) true in
        let overload := set_rs_type AUTH_RESP overload in
        let overload :=
          set_rs_payload (lit "{'allowed':false,'code':'AUTH_OVERLOADED'}") overload in
        enqueue_auth tasks (local ++ [overload]) s
    end
  end.

Fixpoint enqueue_requests (requests : list Request) (local : list Response) (s : Server)
    : list Response * Server :=
  match requests with
  | [] => (local, s)
  | request :: requests =>
    let s := sync s in
    match push request (request_queue_ s) with
    | (PushOK, q) =>
        let s := emit (OAdmit request) (set_request_queue_ q s) in
        enqueue_requests requests local (count_in_flight (request_key request) s)
    | (_, q) =>
        let s := set_request_queue_ q s in
        let s := stat incrementErrors s in
        let s := stat incrementRequestQueueRejected s in
        enqueue_requests requests (local ++ [makeOverloadResponse request false]) s
    end
  end.

Definition apply_local (responses : list Response) (s : Server) : Server :=
  fold_left (fun s response => applyResponse response Local_ s) responses s.

Definition decodeAndEnqueue (fd : Z) (read_eof : bool) (s : Server) : bool * Server :=
  let '(config, s) := getRuntimeConfigSnapshot s in
  match connections_ s !! fd with
  | None => (false, s)
  | Some current =>
    let eof := read_eof || c_read_eof current in
    let '(status, input, decoded) :=
      decode (c_input_buffer current) (c_fd current) [] (c_conn_id current)
        (u32 (max_payload_size config)) in
    let invalid := bool_decide (status = INVALID_LENGTH) in
    let s := if invalid then stat incrementErrors s else s in
    let input :=
      if negb invalid && eof && bool_decide (status = NEED_MORE_DATA) then [] else input in
    let current := set_c_input_buffer input current in
    let '(b, s) := classify config decoded (mkBatch current [] [] [] invalid) s in
    let s := put_connection (b_conn b) s in
    if b_close_now b then (false, closeConnection fd s)
    else
      let '(local, s) := enqueue_auth (b_auth_tasks b) (b_local b) s in
      let '(local, s) := enqueue_requests (b_requests b) local s in
      (true, apply_local local s)
  end.

(** ** Socket I/O

    The answers of the kernel to the successive calls of one handler.  [None]
    as the result of a handler: the script ends before the loop does, or
    holds an answer the kernel cannot give. *)

Inductive RecvAnswer := RecvData (b : bytes) | RecvEof | RecvIntr | RecvAgain | RecvError.
Inductive SendAnswer := SendBytes (n : Z) | SendIntr | SendAgain | SendError.
Inductive AcceptAnswer := AcceptFd (fd : Z) | AcceptIntr | AcceptAgain | AcceptError.

Fixpoint handleRead (fd : Z) (script : list RecvAnswer) (s : Server) : option Server :=
  if negb (bool_decide (state_ s = RUNNING)) then Some s
  else
    match connections_ s !! fd with
    | None => Some s
    | Some c =>
      if c_closing c || c_read_eof c then Some s
      else
        match script with
        | [] => None
        | RecvData b :: script =>
            if (zlen b <=? 0) || (zlen b >? 4096) then None
            else
              let s := put_connection (set_c_input_buffer (c_input_buffer c ++ b) c) s in
              let s := emit (ORecv (c_conn_id c) b) (stat (incrementReadBytes (zlen b)) s) in
              let '(continue, s) := decodeAndEnqueue fd false s in
              if continue then handleRead fd script s else Some s
        | RecvEof :: _ => Some (markReadEof fd (decodeAndEnqueue fd true s).2)
        | RecvIntr :: script => handleRead fd script s
        | RecvAgain :: _ => Some (decodeAndEnqueue fd false s).2
        | RecvError :: _ => Some (closeConnection fd s)
        end
    end.

(** The end of [handleWrite] once the output buffer is empty. *)
Definition output_drained (fd : Z) (c : Connection) (s : Server) : Server :=
  if canCloseAfterDrain s c then closeConnection fd s
  else (modifyConnectionEvents fd (connectionEvents s c) s).2.

Fixpoint handleWrite (fd : Z) (script : list SendAnswer) (s : Server) : option Server :=
  match connections_ s !! fd with
  | None => Some s
  | Some c =>
    if c_write_offset c >=? zlen (c_output_buffer c) then Some (output_drained fd c s)
    else
      match script with
      | [] => None
      | SendBytes n :: script =>
          if (n <=? 0) || (n >? zlen (c_output_buffer c) - c_write_offset c) then None
          else
            let sent := take (Z.to_nat n) (drop (Z.to_nat (c_write_offset c)) (c_output_buffer c)) in
            let c := set_c_write_offset (c_write_offset c + n) c in
            let s := emit (OSend (c_conn_id c) sent) (stat (incrementWriteBytes n) s) in
            if c_write_offset c =? zlen (c_output_buffer c) then
              let c := set_c_write_offset 0 (set_c_output_buffer [] c) in
              Some (output_drained fd c (put_connection c s))
            else handleWrite fd script (put_connection c s)
      | SendIntr :: script => handleWrite fd script s
      | SendAgain :: _ => Some s
      | SendError :: _ => Some (closeConnection fd s)
      end
  end.

(** [connections_.emplace]: an existing entry is kept. *)
Definition emplace_connection (c : Connection) (s : Server) : Server :=
  match connections_ s !! c_fd c with
  | Some _ => s
  | None => put_connection c s
  end.

(** The kernel never hands out a descriptor that is open. *)
Fixpoint handleAccept (script : list AcceptAnswer) (s : Server) : option Server :=
  if negb (bool_decide (state_ s = RUNNING)) then Some s
  else
    match script with
    | [] => None
    | AcceptIntr :: script => handleAccept script s
    | AcceptAgain :: _ | AcceptError :: _ => Some s
    | AcceptFd fd :: script =>
      if (fd <? 0) || bool_decide (fd ∈ k_open s) then None
      else
        let connection_id := next_conn_id_ s in
        let s := set_next_conn_id_ (u64 (next_conn_id_ s + 1)) s in
        let connection := newConnection fd connection_id in
        let ok := ctl_ok E (k_ticks s) in
        let s := tick s in
        if negb ok then handleAccept script s
        else
          let s := set_k_open ({[fd]} ∪ k_open s) s in
          let s := set_k_interest (<[fd := connectionEvents s connection]> (k_interest s)) s in
          let s := emplace_connection connection s in
          handleAccept script (emit (OAccept fd connection_id) (stat incrementConnections s))
    end.

(** ** Life cycle *)

Definition closeListener (s : Server) : Server :=
  if listen_fd_ s =? -1 then s
  else
    let s := if epfd_ s =? -1 then s else set_k_interest (delete (listen_fd_ s) (k_interest s)) s in
    set_listen_fd_ (-1) (set_k_open (k_open s ∖ {[listen_fd_ s]}) s).

(** [markReady] and [markNotReady]: whether the file was created, and whether
    it was removed or did not exist; a failure is only logged. *)
Definition markReady (created : bool) (s : Server) : Server :=
  if created then set_ready_file_ true s else s.
Definition markNotReady (removed : bool) (s : Server) : Server :=
  if removed then set_ready_file_ false s else s.

(** The readiness file is gone, unless it could not be removed. *)
Definition not_ready (s : Server) : Prop := (∀ n, unlink_ok E n = true) → ready_file_ s = false.

Definition shutdownDeadline (s : Server) : Z := shutdown_deadline_ s.

Definition update_events (fd events : Z) (s : Server) : Server :=
  (modifyConnectionEvents fd events s).2.

Definition update_all (connection_events : list (Z * Z)) (s : Server) : Server :=
  fold_left (fun s '(fd, events) => update_events fd events s) connection_events s.

Definition beginDraining (s : Server) : Server :=
  if negb (bool_decide (state_ s = RUNNING)) then s
  else
    let s := set_state_ DRAINING (sync s) in
    let '(t, s) := now s in
    let s := set_shutdown_deadline_ (t + shutdown_timeout_ s * 1000000) s in
    let s := markNotReady (unlink_ok E (k_ticks s)) s in
    let s := closeListener s in
    let s := sync s in
    let s := set_request_queue_ (stop (request_queue_ s)) s in
    let s := sync s in
    let s := set_auth_queue_ (stop (auth_queue_ s)) s in
    let connection_events :=
      map (fun '(fd, c) => (fd, connectionEvents s c)) (map_to_list (connections_ s)) in
    update_all connection_events s.

(** A chain of conditions on shared state, each read on its own; the chain
    stops at the first one that fails. *)
Fixpoint all_hold (checks : list (Server → bool)) (s : Server) : bool * Server :=
  match checks with
  | [] => (true, s)
  | check :: checks =>
      let s := sync s in
      if check s then all_hold checks s else (false, s)
  end.

Definition queues_drained : list (Server → bool) :=
  [ (fun s => response_producers_remaining_ s =? 0);
    (fun s => stopped (request_queue_ s)); (fun s => size (request_queue_ s) =? 0);
    (fun s => stopped (auth_queue_ s)); (fun s => size (auth_queue_ s) =? 0);
    (fun s => stopped (response_queue_ s)); (fun s => size (response_queue_ s) =? 0);
    (fun s => bool_decide (rejected_response_connections_ s = ∅)) ].

Definition close_all (fds : list Z) (s : Server) : Server :=
  fold_left (fun s fd => closeConnection fd s) fds s.

Definition drainComplete (s : Server) : bool * Server :=
  let '(drained, s) := all_hold queues_drained s in
  if negb drained then (false, s)
  else
    let completed :=
      map fst (filter (fun '(_, c) => canCloseAfterDrain s c = true)
                 (map_to_list (connections_ s))) in
    let s := close_all completed s in
    (bool_decide (connections_ s = ∅), s).

(** [epollTimeoutMs]: milliseconds until the deadline, rounded towards zero. *)
Definition epollTimeoutMs (s : Server) : Z * Server :=
  if negb (bool_decide (state_ s = DRAINING)) then (-1, s)
  else
    let '(t, s) := now s in
    let remaining := Z.quot (shutdownDeadline s - t) 1000000 in
    (if remaining <=? 0 then 0 else Z.min remaining INT_MAX, s).

(** [notifier_.consume()] on the reactor: reads until [EAGAIN], other threads
    notifying in between.  [None] when more than [fuel] reads were needed. *)
Fixpoint reactor_consume (fuel : nat) (s : Server) : option Server :=
  if nf_fd (notifier_ s) =? -1 then Some s
  else
    match fuel with
    | O => None
    | S fuel =>
      let s := sync s in
      match eventfd_read (nf_counter (notifier_ s)) with
      | (IoDone, c) => reactor_consume fuel (set_notifier_ (mkNotifier (nf_fd (notifier_ s)) c) s)
      | (_, _) => Some s
      end
    end.

(** One ready descriptor, with the kernel's answers for its handler. *)
Record ReadyEvent := mkReady {
  ev_fd : Z;
  ev_flags : Z;
  ev_reads : nat;
  ev_accept : list AcceptAnswer;
  ev_recv : list RecvAnswer;
  ev_send : list SendAnswer;
}.

Definition handleEvent (ev : ReadyEvent) (s : Server) : option Server :=
  let fd := ev_fd ev in
  let flags := ev_flags ev in
  if fd =? nf_fd (notifier_ s) then reactor_consume (ev_reads ev) s
  else if fd =? listen_fd_ s then
    if bool_decide (state_ s = RUNNING) then handleAccept (ev_accept ev) s else Some s
  else if has_flag flags EPOLLERR then Some (closeConnection fd s)
  else
    s ← (if has_flag flags (Z.lor EPOLLIN (Z.lor EPOLLRDHUP EPOLLHUP))
            && bool_decide (state_ s = RUNNING)
         then handleRead fd (ev_recv ev) s else Some s);
    match connections_ s !! fd with
    | None => Some s
    | Some _ =>
      let s := if has_flag flags (Z.lor EPOLLRDHUP EPOLLHUP) then markReadEof fd s else s in
      if has_flag flags EPOLLOUT then handleWrite fd (ev_send ev) s else Some s
    end.

Fixpoint handleEvents (evs : list ReadyEvent) (s : Server) : option Server :=
  match evs with
  | [] => Some s
  | ev :: evs => s ← handleEvent ev s; handleEvents evs s
  end.

Inductive WaitAnswer := WaitEvents (evs : list ReadyEvent) (drains : nat) | WaitIntr | WaitError.

(** The end of a loop iteration: leave [DRAINING] when everything is drained
    or the deadline has passed. *)
Definition finish_draining (s : Server) : Server :=
  if bool_decide (state_ s = DRAINING) then
    let '(complete, s) := drainComplete s in
    if complete then set_state_ STOPPED s
    else
      let '(t, s) := now s in
      if t >=? shutdownDeadline s then
        let s := sync s in
        let s := set_request_queue_ (abort (request_queue_ s)).2 s in
        let s := sync s in
        let s := set_auth_queue_ (abort (auth_queue_ s)).2 s in
        let s := sync s in
        let s := set_response_queue_ (abort (response_queue_ s)).2 s in
        set_state_ STOPPED s
      else s
  else s.

(** One iteration of [loop]; [None] when the loop is over ([STOPPED]) or the
    script is incomplete. *)
Definition loop_iteration (w : WaitAnswer) (s : Server) : option Server :=
  if bool_decide (state_ s = STOPPED) then None
  else
    let s := sync s in
    let s := if (stop_requested_ s || signal_stop_requested_ s) && bool_decide (state_ s = RUNNING)
             then beginDraining s else s in
    let '(_, s) := epollTimeoutMs s in
    let s := sync s in
    match w with
    | WaitIntr => Some s
    | WaitError => Some (beginDraining s)
    | WaitEvents evs drains =>
      s ← handleEvents evs s;
      s ← drainResponseQueue drains s;
      Some (finish_draining (drainRejectedResponses s))
    end.

(** [initServer]: the descriptors of the listener, the epoll instance and the
    eventfd, or the call that failed, as the constructor of [InitAnswer]. *)
Inductive InitAnswer :=
  | InitOk (listener epoll event : Z)
  | SocketFailed
  | SetsockoptFailed (listener : Z)
  | BindFailed (listener : Z)
  | ListenFailed (listener : Z)
  | EpollFailed (listener : Z)
  | EventfdFailed (listener epoll : Z)
  | AddListenerFailed (listener epoll event : Z)
  | AddEventfdFailed (listener epoll event : Z).

Definition open_listener (fd : Z) (s : Server) : Server :=
  set_k_open ({[fd]} ∪ k_open s) (set_listen_fd_ fd s).
Definition open_epoll (fd : Z) (s : Server) : Server :=
  set_k_open ({[fd]} ∪ k_open s) (set_epfd_ fd s).
Definition open_eventfd (fd : Z) (s : Server) : Server :=
  set_k_open ({[fd]} ∪ k_open s) (set_notifier_ (open fd (notifier_ s)).2 s).

Definition initServer (a : InitAnswer) (s : Server) : bool * Server :=
  match a with
  | SocketFailed => (false, s)
  | SetsockoptFailed l | BindFailed l | ListenFailed l | EpollFailed l => (false, open_listener l s)
  | EventfdFailed l e => (false, open_epoll e (open_listener l s))
  | AddListenerFailed l e v => (false, open_eventfd v (open_epoll e (open_listener l s)))
  | AddEventfdFailed l e v =>
      let s := open_eventfd v (open_epoll e (open_listener l s)) in
      (false, set_k_interest (<[l := Z.lor EPOLLIN EPOLLET]> (k_interest s)) s)
  | InitOk l e v =>
      let s := open_eventfd v (open_epoll e (open_listener l s)) in
      let s := set_k_interest (<[l := Z.lor EPOLLIN EPOLLET]> (k_interest s)) s in
      (true, set_k_interest (<[v := EPOLLIN]> (k_interest s)) s)
  end.

Definition close_epoll (s : Server) : Server :=
  if epfd_ s =? -1 then s
  else set_epfd_ (-1) (set_k_open (k_open s ∖ {[epfd_ s]}) s).

Definition close_notifier_fd (s : Server) : Server :=
  let '(closed, n) := close_notifier (notifier_ s) in
  let s := set_notifier_ n s in
  match closed with
  | Some fd => set_k_open (k_open s ∖ {[fd]}) s
  | None => s
  end.

(** The worker threads that [start] creates.  [hardware] is
    [std::thread::hardware_concurrency()].  Every thread can be created: that
    [std::thread] throws [std::system_error] is not modelled. *)
Definition start_workers (hardware : Z) (s : Server) : Server :=
  let worker_count := configured_worker_count_ s in
  let worker_count :=
    if worker_count =? 0
    then Z.min (if hardware =? 0 then 4 else hardware) 4
    else worker_count in
  let s := set_response_producers_remaining_
             (u32 (worker_count + configured_auth_worker_count_ s)) s in
  set_workers_ (replicate (Z.to_nat worker_count) (mkWorker NormalWorker WIdle)
                  ++ replicate (Z.to_nat (configured_auth_worker_count_ s)) (mkWorker AuthWorker WIdle)) s.

(** [start] up to the event loop.  The first component: false when [start]
    throws (a second call, or a failed initialisation). *)
Definition start (init : InitAnswer) (ready_created : bool) (hardware : Z) (s : Server)
    : bool * Server :=
  if started_ s then (false, s)
  else
    let s := set_shutdown_finished_ false (set_started_ true s) in
    match initServer init s with
    | (false, s) =>
        (false, set_started_ false (close_epoll (close_notifier_fd (closeListener s))))
    | (true, s) =>
        let s := set_signal_stop_requested_ false s in
        let s := set_state_ RUNNING s in
        let s := markReady ready_created s in
        (true, start_workers hardware s)
    end.

(** [finishShutdown]: [joins] are the actions the remaining threads perform
    while the reactor joins them; it returns only when every worker has
    ended ([None] otherwise). *)
Definition worker_done (w : Worker) : bool :=
  match w_pc w with WDone => true | _ => false end.

Definition finishShutdown (joins : list Action) (s : Server) : option Server :=
  let s := markNotReady (unlink_ok E (k_ticks s)) s in
  let s := sync s in
  let s := set_request_queue_ (stop (request_queue_ s)) s in
  let s := sync s in
  let s := set_auth_queue_ (stop (auth_queue_ s)) s in
  let s := sync s in
  let s := set_response_queue_ (stop (response_queue_ s)) s in
  let s := run_actions joins s in
  if puller_busy_ s || negb (forallb worker_done (workers_ s)) then None
  else
    let fds := map fst (map_to_list (connections_ s)) in
    let s := close_all fds s in
    let s := close_epoll (close_notifier_fd (closeListener s)) in
    Some (set_shutdown_finished_ true (set_state_ STOPPED s)).

(** [stop]: the returned flag is whether the caller then waits for
    [shutdown_finished_] ([on_loop_thread]: the caller is the reactor). *)
Definition stop_server (on_loop_thread : bool) (interrupts : nat) (s : Server) : bool * Server :=
  if negb (started_ s) then (false, set_shutdown_finished_ true (set_state_ STOPPED s))
  else if shutdown_finished_ s then (false, s)
  else
    let s := notify_reactor interrupts (set_stop_requested_ true s) in
    (negb on_loop_thread, s).

(** [staticSignalHandler]: [instance] is whether a server is registered. *)
Definition staticSignalHandler (instance : bool) (interrupts : nat) (s : Server) : Server :=
  let s := set_signal_stop_requested_ true s in
  if instance then notify_reactor interrupts s else s.

End Server.

#[global] Arguments sync : simpl never.
#[global] Arguments closeConnection : simpl never.
#[global] Arguments modifyConnectionEvents : simpl never.
#[global] Arguments connectionEvents : simpl never.
