(* ===== verification/Hooks.v ===== *)
(** * The test hooks of a debug build

    Models the code of [src/net/TcpServer.cpp] under [#ifndef NDEBUG]: the
    functions that read the [WORKER_TEST_*] variables, and the places of the
    worker loops and of [decodeAndEnqueue] that call them.  A release build has
    none of it; the rest of the development describes that build.  Here a debug
    build's worker is written out and compared with the release one: the two
    agree step by step unless a variable asks for a difference, and then they
    differ only in whether a normal worker wakes the reactor. *)

From S2P Require Import Prelude Text Json Protocol BlockQueue Notifier ControlTypes Stats RuntimeConfig.
From S2P Require Import Logger Handlers Server.
#[local] Open Scope Z_scope.

(** ** [strtol] and [strtoull] in base 10 *)

Definition LONG_MAX : Z := 2 ^ 63 - 1.
Definition ULLONG_MAX : Z := 2 ^ 64 - 1.

(** The longest run of digits: its value, its length, and what follows. *)
Fixpoint digits (acc : Z) (n : nat) (text : bytes) : Z * nat * bytes :=
  match text with
  | c :: rest => if is_digit c then digits (10 * acc + digit_val c) (S n) rest else (acc, n, text)
  | [] => (acc, n, [])
  end.

(** An optional sign: whether it is a minus, and what follows. *)
Definition sign (text : bytes) : bool * bytes :=
  match text with
  | c :: rest =>
      if bool_decide (c = "-"%char) then (true, rest)
      else if bool_decide (c = "+"%char) then (false, rest) else (false, text)
  | [] => (false, [])
  end.

(** The subject sequence: [None] when there is none ([*end] is the start),
    otherwise its sign, its value and the text from [*end] on. *)
Definition subject (text : bytes) : option (bool * Z * bytes) :=
  let '(negative, text) := sign (drop_leading isspace text) in
  let '(value, n, rest) := digits 0 0 text in
  if bool_decide (n = 0%nat) then None else Some (negative, value, rest).

(** The result and the text from [*end] on; out-of-range values are clamped. *)
Definition parse_strtol (text : bytes) : option (Z * bytes) :=
  match subject text with
  | Some (negative, value, rest) =>
      Some (if negative then Z.max (- value) (- LONG_MAX - 1) else Z.min value LONG_MAX, rest)
  | None => None
  end.

(** The negation is done in the unsigned type. *)
Definition parse_strtoull (text : bytes) : option (Z * bytes) :=
  match subject text with
  | Some (negative, value, rest) =>
      Some (if value >? ULLONG_MAX then ULLONG_MAX else if negative then u64 (- value) else value, rest)
  | None => None
  end.

(** ** The hooks *)

Section Hooks.
Context (getenv : bytes → option bytes).

(** A variable that is set and not empty. *)
Definition nonempty (name : bytes) : option bytes :=
  text ← getenv name; if bool_decide (text = []) then None else Some text.

(** The file [recordAdmittedWorkForTest] writes, if it can be opened, with its
    contents. *)
Definition recordAdmittedWorkForTest (connection : Connection) : option (bytes * bytes) :=
  path ← nonempty (lit "WORKER_TEST_ADMITTED_FILE");
  raw_target ← nonempty (lit "WORKER_TEST_ADMITTED_TARGET");
  match parse_strtol raw_target with
  | Some (target, rest) =>
      if negb (bool_decide (rest = [])) || (target <=? 0) || (c_in_flight_work connection <? target) then None
      else Some (path, dec (c_in_flight_work connection) ++ [LF])
  | None => None
  end.

Definition workerTestDelayMs (name : bytes) : Z :=
  match nonempty name ≫= parse_strtol with
  | Some (delay_ms, rest) =>
      if negb (bool_decide (rest = [])) || (delay_ms <=? 0) || (delay_ms >? 60000) then 0 else delay_ms
  | None => 0
  end.

(** How long the worker sleeps before it dispatches the request. *)
Definition applyWorkerTestDelay (request : Request) : Z :=
  match nonempty (lit "WORKER_TEST_DELAY_REQUEST_ID") with
  | Some raw_request_id =>
      match parse_strtoull raw_request_id with
      | Some (request_id, rest) =>
          if negb (bool_decide (rest = [])) || negb (rq_request_id request =? request_id) then 0
          else workerTestDelayMs (lit "WORKER_TEST_DELAY_MS")
      | None => 0
      end
  | None => workerTestDelayMs (lit "WORKER_TEST_DELAY_MS")
  end.

(** [suppress_notify] *)
Definition suppress_notify (producer : ResponseProducer) : bool :=
  bool_decide (producer = NormalWorker) &&
  bool_decide (is_Some (getenv (lit "WORKER_TEST_SUPPRESS_NORMAL_RESPONSE_NOTIFY"))).

(** How long a worker may sleep before its next action: the delays of
    [applyWorkerTestDelay] before the dispatch and of [enqueueWorkerResponse]
    before the notification (only there if the push succeeded). *)
Definition debug_delay (w : Worker) : Z :=
  match w with
  | mkWorker NormalWorker (WNormal r) => applyWorkerTestDelay r
  | mkWorker NormalWorker WNotify => workerTestDelayMs (lit "WORKER_TEST_NORMAL_NOTIFY_DELAY_MS")
  | _ => 0
  end.

(** The next atomic action of worker [i] in a debug build. *)
Definition debug_worker_step `{JsonLib} (i : nat) (env : WorkerEnv) (s : Server) : Server :=
  match workers_ s !! i with
  | Some (mkWorker kind WNotify) =>
      if suppress_notify kind
      then set_pc i (match kind with AuthWorker => WLeave | NormalWorker => WIdle end) s
      else worker_step i env s
  | _ => worker_step i env s
  end.

(** ** What the hooks can do *)

Lemma digits_nonneg acc n text : 0 ≤ acc → 0 ≤ (digits acc n text).1.1.
Proof.
  revert acc n. induction text as [|c text IH]; intros acc n Ha; simpl; [done|].
  destruct (is_digit c) eqn:Ed; [|done]. apply IH. unfold is_digit, digit_val in *. bool_facts. lia.
Qed.

Lemma strtol_range text n rest : parse_strtol text = Some (n, rest) → - LONG_MAX - 1 ≤ n ≤ LONG_MAX.
Proof.
  unfold parse_strtol, subject. destruct (sign _) as [negative t]. pose proof (digits_nonneg 0 0 t ltac:(lia)) as H0.
  destruct (digits 0 0 t) as [[value k] r]. simpl in H0. case_bool; [done|]. simpl. intros [= <- <-].
  unfold LONG_MAX. destruct negative; lia.
Qed.

(** A delay is at most a minute, and a request with another id than the one
    asked for is not delayed. *)
Theorem delay_bounded w : 0 ≤ debug_delay w ≤ 60000.
Proof.
  assert (Hd : ∀ name, 0 ≤ workerTestDelayMs name ≤ 60000).
  { intros name. unfold workerTestDelayMs. destruct (nonempty name ≫= parse_strtol) as [[n rest]|]; [|lia].
    case_bool; [lia|]. rewrite Z.gtb_ltb in *. bool_facts. lia. }
  unfold debug_delay, applyWorkerTestDelay. repeat (case_match || case_bool); try apply Hd; lia.
Qed.

(** With the suppression variable unset a debug worker is a release worker. *)
Theorem debug_is_release `{JsonLib} i env s :
  getenv (lit "WORKER_TEST_SUPPRESS_NORMAL_RESPONSE_NOTIFY") = None →
  debug_worker_step i env s = worker_step i env s.
Proof.
  intros He. unfold debug_worker_step, suppress_notify. rewrite He.
  destruct (workers_ s !! i) as [[kind []]|]; try done. by rewrite andb_comm.
Qed.

(** With it set, the only difference is the wake-up: the states agree in
    everything but the eventfd's counter, and an AUTH worker never differs. *)
Theorem debug_only_wakeups `{JsonLib} i env s :
  set_notifier_ (notifier_ s) (debug_worker_step i env s) = set_notifier_ (notifier_ s) (worker_step i env s) ∧
  (∀ w, workers_ s !! i = Some w → w_kind w = AuthWorker → debug_worker_step i env s = worker_step i env s).
Proof.
  unfold debug_worker_step. split.
  - destruct (workers_ s !! i) as [[kind []]|] eqn:Hi; try done. case_bool; [|done].
    unfold worker_step. by rewrite Hi.
  - intros [kind pc] Hi Hk. rewrite Hi. simpl in Hk. subst kind. by destruct pc.
Qed.

(** The marker file is written only for a target the connection's work has
    reached, and says how much work that is. *)
Theorem marker_truthful c path contents :
  recordAdmittedWorkForTest c = Some (path, contents) →
  contents = dec (c_in_flight_work c) ++ [LF] ∧
  ∃ text target, getenv (lit "WORKER_TEST_ADMITTED_TARGET") = Some text ∧ parse_strtol text = Some (target, []) ∧
    0 < target ≤ c_in_flight_work c.
Proof.
  unfold recordAdmittedWorkForTest. intros (p & _ & Hr)%bind_Some. apply bind_Some in Hr as (text & Ht & Hr).
  destruct (parse_strtol text) as [[target rest]|] eqn:Hs; [|done]. case_bool; [done|]. injection Hr as <- <-. bool_facts. subst rest.
  split; [done|]. exists text, target. unfold nonempty in Ht. apply bind_Some in Ht as (t & Hg & Ht).
  case_bool; [done|]. injection Ht as ->. split_and!; [done|done|lia|lia].
Qed.
End Hooks.

(** ** Examples *)

Definition hook_env (name : bytes) : option bytes :=
  if bool_decide (name = lit "WORKER_TEST_DELAY_MS") then Some (lit " +250")
  else if bool_decide (name = lit "WORKER_TEST_DELAY_REQUEST_ID") then Some (lit "7")
  else if bool_decide (name = lit "WORKER_TEST_ADMITTED_FILE") then Some (lit "/tmp/admitted")
  else if bool_decide (name = lit "WORKER_TEST_ADMITTED_TARGET") then Some (lit "2")
  else None.

Example delay_of_request :
  applyWorkerTestDelay hook_env (mkRequest 6 1 1 ECHO 7 []) = 250 ∧
  applyWorkerTestDelay hook_env (mkRequest 6 1 1 ECHO 8 []) = 0.
Proof. vm_compute. done. Qed.

Example marker_of_work :
  recordAdmittedWorkForTest hook_env (set_c_in_flight_work 3 (newConnection 6 1)) =
    Some (lit "/tmp/admitted", lit "3" ++ [LF]) ∧
  recordAdmittedWorkForTest hook_env (set_c_in_flight_work 1 (newConnection 6 1)) = None.
Proof. vm_compute. done. Qed.

Example strtol_clamps :
  parse_strtol (lit "-99999999999999999999x") = Some (- 2 ^ 63, lit "x") ∧ parse_strtol (lit "  -") = None ∧
  parse_strtoull (lit "-1") = Some (2 ^ 64 - 1, []).
Proof. vm_compute. done. Qed.
