(* ===== verification/Invariant.v ===== *)
(** * The invariant of the running server

    The properties that hold at every point where another thread can observe
    or change the server, stated as the record [Inv].  The reactor's local
    variables that matter to them (a popped response, the rejected
    connections being processed, the descriptors whose epoll interest is
    about to be updated) are collected in [Local]. *)

From S2P Require Import Prelude Json Protocol BlockQueue Notifier ControlTypes Stats RuntimeConfig.
From S2P Require Import Logger Handlers Server.
#[local] Open Scope Z_scope.

(** ** Outstanding work *)

(** A unit of admitted work: its connection and its request id. *)
Abbreviation ticket := (Z * Z * Z)%type.

Definition request_ticket (r : Request) : ticket := (request_key r, rq_request_id r).
Definition task_ticket (t : AuthTask) : ticket := request_ticket (at_request t).
Definition response_ticket (r : Response) : ticket := (response_key r, rs_request_id r).

(** What a worker thread holds. *)
Definition worker_tickets (w : Worker) : list ticket :=
  match w_pc w with
  | WNormal r | WStats r _ => [request_ticket r]
  | WCheck t | WAuth t => [task_ticket t]
  | WPush r => [response_ticket r]
  | _ => []
  end.

(** A worker that handles a request. *)
Definition handles (pc : WorkerPC) (r : Request) : Prop := pc = WNormal r ∨ ∃ loads, pc = WStats r loads.

Definition worker_requests (w : Worker) : list Request :=
  match w_pc w with WNormal r | WStats r _ => [r] | _ => [] end.
Definition worker_tasks (w : Worker) : list AuthTask :=
  match w_pc w with WCheck t | WAuth t => [t] | _ => [] end.
Definition worker_responses (w : Worker) : list Response :=
  match w_pc w with WPush r => [r] | _ => [] end.
Definition worker_refused (w : Worker) : list (Z * Z) :=
  match w_pc w with WReject key => [key] | _ => [] end.

Definition notifying (w : Worker) : Prop := w_pc w = WNotify.

(** Workers that have not yet given up their share of the response queue. *)
Definition producing (w : Worker) : Prop :=
  match w_pc w with WLastStop | WLastNotify | WDone => False | _ => True end.

#[export] Instance producing_dec w : Decision (producing w).
Proof. unfold producing. destruct (w_pc w); apply _. Defined.

Definition gather {A B} (f : A → list B) (l : list A) : list B := concat (map f l).

(** All the work that was admitted and not yet answered or dropped. *)
Definition items (s : Server) : list ticket :=
  map request_ticket (data_queue_ (request_queue_ s))
    ++ map task_ticket (data_queue_ (auth_queue_ s))
    ++ gather worker_tickets (workers_ s)
    ++ map response_ticket (data_queue_ (response_queue_ s)).

Definition requests (s : Server) : list Request :=
  data_queue_ (request_queue_ s) ++ gather worker_requests (workers_ s).
Definition tasks (s : Server) : list AuthTask :=
  data_queue_ (auth_queue_ s) ++ gather worker_tasks (workers_ s).
Definition responses (s : Server) : list Response :=
  gather worker_responses (workers_ s) ++ data_queue_ (response_queue_ s).

(** Connections that lost a response to a full or stopped response queue and
    are going to be closed for it. *)
Definition refused (s : Server) : list (Z * Z) :=
  elements (rejected_response_connections_ s) ++ gather worker_refused (workers_ s).

(** ** What the trace says about a connection *)

Definition obs_conn (e : Obs) : option Z :=
  match e with
  | OAccept _ i | OClose _ i | ORecv i _ | OSend i _ | OAppend i _
  | OAuthenticated i _ | OAnswer i _ => Some i
  | OAdmit r | OAdmitAuth r => Some (rq_conn_id r)
  | OAssertFailed => None
  end.

Definition sent_in (id : Z) (e : Obs) : bytes :=
  match e with OSend i b => if decide (i = id) then b else [] | _ => [] end.
Definition appended_in (id : Z) (e : Obs) : list Response :=
  match e with OAppend i r => if decide (i = id) then [r] else [] | _ => [] end.
Definition admitted_in (id : Z) (e : Obs) : list Z :=
  match e with
  | OAdmit r | OAdmitAuth r => if decide (rq_conn_id r = id) then [rq_request_id r] else []
  | _ => []
  end.
Definition answered_in (id : Z) (e : Obs) : list Z :=
  match e with OAnswer i q => if decide (i = id) then [q] else [] | _ => [] end.

(** The bytes handed to the kernel, the responses put into the output buffer,
    and the ids of the requests admitted and answered, for one connection. *)
Definition sent (id : Z) (tr : list Obs) : bytes := gather (sent_in id) tr.
Definition appended (id : Z) (tr : list Obs) : list Response := gather (appended_in id) tr.
Definition admitted (id : Z) (tr : list Obs) : list Z := gather (admitted_in id) tr.
Definition answered (id : Z) (tr : list Obs) : list Z := gather (answered_in id) tr.

Definition encoded (rs : list Response) : bytes := concat (map encode rs).

(** [always P tr]: every event of [tr] satisfies [P] of the events before it. *)
Definition always (P : list Obs → Obs → Prop) (tr : list Obs) : Prop :=
  ∀ before e after, tr = before ++ e :: after → P before e.

(** The rules every event obeys: nothing happens on a closed connection;
    normal requests are admitted only from authenticated connections; a
    connection is authenticated only after an AUTH request of its own was
    admitted; a response goes only to the connection it was made for; the
    debug assertion never fires. *)
Definition lawful (before : list Obs) (e : Obs) : Prop :=
  (∀ id fd, obs_conn e = Some id → OClose fd id ∉ before) ∧
  match e with
  | OAdmit r => rq_type r ≠ AUTH ∧ ∃ client, OAuthenticated (rq_conn_id r) client ∈ before
  | OAdmitAuth r => rq_type r = AUTH
  | OAuthenticated id _ => ∃ r, OAdmitAuth r ∈ before ∧ rq_conn_id r = id
  | OAppend id r => rs_conn_id r = id
  | OAssertFailed => False
  | _ => True
  end.

(** ** The parts of the invariant *)

Abbreviation conns := (gmap Z Connection).

Definition OUTPUT_LIMIT : Z := 64 * 1024 * 1024.

Definition conn_ok (next : Z) (fd : Z) (c : Connection) : Prop :=
  c_fd c = fd ∧ 0 < c_conn_id c < next ∧
  0 ≤ c_write_offset c ≤ zlen (c_output_buffer c) ∧
  zlen (c_output_buffer c) - c_write_offset c ≤ OUTPUT_LIMIT.

(** Distinct live connections have distinct ids. *)
Definition ids_unique (m : conns) : Prop :=
  ∀ fd1 fd2 c1 c2, m !! fd1 = Some c1 → m !! fd2 = Some c2 →
    c_conn_id c1 = c_conn_id c2 → fd1 = fd2.

(** The unparsed input of a connection is less than one frame, plus one read
    while it is being decoded. *)
Definition input_ok (reading : option Z) (m : conns) : Prop :=
  ∀ fd c, m !! fd = Some c →
    zlen (c_input_buffer c) < 4 + MAX_BODY_SIZE + (if decide (reading = Some fd) then 4096 else 0).

(** Ids in use are below the next id to be assigned. *)
Definition fresh_ok (next : Z) (its : list ticket) (keys : list (Z * Z)) (tr : list Obs) : Prop :=
  (∀ t, t ∈ its → t.1.2 < next) ∧ (∀ k, k ∈ keys → k.2 < next) ∧
  (∀ e id, e ∈ tr → obs_conn e = Some id → id < next).

Definition of_key (k : Z * Z) (its : list ticket) : list ticket := filter (λ t, t.1 = k) its.

(** Work accounting.  For a live connection that lost no response,
    [in_flight_work] is exactly the number of its outstanding tickets, and the
    requests admitted are exactly those answered plus those outstanding. *)
Definition account_ok (m : conns) (its : list ticket) (lost : list (Z * Z)) (tr : list Obs) : Prop :=
  ∀ fd c, m !! fd = Some c →
    zlen (of_key (conn_key c) its) ≤ c_in_flight_work c ∧
    (conn_key c ∉ lost →
       c_in_flight_work c = zlen (of_key (conn_key c) its) ∧
       admitted (c_conn_id c) tr ≡ₚ
         answered (c_conn_id c) tr ++ map snd (of_key (conn_key c) its)).

(** Cancellation cells: a cancelled task belongs to no live connection. *)
Definition cancel_ok (m : conns) (cells : list bool) (ts : list AuthTask) : Prop :=
  (∀ t, t ∈ ts → (at_cancellation t < length cells)%nat ∧
     (cells !! at_cancellation t = Some true →
        ∀ fd c, m !! fd = Some c → conn_key c ≠ task_key t)) ∧
  (∀ fd c a, m !! fd = Some c → c_auth_cancellation c = Some a →
     (a < length cells)%nat ∧ ∀ t, t ∈ ts → at_cancellation t = a → task_key t = conn_key c).

(** Provenance: normal workers never see AUTH requests, AUTH workers see
    nothing else, every response is written (never skipped), and only a
    response to an admitted AUTH request can authenticate. *)
Definition origin_ok (rqs : list Request) (ts : list AuthTask) (rsp : list Response)
    (tr : list Obs) : Prop :=
  (∀ r, r ∈ rqs → rq_type r ≠ AUTH) ∧
  (∀ t, t ∈ ts → rq_type (at_request t) = AUTH ∧ OAdmitAuth (at_request t) ∈ tr) ∧
  (∀ r, r ∈ rsp → rs_skip_write r = false ∧
     (rs_client_id_to_authenticate r ≠ None →
        ∃ q, OAdmitAuth q ∈ tr ∧ rq_conn_id q = rs_conn_id r)).

Definition trace_ok (m : conns) (tr : list Obs) : Prop :=
  always lawful tr ∧
  (∀ fd c, m !! fd = Some c →
     (∀ fd', OClose fd' (c_conn_id c) ∉ tr) ∧
     (c_authenticated c = true → OAuthenticated (c_conn_id c) (c_client_id c) ∈ tr)).

(** The output of a connection is the concatenation of its encoded responses:
    the part already sent followed by the part still buffered. *)
Definition stream_ok (m : conns) (tr : list Obs) : Prop :=
  (∀ fd c, m !! fd = Some c →
     sent (c_conn_id c) tr ++ drop (Z.to_nat (c_write_offset c)) (c_output_buffer c)
       = encoded (appended (c_conn_id c) tr)) ∧
  (∀ id, sent id tr `prefix_of` encoded (appended id tr)).

(** Every answered request has a response in the output of its connection,
    except for the answer that is just being applied. *)
Definition owed_ok (m : conns) (owed : list ticket) (tr : list Obs) : Prop :=
  ∀ fd c, m !! fd = Some c →
    answered (c_conn_id c) tr ⊆+
      map rs_request_id (appended (c_conn_id c) tr) ++ map snd (of_key (conn_key c) owed).

(** Descriptors and epoll interest: the server's own descriptors are distinct
    and never those of a connection, the open descriptors are exactly these
    and the connections', and every connection is registered for the events
    its state asks for. *)
Record descriptors_ok (m : conns) (epfd listener event : Z) (opened : gset Z)
    (interest : gmap Z Z) (events_of : Connection → Z) (dirty : list Z) : Prop := mkDescriptors {
  k_epoll : epfd ≠ -1 ∧ epfd ∈ opened ∧ m !! epfd = None;
  k_listen : m !! listener = None ∧
    (listener ≠ -1 → listener ∈ opened ∧ listener ≠ epfd ∧ listener ≠ event);
  k_event : event ∈ opened ∧ m !! event = None;
  k_owned : ∀ fd, fd ∈ opened → fd ≠ -1 ∧
    (fd = epfd ∨ fd = listener ∨ fd = event ∨ is_Some (m !! fd));
  k_conns : ∀ fd c, m !! fd = Some c →
    fd ∈ opened ∧ 0 ≤ fd ∧
    ∃ events, interest !! fd = Some events ∧ (fd ∉ dirty → events = events_of c);
}.

Definition kernel_ok (s : Server) (dirty : list Z) : Prop :=
  descriptors_ok (connections_ s) (epfd_ s) (listen_fd_ s) (nf_fd (notifier_ s)) (k_open s)
    (k_interest s) (connectionEvents s) dirty.

(** No lost wake-up: when responses (or rejections) wait, the eventfd is
    readable or a worker is about to make it so. *)
Definition wake_ok (pending : Prop) (s : Server) : Prop :=
  pending → 0 < nf_counter (notifier_ s) ∨ ∃ w, w ∈ workers_ s ∧ notifying w.

Definition producers (s : Server) : Z := zlen (filter producing (workers_ s)).

Definition producers_ok (s : Server) : Prop :=
  response_producers_remaining_ s = producers s ∧ producers s < 2 ^ 32 ∧
  (state_ s ≠ STOPPED → stopped (response_queue_ s) = true → producers s = 0) ∧
  (∀ w, w ∈ workers_ s → w_pc w = WLastStop → producers s = 0).

Definition queue_ok {T} (q : BlockQueue T) : Prop := size q ≤ capacity q.

(** The reactor's local variables that the invariant depends on. *)
Record Local := mkLocal {
  l_held : list ticket;        (* a response popped and not yet applied *)
  l_owed : list ticket;        (* a response matched and not yet appended *)
  l_pending : list (Z * Z);    (* rejected connections not yet closed *)
  l_dirty : list Z;            (* descriptors with an outdated epoll interest *)
  l_reading : option Z;        (* descriptor with undecoded input *)
  l_resp : bool;               (* the response queue was drained since the last wake-up *)
  l_rej : bool;                (* so were the rejections *)
}.

Definition base (resp rej : bool) : Local := mkLocal [] [] [] [] None resp rej.
Definition idle : Local := base true true.

Record Inv (L : Local) (s : Server) : Prop := mkInv {
  inv_conns : map_Forall (conn_ok (next_conn_id_ s)) (connections_ s);
  inv_unique : ids_unique (connections_ s);
  inv_input : input_ok (l_reading L) (connections_ s);
  inv_next : 1 ≤ next_conn_id_ s;
  inv_fresh : fresh_ok (next_conn_id_ s) (l_held L ++ items s) (l_pending L ++ refused s) (trace_ s);
  inv_account : account_ok (connections_ s) (l_held L ++ items s) (l_pending L ++ refused s) (trace_ s);
  inv_cancel : cancel_ok (connections_ s) (cancellations_ s) (tasks s);
  inv_origin : origin_ok (requests s) (tasks s) (responses s) (trace_ s);
  inv_trace : trace_ok (connections_ s) (trace_ s);
  inv_stream : stream_ok (connections_ s) (trace_ s);
  inv_owed : owed_ok (connections_ s) (l_owed L) (trace_ s);
  inv_kernel : kernel_ok s (l_dirty L);
  inv_notifier : notifier_ok (notifier_ s) ∧ nf_fd (notifier_ s) ≠ -1;
  inv_resp : l_resp L = true → wake_ok (data_queue_ (response_queue_ s) ≠ []) s;
  inv_rej : l_rej L = true → wake_ok (rejected_response_connections_ s ≠ ∅) s;
  inv_producers : producers_ok s;
  inv_config : config_ok (runtime_config_ s);
  inv_queues : queue_ok (request_queue_ s) ∧ queue_ok (auth_queue_ s) ∧ queue_ok (response_queue_ s);
}.

(** Other threads fetch configurations through the validating parser. *)
Definition action_ok (a : Action) : Prop :=
  match a with APullEnd (Some c) => config_ok c | _ => True end.

Definition env_ok (E : Env) : Prop := ∀ n, Forall action_ok (sched E n).
