(* ===== verification/Auth.v ===== *)
(** * Authentication from the wire to the handler

    The control-plane client as the [ControlPlane] the AUTH handler calls, and
    as the source of the configurations the puller adopts: the places where
    the data plane meets the control plane. *)

From S2P Require Import Prelude Text ControlTypes Json Protocol Stats RuntimeConfig HttpParser.
From S2P Require Import Socket Client Handlers Server Invariant.
#[local] Open Scope Z_scope.

(** The client, called with the system in state [s]. *)
#[local] Instance client_control `{JsonLib} (w : World) (fuel : nat) (c : ControlPlaneClient) (s : Net)
    : ControlPlane :=
  fun client_id token not_after =>
    match checkAuth w fuel c client_id token not_after s with
    | Some (r, _) => r
    | None => None
    end.

(** The configuration [fetchConfig] hands to the puller. *)
Definition fetched_config `{JsonLib} (w : World) (fuel : nat) (c : ControlPlaneClient)
    (config : RuntimeConfig) (s : Net) : option RuntimeConfig :=
  match fetchConfig w fuel c config s with
  | Some (Some (true, fetched), _) => Some fetched
  | _ => None
  end.

(** ** Properties *)

(** C18: Authentication, end to end.  A client is authenticated only if its
    AUTH payload is a JSON object with these string credentials, a connection
    to the control plane carried exactly the request for them, whose body
    reads as exactly the same credentials again, and exactly one well-framed
    successful response came back whose JSON body says [allowed: true]; the
    connection is closed again. *)
Theorem auth_end_to_end `{JsonLib} (w : World) (δ R : Z) (fuel : nat)
    (host : bytes) (port timeout_ms : Z) (gateway_token : bytes) (c : ControlPlaneClient) (s : Net)
    (request : Request) (not_after : option Z) (h : HState) (client_id : bytes)
    (HL : Lawful w δ) (HR : ∀ k, w_resolve_cost w k ≤ R)
    (Hc : newClient host port timeout_ms gateway_token = Some c)
    (Hfuel : timeout_ms * MILLISECOND + 1 < Z.of_nat fuel)
    (Hauth : rs_client_id_to_authenticate
       (ah_response (@handleAuth _ (client_control w fuel c s) request not_after h).1) = Some client_id) :
  ∃ j token body s',
    json_parse (rq_payload request) = Some j ∧
    json_at (lit "client_id") j = Some (JString client_id) ∧
    json_at (lit "token") j = Some (JString token) ∧
    json_dump (json_of_pairs [(lit "client_id", JString client_id); (lit "token", JString token)])
      = Some body ∧
    auth_credentials body = Some (client_id, token) ∧
    auth_evidence c client_id token true (n_open s) s' ∧ n_open s' = n_open s.
Proof.
  apply newClient_ok in Hc as [Hok ->]. set (c := mkClient _ _ _ _) in *.
  apply handleAuth_authenticates in Hauth as (j & token & result & Hj & Hid & Htok & Hcheck & Hout).
  unfold control_check, client_control in Hcheck.
  destruct (checkAuth_spec w δ fuel c client_id token not_after s R)
    as (r & s' & Hrun & Ho & _ & Hr); [done|done|done|].
  rewrite Hrun in Hcheck. subst r. rewrite Hout in Hr.
  destruct (credentials_forwarded client_id token) as (body & Hb & Hcred); [by eapply json_parse_string..|].
  by exists j, token, body, s'.
Qed.

(** The configurations the puller applies are valid: whatever the control
    plane answers, the action with which the puller ends its round is one the
    server's invariant allows. *)
Theorem fetched_config_admissible `{JsonLib} (w : World) (fuel : nat) (c : ControlPlaneClient)
    (config : RuntimeConfig) (s : Net) :
  action_ok (APullEnd (fetched_config w fuel c config s)).
Proof.
  unfold fetched_config, fetchConfig. destruct (requestJson _ _ _ _ _ _ _ _) as [[[res|] s']|]; try done.
  destruct (negb (http_ok res)); [done|]. unfold parseRuntimeConfig.
  destruct (parseRuntimeConfig_body (hr_body res)) as [cfg|] eqn:Ep; [|done].
  simpl. by eapply parseRuntimeConfig_body_ok.
Qed.

(** ** Witness *)

Definition sample_auth_request : Request :=
  mkRequest 9 1 1 AUTH 7 (lit "{ 'token' : 't', 'client_id' : 'c' }").
Definition sample_handlers : HState := mkHState newStats (newLogStorage None false true true).

Lemma auth_end_to_end_witness :
  ∃ j token body s',
    @json_parse sample_docs (rq_payload sample_auth_request) = Some j ∧
    json_at (lit "client_id") j = Some (JString (lit "c")) ∧
    json_at (lit "token") j = Some (JString token) ∧
    @json_dump sample_docs
      (json_of_pairs [(lit "client_id", JString (lit "c")); (lit "token", JString token)]) = Some body ∧
    @auth_credentials sample_docs body = Some (lit "c", token) ∧
    auth_evidence (H := sample_docs) sample_client (lit "c") token true (n_open sample_net) s' ∧
    n_open s' = n_open sample_net.
Proof.
  refine (auth_end_to_end (H := sample_docs) sample_os 1 1000 (Z.to_nat 1000010)
            (lit "::1") 8080 1 (lit "secret") sample_client sample_net sample_auth_request None
            sample_handlers (lit "c") _ _ _ _ _).
  - intros k. simpl. lia.
  - vm_compute. reflexivity.
  - rewrite Z2Nat.id; unfold MILLISECOND; lia.
  - vm_compute. reflexivity.
Defined.
