(* ===== verification/Threads.v ===== *)
(** * The other threads preserve the invariant

    Every atomic action of a worker, of the configuration puller and of the
    callers of [stop] preserves [Inv], whatever the reactor holds in its
    local variables at that moment; hence so does [sync]. *)

From S2P Require Import Prelude Json Protocol BlockQueue Notifier ControlTypes Stats RuntimeConfig.
From S2P Require Import Logger Handlers Server Invariant.
#[local] Open Scope Z_scope.

(** ** Generic lemmas *)

Lemma gather_nil {A B} (f : A → list B) : gather f [] = [].
Proof. done. Qed.

Lemma gather_cons {A B} (f : A → list B) x l : gather f (x :: l) = f x ++ gather f l.
Proof. done. Qed.

Lemma gather_app {A B} (f : A → list B) l k : gather f (l ++ k) = gather f l ++ gather f k.
Proof. unfold gather. by rewrite map_app, concat_app. Qed.

Lemma gather_snoc {A B} (f : A → list B) l x : gather f (l ++ [x]) = gather f l ++ f x.
Proof. by rewrite gather_app, gather_cons, gather_nil, app_nil_r. Qed.

Lemma elem_of_gather {A B} (f : A → list B) l y : y ∈ gather f l ↔ ∃ x, x ∈ l ∧ y ∈ f x.
Proof.
  induction l as [|x l IH]; [rewrite gather_nil; set_solver|].
  rewrite gather_cons, elem_of_app, IH. set_solver.
Qed.

#[export] Hint Rewrite @gather_nil @gather_cons @gather_app : zlen.

Lemma of_key_app k l1 l2 : of_key k (l1 ++ l2) = of_key k l1 ++ of_key k l2.
Proof. apply filter_app. Qed.

Lemma of_key_cons_eq t l : of_key t.1 (t :: l) = t :: of_key t.1 l.
Proof. apply filter_cons_True. done. Qed.

Lemma of_key_cons_ne k t l : t.1 ≠ k → of_key k (t :: l) = of_key k l.
Proof. intros. by apply filter_cons_False. Qed.

#[export] Instance notifying_dec w : Decision (notifying w).
Proof. unfold notifying. destruct (w_pc w); (by left) || (by right). Defined.

#[export] Instance of_key_proper k : Proper ((≡ₚ) ==> (≡ₚ)) (of_key k).
Proof. intros l1 l2 Hl. unfold of_key. by rewrite Hl. Qed.

Lemma zlen_perm {A} (l k : list A) : l ≡ₚ k → zlen l = zlen k.
Proof. intros H. unfold zlen. by rewrite H. Qed.

(** Replacing the program counter of one worker. *)
Lemma set_pc_split i pc s w :
  workers_ s !! i = Some w →
  ∃ l1 l2, workers_ s = l1 ++ w :: l2 ∧
           workers_ (set_pc i pc s) = l1 ++ mkWorker (w_kind w) pc :: l2.
Proof.
  intros (l1 & l2 & Hw & Hi)%list_elem_of_split_length. exists l1, l2. split; [done|].
  unfold set_pc. simpl. rewrite Hw, alter_app_r_alt by lia.
  by replace (i - length l1)%nat with 0%nat by lia.
Qed.

(** ** Work accounting under permutation, loss and refusal *)

Lemma account_perm m its its' lost tr :
  its ≡ₚ its' → account_ok m its lost tr → account_ok m its' lost tr.
Proof.
  intros Hp H fd c Hc. destruct (H fd c Hc) as [Hle Heq].
  assert (Hk : of_key (conn_key c) its ≡ₚ of_key (conn_key c) its') by (by rewrite Hp).
  rewrite <- (zlen_perm _ _ Hk). split; [done|]. intros Hl. destruct (Heq Hl) as [-> Hadm].
  split; [done|]. rewrite Hadm. by apply Permutation_app_head, Permutation_map.
Qed.

(** Dropping a ticket whose connection is gone. *)
Lemma account_drop m t its its' lost tr :
  its ≡ₚ t :: its' → (∀ fd c, m !! fd = Some c → conn_key c ≠ t.1) →
  account_ok m its lost tr → account_ok m its' lost tr.
Proof.
  intros Hp Hdead H fd c Hc. destruct (H fd c Hc) as [Hle Heq].
  assert (Hk : of_key (conn_key c) its ≡ₚ of_key (conn_key c) its').
  { rewrite Hp, of_key_cons_ne; [done|]. intros E. by apply (Hdead fd c Hc). }
  rewrite <- (zlen_perm _ _ Hk). split; [done|]. intros Hl. destruct (Heq Hl) as [-> Hadm].
  split; [done|]. rewrite Hadm. by apply Permutation_app_head, Permutation_map.
Qed.

(** Losing a ticket to a refused push. *)
Lemma account_lose m t its its' lost lost' tr :
  its ≡ₚ t :: its' → t.1 ∈ lost' → (∀ k, k ∈ lost → k ∈ lost') →
  account_ok m its lost tr → account_ok m its' lost' tr.
Proof.
  intros Hp Ht Hsub H fd c Hc. destruct (H fd c Hc) as [Hle Heq].
  destruct (decide (t.1 = conn_key c)) as [E|E].
  - split; [|by intros []; rewrite <- E].
    rewrite (zlen_perm _ (of_key (conn_key c) (t :: its'))) in Hle by (by rewrite Hp).
    rewrite <- E, of_key_cons_eq, zlen_cons, E in Hle. lia.
  - assert (Hk : of_key (conn_key c) its ≡ₚ of_key (conn_key c) its')
      by (by rewrite Hp, of_key_cons_ne).
    rewrite <- (zlen_perm _ _ Hk). split; [done|]. intros Hl.
    destruct Heq as [-> Hadm]; [auto|]. split; [done|].
    rewrite Hadm. by apply Permutation_app_head, Permutation_map.
Qed.

Lemma account_lost_mono m its lost lost' tr :
  (∀ k, k ∈ lost → k ∈ lost') → account_ok m its lost tr → account_ok m its lost' tr.
Proof.
  intros Hsub H fd c Hc. destruct (H fd c Hc) as [? Heq]. split; [done|]. intros. apply Heq. auto.
Qed.

(** ** Wake-ups *)

Lemma wake_mono (P P' : Prop) s s' :
  wake_ok P s → (P' → P) → nf_counter (notifier_ s) ≤ nf_counter (notifier_ s') →
  (∀ w, w ∈ workers_ s → notifying w →
     0 < nf_counter (notifier_ s') ∨ ∃ w', w' ∈ workers_ s' ∧ notifying w') →
  wake_ok P' s'.
Proof.
  intros H HP Hc Hw HP'. destruct (H (HP HP')) as [?|(w & Hin & Hn)]; [left; lia|]. eauto.
Qed.

(** The notifying workers other than the one that moves keep notifying. *)
Lemma notifying_kept l1 l2 w w' (x : Worker) :
  ¬ notifying w → x ∈ l1 ++ w :: l2 → notifying x →
  ∃ y, y ∈ l1 ++ w' :: l2 ∧ notifying y.
Proof.
  intros Hn Hin Hx. exists x. split; [|done].
  rewrite elem_of_app, elem_of_cons in *. destruct Hin as [?|[->|?]]; [by left|done|by right; right].
Qed.

Lemma wake_kept (P P' : Prop) s s' l1 l2 w w' :
  workers_ s = l1 ++ w :: l2 → workers_ s' = l1 ++ w' :: l2 → w_pc w ≠ WNotify →
  (P' → P) → nf_counter (notifier_ s) ≤ nf_counter (notifier_ s') →
  wake_ok P s → wake_ok P' s'.
Proof.
  intros Hb Ha Hq HP Hc Hw. eapply (wake_mono P P' s s'); [done|done|done|].
  intros x Hx Hnx. right. rewrite Hb in Hx. rewrite Ha. by eapply notifying_kept.
Qed.

(** ** Transfer of the invariant across an action of another thread *)

Definition reactor_view (s : Server) :=
  (connections_ s, next_conn_id_ s, cancellations_ s, trace_ s, state_ s, epfd_ s, listen_fd_ s,
   k_interest s, k_open s).

Definition response_ok (tr : list Obs) (r : Response) : Prop :=
  rs_skip_write r = false ∧
  (rs_client_id_to_authenticate r ≠ None →
     ∃ q, OAdmitAuth q ∈ tr ∧ rq_conn_id q = rs_conn_id r).

Lemma inv_shared L s s' :
  Inv L s →
  reactor_view s' = reactor_view s →
  nf_fd (notifier_ s') = nf_fd (notifier_ s) → notifier_ok (notifier_ s') →
  (∀ t, t ∈ items s' → t ∈ items s) →
  (∀ k, k ∈ refused s' → k ∈ refused s ∨ ∃ t, t ∈ items s ∧ t.1 = k) →
  (account_ok (connections_ s) (l_held L ++ items s) (l_pending L ++ refused s) (trace_ s) →
   account_ok (connections_ s) (l_held L ++ items s') (l_pending L ++ refused s') (trace_ s)) →
  (∀ t, t ∈ tasks s' → t ∈ tasks s) → (∀ r, r ∈ requests s' → r ∈ requests s) →
  (∀ r, r ∈ responses s' → r ∈ responses s ∨ response_ok (trace_ s) r) →
  (l_resp L = true → wake_ok (data_queue_ (response_queue_ s') ≠ []) s') →
  (l_rej L = true → wake_ok (rejected_response_connections_ s' ≠ ∅) s') →
  producers_ok s' → config_ok (runtime_config_ s') →
  queue_ok (request_queue_ s') ∧ queue_ok (auth_queue_ s') ∧ queue_ok (response_queue_ s') →
  Inv L s'.
Proof.
  intros HI Hv Hfd Hnok Hit Href Hacc Htk Hrq Hrs Hw1 Hw2 Hp Hc Hq.
  unfold reactor_view in Hv. injection Hv as Ec En Ecc Et Es Ee El Ei Eo.
  constructor; rewrite ?Ec, ?En, ?Ecc, ?Et; try done; try apply HI.
  - destruct (inv_fresh _ _ HI) as (H1 & H2 & H3). split_and!; [|intros k|done].
    + intros t. rewrite elem_of_app. intros [?|?%Hit]; apply H1, elem_of_app; auto.
    + rewrite elem_of_app. intros [?|[?|(t & ? & <-)]%Href]; [apply H2, elem_of_app; auto..|].
      apply H1, elem_of_app. auto.
  - apply Hacc, HI.
  - destruct (inv_cancel _ _ HI) as [H1 H2]. split; [auto|]. intros fd c a Hin Ha.
    destruct (H2 fd c a Hin Ha). split; [done|]. auto.
  - destruct (inv_origin _ _ HI) as (H1 & H2 & H3). split_and!; [auto|auto|].
    intros r [?|?]%Hrs; [by apply H3|done].
  - destruct (inv_kernel _ _ HI) as [H1 H2 H3 H4 H5].
    unfold kernel_ok. rewrite Ec, Ee, El, Ei, Eo, Hfd. constructor; try done.
    intros fd c Hin. destruct (H5 fd c Hin) as (? & ? & ev & ? & Hev). split_and!; try done.
    exists ev. split; [done|]. intros Hd. rewrite (Hev Hd). unfold connectionEvents. by rewrite Es.
  - rewrite Hfd. by destruct (inv_notifier _ _ HI).
Qed.

(** An action that leaves queues, workers and rejections alone. *)
Lemma inv_notify k L s : Inv L s → Inv L (notify_reactor k s).
Proof.
  intros HI. pose proof (inv_notifier _ _ HI) as [Hn Hfd].
  destruct (notify_open k _ Hfd Hn) as (_ & [_ Hpos] & Hok & Efd).
  eapply inv_shared; [exact HI|..]; simpl; try done; auto.
  - intros _ _. by left.
  - intros _ _. by left.
  - apply HI.
  - apply HI.
  - apply HI.
Qed.

(** ** Worker actions

    [move_tac] reduces an action of worker [i], whose program counter becomes
    [pc], to the facts that are particular to it. *)

Lemma producers_move l1 l2 w w' :
  (producing w ↔ producing w') →
  zlen (filter producing (l1 ++ w :: l2)) = zlen (filter producing (l1 ++ w' :: l2)).
Proof.
  intros H. rewrite !filter_app, !zlen_app, !filter_cons.
  destruct (decide (producing w)), (decide (producing w')); rewrite ?zlen_cons; tauto || lia.
Qed.

(** The facts shared by the actions that only move a ticket around. *)
Record moved (s s' : Server) (l1 l2 : list Worker) (w w' : Worker) : Prop := mkMoved {
  mv_before : workers_ s = l1 ++ w :: l2;
  mv_after : workers_ s' = l1 ++ w' :: l2;
  mv_view : reactor_view s' = reactor_view s;
  mv_notifier : notifier_ s' = notifier_ s;
  mv_rejected : rejected_response_connections_ s' = rejected_response_connections_ s;
  mv_config : runtime_config_ s' = runtime_config_ s;
  mv_remaining : response_producers_remaining_ s' = response_producers_remaining_ s;
  mv_stopped : stopped (response_queue_ s') = stopped (response_queue_ s);
  mv_producing : producing w ∧ producing w';
  mv_quiet : ¬ notifying w;
}.

Lemma producers_same s s' l1 l2 w w' :
  workers_ s = l1 ++ w :: l2 → workers_ s' = l1 ++ w' :: l2 → producing w → producing w' →
  response_producers_remaining_ s' = response_producers_remaining_ s →
  stopped (response_queue_ s') = stopped (response_queue_ s) → state_ s' = state_ s →
  producers_ok s → producers_ok s'.
Proof.
  intros Hb Ha Hp Hp' Hr Hs Est (H1 & H2 & H3 & H4).
  assert (E : producers s' = producers s).
  { unfold producers. rewrite Hb, Ha. symmetry. apply producers_move. tauto. }
  unfold producers_ok. rewrite E, Hr, Hs, Est. split_and!; try done.
  intros x Hx Hpc. rewrite Ha in Hx. apply elem_of_app in Hx as [Hx|Hx].
  - apply (H4 x); [rewrite Hb, elem_of_app; auto|done].
  - apply elem_of_cons in Hx as [->|Hx].
    + unfold producing in Hp'. by rewrite Hpc in Hp'.
    + apply (H4 x); [rewrite Hb, elem_of_app, elem_of_cons; auto|done].
Qed.

Lemma moved_wake P P' s s' l1 l2 w w' :
  moved s s' l1 l2 w w' → (P' → P ∨ notifying w') → wake_ok P s → wake_ok P' s'.
Proof.
  intros M HP Hw HP'. destruct (HP HP') as [HPP|Hn].
  - eapply (wake_mono P P s s'); [done|done|by rewrite (mv_notifier _ _ _ _ _ _ M)| |done].
    intros x Hx Hnx. right. rewrite (mv_before _ _ _ _ _ _ M) in Hx.
    rewrite (mv_after _ _ _ _ _ _ M). eapply notifying_kept; [apply M|done|done].
  - right. exists w'. rewrite (mv_after _ _ _ _ _ _ M). split; [|done].
    rewrite elem_of_app, elem_of_cons. auto.
Qed.

(** A ticket moves between a queue and a worker, or changes its form inside a
    worker: nothing is lost. *)
Lemma inv_move L s s' l1 l2 w w' :
  Inv L s → moved s s' l1 l2 w w' →
  items s' ≡ₚ items s →
  worker_refused w = worker_refused w' →
  (∀ t, t ∈ tasks s' → t ∈ tasks s) → (∀ r, r ∈ requests s' → r ∈ requests s) →
  (∀ r, r ∈ responses s' → r ∈ responses s ∨ response_ok (trace_ s) r) →
  (data_queue_ (response_queue_ s') ≠ [] → data_queue_ (response_queue_ s) ≠ [] ∨ notifying w') →
  queue_ok (request_queue_ s') ∧ queue_ok (auth_queue_ s') ∧ queue_ok (response_queue_ s') →
  Inv L s'.
Proof.
  intros HI M Hit Href Htk Hrq Hrs Hne Hq.
  assert (Eref : refused s' = refused s).
  { unfold refused. rewrite (mv_rejected _ _ _ _ _ _ M), (mv_before _ _ _ _ _ _ M),
      (mv_after _ _ _ _ _ _ M). autorewrite with zlen. by rewrite Href. }
  eapply inv_shared; [exact HI|apply M|by rewrite (mv_notifier _ _ _ _ _ _ M)|..]; try done.
  - rewrite (mv_notifier _ _ _ _ _ _ M). apply HI.
  - intros t. by rewrite Hit.
  - intros k. rewrite Eref. by left.
  - rewrite Eref. apply account_perm. by rewrite Hit.
  - intros HL. eapply moved_wake; [exact M|exact Hne|exact (inv_resp _ _ HI HL)].
  - intros HL. rewrite (mv_rejected _ _ _ _ _ _ M).
    eapply moved_wake; [exact M| |exact (inv_rej _ _ HI HL)]. by left.
  - destruct M as [? ? Hv ? ? ? ? ? [? ?] ?]. unfold reactor_view in Hv.
    injection Hv as _ _ _ _ Est _ _ _ _. by eapply producers_same; [..|apply HI].
  - rewrite (mv_config _ _ _ _ _ _ M). apply HI.
Qed.

(** Computes the work of a state from the decomposition of its workers, and
    closes membership goals about it. *)
Ltac work E1 E2 :=
  unfold items, tasks, requests, responses, refused;
  rewrite ?E2, ?E1; autorewrite with zlen; simpl.

Ltac mem_solve :=
  intros; repeat rewrite ?elem_of_app, ?elem_of_cons, ?elem_of_nil in *; tauto.

Section Actions.
Context `{JsonLib}.

Lemma inv_worker_pop i kind L s :
  Inv L s → workers_ s !! i = Some (mkWorker kind WIdle) → Inv L (worker_pop i kind s).
Proof.
  intros HI Hw. pose proof (inv_queues _ _ HI) as (Hq1 & Hq2 & Hq3). unfold worker_pop.
  assert (Hexit : Inv L (set_pc i WExit s)).
  { destruct (set_pc_split i WExit s _ Hw) as (l1 & l2 & E1 & E2).
    eapply (inv_move L s _ l1 l2); [done|by split| | |..]; work E1 E2; try done; auto. }
  destruct kind.
  - destruct (pop (request_queue_ s)) as [[[r|] q]|] eqn:Ep; [|done|done].
    apply pop_Some in Ep as (Ed & Est & Ecap).
    destruct (set_pc_split i (WNormal r) (set_request_queue_ q s) _ Hw) as (l1 & l2 & E1 & E2).
    simpl in E1.
    eapply (inv_move L s _ l1 l2); [done|by split| | |..]; work E1 E2; rewrite ?Ed; simpl;
      try done; try mem_solve; auto.
    + perm_solve.
    + split_and!; try done. unfold queue_ok, size, capacity in *. rewrite Ed, zlen_cons in Hq1. lia.
  - destruct (pop (auth_queue_ s)) as [[[t|] q]|] eqn:Ep; [|done|done].
    apply pop_Some in Ep as (Ed & Est & Ecap).
    destruct (set_pc_split i (WCheck t) (set_auth_queue_ q s) _ Hw) as (l1 & l2 & E1 & E2).
    simpl in E1.
    eapply (inv_move L s _ l1 l2); [done|by split| | |..]; work E1 E2; rewrite ?Ed; simpl;
      try done; try mem_solve; auto.
    + perm_solve.
    + split_and!; try done. unfold queue_ok, size, capacity in *. rewrite Ed, zlen_cons in Hq2. lia.
Qed.

(** From the handling of a request to its response, or to a read for STATS. *)
Lemma inv_worker_respond i r resp pc kind h L s :
  Inv L s → workers_ s !! i = Some (mkWorker kind pc) → handles pc r →
  (∀ resp', resp = Some resp' → answers r resp' ∧ plain resp') →
  Inv L (worker_respond i r resp (set_hstate_ h s)).
Proof.
  intros HI Hw Hpc Hresp.
  assert (Hstep : ∀ resp h, answers r resp → rs_client_id_to_authenticate resp = None →
            Inv L (set_pc i (WPush resp) (set_hstate_ h s))).
  { clear h resp Hresp. intros resp h (Efd & Eid & _ & Erq & Esk) Hcl.
    destruct (set_pc_split i (WPush resp) (set_hstate_ h s) _ Hw) as (l1 & l2 & E1 & E2).
    simpl in E1.
    assert (Et : response_ticket resp = request_ticket r)
      by (unfold response_ticket, request_ticket, response_key, request_key; congruence).
    destruct Hpc as [->|[loads ->]];
      (eapply (inv_move L s _ l1 l2); [done|by split| | |..]; work E1 E2; rewrite ?Et; simpl;
         try done; try mem_solve; auto; [|apply HI];
       intros r'; rewrite !elem_of_app, elem_of_cons; intros [[?|[->|?]]|?]; auto;
       right; by split; [|rewrite Hcl]). }
  destruct resp as [resp|]; simpl.
  - destruct (Hresp resp eq_refl) as [? [? _]]. by apply Hstep.
  - apply (Hstep (makeInternalErrorResponse r) (with_stats incrementErrors h)); done.
Qed.

Lemma inv_worker_read i r pc loads kind h L s :
  Inv L s → workers_ s !! i = Some (mkWorker kind pc) → handles pc r →
  Inv L (set_pc i (WStats r loads) (set_hstate_ h s)).
Proof.
  intros HI Hw Hpc. destruct (set_pc_split i (WStats r loads) (set_hstate_ h s) _ Hw) as (l1 & l2 & E1 & E2).
  simpl in E1. destruct Hpc as [->|[loads' ->]];
    (eapply (inv_move L s _ l1 l2); [done|by split| | |..]; work E1 E2; simpl; try done; try mem_solve; auto; apply HI).
Qed.

Lemma inv_worker_dispatch i env r kind L s :
  Inv L s → workers_ s !! i = Some (mkWorker kind (WNormal r)) →
  Inv L (worker_dispatch i env r s).
Proof.
  intros HI Hw. unfold worker_dispatch. case_bool.
  - eapply (inv_worker_read i r (WNormal r)); [done|exact Hw|by left].
  - set (p := if we_throws env then _ else _). assert (Hp : ∀ resp, p.1 = Some resp → answers r resp ∧ plain resp).
    { unfold p. destruct (we_throws env); [done|]. destruct (dispatch _ r (hstate_ s)) as [o h] eqn:Ed. simpl.
      intros resp ->. by apply dispatch_safe in Ed. }
    destruct p as [resp h]. eapply inv_worker_respond; [done|exact Hw|by left|done].
Qed.

Lemma inv_worker_stats i env r loads kind L s :
  Inv L s → workers_ s !! i = Some (mkWorker kind (WStats r loads)) →
  Inv L (worker_stats i env r loads s).
Proof.
  intros HI Hw. assert (Hh : ∀ f : Server → Server, (∀ h, Inv L (f (set_hstate_ h s))) → Inv L (f s)).
  { intros f Hf. specialize (Hf (hstate_ s)). by destruct s. }
  unfold worker_stats. destruct (stats_order !! length loads) as [load|].
  - apply (Hh (set_pc i _)). intros h. eapply inv_worker_read; [done|exact Hw|right; by eexists].
  - apply (Hh (worker_respond i r _)). intros h. eapply inv_worker_respond; [done|exact Hw|right; by eexists|].
    destruct (we_throws env); [done|]. intros resp. apply handleStats_safe.
Qed.

Lemma inv_worker_check i t kind L s :
  Inv L s → workers_ s !! i = Some (mkWorker kind (WCheck t)) → Inv L (worker_check i t s).
Proof.
  intros HI Hw. unfold worker_check.
  destruct (default false (cancellations_ s !! at_cancellation t)) eqn:Ec.
  - destruct (set_pc_split i WIdle (stat incrementAuthTaskCancelledBeforeStart s) _ Hw)
      as (l1 & l2 & E1 & E2). simpl in E1.
    assert (Ht : t ∈ tasks s).
    { work E1 E2. rewrite !elem_of_app, elem_of_cons. auto. }
    assert (Hdead : ∀ fd c, connections_ s !! fd = Some c → conn_key c ≠ task_key t).
    { destruct (inv_cancel _ _ HI) as [H1 _]. apply (H1 t Ht).
      destruct (cancellations_ s !! at_cancellation t) as [[]|]; done. }
    pose proof (inv_queues _ _ HI).
    eapply inv_shared; [exact HI|..]; work E1 E2; try done; try mem_solve; try apply HI.
    + apply (account_drop _ (task_ticket t)); [perm_solve|done].
    + intros HL. by eapply (wake_kept _ _ s); [exact E1|exact E2|..|exact (inv_resp _ _ HI HL)].
    + intros HL. by eapply (wake_kept _ _ s); [exact E1|exact E2|..|exact (inv_rej _ _ HI HL)].
    + by eapply producers_same; [exact E1|exact E2|..|apply HI].
  - set (s1 := stat incrementRequests (set_auth_in_flight_ (AtomicCounterGuard_enter (auth_in_flight_ s)) s)).
    destruct (set_pc_split i (WAuth t) s1 _ Hw) as (l1 & l2 & E1 & E2). simpl in E1.
    eapply (inv_move L s _ l1 l2); [done|by split| | |..]; work E1 E2; try done; try mem_solve; auto.
    apply HI.
Qed.

Lemma inv_worker_auth i env t kind L s :
  Inv L s → workers_ s !! i = Some (mkWorker kind (WAuth t)) → Inv L (worker_auth i env t s).
Proof.
  intros HI Hw. unfold worker_auth.
  assert (Hstep : ∀ resp h, answers (at_request t) resp →
            Inv L (set_pc i (WPush resp) (set_hstate_ h s))).
  { intros resp h (Efd & Eid & _ & Erq & Esk).
    destruct (set_pc_split i (WPush resp) (set_hstate_ h s) _ Hw) as (l1 & l2 & E1 & E2).
    simpl in E1.
    assert (Et : response_ticket resp = task_ticket t)
      by (unfold response_ticket, task_ticket, request_ticket, response_key, request_key; congruence).
    assert (Ht : t ∈ tasks s).
    { work E1 E2. rewrite !elem_of_app, elem_of_cons. auto. }
    destruct (inv_origin _ _ HI) as (_ & Ho & _). destruct (Ho t Ht) as [_ Hadm].
    eapply (inv_move L s _ l1 l2); [done|by split| | |..]; work E1 E2; rewrite ?Et; simpl;
      try done; try mem_solve; auto; [|apply HI].
    intros r'. rewrite !elem_of_app, elem_of_cons. intros [[?|[->|?]]|?]; auto.
    right. split; [done|]. intros _. eauto. }
  destruct (we_throws env).
  - by apply (Hstep (makeInternalAuthErrorResponse (at_request t))
      (with_stats (recordAuthResult Unavailable (we_duration_us env))
         (with_stats incrementErrors (hstate_ s)))).
  - match goal with |- context [handleAuth ?r ?d ?h] =>
      pose proof (@handleAuth_safe _ (we_control env) r d h) as Hs;
      destruct (handleAuth r d h) as [handled h']
    end.
    destruct Hs as [Ha _].
    by apply (Hstep (ah_response handled)
      (with_stats (recordAuthResult (ah_outcome handled) (we_duration_us env)) h')).
Qed.

Lemma push_queue_ok {T} (x : T) q : queue_ok q → queue_ok (push x q).2.
Proof.
  unfold queue_ok, push, size, capacity. intros Hq. repeat case_bool; try done;
    rewrite Z.geb_leb in *; bool_facts; simpl; rewrite zlen_app, zlen_cons, zlen_nil; lia.
Qed.

Lemma inv_worker_push i r kind L s :
  Inv L s → workers_ s !! i = Some (mkWorker kind (WPush r)) → Inv L (worker_push i kind r s).
Proof.
  intros HI Hw. pose proof (inv_queues _ _ HI) as (Hq1 & Hq2 & Hq3). unfold worker_push.
  pose proof (push_queue_ok r _ Hq3) as Hq3'.
  pose proof (push_data r (response_queue_ s)) as Hpd.
  destruct (push r (response_queue_ s)) as [res q] eqn:Ep. destruct Hpd as (Ed & Est & Ecap).
  destruct (decide (res = PushOK)) as [->|Hres].
  - destruct (set_pc_split i WNotify (set_response_queue_ q s) _ Hw) as (l1 & l2 & E1 & E2).
    simpl in E1.
    eapply (inv_move L s _ l1 l2); [done|by split| | |..]; work E1 E2; rewrite ?Ed; simpl;
      try done; try mem_solve; auto.
    + rewrite map_app. simpl. perm_solve.
    + by right.
  - assert (q = response_queue_ s) as -> by (by eapply push_not_ok).
    assert (Hstep : ∀ h, Inv L (set_pc i (WReject (response_key r))
                                  (set_hstate_ h (set_response_queue_ (response_queue_ s) s)))).
    { intros h. match goal with |- Inv _ (set_pc _ ?pc ?s1) =>
        destruct (set_pc_split i pc s1 _ Hw) as (l1 & l2 & E1 & E2) end. simpl in E1.
      eapply inv_shared; [exact HI|..]; work E1 E2; try done; try mem_solve; try apply HI.
      - intros k. rewrite !elem_of_app, elem_of_cons. intros [?|[?|[->|?]]]; auto.
        right. exists (response_ticket r). split; [|done]. rewrite !elem_of_app, elem_of_cons. auto 6.
      - apply (account_lose _ (response_ticket r)); [perm_solve| |mem_solve].
        simpl. rewrite !elem_of_app, elem_of_cons. auto.
      - intros HL. by eapply (wake_kept _ _ s); [exact E1|exact E2|..|exact (inv_resp _ _ HI HL)].
      - intros HL. by eapply (wake_kept _ _ s); [exact E1|exact E2|..|exact (inv_rej _ _ HI HL)].
      - by eapply producers_same; [exact E1|exact E2|..|apply HI]. }
    destruct res; [done|..]; destruct kind; apply Hstep.
Qed.

(** Program counters that hold no work. *)
Definition passive (pc : WorkerPC) : Prop :=
  match pc with
  | WIdle | WNotify | WLeave | WExit | WLastStop | WLastNotify | WDone => True
  | _ => False
  end.

Lemma passive_work kind pc :
  passive pc →
  worker_tickets (mkWorker kind pc) = [] ∧ worker_tasks (mkWorker kind pc) = [] ∧
  worker_requests (mkWorker kind pc) = [] ∧ worker_responses (mkWorker kind pc) = [] ∧
  worker_refused (mkWorker kind pc) = [].
Proof. by destruct pc. Qed.

Definition shared_view (s : Server) :=
  (notifier_ s, request_queue_ s, auth_queue_ s, data_queue_ (response_queue_ s),
   capacity_ (response_queue_ s), rejected_response_connections_ s, runtime_config_ s).

(** A move between program counters that hold no work; what it does to the
    producers is left to the caller. *)
Lemma inv_passive i pc pc' kind L s s1 :
  Inv L s → workers_ s !! i = Some (mkWorker kind pc) → passive pc → passive pc' →
  workers_ s1 = workers_ (set_pc i pc' s) →
  reactor_view s1 = reactor_view s → shared_view s1 = shared_view s →
  (pc = WNotify → 0 < nf_counter (notifier_ s)) →
  producers_ok s1 → Inv L s1.
Proof.
  intros HI Hw Hp Hp' E Hv Hsv Hnot Hprod. pose proof (inv_queues _ _ HI) as (Hq1 & Hq2 & Hq3).
  destruct (set_pc_split i pc' s _ Hw) as (l1 & l2 & E1 & E2). rewrite <- E in E2.
  unfold shared_view in Hsv. injection Hsv as V1 V2 V3 V4 V5 V6 V7.
  assert (Hwake : ∀ P, wake_ok P s → wake_ok P s1).
  { intros P HW. destruct (decide (notifying (mkWorker kind pc))) as [Hn|Hn].
    - intros _. left. rewrite V1. by apply Hnot.
    - eapply (wake_kept P P s); [exact E1|exact E2|exact Hn|done|by rewrite V1|exact HW]. }
  assert (Ework : items s1 = items s ∧ tasks s1 = tasks s ∧ requests s1 = requests s ∧
    responses s1 = responses s ∧ refused s1 = refused s).
  { destruct (passive_work kind pc Hp) as (F1 & F2 & F3 & F4 & F5).
    destruct (passive_work kind pc' Hp') as (G1 & G2 & G3 & G4 & G5).
    unfold items, tasks, requests, responses, refused. rewrite V2, V3, V4, V6, E1, E2.
    autorewrite with zlen.
    rewrite ?F1, ?F2, ?F3, ?F4, ?F5. simpl in *. by rewrite ?G1, ?G2, ?G3, ?G4, ?G5. }
  destruct Ework as (W1 & W2 & W3 & W4 & W5).
  eapply inv_shared; [exact HI|exact Hv|..];
    rewrite ?V1, ?V2, ?V3, ?V4, ?V6, ?V7, ?W1, ?W2, ?W3, ?W4, ?W5; try done; try apply HI; auto.
  - intros HL. apply Hwake. exact (inv_resp _ _ HI HL).
  - intros HL. apply Hwake. exact (inv_rej _ _ HI HL).
  - split_and!; try done. unfold queue_ok, size, capacity in *. by rewrite V4, V5.
Qed.

Lemma inv_worker_reject i key kind L s :
  Inv L s → workers_ s !! i = Some (mkWorker kind (WReject key)) →
  Inv L (set_pc i WNotify
    (set_rejected_response_connections_ ({[key]} ∪ rejected_response_connections_ s) s)).
Proof.
  intros HI Hw. set (s1 := set_rejected_response_connections_ _ s).
  destruct (set_pc_split i WNotify s1 _ Hw) as (l1 & l2 & E1 & E2). simpl in E1.
  pose proof (inv_queues _ _ HI).
  assert (Href : ∀ k, k ∈ refused (set_pc i WNotify s1) ↔ k ∈ refused s).
  { intros k. unfold refused. rewrite E2, E1. autorewrite with zlen. simpl.
    repeat rewrite ?elem_of_app, ?elem_of_cons, ?elem_of_elements, ?elem_of_union,
      ?elem_of_singleton. tauto. }
  assert (Hwake : ∀ P, wake_ok P (set_pc i WNotify s1)).
  { intros P _. right. exists (mkWorker kind WNotify). rewrite E2. split; [|done].
    rewrite elem_of_app, elem_of_cons. auto. }
  eapply inv_shared; [exact HI|..]; try done; try apply HI; auto.
  - work E1 E2. mem_solve.
  - intros k. rewrite Href. by left.
  - replace (items (set_pc i WNotify s1)) with (items s) by (by work E1 E2).
    apply account_lost_mono. intros k. rewrite !elem_of_app, Href. tauto.
  - work E1 E2. mem_solve.
  - work E1 E2. mem_solve.
  - work E1 E2. mem_solve.
  - by eapply producers_same; [exact E1|exact E2|..|apply HI].
Qed.

Lemma producers_passive i kind pc pc' s :
  workers_ s !! i = Some (mkWorker kind pc) →
  (producing (mkWorker kind pc) ↔ producing (mkWorker kind pc')) → pc' ≠ WLastStop →
  producers_ok s → producers_ok (set_pc i pc' s).
Proof.
  intros Hw Hp Hne (H1 & H2 & H3 & H4).
  destruct (set_pc_split i pc' s _ Hw) as (l1 & l2 & E1 & E2).
  assert (E : producers (set_pc i pc' s) = producers s).
  { unfold producers. rewrite E1, E2. symmetry. by apply producers_move. }
  unfold producers_ok. rewrite E. split_and!; try done. intros x Hx Hpc. rewrite E2 in Hx.
  rewrite elem_of_app, elem_of_cons in Hx. destruct Hx as [Hx|[->|Hx]]; [|done|];
    (apply (H4 x); [rewrite E1, elem_of_app, elem_of_cons; auto|done]).
Qed.

Lemma inv_worker_notify i k kind pc pc' L s :
  Inv L s → workers_ s !! i = Some (mkWorker kind pc) →
  (pc = WNotify ∧ (pc' = WIdle ∨ pc' = WLeave)) ∨ (pc = WLastNotify ∧ pc' = WDone) →
  Inv L (set_pc i pc' (notify_reactor k s)).
Proof.
  intros HI Hw Hpc. pose proof (inv_notify k _ _ HI) as HI1.
  eapply (inv_passive i pc pc' kind); [exact HI1|done|..|done|done|done| |].
  - by destruct Hpc as [[-> _]|[-> _]].
  - by destruct Hpc as [[_ [->| ->]]|[_ ->]].
  - intros _. destruct (inv_notifier _ _ HI) as [Hok Hfd].
    by destruct (notify_open k _ Hfd Hok) as (_ & [_ ?] & _).
  - apply (producers_passive i kind pc pc' (notify_reactor k s)); [done| | |apply HI1].
    + by destruct Hpc as [[-> [->| ->]]|[-> ->]].
    + by destruct Hpc as [[-> [->| ->]]|[-> ->]].
Qed.

Lemma producers_exit i kind s :
  workers_ s !! i = Some (mkWorker kind WExit) → producers_ok s → producers_ok (worker_exit i s).
Proof.
  intros Hw (H1 & H2 & H3 & H4). unfold worker_exit.
  set (old := response_producers_remaining_ s) in *.
  set (s1 := set_response_producers_remaining_ _ s).
  set (pc := if old =? 1 then WLastStop else WDone).
  destruct (set_pc_split i pc s1 _ Hw) as (l1 & l2 & E1 & E2). simpl in E1.
  assert (E : producers s = 1 + producers (set_pc i pc s1)).
  { unfold producers. rewrite E1, E2, !filter_app, !zlen_app, !filter_cons.
    rewrite decide_True by done. rewrite decide_False by (subst pc; destruct (old =? 1); intros []).
    rewrite zlen_cons. simpl. lia. }
  assert (0 ≤ producers (set_pc i pc s1)) by apply zlen_nonneg.
  unfold producers_ok. split_and!; [|lia| |].
  - transitivity (u32 (old - 1)); [done|]. rewrite u32_small; lia.
  - intros Hs Hst. specialize (H3 Hs Hst). lia.
  - intros x Hx Hpc. destruct (Z.eqb_spec old 1) as [Eo|Eo]; [lia|].
    assert (producers s = 0); [|lia].
    rewrite E2 in Hx. rewrite elem_of_app, elem_of_cons in Hx.
    destruct Hx as [Hx|[->|Hx]]; [|done|];
      (apply (H4 x); [rewrite E1, elem_of_app, elem_of_cons; auto|done]).
Qed.

Lemma inv_worker_exit i kind L s :
  Inv L s → workers_ s !! i = Some (mkWorker kind WExit) → Inv L (worker_exit i s).
Proof.
  intros HI Hw. pose proof (producers_exit i kind s Hw (inv_producers _ _ HI)) as Hprod.
  unfold worker_exit in *. set (pc := if _ =? 1 then _ else _) in *.
  assert (Hp : passive pc) by (subst pc; by destruct (_ =? 1)).
  by eapply (inv_passive i WExit pc kind).
Qed.

Lemma inv_worker_last_stop i kind L s :
  Inv L s → workers_ s !! i = Some (mkWorker kind WLastStop) →
  Inv L (set_pc i WLastNotify (set_response_queue_ (stop (response_queue_ s)) s)).
Proof.
  intros HI Hw. destruct (inv_producers _ _ HI) as (H1 & H2 & H3 & H4).
  assert (Hz : producers s = 0) by (by eapply H4; [apply list_elem_of_lookup; eauto|]).
  eapply (inv_passive i WLastStop WLastNotify kind); [exact HI|done..|].
  apply (producers_passive i kind WLastStop); [done..|]. unfold producers_ok. simpl.
  change (producers (set_response_queue_ (stop (response_queue_ s)) s)) with (producers s).
  split_and!; done || lia.
Qed.

Lemma inv_worker_step i env L s : Inv L s → Inv L (worker_step i env s).
Proof.
  intros HI. unfold worker_step. destruct (workers_ s !! i) as [[kind pc]|] eqn:Hw; [|done].
  destruct pc.
  - by apply inv_worker_pop.
  - by eapply inv_worker_dispatch.
  - by eapply inv_worker_stats.
  - by eapply inv_worker_check.
  - by eapply inv_worker_auth.
  - by eapply inv_worker_push.
  - by eapply inv_worker_reject.
  - eapply inv_worker_notify; [done..|]. destruct kind; auto.
  - eapply (inv_passive i WLeave WIdle kind); [exact HI|done..|].
    by apply (producers_passive i kind WLeave _ (set_auth_in_flight_ _ s)); [..|apply HI].
  - by eapply inv_worker_exit.
  - by eapply inv_worker_last_stop.
  - eapply inv_worker_notify; [done..|]. auto.
  - done.
Qed.

(** ** The configuration puller and the stop flags *)

Lemma inv_config_pull_begin L s : Inv L s → Inv L (config_pull_begin s).
Proof. intros HI. unfold config_pull_begin. case_bool; [|done]. by destruct HI; constructor. Qed.

Lemma inv_config_pull_end fetched L s :
  Inv L s → action_ok (APullEnd fetched) → Inv L (config_pull_end fetched s).
Proof.
  intros HI Ha. unfold config_pull_end. case_bool; [|done].
  destruct fetched as [c|]; [|by destruct HI; constructor].
  pose proof (applyRuntimeConfig_ok (runtime_config_ s) c (inv_config _ _ HI) Ha) as Hok.
  destruct (applyRuntimeConfigIfNewer _ c) as [applied c'] eqn:Eap. simpl in Hok |- *.
  destruct applied; by destruct HI; constructor.
Qed.

Lemma inv_run_action a L s : Inv L s → action_ok a → Inv L (run_action a s).
Proof.
  intros HI Ha. destruct a; simpl.
  - by apply inv_worker_step.
  - by apply inv_config_pull_begin.
  - by apply inv_config_pull_end.
  - by destruct HI; constructor.
  - by destruct HI; constructor.
  - by apply inv_notify.
Qed.

Lemma inv_run_actions l L s : Inv L s → Forall action_ok l → Inv L (run_actions l s).
Proof.
  intros HI Hl. revert s HI. induction Hl as [|a l Ha Hl IH]; intros s HI; [done|].
  by apply IH, inv_run_action.
Qed.

Lemma inv_tick L s : Inv L s → Inv L (tick s).
Proof. intros HI. by destruct HI; constructor. Qed.

Lemma inv_sync E L s : env_ok E → Inv L s → Inv L (sync E s).
Proof. intros HE HI. unfold sync. by apply inv_tick, inv_run_actions. Qed.

End Actions.
