(* ===== verification/Reactor.v ===== *)
(** * The reactor preserves the invariant

    The effect of every function of the reactor thread on [Inv]: closing and
    updating connections, applying responses, admitting requests, socket I/O,
    draining, and a whole iteration of the event loop. *)

From S2P Require Import Prelude Json Protocol BlockQueue Notifier ControlTypes Stats RuntimeConfig.
From S2P Require Import Logger Handlers Server Invariant Threads.
#[local] Open Scope Z_scope.

(** ** What the other threads leave alone *)

Definition private_view (s : Server) :=
  (reactor_view s, rate_limit_windows_ s, shutdown_deadline_ s, shutdown_timeout_ s,
   nf_fd (notifier_ s), ready_file_ s, started_ s, shutdown_finished_ s,
   stopped_ (request_queue_ s), stopped_ (auth_queue_ s)).

Section Private.
Context `{JsonLib}.

Lemma private_worker_step i env s : private_view (worker_step i env s) = private_view s.
Proof.
  unfold worker_step. destruct (workers_ s !! i) as [[kind pc]|]; [|done].
  destruct pc; unfold worker_pop, worker_dispatch, worker_stats, worker_respond, worker_check, worker_auth, worker_push, worker_exit;
    repeat (case_match || case_bool); try done;
    try (unfold private_view, notify_reactor; simpl; by rewrite notify_fd);
    match goal with H : pop _ = Some (Some _, _) |- _ => apply pop_Some in H as (_ & Est & _) end;
    unfold private_view; simpl; by rewrite Est.
Qed.

Lemma private_run_action a s : private_view (run_action a s) = private_view s.
Proof.
  destruct a; simpl; try done.
  - apply private_worker_step.
  - unfold config_pull_begin. by case_bool.
  - unfold config_pull_end. repeat (case_match || case_bool); done.
  - unfold private_view, notify_reactor. simpl. by rewrite notify_fd.
Qed.

Lemma private_run_actions l s : private_view (run_actions l s) = private_view s.
Proof.
  revert s. induction l as [|a l IH]; intros s; [done|].
  transitivity (private_view (run_action a s)); [apply IH|apply private_run_action].
Qed.

Lemma private_sync E s : private_view (sync E s) = private_view s.
Proof. unfold sync. change (private_view (tick ?s)) with (private_view s). apply private_run_actions. Qed.
End Private.

Lemma sync_facts `{JsonLib} E s :
  connections_ (sync E s) = connections_ s ∧ next_conn_id_ (sync E s) = next_conn_id_ s ∧
  cancellations_ (sync E s) = cancellations_ s ∧ trace_ (sync E s) = trace_ s ∧
  state_ (sync E s) = state_ s ∧ epfd_ (sync E s) = epfd_ s ∧
  listen_fd_ (sync E s) = listen_fd_ s ∧ k_interest (sync E s) = k_interest s ∧
  k_open (sync E s) = k_open s ∧ rate_limit_windows_ (sync E s) = rate_limit_windows_ s ∧
  shutdown_deadline_ (sync E s) = shutdown_deadline_ s ∧
  shutdown_timeout_ (sync E s) = shutdown_timeout_ s ∧
  nf_fd (notifier_ (sync E s)) = nf_fd (notifier_ s) ∧ ready_file_ (sync E s) = ready_file_ s ∧
  stopped_ (request_queue_ (sync E s)) = stopped_ (request_queue_ s) ∧
  stopped_ (auth_queue_ (sync E s)) = stopped_ (auth_queue_ s).
Proof.
  pose proof (private_sync E s) as Hv. unfold private_view, reactor_view in Hv.
  injection Hv as V1 V2 V3 V4 V5 V6 V7 V8 V9 V10 V11 V12 V13 V14 V15 V16 V17 V18. split_and!; assumption.
Qed.

(** Names the state after [sync] [s1], with what it shares with [s]. *)
Ltac sync_view E s s1 :=
  destruct (sync_facts E s) as (?Vconn & ?Vnext & ?Vcells & ?Vtrace & ?Vstate & ?Vepfd & ?Vlisten
    & ?Vint & ?Vopen & ?Vrate & ?Vdead & ?Vtmo & ?Vnfd & ?Vready & ?Vstr & ?Vsta);
  set (s1 := sync E s) in *; clearbody s1.

(** ** Events about one connection *)

Definition about (id : Z) (e : Obs) : Prop := obs_conn e = Some id.

Lemma gather_about {B} (f : Z → Obs → list B) id id' evs :
  (∀ e, about id e → id ≠ id' → f id' e = []) →
  Forall (about id) evs → id ≠ id' → gather (f id') evs = [].
Proof.
  intros Hf Hall Hne. induction Hall as [|e evs He _ IH]; [done|].
  by rewrite gather_cons, IH, (Hf e).
Qed.

Lemma other_events id id' evs :
  Forall (about id) evs → id ≠ id' →
  gather (sent_in id') evs = [] ∧ gather (appended_in id') evs = [] ∧
  gather (admitted_in id') evs = [] ∧ gather (answered_in id') evs = [].
Proof.
  intros Hall Hne.
  split_and!; [apply (gather_about sent_in id)|apply (gather_about appended_in id)
    |apply (gather_about admitted_in id)|apply (gather_about answered_in id)]; try done;
    intros e He Hn; destruct e; unfold about in He; simpl in *; simplify_eq; try done;
    by rewrite decide_False.
Qed.

(** The projections of a trace extended with events of another connection. *)
Lemma trace_other id id' evs tr :
  Forall (about id) evs → id ≠ id' →
  sent id' (tr ++ evs) = sent id' tr ∧ appended id' (tr ++ evs) = appended id' tr ∧
  admitted id' (tr ++ evs) = admitted id' tr ∧ answered id' (tr ++ evs) = answered id' tr.
Proof.
  intros Hall Hne. destruct (other_events id id' evs Hall Hne) as (H1 & H2 & H3 & H4).
  unfold sent, appended, admitted, answered. rewrite !gather_app, H1, H2, H3, H4.
  by rewrite !app_nil_r.
Qed.

Lemma fresh_trace next id its keys tr :
  fresh_ok next its keys tr → next ≤ id →
  sent id tr = [] ∧ appended id tr = [] ∧ admitted id tr = [] ∧ answered id tr = [].
Proof.
  intros (_ & _ & H) Hid.
  assert (Hne : ∀ e, e ∈ tr → obs_conn e ≠ Some id).
  { intros e He Hc. specialize (H e id He Hc). lia. }
  clear H. induction tr as [|e tr IH]; [done|].
  destruct IH as (H1 & H2 & H3 & H4); [intros e' He'; apply Hne; by right|].
  assert (He : obs_conn e ≠ Some id) by (apply Hne; by left).
  unfold sent, appended, admitted, answered in *. rewrite !gather_cons, H1, H2, H3, H4.
  destruct e; simpl in *; split_and!; try done; by rewrite decide_False by congruence.
Qed.

Lemma always_nil P : always P [].
Proof. intros before e after E. by destruct before. Qed.

Lemma always_snoc P tr e : always P tr → P tr e → always P (tr ++ [e]).
Proof.
  intros H He before x after E.
  destruct after as [|y after] using rev_ind.
  - apply app_inj_tail in E as [<- <-]. done.
  - clear IHafter. rewrite app_comm_cons, app_assoc in E. apply app_inj_tail in E as [-> _].
    by eapply H.
Qed.

Lemma always_app_inv P tr evs : always P (tr ++ evs) → always P tr.
Proof. intros H b e a ->. eapply (H b e (a ++ evs)). by rewrite <- app_assoc. Qed.

(** ** Live connections *)

Section Live.
Context (L : Local) (s : Server) (HI : Inv L s).

Lemma live_fd fd c : connections_ s !! fd = Some c → c_fd c = fd.
Proof. intros Hc. by destruct (inv_conns _ _ HI fd c Hc). Qed.

Lemma live_key fd1 fd2 c1 c2 :
  connections_ s !! fd1 = Some c1 → connections_ s !! fd2 = Some c2 →
  conn_key c1 = conn_key c2 → fd1 = fd2 ∧ c1 = c2.
Proof.
  intros H1 H2 [= E1 E2]. rewrite (live_fd _ _ H1), (live_fd _ _ H2) in E1. subst. by simplify_eq.
Qed.

Lemma live_id_ne fd1 fd2 c1 c2 :
  connections_ s !! fd1 = Some c1 → connections_ s !! fd2 = Some c2 → fd1 ≠ fd2 →
  c_conn_id c1 ≠ c_conn_id c2.
Proof. intros H1 H2 Hne E. by apply Hne, (inv_unique _ _ HI fd1 fd2 c1 c2). Qed.

End Live.

(** ** Events without a part in the streams of requests and responses *)

Definition same_io (tr tr' : list Obs) : Prop :=
  ∀ id, sent id tr' = sent id tr ∧ appended id tr' = appended id tr ∧
        admitted id tr' = admitted id tr ∧ answered id tr' = answered id tr.

Definition neutral (e : Obs) : Prop :=
  match e with OAccept _ _ | OClose _ _ | ORecv _ _ | OAuthenticated _ _ => True | _ => False end.

Lemma same_io_neutral tr e : neutral e → same_io tr (tr ++ [e]).
Proof.
  intros He id. unfold sent, appended, admitted, answered. rewrite !gather_snoc.
  destruct e; try done; simpl; by rewrite !app_nil_r.
Qed.

Lemma account_sub m m' its lost tr tr' :
  m' ⊆ m → same_io tr tr' → account_ok m its lost tr → account_ok m' its lost tr'.
Proof.
  intros Hm Htr HA fd c Hc. destruct (Htr (c_conn_id c)) as (_ & _ & -> & ->).
  apply HA with fd. by eapply lookup_weaken.
Qed.

Lemma stream_sub m m' tr tr' :
  m' ⊆ m → same_io tr tr' → stream_ok m tr → stream_ok m' tr'.
Proof.
  intros Hm Htr [H1 H2]. split.
  - intros fd c Hc. destruct (Htr (c_conn_id c)) as (-> & -> & _). apply H1 with fd.
    by eapply lookup_weaken.
  - intros id. destruct (Htr id) as (-> & -> & _). done.
Qed.

Lemma owed_sub m m' owed tr tr' :
  m' ⊆ m → same_io tr tr' → owed_ok m owed tr → owed_ok m' owed tr'.
Proof.
  intros Hm Htr H fd c Hc. destruct (Htr (c_conn_id c)) as (_ & -> & _ & ->). apply H with fd.
  by eapply lookup_weaken.
Qed.

Lemma fresh_emit next its keys tr e :
  fresh_ok next its keys tr → (∀ id, obs_conn e = Some id → id < next) →
  fresh_ok next its keys (tr ++ [e]).
Proof.
  intros (H1 & H2 & H3) He. split_and!; [done|done|]. intros x id.
  rewrite elem_of_app, elem_of_cons. intros [Hx|[->|Hx]]; [by apply H3|apply He|by inversion Hx].
Qed.

Lemma origin_emit rqs ts rsp tr e : origin_ok rqs ts rsp tr → origin_ok rqs ts rsp (tr ++ [e]).
Proof.
  intros (H1 & H2 & H3). split_and!; [done| |].
  - intros t Ht. destruct (H2 t Ht). split; [done|]. rewrite elem_of_app. auto.
  - intros r Hr. destruct (H3 r Hr) as [? Hq]. split; [done|]. intros Hn.
    destruct (Hq Hn) as (q & ? & ?). exists q. rewrite elem_of_app. auto.
Qed.

(** A sub-map of the connections keeps the purely structural parts. *)
Lemma cancel_sub m m' cells ts : m' ⊆ m → cancel_ok m cells ts → cancel_ok m' cells ts.
Proof.
  intros Hm [H1 H2]. split.
  - intros t Ht. destruct (H1 t Ht) as [? Hc]. split; [done|]. intros Hcell fd c Hin.
    apply (Hc Hcell fd). by eapply lookup_weaken.
  - intros fd c a Hin. apply (H2 fd). by eapply lookup_weaken.
Qed.

Lemma trace_sub m m' tr e :
  m' ⊆ m → trace_ok m tr → lawful tr e →
  (∀ fd fd' c id, m' !! fd = Some c → e = OClose fd' id → c_conn_id c ≠ id) →
  trace_ok m' (tr ++ [e]).
Proof.
  intros Hm [H1 H2] He Hne. split; [by apply always_snoc|]. intros fd c Hc.
  destruct (H2 fd c) as [Hcl Hauth]; [by eapply lookup_weaken|]. split.
  - intros fd'. rewrite elem_of_app, elem_of_cons. intros [Hx|[Hx|Hx]]; [by eapply Hcl| |by inversion Hx].
    by eapply Hne.
  - intros Ha. rewrite elem_of_app. auto.
Qed.

(** ** Weakening what the reactor's locals promise *)

Lemma inv_weaken L L' s :
  l_held L' = l_held L → l_owed L' = l_owed L → l_pending L' = l_pending L →
  (∀ fd, fd ∈ l_dirty L → fd ∈ l_dirty L') →
  (l_reading L = None ∨ l_reading L' = l_reading L) →
  (l_resp L' = true → l_resp L = true) → (l_rej L' = true → l_rej L = true) →
  Inv L s → Inv L' s.
Proof.
  intros Eh Eo Ep Hd Hr H1 H2 HI.
  constructor; rewrite ?Eh, ?Eo, ?Ep; try apply HI.
  - intros fd c Hc. pose proof (inv_input _ _ HI fd c Hc) as Hin.
    destruct Hr as [Hr| ->]; [|done]. rewrite Hr, decide_False in Hin by done. case_decide; lia.
  - destruct (inv_kernel _ _ HI) as [? ? ? ? Hk]. constructor; try done. intros fd c Hc.
    destruct (Hk fd c Hc) as (? & ? & ev & ? & Hev). split_and!; [done|done|]. exists ev.
    split; [done|]. intros Hnd. apply Hev. intros Hin. by apply Hnd, Hd.
  - intros HL. exact (inv_resp _ _ HI (H1 HL)).
  - intros HL. exact (inv_rej _ _ HI (H2 HL)).
Qed.

(** A connection that is gone needs no care. *)
Lemma inv_gone fd L L' s :
  connections_ s !! fd = None →
  l_held L' = l_held L → l_owed L' = l_owed L → l_pending L' = l_pending L →
  l_resp L' = l_resp L → l_rej L' = l_rej L →
  (∀ fd', fd' ∈ l_dirty L → fd' = fd ∨ fd' ∈ l_dirty L') →
  (l_reading L = l_reading L' ∨ l_reading L = Some fd) →
  Inv L s → Inv L' s.
Proof.
  intros Hgone Eh Eo Ep E1 E2 Hd Hr HI.
  constructor; rewrite ?Eh, ?Eo, ?Ep, ?E1, ?E2; try apply HI.
  - intros fd' c Hc. pose proof (inv_input _ _ HI fd' c Hc) as Hin.
    destruct Hr as [<-|Hr]; [done|]. rewrite Hr, decide_False in Hin by congruence. case_decide; lia.
  - destruct (inv_kernel _ _ HI) as [? ? ? ? Hk]. constructor; try done. intros fd' c Hc.
    destruct (Hk fd' c Hc) as (? & ? & ev & ? & Hev). split_and!; [done|done|]. exists ev.
    split; [done|]. intros Hnd. apply Hev. intros Hdirty. destruct (Hd _ Hdirty) as [->|]; congruence.
Qed.

Lemma inv_stat f L s : Inv L s → Inv L (stat f s).
Proof. intros HI. by destruct HI; constructor. Qed.

#[export] Hint Resolve inv_stat : gateway.

(** ** Closing a connection *)

(** The fields that closing or updating a connection leaves alone. *)
Definition rest_view (s : Server) :=
  (shared_view s, workers_ s, next_conn_id_ s, state_ s, epfd_ s, listen_fd_ s,
   response_producers_remaining_ s, stopped_ (response_queue_ s)).

Definition cancel_cell (c : Connection) (cells : list bool) : list bool :=
  match c_auth_cancellation c with Some a => <[a := true]> cells | None => cells end.

Lemma cancel_remove m fd c cells ts :
  m !! fd = Some c → (∀ fd' c', m !! fd' = Some c' → conn_key c' = conn_key c → fd' = fd) →
  cancel_ok m cells ts → cancel_ok (delete fd m) (cancel_cell c cells) ts.
Proof.
  intros Hc Huniq HC. unfold cancel_cell.
  destruct (c_auth_cancellation c) as [a|] eqn:Ea.
  2:{ eapply cancel_sub; [apply delete_subseteq|done]. }
  destruct HC as [H1 H2]. destruct (H2 fd c a Hc Ea) as [Hlt Hown]. split.
  - intros t Ht. rewrite length_insert. destruct (H1 t Ht) as [? Hdead]. split; [done|].
    intros Hcell fd' c' [Hne Hin]%lookup_delete_Some Hk.
    destruct (decide (at_cancellation t = a)) as [E|E].
    + apply Hne. symmetry. apply (Huniq fd' c' Hin). by rewrite Hk, (Hown t Ht E).
    + rewrite list_lookup_insert_ne in Hcell by done. by apply (Hdead Hcell fd' c').
  - intros fd' c' a' [Hne Hin]%lookup_delete_Some. rewrite length_insert. apply (H2 fd' c' a' Hin).
Qed.

Lemma kernel_remove s s' fd dirty c :
  connections_ s !! fd = Some c →
  connections_ s' = delete fd (connections_ s) → k_open s' = k_open s ∖ {[fd]} →
  k_interest s' = delete fd (k_interest s) → rest_view s' = rest_view s →
  kernel_ok s dirty → kernel_ok s' dirty.
Proof.
  intros Hc Em Eo Ei Hv [H1 H2 H3 H4 H5]. unfold rest_view, shared_view in Hv.
  injection Hv as Vn _ _ _ _ _ _ _ _ Vs Ve Vl _ _.
  unfold kernel_ok. rewrite Em, Eo, Ei, Ve, Vl, Vn.
  assert (Hne : ∀ x, connections_ s !! x = None → x ≠ fd) by congruence.
  assert (Hnone : ∀ x, connections_ s !! x = None → delete fd (connections_ s) !! x = None).
  { intros x Hx. by apply lookup_delete_None; right. }
  assert (Hop : ∀ x, x ∈ k_open s → connections_ s !! x = None → x ∈ k_open s ∖ {[fd]}).
  { intros x Hx Hxn. apply elem_of_difference. split; [done|]. rewrite elem_of_singleton. auto. }
  constructor.
  - destruct H1 as (? & ? & ?). auto.
  - destruct H2 as [? Hl]. split; [auto|]. intros Hx. destruct (Hl Hx) as (? & ? & ?). auto.
  - destruct H3. auto.
  - intros x [Hx Hxn]%elem_of_difference. rewrite elem_of_singleton in Hxn.
    destruct (H4 x Hx) as [? [?|[?|[?|?]]]]; auto. rewrite lookup_delete_ne by done. auto.
  - intros x cx [Hx Hin]%lookup_delete_Some. destruct (H5 x cx Hin) as (? & ? & ev & ? & Hev).
    split_and!; [by apply elem_of_difference; rewrite elem_of_singleton|done|].
    exists ev. rewrite lookup_delete_ne by done. split; [done|]. intros Hd. rewrite (Hev Hd).
    unfold connectionEvents. by rewrite Vs.
Qed.

Lemma inv_remove L s s' fd c :
  Inv L s → connections_ s !! fd = Some c →
  connections_ s' = delete fd (connections_ s) → k_open s' = k_open s ∖ {[fd]} →
  k_interest s' = delete fd (k_interest s) → cancellations_ s' = cancel_cell c (cancellations_ s) →
  trace_ s' = trace_ s ++ [OClose fd (c_conn_id c)] → rest_view s' = rest_view s →
  Inv L s'.
Proof.
  intros HI Hc Em Eo Ei Ec Et Hv. pose proof Hv as Hv0. unfold rest_view, shared_view in Hv.
  injection Hv as Vn V2 V3 V4 V5 V6 V7 V8 V9 Vs Ve Vl V10 V11.
  pose proof (delete_subseteq (connections_ s) fd) as Hsub.
  assert (Hio : same_io (trace_ s) (trace_ s')) by (rewrite Et; by apply same_io_neutral).
  assert (Ework : items s' = items s ∧ tasks s' = tasks s ∧ requests s' = requests s ∧
    responses s' = responses s ∧ refused s' = refused s ∧ producers s' = producers s).
  { unfold items, tasks, requests, responses, refused, producers. by rewrite V2, V3, V4, V6, V8. }
  destruct Ework as (W1 & W2 & W3 & W4 & W5 & W6).
  destruct (inv_conns _ _ HI fd c Hc) as (Efd & Hid & _).
  constructor; rewrite ?W1, ?W2, ?W3, ?W4, ?W5, ?Ec, ?V7, ?V9, ?Vn, ?V4, ?V6; try apply HI.
  - rewrite Em. intros x cx Hx. apply (inv_conns _ _ HI). by eapply lookup_weaken.
  - rewrite Em. intros f1 f2 c1 c2 Hx Hy. eapply (inv_unique _ _ HI); by eapply lookup_weaken.
  - rewrite Em. intros x cx Hx. apply (inv_input _ _ HI). by eapply lookup_weaken.
  - rewrite Et. apply fresh_emit; [apply HI|]. intros id [= <-]. lia.
  - rewrite Em. eapply account_sub; [done|done|apply HI].
  - rewrite Em. apply cancel_remove; [done| |apply HI]. intros x cx Hx Hk.
    by apply (live_key _ _ HI x fd cx c).
  - rewrite Et. apply origin_emit, HI.
  - rewrite Em, Et. eapply trace_sub; [done|apply HI|..].
    + split; [|done]. intros id fd' [= <-]. apply (inv_trace _ _ HI) in Hc as [? _]. done.
    + intros x fd' cx id [Hne Hx]%lookup_delete_Some [= _ <-].
      by apply (live_id_ne _ _ HI x fd cx c).
  - rewrite Em. eapply stream_sub; [done|done|apply HI].
  - rewrite Em. eapply owed_sub; [done|done|apply HI].
  - by eapply kernel_remove; [..|apply HI].
  - intros HL Hne. rewrite V8, Vn. by apply (inv_resp _ _ HI HL).
  - intros HL Hne. rewrite V8, Vn. by apply (inv_rej _ _ HI HL).
  - destruct (inv_producers _ _ HI) as (? & ? & ? & ?). unfold producers_ok, stopped.
    by rewrite W6, V10, V11, Vs, V8.
  - destruct (inv_queues _ _ HI) as (? & ? & ?). unfold queue_ok, size, capacity in *.
    by rewrite V2, V3, V4, V5.
Qed.

(** ** Updating a connection *)

(** The parts of the invariant after connection [c] was replaced by [c'] and
    events [evs] about it were recorded. *)
Section Put.
Context (m : conns) (fd : Z) (c c' : Connection) (tr evs : list Obs).
Context (Hc : m !! fd = Some c) (Hkey : conn_key c' = conn_key c).
Context (Huniq : ids_unique m) (Hevs : Forall (about (c_conn_id c)) evs).

Lemma put_id : c_conn_id c' = c_conn_id c.
Proof. by injection Hkey. Qed.

(** An entry of the new map: the updated connection, or another one, whose
    projections of the trace are unchanged. *)
Lemma put_cases x cx :
  <[fd := c']> m !! x = Some cx →
  (x = fd ∧ cx = c') ∨
  (x ≠ fd ∧ m !! x = Some cx ∧ c_conn_id cx ≠ c_conn_id c ∧
   sent (c_conn_id cx) (tr ++ evs) = sent (c_conn_id cx) tr ∧
   appended (c_conn_id cx) (tr ++ evs) = appended (c_conn_id cx) tr ∧
   admitted (c_conn_id cx) (tr ++ evs) = admitted (c_conn_id cx) tr ∧
   answered (c_conn_id cx) (tr ++ evs) = answered (c_conn_id cx) tr).
Proof.
  intros [[<- <-]|[Hne Hx]]%lookup_insert_Some; [by left|right].
  assert (Hid : c_conn_id cx ≠ c_conn_id c) by (intros Eid; by apply Hne, (Huniq fd x c cx)).
  destruct (trace_other (c_conn_id c) (c_conn_id cx) evs tr Hevs) as (? & ? & ? & ?); [congruence|].
  split_and!; done.
Qed.

Lemma unique_put : ids_unique (<[fd := c']> m).
Proof.
  intros f1 f2 c1 c2 H1 H2 Eid.
  apply put_cases in H1 as [[-> ->]|(? & H1 & ? & _)];
    apply put_cases in H2 as [[-> ->]|(? & H2 & ? & _)]; rewrite ?put_id in *; try congruence.
  by apply (Huniq f1 f2 c1 c2).
Qed.

Lemma account_put its lost :
  c_in_flight_work c' = c_in_flight_work c →
  gather (admitted_in (c_conn_id c)) evs = [] → gather (answered_in (c_conn_id c)) evs = [] →
  account_ok m its lost tr → account_ok (<[fd := c']> m) its lost (tr ++ evs).
Proof.
  intros Efl Ead Ean HA x cx Hx. apply put_cases in Hx as [[-> ->]|(_ & Hx & _ & _ & _ & -> & ->)].
  - rewrite put_id, Hkey, Efl. unfold admitted, answered. rewrite !gather_app, Ead, Ean, !app_nil_r.
    by apply HA with fd.
  - by apply HA with x.
Qed.

Lemma cancel_put cells ts :
  (c_auth_cancellation c' = c_auth_cancellation c ∨ c_auth_cancellation c' = None) →
  cancel_ok m cells ts → cancel_ok (<[fd := c']> m) cells ts.
Proof.
  intros Ha [H1 H2]. split.
  - intros t Ht. destruct (H1 t Ht) as [? Hd]. split; [done|]. intros Hcell x cx Hx.
    apply put_cases in Hx as [[-> ->]|(_ & Hx & _)]; [rewrite Hkey; by apply (Hd Hcell fd)|].
    by apply (Hd Hcell x).
  - intros x cx a Hx Ea. apply put_cases in Hx as [[-> ->]|(_ & Hx & _)]; [|by apply (H2 x)].
    rewrite Hkey. destruct Ha as [Ha|Ha]; [|congruence]. apply (H2 fd); congruence.
Qed.

Lemma owed_put owed :
  gather (answered_in (c_conn_id c)) evs = [] →
  owed_ok m owed tr → owed_ok (<[fd := c']> m) owed (tr ++ evs).
Proof.
  intros Ean HO x cx Hx. apply put_cases in Hx as [[-> ->]|(_ & Hx & _ & _ & -> & _ & ->)];
    [|by apply HO with x].
  rewrite put_id, Hkey. unfold answered, appended. rewrite !gather_app, Ean, app_nil_r, map_app.
  specialize (HO fd c Hc). rewrite HO, <- app_assoc.
  apply submseteq_app; [done|]. by apply submseteq_inserts_l.
Qed.

Lemma input_put reading :
  zlen (c_input_buffer c') ≤ zlen (c_input_buffer c) →
  input_ok reading m → input_ok reading (<[fd := c']> m).
Proof.
  intros Hle HIn x cx Hx. apply put_cases in Hx as [[-> ->]|(_ & Hx & _)]; [|by apply HIn].
  specialize (HIn fd c Hc). lia.
Qed.

Lemma trace_put :
  always lawful (tr ++ evs) → (∀ f i, OClose f i ∉ evs) →
  (c_authenticated c' = true → OAuthenticated (c_conn_id c) (c_client_id c') ∈ tr ++ evs) →
  trace_ok m tr → trace_ok (<[fd := c']> m) (tr ++ evs).
Proof.
  intros Hlaw Hncl Hauth [_ H2]. split; [done|].
  assert (Hcl : ∀ x cx, m !! x = Some cx → ∀ f, OClose f (c_conn_id cx) ∉ tr ++ evs).
  { intros x cx Hx f. rewrite elem_of_app. intros [Hin|Hin]; [|by eapply Hncl].
    destruct (H2 x cx Hx) as [H _]. by eapply H. }
  intros x cx Hx. apply put_cases in Hx as [[-> ->]|(_ & Hx & _)].
  - rewrite put_id. split; [by eapply Hcl|done].
  - split; [by eapply Hcl|]. intros Ha. rewrite elem_of_app. left. by apply (H2 x cx Hx).
Qed.

Lemma stream_put :
  sent (c_conn_id c) (tr ++ evs) ++ drop (Z.to_nat (c_write_offset c')) (c_output_buffer c')
    = encoded (appended (c_conn_id c) (tr ++ evs)) →
  stream_ok m tr → stream_ok (<[fd := c']> m) (tr ++ evs).
Proof.
  intros Heq [H1 H2]. split.
  - intros x cx Hx. apply put_cases in Hx as [[-> ->]|(_ & Hx & _ & -> & -> & _)].
    + by rewrite put_id.
    + by apply H1 with x.
  - intros id. destruct (decide (id = c_conn_id c)) as [->|Hne].
    + rewrite <- Heq. by eexists.
    + destruct (trace_other (c_conn_id c) id evs tr) as (-> & -> & _); [done|congruence|]. done.
Qed.

Lemma fresh_put next its keys :
  c_conn_id c < next → fresh_ok next its keys tr → fresh_ok next its keys (tr ++ evs).
Proof.
  intros Hid (H1 & H2 & H3). split_and!; [done|done|]. intros e id. rewrite elem_of_app.
  intros [He|He]; [by apply H3|]. rewrite Forall_forall in Hevs. rewrite (Hevs e He). by intros [= <-].
Qed.

Lemma origin_app rqs ts rsp : origin_ok rqs ts rsp tr → origin_ok rqs ts rsp (tr ++ evs).
Proof.
  clear. intros HO. revert tr HO. induction evs as [|e l IH]; intros tr HO; [by rewrite app_nil_r|].
  rewrite cons_middle, app_assoc. by apply IH, origin_emit.
Qed.

End Put.

(** The part of the state outside the connection that an update leaves alone. *)
Definition core_view (s : Server) :=
  (notifier_ s, response_queue_ s, rejected_response_connections_ s, runtime_config_ s,
   workers_ s, next_conn_id_ s, state_ s, epfd_ s, listen_fd_ s,
   response_producers_remaining_ s, k_interest s, k_open s).

Lemma kernel_put s s' fd c c' dirty dirty' :
  connections_ s !! fd = Some c → connections_ s' = <[fd := c']> (connections_ s) →
  core_view s' = core_view s → (∀ x, x ∈ dirty → x ∈ dirty') →
  (fd ∈ dirty' ∨ connectionEvents s c' = connectionEvents s c) →
  kernel_ok s dirty → kernel_ok s' dirty'.
Proof.
  intros Hc Em Hv Hd Hev [H1 H2 H3 H4 H5]. unfold core_view in Hv.
  injection Hv as Vn _ _ _ _ _ Vs Ve Vl _ Vi Vo.
  unfold kernel_ok. rewrite Em, Ve, Vl, Vn, Vi, Vo.
  assert (Hnone : ∀ x, connections_ s !! x = None → <[fd := c']> (connections_ s) !! x = None).
  { intros x Hx. rewrite lookup_insert_ne; [done|congruence]. }
  assert (Hevs : ∀ cx, connectionEvents s' cx = connectionEvents s cx).
  { intros cx. unfold connectionEvents. by rewrite Vs. }
  constructor.
  - destruct H1 as (? & ? & ?). auto.
  - destruct H2 as [? ?]. auto.
  - destruct H3. auto.
  - intros x Hx. destruct (H4 x Hx) as [? [?|[?|[?|?]]]]; auto. split; [done|]. right; right; right.
    by apply lookup_insert_is_Some; destruct (decide (fd = x)); auto.
  - intros x cx [[<- <-]|[Hne Hx]]%lookup_insert_Some.
    + destruct (H5 fd c Hc) as (? & ? & ev & ? & Hev'). split_and!; [done|done|]. exists ev.
      split; [done|]. rewrite Hevs. intros Hnd. destruct Hev as [?| ->]; [done|]. apply Hev'. auto.
    + destruct (H5 x cx Hx) as (? & ? & ev & ? & Hev'). split_and!; [done|done|]. exists ev.
      split; [done|]. rewrite Hevs. intros Hnd. apply Hev'. auto.
Qed.

(** The general update, with the parts that involve outstanding work left to
    the caller. *)
Lemma inv_put L L' s s' fd c c' evs :
  Inv L s → connections_ s !! fd = Some c → conn_key c' = conn_key c →
  connections_ s' = <[fd := c']> (connections_ s) → trace_ s' = trace_ s ++ evs →
  core_view s' = core_view s → l_resp L' = l_resp L → l_rej L' = l_rej L →
  Forall (about (c_conn_id c)) evs → always lawful (trace_ s ++ evs) → (∀ f i, OClose f i ∉ evs) →
  (c_authenticated c' = true → OAuthenticated (c_conn_id c) (c_client_id c') ∈ trace_ s ++ evs) →
  0 ≤ c_write_offset c' ≤ zlen (c_output_buffer c') →
  zlen (c_output_buffer c') - c_write_offset c' ≤ OUTPUT_LIMIT →
  sent (c_conn_id c) (trace_ s ++ evs) ++ drop (Z.to_nat (c_write_offset c')) (c_output_buffer c')
    = encoded (appended (c_conn_id c) (trace_ s ++ evs)) →
  (∀ x, x ∈ l_dirty L → x ∈ l_dirty L') →
  (fd ∈ l_dirty L' ∨ connectionEvents s c' = connectionEvents s c) →
  input_ok (l_reading L') (<[fd := c']> (connections_ s)) →
  fresh_ok (next_conn_id_ s) (l_held L' ++ items s') (l_pending L' ++ refused s) (trace_ s ++ evs) →
  account_ok (<[fd := c']> (connections_ s)) (l_held L' ++ items s') (l_pending L' ++ refused s)
    (trace_ s ++ evs) →
  cancel_ok (<[fd := c']> (connections_ s)) (cancellations_ s') (tasks s') →
  origin_ok (requests s') (tasks s') (responses s) (trace_ s ++ evs) →
  owed_ok (<[fd := c']> (connections_ s)) (l_owed L') (trace_ s ++ evs) →
  queue_ok (request_queue_ s') ∧ queue_ok (auth_queue_ s') →
  Inv L' s'.
Proof.
  intros HI Hc Hkey Em Et Hv R1 R2 Hevs Hlaw Hncl Hauth Ho1 Ho2 Hst Hd1 Hd2 Hin Hfr Hac Hca Hor How Hq.
  pose proof Hv as Hv0. unfold core_view in Hv.
  injection Hv as V1 V2 V3 V4 V5 V6 V7 V8 V9 V10 V11 V12.
  assert (Ework : responses s' = responses s ∧ refused s' = refused s ∧ producers s' = producers s).
  { unfold responses, refused, producers. by rewrite V2, V3, V5. }
  destruct Ework as (W1 & W2 & W3). pose proof (inv_unique _ _ HI) as Hu.
  destruct (inv_conns _ _ HI fd c Hc) as (Efd & Hid & _).
  constructor; rewrite ?W1, ?W2, ?Em, ?Et, ?R1, ?R2, ?V1, ?V2, ?V3, ?V4, ?V6; try done; try apply HI.
  - intros x cx [[<- <-]|[? Hx]]%lookup_insert_Some; [|by apply (inv_conns _ _ HI)].
    injection Hkey as E1 E2. unfold conn_ok. rewrite E1, E2. done.
  - by apply (unique_put _ fd c c' [] []).
  - by apply (trace_put _ fd c); try apply HI.
  - by apply (stream_put _ fd c); try apply HI.
  - by eapply kernel_put; [..|apply HI].
  - intros HL Hne. rewrite V5, V1. by apply (inv_resp _ _ HI HL).
  - intros HL Hne. rewrite V5, V1. by apply (inv_rej _ _ HI HL).
  - destruct (inv_producers _ _ HI) as (? & ? & ? & ?). unfold producers_ok.
    by rewrite W3, V10, V2, V7, V5.
  - split_and!; [apply Hq|apply Hq|apply HI].
Qed.

Definition with_dirty (dirty : list Z) (L : Local) : Local :=
  mkLocal (l_held L) (l_owed L) (l_pending L) dirty (l_reading L) (l_resp L) (l_rej L).

(** An update that involves no work: the request and AUTH queues and the
    cancellation cells are as they were. *)
Definition work_view (s : Server) := (core_view s, request_queue_ s, auth_queue_ s, cancellations_ s).

Lemma inv_touch L dirty s s' fd c c' evs :
  Inv L s → connections_ s !! fd = Some c → conn_key c' = conn_key c →
  connections_ s' = <[fd := c']> (connections_ s) → trace_ s' = trace_ s ++ evs →
  work_view s' = work_view s →
  Forall (about (c_conn_id c)) evs → always lawful (trace_ s ++ evs) → (∀ f i, OClose f i ∉ evs) →
  (c_authenticated c' = true → OAuthenticated (c_conn_id c) (c_client_id c') ∈ trace_ s ++ evs) →
  0 ≤ c_write_offset c' ≤ zlen (c_output_buffer c') →
  zlen (c_output_buffer c') - c_write_offset c' ≤ OUTPUT_LIMIT →
  sent (c_conn_id c) (trace_ s ++ evs) ++ drop (Z.to_nat (c_write_offset c')) (c_output_buffer c')
    = encoded (appended (c_conn_id c) (trace_ s ++ evs)) →
  (∀ x, x ∈ l_dirty L → x ∈ dirty) →
  (fd ∈ dirty ∨ connectionEvents s c' = connectionEvents s c) →
  zlen (c_input_buffer c') ≤ zlen (c_input_buffer c) →
  c_in_flight_work c' = c_in_flight_work c →
  gather (admitted_in (c_conn_id c)) evs = [] → gather (answered_in (c_conn_id c)) evs = [] →
  (c_auth_cancellation c' = c_auth_cancellation c ∨ c_auth_cancellation c' = None) →
  Inv (with_dirty dirty L) s'.
Proof.
  intros HI Hc Hkey Em Et Hv Hevs Hlaw Hncl Hauth Ho1 Ho2 Hst Hd1 Hd2 Hin Hfl Had Han Hca.
  assert (Hv0 : core_view s' = core_view s) by (unfold work_view in Hv; congruence).
  unfold work_view, core_view in Hv. injection Hv as V1 V2 V3 V4 V5 V6 V7 V8 V9 V10 V11 V12 Vr Va Vc.
  assert (Ework : items s' = items s ∧ tasks s' = tasks s ∧ requests s' = requests s).
  { unfold items, tasks, requests. by rewrite V2, V5, Vr, Va. }
  destruct Ework as (W1 & W2 & W3). pose proof (inv_unique _ _ HI) as Hu.
  destruct (inv_conns _ _ HI fd c Hc) as (Efd & Hid & _). destruct (inv_queues _ _ HI) as (? & ? & _).
  eapply (inv_put L); simpl; rewrite ?W1, ?W2, ?W3, ?Vr, ?Va, ?Vc; try done.
  - eapply (input_put _ fd c c' [] []); try done. apply HI.
  - eapply (fresh_put c); try done; [lia|apply HI].
  - apply (account_put _ fd c); try done. apply HI.
  - apply (cancel_put _ fd c c' [] []); try done. apply HI.
  - apply origin_app, HI.
  - apply (owed_put _ fd c); try done. apply HI.
Qed.

Section Reactor.
Context `{JsonLib} (E : Env) (HE : env_ok E).

Lemma inv_close fd L s : Inv L s → Inv L (closeConnection E fd s).
Proof.
  intros HI. unfold closeConnection. destruct (connections_ s !! fd) as [c|] eqn:Hc; [|done].
  pose proof (inv_sync E _ _ HE HI) as HI1. sync_view E s s1. rewrite <- Vconn in Hc.
  destruct (k_epoll _ _ _ _ _ _ _ _ (inv_kernel _ _ HI1)) as [Hep _].
  eapply (inv_remove L _ _ fd c HI1 Hc); unfold cancel_cell;
    destruct (c_auth_cancellation c); simpl; repeat (case_bool; simpl); bool_facts; done.
Qed.

Lemma closeConnection_connections fd s :
  connections_ (closeConnection E fd s) = delete fd (connections_ s).
Proof.
  unfold closeConnection. destruct (connections_ s !! fd) as [c|] eqn:Hc.
  - sync_view E s s1. destruct (c_auth_cancellation c); simpl; repeat (case_bool; simpl);
      by rewrite Vconn.
  - by rewrite delete_id.
Qed.

(** The fields that no operation on a connection changes. *)
Definition fixed_view (s : Server) :=
  (state_ s, epfd_ s, listen_fd_ s, nf_fd (notifier_ s), next_conn_id_ s, shutdown_deadline_ s,
   shutdown_timeout_ s, ready_file_ s, stopped_ (request_queue_ s), stopped_ (auth_queue_ s)).

Lemma sync_fixed s : fixed_view (sync E s) = fixed_view s.
Proof.
  sync_view E s s1. unfold fixed_view.
  by rewrite Vstate, Vepfd, Vlisten, Vnfd, Vnext, Vdead, Vtmo, Vready, Vstr, Vsta.
Qed.

Lemma closeConnection_fixed fd s : fixed_view (closeConnection E fd s) = fixed_view s.
Proof.
  unfold closeConnection. destruct (connections_ s !! fd) as [c|]; [|done].
  rewrite <- (sync_fixed s).
  destruct (c_auth_cancellation c); simpl; repeat (case_bool; simpl); done.
Qed.

Lemma modify_fixed fd events s : fixed_view (modifyConnectionEvents E fd events s).2 = fixed_view s.
Proof.
  unfold modifyConnectionEvents. case_bool; [done|]. apply (closeConnection_fixed fd (tick s)).
Qed.

Lemma modify_connections fd events s :
  connections_ (modifyConnectionEvents E fd events s).2 = connections_ s ∨
  connections_ (modifyConnectionEvents E fd events s).2 = delete fd (connections_ s).
Proof.
  unfold modifyConnectionEvents. case_bool; [by left|]. right.
  apply (closeConnection_connections fd (tick s)).
Qed.

Lemma inv_modify fd events rest L s :
  Inv L s → l_dirty L = fd :: rest →
  (∀ c, connections_ s !! fd = Some c → events = connectionEvents s c) →
  Inv (with_dirty rest L) (modifyConnectionEvents E fd events s).2.
Proof.
  intros HI Hd Hev. unfold modifyConnectionEvents.
  set (ok := ctl_ok E (k_ticks s) && _). destruct ok; simpl.
  - pose proof (inv_kernel _ _ HI) as [H1 H2 H3 H4 H5]. destruct HI. constructor; try done.
    constructor; try done.
    intros x cx Hx. destruct (H5 x cx Hx) as (? & ? & ev & Hi & Hevx). split_and!; [done|done|].
    destruct (decide (x = fd)) as [->|Hne]; simpl.
    + exists events. rewrite lookup_insert_eq. split; [done|]. intros _. by apply Hev.
    + exists ev. rewrite lookup_insert_ne by done. split; [done|]. intros Hnd. apply Hevx.
      rewrite Hd, elem_of_cons. intros [?|?]; done.
  - apply (inv_gone fd L); try done.
    + by rewrite closeConnection_connections, lookup_delete_eq.
    + intros x. rewrite Hd, elem_of_cons. auto.
    + by left.
    + by apply inv_close, inv_tick.
Qed.

(** The usual case: the events are brought up to date right after an update. *)
Lemma inv_modify_clean fd c L s :
  Inv (with_dirty (fd :: l_dirty L) L) s → connections_ s !! fd = Some c →
  Inv L (modifyConnectionEvents E fd (connectionEvents s c) s).2.
Proof.
  intros HI Hc. replace L with (with_dirty (l_dirty L) (with_dirty (fd :: l_dirty L) L)) by (by destruct L).
  apply inv_modify; [done|done|]. intros c' Hc'. by simplify_eq.
Qed.

Lemma inv_soil fd L s : Inv L s → Inv (with_dirty (fd :: l_dirty L) L) s.
Proof. intros HI. eapply inv_weaken; [..|exact HI]; try done; [|by right]. intros x Hx. by right. Qed.

Lemma inv_maybeClose fd L s : Inv L s → Inv L (maybeCloseAfterDrain E fd s).
Proof.
  intros HI. unfold maybeCloseAfterDrain. destruct (connections_ s !! fd); [|done].
  case_bool; [by apply inv_close|done].
Qed.

(** The stream and bounds facts of a live connection. *)
Lemma live_facts L s fd c :
  Inv L s → connections_ s !! fd = Some c →
  c_fd c = fd ∧ 0 ≤ c_write_offset c ≤ zlen (c_output_buffer c) ∧
  zlen (c_output_buffer c) - c_write_offset c ≤ OUTPUT_LIMIT ∧
  sent (c_conn_id c) (trace_ s) ++ drop (Z.to_nat (c_write_offset c)) (c_output_buffer c)
    = encoded (appended (c_conn_id c) (trace_ s)) ∧
  (c_authenticated c = true → OAuthenticated (c_conn_id c) (c_client_id c) ∈ trace_ s) ∧
  (∀ f, OClose f (c_conn_id c) ∉ trace_ s) ∧ always lawful (trace_ s).
Proof.
  intros HI Hc. destruct (inv_conns _ _ HI fd c Hc) as (? & _ & ? & ?).
  destruct (inv_stream _ _ HI) as [Hs _]. destruct (inv_trace _ _ HI) as [Hl Ht].
  destruct (Ht fd c Hc). specialize (Hs fd c Hc). auto 10.
Qed.

(** An update of the flags and of the cancellation pointer. *)
Lemma inv_flags L s fd c c' :
  Inv L s → connections_ s !! fd = Some c →
  c_fd c' = fd → c_conn_id c' = c_conn_id c → c_input_buffer c' = c_input_buffer c →
  c_output_buffer c' = c_output_buffer c → c_write_offset c' = c_write_offset c →
  c_client_id c' = c_client_id c → c_authenticated c' = c_authenticated c →
  c_in_flight_work c' = c_in_flight_work c →
  (c_auth_cancellation c' = c_auth_cancellation c ∨ c_auth_cancellation c' = None) →
  Inv (with_dirty (fd :: l_dirty L) L) (put_connection c' s).
Proof.
  intros HI Hc Efd Eid Ein Eout Eoff Ecl Eau Efl Eca.
  destruct (live_facts _ _ _ _ HI Hc) as (? & ? & ? & ? & Hau & ? & ?).
  eapply (inv_touch L _ s _ fd c c' []); rewrite ?app_nil_r, ?Ein, ?Eout, ?Eoff, ?Ecl, ?Eau; try done.
  - unfold conn_key. congruence.
  - unfold put_connection. by rewrite Efd.
  - intros f i. apply not_elem_of_nil.
  - intros x Hx. by right.
  - left. by left.
Qed.

Lemma inv_markReadEof fd L s : Inv L s → Inv L (markReadEof E fd s).
Proof.
  intros HI. unfold markReadEof. destruct (connections_ s !! fd) as [c|] eqn:Hc; [|done].
  destruct (c_read_eof c); [by apply inv_maybeClose|].
  set (c' := set_c_read_eof true c). set (s1 := put_connection c' s).
  pose proof (live_fd _ _ HI _ _ Hc) as Efd.
  assert (HI1 : Inv (with_dirty (fd :: l_dirty L) L) s1) by (apply (inv_flags L s fd c); auto).
  assert (Hc1 : connections_ s1 !! fd = Some c').
  { unfold s1, put_connection. simpl. by rewrite Efd, lookup_insert_eq. }
  case_bool; [|by apply inv_modify_clean].
  apply (inv_gone fd (with_dirty (fd :: l_dirty L) L)); try done.
  - by rewrite closeConnection_connections, lookup_delete_eq.
  - simpl. intros x. rewrite elem_of_cons. auto.
  - by left.
  - by apply inv_close.
Qed.

(** ** Applying a response *)

Lemma put_put c1 c2 s :
  c_fd c2 = c_fd c1 → put_connection c2 (put_connection c1 s) = put_connection c2 s.
Proof.
  intros Efd. unfold put_connection. rewrite Efd. destruct s. unfold set_connections_. simpl.
  by rewrite insert_insert_eq.
Qed.

(** Locals while a response is applied: a held ticket, then an owed one. *)
Definition holding (t : ticket) (b1 b2 : bool) : Local := mkLocal [t] [] [] [] None b1 b2.
Definition owing (ow : list ticket) (dirty : list Z) (b1 b2 : bool) : Local :=
  mkLocal [] ow [] dirty None b1 b2.

Lemma of_key_none k l : (∀ t : ticket, t ∈ l → t.1 ≠ k) → of_key k l = [].
Proof.
  induction l as [|t l IH]; intros Hl; [done|]. rewrite of_key_cons_ne; [|apply Hl; by left].
  apply IH. intros x Hx. apply Hl. by right.
Qed.

(** The connection is gone: its ticket is dropped. *)
Lemma inv_drop_held t b1 b2 s :
  (∀ fd c, connections_ s !! fd = Some c → conn_key c ≠ t.1) →
  Inv (holding t b1 b2) s → Inv (base b1 b2) s.
Proof.
  intros Hgone HI. constructor; try apply HI.
  - destruct (inv_fresh _ _ HI) as (H1 & ? & ?). split_and!; [|done|done].
    intros x Hx. apply H1. by right.
  - by apply (account_drop _ t (t :: items s)); [..|apply HI].
Qed.

Lemma inv_drop_owed ow fd b1 b2 s :
  (∀ t, t ∈ ow → t.1.1 = fd) → connections_ s !! fd = None →
  Inv (owing ow [fd] b1 b2) s → Inv (base b1 b2) s.
Proof.
  intros How Hgone HI.
  assert (HI1 : Inv (owing ow [] b1 b2) s).
  { apply (inv_gone fd (owing ow [fd] b1 b2)); try done; [|by left]. intros x. simpl.
    rewrite elem_of_cons. intros [?|?]; auto. }
  constructor; try apply HI1. intros x c Hx. pose proof (inv_owed _ _ HI1 x c Hx) as Hs. simpl in *.
  replace (of_key (conn_key c) ow) with (@nil ticket) in Hs; [done|].
  symmetry. apply of_key_none.
  intros t Ht Ek. pose proof (How t Ht) as Efd. rewrite Ek in Efd. simpl in Efd.
  rewrite (live_fd _ _ HI _ _ Hx) in Efd. congruence.
Qed.

(** Answering a ticket: it leaves the outstanding work and is owed to the
    output. *)
Lemma answer_io id q tr :
  sent id (tr ++ [OAnswer id q]) = sent id tr ∧ appended id (tr ++ [OAnswer id q]) = appended id tr ∧
  admitted id (tr ++ [OAnswer id q]) = admitted id tr ∧
  answered id (tr ++ [OAnswer id q]) = answered id tr ++ [q].
Proof.
  unfold sent, appended, admitted, answered. rewrite !gather_snoc. simpl.
  by rewrite decide_True, !app_nil_r.
Qed.

Lemma account_answer m fd c c' t its lost tr :
  m !! fd = Some c → ids_unique m → conn_key c' = conn_key c → conn_key c = t.1 →
  c_in_flight_work c' = c_in_flight_work c - 1 →
  (∀ x cx, m !! x = Some cx → conn_key cx = conn_key c → x = fd) →
  account_ok m (t :: its) lost tr →
  account_ok (<[fd := c']> m) its lost (tr ++ [OAnswer (c_conn_id c) t.2]).
Proof.
  intros Hc Hu Hk Ek Efl Hkeys HA x cx Hx.
  apply (put_cases m fd c c' tr [OAnswer (c_conn_id c) t.2]) in Hx
    as [[-> ->]|(Hne & Hx & _ & _ & _ & -> & ->)]; [..|done|done|by repeat constructor].
  - destruct (HA fd c Hc) as [Hle Heq]. destruct (answer_io (c_conn_id c) t.2 tr) as (_ & _ & I3 & I4).
    rewrite (put_id _ _ Hk), I3, I4, Hk, Efl. rewrite Ek, of_key_cons_eq, zlen_cons in *.
    split; [lia|]. intros Hl. destruct (Heq Hl) as [-> ->]. split; [lia|].
    simpl. by rewrite <- app_assoc.
  - assert (Hk' : t.1 ≠ conn_key cx) by (intros E'; apply Hne, (Hkeys x cx Hx); congruence).
    destruct (HA x cx Hx) as [Hle Heq]. by rewrite of_key_cons_ne in Hle, Heq.
Qed.

Lemma owed_answer m fd c c' t tr :
  m !! fd = Some c → ids_unique m → conn_key c' = conn_key c → conn_key c = t.1 →
  owed_ok m [] tr → owed_ok (<[fd := c']> m) [t] (tr ++ [OAnswer (c_conn_id c) t.2]).
Proof.
  intros Hc Hu Hk Ek HO x cx Hx.
  apply (put_cases m fd c c' tr [OAnswer (c_conn_id c) t.2]) in Hx
    as [[-> ->]|(Hne & Hx & _ & _ & -> & _ & ->)]; [..|done|done|by repeat constructor].
  - destruct (answer_io (c_conn_id c) t.2 tr) as (_ & I2 & _ & I4).
    rewrite (put_id _ _ Hk), I2, I4, Hk, Ek, of_key_cons_eq. pose proof (HO fd c Hc) as Hs.
    simpl in *. rewrite app_nil_r in Hs. by apply submseteq_app.
  - pose proof (HO x cx Hx) as Hs. simpl in Hs. rewrite app_nil_r in Hs. rewrite Hs.
    by apply submseteq_inserts_r.
Qed.

(** Matching a worker's response to the work it answers. *)
Lemma inv_answer t b1 b2 s fd c :
  Inv (holding t b1 b2) s → connections_ s !! fd = Some c → conn_key c = t.1 →
  1 ≤ c_in_flight_work c ∧
  Inv (owing [t] [] b1 b2)
    (emit (OAnswer (c_conn_id c) t.2)
       (put_connection (set_c_in_flight_work (c_in_flight_work c - 1) c) s)).
Proof.
  intros HI Hc Ek. destruct (live_facts _ _ _ _ HI Hc) as (Efd & ? & ? & Hst & Hau & Hcl & Hlaw).
  destruct (inv_account _ _ HI fd c Hc) as [Hle Heq]. simpl in Hle, Heq.
  rewrite Ek, of_key_cons_eq, zlen_cons in Hle.
  pose proof (zlen_nonneg (of_key t.1 (items s))). split; [lia|].
  set (e := OAnswer (c_conn_id c) t.2). set (c' := set_c_in_flight_work (c_in_flight_work c - 1) c).
  assert (Hev : Forall (about (c_conn_id c)) [e]) by (by repeat constructor).
  assert (Hid : c_conn_id c < next_conn_id_ s) by apply (inv_conns _ _ HI fd c Hc).
  destruct (answer_io (c_conn_id c) t.2 (trace_ s)) as (I1 & I2 & _). fold e in I1, I2.
  eapply (inv_put (holding t b1 b2) (owing [t] [] b1 b2) s _ fd c c' [e]); simpl; try done;
    try (by apply HI).
  - by rewrite Efd.
  - apply always_snoc; [done|]. split; [|done]. intros i f [= <-]. apply Hcl.
  - intros f i. rewrite list_elem_of_singleton. done.
  - intros Ha. rewrite elem_of_app. left. by apply Hau.
  - by rewrite I1, I2.
  - by right.
  - apply (input_put _ fd c c' [] []); try done; apply HI.
  - eapply (fresh_put c); [done|done|]. destruct (inv_fresh _ _ HI) as (Hf & ? & ?).
    split_and!; [|done|done]. intros x Hx. apply Hf. by right.
  - apply (account_answer _ fd c); try done; [apply HI| |apply HI].
    intros x cx Hx Hkx. by apply (live_key _ _ HI x fd cx c).
  - apply (cancel_put _ fd c c' [] []); try done; [apply HI|by left|apply HI].
  - apply origin_app, HI.
  - apply (owed_answer _ fd c); try done; apply HI.
  - split; apply HI.
Qed.

(** Appending a response to the output buffer. *)
Lemma append_io id r tr :
  sent id (tr ++ [OAppend id r]) = sent id tr ∧
  appended id (tr ++ [OAppend id r]) = appended id tr ++ [r] ∧
  answered id (tr ++ [OAppend id r]) = answered id tr ∧
  admitted id (tr ++ [OAppend id r]) = admitted id tr.
Proof.
  unfold sent, appended, admitted, answered. rewrite !gather_snoc. simpl.
  by rewrite decide_True, !app_nil_r.
Qed.

Lemma encoded_snoc rs r : encoded (rs ++ [r]) = encoded rs ++ encode r.
Proof. unfold encoded. rewrite map_app, concat_app. simpl. by rewrite app_nil_r. Qed.

Lemma owed_append m fd c c' ow r tr :
  m !! fd = Some c → ids_unique m → conn_key c' = conn_key c →
  (ow = [] ∨ ow = [response_ticket r]) → response_key r = conn_key c →
  (∀ x cx, m !! x = Some cx → conn_key cx = conn_key c → x = fd) →
  owed_ok m ow tr → owed_ok (<[fd := c']> m) [] (tr ++ [OAppend (c_conn_id c) r]).
Proof.
  intros Hc Hu Hk How Hr Hkeys HO x cx Hx.
  assert (Hlen : ∀ k, map snd (of_key k ow) ⊆+ [rs_request_id r]).
  { intros k. destruct How as [->| ->]; [apply submseteq_nil_l|].
    unfold of_key. rewrite filter_cons. case_decide; [done|]. apply submseteq_nil_l. }
  apply (put_cases m fd c c' tr [OAppend (c_conn_id c) r]) in Hx
    as [[-> ->]|(Hne & Hx & _ & _ & -> & _ & ->)]; [..|done|done|by repeat constructor].
  - destruct (append_io (c_conn_id c) r tr) as (_ & I2 & I3 & _).
    rewrite (put_id _ _ Hk), I2, I3, map_app. simpl. rewrite app_nil_r, (HO fd c Hc).
    by apply submseteq_app.
  - pose proof (HO x cx Hx) as Hs. rewrite of_key_none in Hs; [done|].
    intros t Ht Et. destruct How as [-> | ->]; [by inversion Ht|].
    apply list_elem_of_singleton in Ht as ->. apply Hne, (Hkeys x cx Hx). by rewrite <- Hr, <- Et.
Qed.

Lemma inv_append ow r b1 b2 s fd c c' :
  Inv (owing ow [fd] b1 b2) s → connections_ s !! fd = Some c → conn_key c' = conn_key c →
  (ow = [] ∨ ow = [response_ticket r]) → response_key r = conn_key c →
  c_write_offset c' = 0 →
  c_output_buffer c' = drop (Z.to_nat (c_write_offset c)) (c_output_buffer c) ++ encode r →
  zlen (c_output_buffer c') ≤ OUTPUT_LIMIT →
  c_input_buffer c' = c_input_buffer c → c_client_id c' = c_client_id c →
  c_authenticated c' = c_authenticated c → c_in_flight_work c' = c_in_flight_work c →
  c_auth_cancellation c' = c_auth_cancellation c →
  Inv (owing [] [fd] b1 b2) (emit (OAppend (c_conn_id c) r) (put_connection c' s)).
Proof.
  intros HI Hc Hk How Hr Eoff Ebuf Hlim Ein Ecl Eau Efl Eca.
  destruct (live_facts _ _ _ _ HI Hc) as (Efd & ? & ? & Hst & Hau & Hcl & Hlaw).
  set (e := OAppend (c_conn_id c) r).
  assert (Hev : Forall (about (c_conn_id c)) [e]) by (by repeat constructor).
  destruct (append_io (c_conn_id c) r (trace_ s)) as (I1 & I2 & I3 & I4). fold e in I1, I2, I3, I4.
  eapply (inv_put (owing ow [fd] b1 b2) (owing [] [fd] b1 b2) s _ fd c c' [e]); simpl; try done;
    try (by apply HI).
  - unfold put_connection. injection Hk as Hk _. by rewrite Hk, Efd.
  - apply always_snoc; [done|]. split; [intros i f [= <-]; apply Hcl|]. by injection Hr.
  - intros f i. rewrite list_elem_of_singleton. done.
  - rewrite Eau, Ecl. intros Ha. rewrite elem_of_app. left. by apply Hau.
  - rewrite Eoff. pose proof (zlen_nonneg (c_output_buffer c')). lia.
  - rewrite Eoff. lia.
  - rewrite I1, I2, encoded_snoc, Eoff, Ebuf. rewrite drop_0, app_assoc. by f_equal.
  - left. by left.
  - apply (input_put _ fd c c' [] []); try done; [apply HI|by rewrite Ein|apply HI].
  - eapply (fresh_put c); [done|apply (inv_conns _ _ HI fd c Hc)|apply HI].
  - apply (account_put _ fd c); try done; apply HI.
  - apply (cancel_put _ fd c c' [] []); try done; [apply HI|by left|apply HI].
  - apply origin_app, HI.
  - eapply (owed_append _ fd c); try done; [apply HI| |apply HI].
    intros x cx Hx Hkx. by apply (live_key _ _ HI x fd cx c).
  - split; apply HI.
Qed.

Lemma inv_apply_output config r ow b1 b2 s fd c :
  Inv (owing ow [fd] b1 b2) s → connections_ s !! fd = Some c → config_ok config →
  (ow = [] ∨ ow = [response_ticket r]) → response_key r = (fd, c_conn_id c) →
  Inv (base b1 b2) (apply_output E config r c s).
Proof.
  intros HI Hc Hcfg How Hr. unfold apply_output.
  destruct (live_facts _ _ _ _ HI Hc) as (Efd & Hoff & Hlim & _).
  assert (Erfd : rs_fd r = fd) by (by injection Hr). rewrite Erfd.
  case_bool.
  - apply (inv_drop_owed ow fd).
    + intros t Ht. destruct How as [-> | ->]; [by inversion Ht|].
      apply list_elem_of_singleton in Ht as ->. done.
    + by rewrite closeConnection_connections, lookup_delete_eq.
    + apply inv_close. by do 2 apply inv_stat.
  - set (c1 := if c_write_offset c >? 0 then _ else _).
    set (c2 := set_c_output_buffer (c_output_buffer c1 ++ encode r) c1).
    set (c3 := set_c_closing _ c2).
    assert (Eall : c3 = set_c_closing (c_closing c || rs_close_connection r)
      (set_c_output_buffer (drop (Z.to_nat (c_write_offset c)) (c_output_buffer c) ++ encode r)
         (set_c_write_offset 0 c))).
    { subst c3 c2 c1. rewrite Z.gtb_ltb. destruct (0 <? _) eqn:E1; [done|].
      bool_facts. assert (Hz : c_write_offset c = 0) by lia. clear -Hz. destruct c. simpl in *. by subst. }
    clearbody c3. subst c3. clear c1 c2. rewrite Z.gtb_ltb in E0. bool_facts.
    apply inv_modify_clean.
    + eapply (inv_append ow r b1 b2 s fd c); simpl; try done.
      * by rewrite Hr, <- Efd.
      * rewrite zlen_app, zlen_drop by lia. destruct Hcfg as (_ & _ & _ & _ & ? & _).
        unfold OUTPUT_LIMIT. lia.
    + simpl. by rewrite Efd, lookup_insert_eq.
Qed.

(** The rest of [applyResponse] after the response was matched to its
    connection: [c] is the local copy of the connection. *)
Definition apply_matched (config : RuntimeConfig) (response : Response) (c : Connection) (s : Server)
    : Server :=
  let current :=
    if bool_decide (rs_type response = AUTH_RESP) || rs_close_connection response
    then set_c_auth_cancellation None (set_c_auth_pending false c) else c in
  let '(response, current, s) := apply_authentication config response current s in
  let s := put_connection current s in
  if rs_close_connection response && rs_skip_write response
  then closeConnection E (rs_fd response) s
  else apply_output E config response current s.

Lemma inv_authenticate ow dirty b1 b2 s fd c client :
  Inv (owing ow dirty b1 b2) s → connections_ s !! fd = Some c → fd ∈ dirty →
  (∃ q, OAdmitAuth q ∈ trace_ s ∧ rq_conn_id q = c_conn_id c) →
  Inv (owing ow dirty b1 b2)
    (put_connection (set_c_client_id client (set_c_authenticated true c))
       (emit (OAuthenticated (c_conn_id c) client) s)).
Proof.
  intros HI Hc Hd Hq. destruct (live_facts _ _ _ _ HI Hc) as (Efd & ? & ? & Hst & Hau & Hcl & Hlaw).
  set (e := OAuthenticated (c_conn_id c) client).
  set (c' := set_c_client_id client (set_c_authenticated true c)).
  destruct (same_io_neutral (trace_ s) e I (c_conn_id c)) as (I1 & I2 & _).
  eapply (inv_touch (owing ow dirty b1 b2) dirty s _ fd c c' [e]); simpl; try done.
  - by rewrite Efd.
  - by repeat constructor.
  - apply always_snoc; [done|]. split; [|done]. intros i f [= <-]. apply Hcl.
  - intros f i. rewrite list_elem_of_singleton. done.
  - intros _. rewrite elem_of_app, list_elem_of_singleton. by right.
  - by rewrite I1, I2.
  - by left.
  - by left.
Qed.

Lemma inv_apply_matched config r ow b1 b2 s c :
  Inv (owing ow [] b1 b2) (put_connection c s) → config_ok config → response_ok (trace_ s) r →
  (ow = [] ∨ ow = [response_ticket r]) → response_key r = conn_key c →
  Inv (base b1 b2) (apply_matched config r c s).
Proof.
  intros HI Hcfg [Hskip Hauth] How Hr. unfold apply_matched. set (fd := c_fd c).
  assert (Hc : connections_ (put_connection c s) !! fd = Some c) by apply lookup_insert_eq.
  set (c1 := if _ || _ then _ else c).
  assert (Hk1 : conn_key c1 = conn_key c) by (subst c1; by case_bool).
  assert (HI1 : Inv (owing ow [fd] b1 b2) (put_connection c1 s)).
  { rewrite <- (put_put c c1) by (by injection Hk1).
    apply (inv_flags (owing ow [] b1 b2) _ fd c); subst c1; case_bool; auto. }
  clearbody c1. injection Hk1 as Efd1 Eid1.
  assert (Hc1 : connections_ (put_connection c1 s) !! fd = Some c1).
  { unfold put_connection. simpl. rewrite Efd1. apply lookup_insert_eq. }
  assert (Hfinal : ∀ r' c' s', Inv (owing ow [fd] b1 b2) (put_connection c' s') →
     conn_key c' = conn_key c → response_ticket r' = response_ticket r → rs_skip_write r' = false →
     Inv (base b1 b2) (if rs_close_connection r' && rs_skip_write r'
                       then closeConnection E (rs_fd r') (put_connection c' s')
                       else apply_output E config r' c' (put_connection c' s'))).
  { intros r' c' s' HI' Hk' Ht' Hs'. rewrite Hs', andb_false_r. injection Hk' as Efd' Eid'.
    eapply (inv_apply_output _ _ ow _ _ _ fd); try done.
    - simpl. rewrite Efd'. apply lookup_insert_eq.
    - by rewrite Ht'.
    - injection Ht' as T1 T2 _. unfold response_key. rewrite T1, T2, Eid'. done. }
  unfold apply_authentication. destruct (rs_client_id_to_authenticate r) as [client|] eqn:Ea.
  - case_bool.
    + apply Hfinal; try done; [|by unfold conn_key; rewrite Efd1, Eid1].
      by apply (inv_stat _ _ (stat incrementErrors (put_connection c1 s))), inv_stat.
    + apply Hfinal; try done; [|by unfold conn_key; simpl; rewrite Efd1, Eid1].
      rewrite <- (put_put c1) by done.
      apply (inv_authenticate ow [fd] b1 b2 (stat incrementAuthSuccess (put_connection c1 s)) fd c1);
        [by apply inv_stat|done|by left|].
      destruct Hauth as (q & ? & Eq); [done|]. exists q. split; [done|]. rewrite Eq, Eid1.
      by injection Hr.
  - case_bool; apply Hfinal; try done; try (by unfold conn_key; rewrite Efd1, Eid1).
    by apply (inv_stat incrementAuthFailure _ (put_connection c1 s)).
Qed.

Lemma applyResponse_unfold r o s :
  applyResponse E r o s =
  let s1 := sync E s in
  match connections_ s1 !! rs_fd r with
  | Some c =>
      if c_conn_id c =? rs_conn_id r then
        let '(c', s2) :=
          match o with
          | Worker_ => if c_in_flight_work c =? 0 then (c, emit OAssertFailed s1)
                       else (set_c_in_flight_work (c_in_flight_work c - 1) c,
                             emit (OAnswer (c_conn_id c) (rs_request_id r)) s1)
          | Local_ => (c, s1)
          end in
        apply_matched (runtime_config_ s1) r c' s2
      else stat incrementStaleResponseDropped s1
  | None => stat incrementStaleResponseDropped s1
  end.
Proof.
  unfold applyResponse, getRuntimeConfigSnapshot, apply_matched. cbv zeta.
  destruct (connections_ (sync E s) !! rs_fd r) as [c|]; [|done].
  by destruct (c_conn_id c =? rs_conn_id r).
Qed.

Lemma inv_applyResponse_worker r b1 b2 s :
  Inv (holding (response_ticket r) b1 b2) s → response_ok (trace_ s) r →
  Inv (base b1 b2) (applyResponse E r Worker_ s).
Proof.
  intros HI Hr. rewrite applyResponse_unfold. cbv zeta.
  pose proof (inv_sync E _ _ HE HI) as HI1. sync_view E s s1. rewrite <- Vtrace in Hr.
  destruct (connections_ s1 !! rs_fd r) as [c|] eqn:Hc.
  2:{ apply inv_stat, (inv_drop_held (response_ticket r)); [|done]. intros fd c Hx Ek.
      injection Ek as E1 E2. rewrite (live_fd _ _ HI1 _ _ Hx) in E1. congruence. }
  pose proof (live_fd _ _ HI1 _ _ Hc) as Efd.
  destruct (Z.eqb_spec (c_conn_id c) (rs_conn_id r)) as [Eid|Eid].
  2:{ apply inv_stat, (inv_drop_held (response_ticket r)); [|done]. intros fd c' Hx Ek.
      injection Ek as E1 E2. rewrite (live_fd _ _ HI1 _ _ Hx) in E1. congruence. }
  assert (Ek : conn_key c = response_key r) by (unfold conn_key, response_key; congruence).
  destruct (inv_answer _ _ _ _ _ _ HI1 Hc Ek) as [Hpos HI2].
  destruct (Z.eqb_spec (c_in_flight_work c) 0); [lia|].
  eapply (inv_apply_matched _ r [response_ticket r]); [exact HI2|apply HI1| |by right|done].
  destruct Hr as [? Ha]. split; [done|]. intros Hn. destruct (Ha Hn) as (q & ? & ?).
  exists q. simpl. rewrite elem_of_app. auto.
Qed.

Lemma inv_applyResponse_local r b1 b2 s :
  Inv (base b1 b2) s → response_ok (trace_ s) r → Inv (base b1 b2) (applyResponse E r Local_ s).
Proof.
  intros HI Hr. rewrite applyResponse_unfold. cbv zeta.
  pose proof (inv_sync E _ _ HE HI) as HI1. sync_view E s s1. rewrite <- Vtrace in Hr.
  destruct (connections_ s1 !! rs_fd r) as [c|] eqn:Hc; [|by apply inv_stat].
  pose proof (live_fd _ _ HI1 _ _ Hc) as Efd.
  destruct (Z.eqb_spec (c_conn_id c) (rs_conn_id r)) as [Eid|Eid]; [|by apply inv_stat].
  eapply (inv_apply_matched _ r []); [|apply HI1|done|by left|unfold conn_key, response_key; congruence].
  replace (put_connection c s1) with s1; [done|].
  unfold put_connection. rewrite Efd, insert_id by done. by destruct s1.
Qed.

(** ** Draining the response queue and the rejections *)

(** Popping a response: its ticket is held by the reactor. *)
Lemma inv_pop_response r q b1 b2 s :
  Inv (base b1 b2) s → tryPop (response_queue_ s) = (Some r, q) →
  Inv (holding (response_ticket r) b1 b2) (set_response_queue_ q s) ∧ response_ok (trace_ s) r.
Proof.
  intros HI Hp. destruct (tryPop_data (response_queue_ s)) as (Ed & Est & Ecap).
  rewrite Hp in Ed, Est, Ecap. simpl in *.
  assert (Hr : r ∈ responses s).
  { unfold responses. rewrite Ed, elem_of_app. right. by left. }
  destruct (inv_origin _ _ HI) as (O1 & O2 & O3). split; [|by apply O3].
  assert (Hit : items s ≡ₚ response_ticket r :: items (set_response_queue_ q s)).
  { unfold items. simpl. rewrite Ed. simpl. perm_solve. }
  constructor; try apply HI.
  - destruct (inv_fresh _ _ HI) as (H1 & ? & ?). split_and!; [|done|done].
    intros t. simpl. rewrite <- Hit. apply H1.
  - simpl. eapply account_perm; [exact Hit|apply HI].
  - split_and!; [done|done|]. intros x Hx. apply O3. unfold responses in *. simpl in Hx. rewrite Ed.
    rewrite elem_of_app, elem_of_cons in *. tauto.
  - simpl. intros HL Hne. apply (inv_resp _ _ HI HL). by rewrite Ed.
  - destruct (inv_producers _ _ HI) as (? & ? & ? & ?). unfold producers_ok, stopped in *. simpl.
    by rewrite Est.
  - simpl. destruct (inv_queues _ _ HI) as (? & ? & Hq). split_and!; try done.
    unfold queue_ok, size, capacity in *. rewrite Ed, zlen_cons in Hq. lia.
Qed.

Lemma inv_drainResponseQueue fuel b1 b2 s s' :
  Inv (base b1 b2) s → drainResponseQueue E fuel s = Some s' → Inv (base true b2) s'.
Proof.
  revert s. induction fuel as [|fuel IH]; intros s HI; [done|].
  cbn [drainResponseQueue].
  pose proof (inv_sync E _ _ HE HI) as HI1. set (s1 := sync E s) in *. clearbody s1.
  destruct (tryPop (response_queue_ s1)) as [[r|] q] eqn:Hp.
  - destruct (inv_pop_response _ _ _ _ _ HI1 Hp) as [HI2 Hr].
    intros Hd. eapply IH; [|exact Hd]. by apply inv_applyResponse_worker.
  - intros [= <-]. destruct (tryPop_data (response_queue_ s1)) as (Ed & Est & Ecap).
    assert (q = response_queue_ s1 ∧ data_queue_ (response_queue_ s1) = []) as [-> Hnil].
    { unfold tryPop in Hp. destruct (data_queue_ _); [by injection Hp as <-|done]. }
    assert (HI2 : Inv (base b1 b2) (set_response_queue_ (response_queue_ s1) s1))
      by (by destruct HI1; constructor).
    constructor; try apply HI2. simpl. rewrite Hnil. by intros _ [].
Qed.

Definition pending (keys : list (Z * Z)) (b1 b2 : bool) : Local := mkLocal [] [] keys [] None b1 b2.

(** A refused connection that is gone needs no further care. *)
Lemma inv_settle k keys b1 b2 s :
  (∀ fd c, connections_ s !! fd = Some c → conn_key c ≠ k) →
  Inv (pending (k :: keys) b1 b2) s → Inv (pending keys b1 b2) s.
Proof.
  intros Hgone HI. constructor; try apply HI.
  - destruct (inv_fresh _ _ HI) as (? & H2 & ?). split_and!; [done| |done].
    intros x Hx. apply H2. by right.
  - intros fd c Hc. destruct (inv_account _ _ HI fd c Hc) as [Hle Heq]. split; [done|].
    intros Hl. apply Heq. simpl. rewrite elem_of_cons. intros [Ek|]; [|done]. by eapply Hgone.
Qed.

Lemma inv_close_rejected k keys b1 b2 s :
  Inv (pending (k :: keys) b1 b2) s → Inv (pending keys b1 b2) (close_rejected E k s).
Proof.
  intros HI. unfold close_rejected. destruct (connections_ s !! k.1) as [c|] eqn:Hc.
  - destruct (Z.eqb_spec (c_conn_id c) k.2) as [Eid|Eid].
    + apply (inv_settle k); [|by apply inv_close].
      rewrite closeConnection_connections. intros fd c' [Hne Hx]%lookup_delete_Some Ek.
      apply Hne. rewrite <- Ek. by rewrite <- (live_fd _ _ HI _ _ Hx).
    + apply (inv_settle k); [|done]. intros fd c' Hx Ek. pose proof (live_fd _ _ HI _ _ Hx) as Efd.
      rewrite <- Ek in Hc, Eid. simpl in *. rewrite Efd in Hc. congruence.
  - apply (inv_settle k); [|done]. intros fd c' Hx Ek. pose proof (live_fd _ _ HI _ _ Hx) as Efd.
    rewrite <- Ek in Hc. simpl in *. congruence.
Qed.

Lemma inv_drainRejectedResponses b1 b2 s :
  Inv (base b1 b2) s → Inv (base b1 true) (drainRejectedResponses E s).
Proof.
  intros HI. unfold drainRejectedResponses.
  pose proof (inv_sync E _ _ HE HI) as HI1. set (s1 := sync E s) in *. clearbody s1.
  set (s2 := set_rejected_response_connections_ ∅ s1).
  set (keys := elements (rejected_response_connections_ s1)).
  assert (HI2 : Inv (pending keys b1 true) s2).
  { constructor; try apply HI1. by intros _ []. }
  clearbody keys s2. clear HI1. revert s2 HI2.
  induction keys as [|k keys IH]; intros s2 HI2; [done|]. simpl. apply IH. by apply inv_close_rejected.
Qed.

(** ** Admitting requests *)

(** The state that [classify] does not change. *)
Definition batch_view (s : Server) :=
  (core_view s, connections_ s, trace_ s, request_queue_ s, auth_queue_ s).

Definition local_ok (key : Z * Z) (r : Response) : Prop :=
  response_key r = key ∧ rs_skip_write r = false ∧ rs_client_id_to_authenticate r = None.

Lemma local_response_ok key tr r : local_ok key r → response_ok tr r.
Proof. intros (_ & ? & E0). split; [done|]. by rewrite E0. Qed.

(** What the pass over the decoded requests has built: at most one AUTH task,
    with a fresh cancellation cell, for an unauthenticated connection; only
    normal requests for an authenticated one. *)
Record batch_ok (c : Connection) (cells : list bool) (b : Batch) (s : Server) : Prop := mkBatchOk {
  bo_requests : Forall (λ r, request_key r = conn_key c ∧ rq_type r ≠ AUTH) (b_requests b);
  bo_local : Forall (local_ok (conn_key c)) (b_local b);
  bo_auth : b_requests b ≠ [] → c_authenticated c = true;
  bo_tasks :
    (b_conn b = c ∧ b_auth_tasks b = [] ∧ cancellations_ s = cells) ∨
    (c_authenticated c = false ∧ ∃ r, request_key r = conn_key c ∧ rq_type r = AUTH ∧
       b_conn b = set_c_auth_cancellation (Some (length cells)) (set_c_auth_pending true c) ∧
       b_auth_tasks b = [mkAuthTask r (length cells)] ∧ cancellations_ s = cells ++ [false]);
}.

Lemma allowRequest_view client config s :
  let s' := (allowRequestForClient E client config s).2 in
  batch_view s' = batch_view s ∧ cancellations_ s' = cancellations_ s.
Proof. unfold allowRequestForClient. simpl. repeat (case_bool; simpl); done. Qed.

Lemma classify_spec config c cells decoded b s :
  Forall (λ r, request_key r = conn_key c) decoded → batch_ok c cells b s →
  let '(b', s') := classify E config decoded b s in
  batch_ok c cells b' s' ∧ batch_view s' = batch_view s.
Proof.
  intros Hd. revert b s. induction Hd as [|r decoded Hr Hd IH]; intros b s HB; [done|].
  assert (Hclose : ∀ f, batch_ok c cells
    (mkBatch (b_conn b) (b_requests b) (b_auth_tasks b) (b_local b) true) (stat f s)).
  { intros f. by destruct HB; constructor. }
  cbn [classify]. case_bool; [split; [apply Hclose|done]|].
  destruct (c_authenticated (b_conn b)) eqn:Eau; simpl.
  - assert (Hc : b_conn b = c ∧ b_auth_tasks b = [] ∧ cancellations_ s = cells ∧ c_authenticated c = true).
    { destruct (bo_tasks _ _ _ _ HB) as [(E1 & ? & ?)|(Eu & q & _ & _ & E1 & _)]; rewrite E1 in Eau;
        [done|simpl in Eau; congruence]. }
    destruct Hc as (Ec & Et & Ecells & Eauth).
    assert (Hlocal : ∀ st p s1, cancellations_ s1 = cells → batch_ok c cells
      (mkBatch (b_conn b) (b_requests b) (b_auth_tasks b)
         (b_local b ++ [local_error (b_conn b) r st p]) (b_close_now b)) s1).
    { intros st p s1 Ec1. constructor; simpl; try apply HB; [|by left].
      apply Forall_app. split; [apply HB|]. constructor; [|done]. by rewrite Ec. }
    case_bool; [by apply IH, Hlocal|].
    pose proof (allowRequest_view (c_client_id (b_conn b)) config s) as [Hv Hcells].
    destruct (allowRequestForClient E _ config s) as [allowed s1]. simpl in *.
    destruct allowed.
    + specialize (IH (mkBatch (b_conn b) (b_requests b ++ [r]) (b_auth_tasks b) (b_local b)
        (b_close_now b)) s1). destruct (classify E config decoded _ s1) as [b' s'].
      destruct IH as [? ->]; [|done]. constructor; simpl; try apply HB; [|done|left].
      * apply Forall_app. split; [apply HB|]. constructor; [|done]. bool_facts. done.
      * split_and!; [done|done|congruence].
    + match goal with |- context [classify E config decoded ?b1 ?s2] =>
        specialize (IH b1 s2); destruct (classify E config decoded b1 s2) as [b' s'] end.
      destruct IH as [? ->]; [apply Hlocal; simpl; congruence|done].
  - destruct (negb (bool_decide (rq_type r = AUTH)) || c_auth_pending (b_conn b)) eqn:Ep;
      [split; [apply Hclose|done]|].
    bool_facts. unfold makeAuthTask. rewrite bool_decide_eq_true_2 by done.
    match goal with |- context [classify E config decoded ?b1 ?s2] =>
      specialize (IH b1 s2); destruct (classify E config decoded b1 s2) as [b' s'] end.
    destruct IH as [? ->]; [|done].
    assert (Hc : b_conn b = c ∧ b_auth_tasks b = [] ∧ cancellations_ s = cells).
    { destruct (bo_tasks _ _ _ _ HB) as [?|(_ & q & _ & _ & E1 & _)]; [done|].
      rewrite E1 in *. simpl in *. congruence. }
    destruct Hc as (Ec & Et & Ecells). rewrite Ec, Et, Ecells in *.
    constructor; simpl; try apply HB. right. split; [done|]. exists r. done.
Qed.

Lemma cancel_alloc m fd c c' cells ts :
  m !! fd = Some c → conn_key c' = conn_key c →
  c_auth_cancellation c' = Some (length cells) →
  cancel_ok m cells ts → cancel_ok (<[fd := c']> m) (cells ++ [false]) ts.
Proof.
  intros Hc Hk Ea [H1 H2]. split.
  - intros t Ht. destruct (H1 t Ht) as [Hlt Hd]. rewrite length_app. split; [lia|].
    rewrite lookup_app_l by lia. intros Hcell x cx Hx.
    apply lookup_insert_Some in Hx as [[<- <-]|[_ Hx]]; [rewrite Hk; by apply (Hd Hcell fd)|].
    by apply (Hd Hcell x).
  - intros x cx a Hx Eax. rewrite length_app. simpl.
    apply lookup_insert_Some in Hx as [[<- <-]|[_ Hx]].
    + simplify_eq. split; [lia|]. intros t Ht Et. destruct (H1 t Ht). lia.
    + destruct (H2 x cx a Hx Eax). split; [lia|done].
Qed.

Definition reading (rd : option Z) (b1 b2 : bool) : Local := mkLocal [] [] [] [] rd b1 b2.

(** The connection after decoding. *)
Lemma inv_decoded rd0 rd b1 b2 s s' fd c c' :
  Inv (reading rd0 b1 b2) s → connections_ s !! fd = Some c → batch_view s' = batch_view s →
  (rd0 = None ∨ rd0 = Some fd) →
  conn_key c' = conn_key c →
  c_output_buffer c' = c_output_buffer c → c_write_offset c' = c_write_offset c →
  c_client_id c' = c_client_id c → c_authenticated c' = c_authenticated c →
  c_closing c' = c_closing c → c_read_eof c' = c_read_eof c →
  c_in_flight_work c' = c_in_flight_work c →
  zlen (c_input_buffer c') < 4 + MAX_BODY_SIZE + (if decide (rd = Some fd) then 4096 else 0) →
  cancel_ok (<[fd := c']> (connections_ s)) (cancellations_ s') (tasks s) →
  Inv (reading rd b1 b2) (put_connection c' s').
Proof.
  intros HI Hc Hv Hrd Hk Eout Eoff Ecl Eau Ecs Ere Efl Hin Hca.
  destruct (live_facts _ _ _ _ HI Hc) as (Efd & ? & ? & Hst & Hau & Hcl & Hlaw).
  assert (Hcore : core_view s' = core_view s) by (unfold batch_view in Hv; congruence).
  unfold batch_view, core_view in Hv.
  injection Hv as V1 V2 V3 V4 V5 V6 V7 V8 V9 V10 V11 V12 Vm Vt Vr Va.
  assert (Ework : items (put_connection c' s') = items s ∧ tasks (put_connection c' s') = tasks s ∧
    requests (put_connection c' s') = requests s).
  { unfold items, tasks, requests. simpl. by rewrite V2, V5, Vr, Va. }
  destruct Ework as (W1 & W2 & W3).
  eapply (inv_put (reading rd0 b1 b2) _ s _ fd c c' []); rewrite ?app_nil_r, ?W1, ?W2, ?W3, ?Eout, ?Eoff,
    ?Ecl, ?Eau; try done; try apply HI.
  - unfold put_connection. injection Hk as Hk _. simpl. by rewrite Hk, Efd, Vm.
  - intros f i. apply not_elem_of_nil.
  - right. unfold connectionEvents. by rewrite Ecs, Ere, Eoff, Eout.
  - intros x cx [[<- <-]|[Hne Hx]]%lookup_insert_Some; [done|].
    pose proof (inv_input _ _ HI x cx Hx) as Hb. cbn [l_reading reading] in *.
    rewrite decide_False in Hb by (destruct Hrd; congruence).
    destruct (decide (rd = Some x)); lia.
  - rewrite <- (app_nil_r (trace_ s)). apply (account_put _ fd c); try done; apply HI.
  - rewrite <- (app_nil_r (trace_ s)). apply (owed_put _ fd c); try done; apply HI.
  - simpl. rewrite Vr, Va. split; apply HI.
Qed.

(** Admitting one unit of work: its ticket joins the outstanding work, the
    connection counts it, and the trace records it. *)
Definition admits (e : Obs) (t : ticket) : Prop :=
  obs_conn e = Some t.1.2 ∧ admitted_in t.1.2 e = [t.2] ∧ sent_in t.1.2 e = [] ∧
  appended_in t.1.2 e = [] ∧ answered_in t.1.2 e = [].

Lemma account_admit m fd c c' t its its' lost tr e :
  m !! fd = Some c → ids_unique m → conn_key c' = conn_key c → conn_key c = t.1 → admits e t →
  its' ≡ₚ t :: its → c_in_flight_work c' = c_in_flight_work c + 1 →
  (∀ x cx, m !! x = Some cx → conn_key cx = conn_key c → x = fd) →
  account_ok m its lost tr → account_ok (<[fd := c']> m) its' lost (tr ++ [e]).
Proof.
  intros Hc Hu Hk Ek (Ea & Ead & _ & _ & Ean) Hp Efl Hkeys HA.
  assert (Eid : c_conn_id c = t.1.2) by (by rewrite <- Ek).
  eapply account_perm; [symmetry; exact Hp|]. intros x cx Hx.
  apply (put_cases m fd c c' tr [e]) in Hx
    as [[-> ->]|(Hne & Hx & _ & _ & _ & -> & ->)];
    [..|done|done|by repeat constructor; unfold about; rewrite Eid].
  - destruct (HA fd c Hc) as [Hle Heq].
    rewrite (put_id _ _ Hk), Eid, Hk, Efl in *. rewrite Ek, of_key_cons_eq, zlen_cons in *.
    split; [lia|]. intros Hl. destruct (Heq Hl) as [-> Hadm]. split; [lia|].
    unfold admitted, answered in *. rewrite !gather_snoc, Ead, Ean, Hadm, app_nil_r. simpl. perm_solve.
  - assert (Hk' : t.1 ≠ conn_key cx) by (intros E'; apply Hne, (Hkeys x cx Hx); congruence).
    rewrite of_key_cons_ne by done. by apply HA with x.
Qed.

Lemma inv_admit b1 b2 s s' fd c t e :
  Inv (base b1 b2) s → connections_ s !! fd = Some c → conn_key c = t.1 → admits e t →
  lawful (trace_ s) e → (∀ f i, e ≠ OClose f i) →
  connections_ s' = <[fd := set_c_in_flight_work (c_in_flight_work c + 1) c]> (connections_ s) →
  trace_ s' = trace_ s ++ [e] → core_view s' = core_view s →
  items s' ≡ₚ t :: items s →
  cancel_ok (connections_ s) (cancellations_ s') (tasks s') →
  origin_ok (requests s') (tasks s') (responses s) (trace_ s ++ [e]) →
  queue_ok (request_queue_ s') ∧ queue_ok (auth_queue_ s') →
  Inv (base b1 b2) s'.
Proof.
  intros HI Hc Ek He Hlaw Hncl Em Et Hv Hit Hca Hor Hq.
  destruct (live_facts _ _ _ _ HI Hc) as (Efd & ? & ? & Hst & Hau & Hcl & Htr).
  pose proof He as (Ea & _ & Es & Eap & Ean).
  assert (Eid : c_conn_id c = t.1.2) by (by rewrite <- Ek).
  set (c' := set_c_in_flight_work (c_in_flight_work c + 1) c) in *.
  assert (Hev : Forall (about (c_conn_id c)) [e]) by (repeat constructor; unfold about; by rewrite Eid).
  assert (Hid : c_conn_id c < next_conn_id_ s) by apply (inv_conns _ _ HI fd c Hc).
  eapply (inv_put (base b1 b2) _ s _ fd c c' [e]); simpl; try done; try (by apply HI).
  - by apply always_snoc.
  - intros f i. rewrite list_elem_of_singleton. intros <-. by eapply Hncl.
  - intros Ha. rewrite elem_of_app. left. by apply Hau.
  - rewrite Eid in *. unfold sent, appended in *. by rewrite !gather_snoc, Es, Eap, !app_nil_r.
  - by right.
  - apply (input_put _ fd c c' [] []); try done; apply HI.
  - eapply (fresh_put c); [done|done|]. destruct (inv_fresh _ _ HI) as (Hf & ? & ?).
    split_and!; [|done|done]. intros x. rewrite Hit, elem_of_cons. intros [->|Hx]; [lia|by apply Hf].
  - apply (account_admit _ fd c c' t (items s)); try done; [apply HI| |apply HI].
    intros x cx Hx Hkx. by apply (live_key _ _ HI x fd cx c).
  - apply (cancel_put _ fd c c' [] []); try done; [apply HI|by left].
  - apply (owed_put _ fd c); try done; [apply HI| |apply HI].
    by rewrite gather_cons, gather_nil, app_nil_r, Eid.
Qed.

Lemma count_in_flight_live key s fd c :
  connections_ s !! fd = Some c → key = (fd, c_conn_id c) → c_fd c = fd →
  count_in_flight key s = put_connection (set_c_in_flight_work (c_in_flight_work c + 1) c) s.
Proof.
  intros Hc -> Efd. unfold count_in_flight. simpl. by rewrite Hc, Z.eqb_refl.
Qed.

Lemma push_ok_data {T} (x : T) q q' :
  push x q = (PushOK, q') → data_queue_ q' = data_queue_ q ++ [x].
Proof. intros Hp. pose proof (push_data x q) as Hd. rewrite Hp in Hd. by destruct Hd. Qed.

Lemma inv_admit_auth b1 b2 s fd c t q :
  Inv (base b1 b2) s → connections_ s !! fd = Some c → task_key t = conn_key c →
  rq_type (at_request t) = AUTH → cancellations_ s !! at_cancellation t = Some false →
  (∀ x cx, connections_ s !! x = Some cx → c_auth_cancellation cx = Some (at_cancellation t) → x = fd) →
  push t (auth_queue_ s) = (PushOK, q) →
  Inv (base b1 b2)
    (count_in_flight (task_key t) (emit (OAdmitAuth (at_request t)) (set_auth_queue_ q s))).
Proof.
  intros HI Hc Hk Hty Hcell Huniq Hp. pose proof (live_fd _ _ HI _ _ Hc) as Efd.
  destruct (live_facts _ _ _ _ HI Hc) as (_ & _ & _ & _ & _ & Hcl & _).
  destruct (inv_queues _ _ HI) as (Hq1 & Hq2 & _). pose proof (push_queue_ok t _ Hq2) as Hq2'.
  pose proof (push_ok_data _ _ _ Hp) as Ed. rewrite Hp in Hq2'.
  assert (Eid : rq_conn_id (at_request t) = c_conn_id c) by (by injection Hk).
  rewrite (count_in_flight_live _ _ fd c); [|done|by rewrite Hk; unfold conn_key; rewrite Efd|done].
  destruct (inv_cancel _ _ HI) as [C1 C2]. destruct (inv_origin _ _ HI) as (O1 & O2 & O3).
  assert (Htk : ∀ x, x ∈ data_queue_ q ++ gather worker_tasks (workers_ s) → x = t ∨ x ∈ tasks s).
  { intros x. unfold tasks. rewrite Ed, !elem_of_app, list_elem_of_singleton. tauto. }
  eapply (inv_admit b1 b2 s _ fd c (task_ticket t) (OAdmitAuth (at_request t))); simpl; try done.
  - unfold admits. simpl. by rewrite decide_True.
  - split; [|done]. intros i f [= <-]. by rewrite Eid.
  - by rewrite Efd.
  - unfold items. simpl. rewrite Ed, map_app. simpl. perm_solve.
  - unfold tasks. simpl. split.
    + intros x [->|Hx]%Htk; [|by apply C1]. split; [by eapply lookup_lt_Some|]. congruence.
    + intros x cx a Hx Ea. destruct (C2 x cx a Hx Ea) as [? Hown]. split; [done|].
      intros y [->|Hy]%Htk Eya; [|by apply Hown]. subst a.
      rewrite <- (Huniq x cx Hx Ea) in Hc. congruence.
  - split_and!; [done| |].
    + intros x [->|Hx]%Htk.
      * split; [done|]. rewrite elem_of_app, list_elem_of_singleton. by right.
      * destruct (O2 x Hx). split; [done|]. rewrite elem_of_app. by left.
    + intros r Hr. destruct (O3 r Hr) as [? Ha]. split; [done|]. intros Hn.
      destruct (Ha Hn) as (y & ? & ?). exists y. rewrite elem_of_app. auto.
Qed.

Lemma inv_admit_request b1 b2 s fd c r q :
  Inv (base b1 b2) s → connections_ s !! fd = Some c → request_key r = conn_key c →
  rq_type r ≠ AUTH → c_authenticated c = true → push r (request_queue_ s) = (PushOK, q) →
  Inv (base b1 b2) (count_in_flight (request_key r) (emit (OAdmit r) (set_request_queue_ q s))).
Proof.
  intros HI Hc Hk Hty Hau Hp. pose proof (live_fd _ _ HI _ _ Hc) as Efd.
  destruct (live_facts _ _ _ _ HI Hc) as (_ & _ & _ & _ & Hauth & Hcl & _).
  destruct (inv_queues _ _ HI) as (Hq1 & Hq2 & _). pose proof (push_queue_ok r _ Hq1) as Hq1'.
  pose proof (push_ok_data _ _ _ Hp) as Ed. rewrite Hp in Hq1'.
  assert (Eid : rq_conn_id r = c_conn_id c) by (by injection Hk).
  rewrite (count_in_flight_live _ _ fd c); [|done|by rewrite Hk; unfold conn_key; rewrite Efd|done].
  destruct (inv_origin _ _ HI) as (O1 & O2 & O3).
  eapply (inv_admit b1 b2 s _ fd c (request_ticket r) (OAdmit r)); simpl; try done; try apply HI.
  - unfold admits. simpl. by rewrite decide_True.
  - split; [intros i f [= <-]; by rewrite Eid|]. split; [done|]. rewrite Eid. eauto.
  - by rewrite Efd.
  - unfold items. simpl. rewrite Ed, map_app. simpl. perm_solve.
  - destruct (origin_emit _ _ _ _ (OAdmit r) (inv_origin _ _ HI)) as (_ & ? & ?).
    split_and!; try done. intros x. unfold requests. simpl.
    rewrite Ed, !elem_of_app, list_elem_of_singleton. intros [[Hx| ->]|Hx]; try done;
      apply O1; unfold requests; rewrite elem_of_app; auto.
Qed.

Lemma inv_enqueue_auth b1 b2 s fd c t local :
  Inv (base b1 b2) s → connections_ s !! fd = Some c → task_key t = conn_key c →
  rq_type (at_request t) = AUTH → cancellations_ s !! at_cancellation t = Some false →
  (∀ x cx, connections_ s !! x = Some cx → c_auth_cancellation cx = Some (at_cancellation t) → x = fd) →
  Forall (local_ok (conn_key c)) local →
  let '(local', s') := enqueue_auth E [t] local s in
  Inv (base b1 b2) s' ∧ Forall (local_ok (conn_key c)) local'.
Proof.
  intros HI Hc Hk Hty Hcell Huniq Hloc. cbn [enqueue_auth].
  pose proof (inv_sync E _ _ HE HI) as HI1. sync_view E s s1. rewrite <- Vconn in Hc, Huniq.
  rewrite <- Vcells in Hcell. destruct (push t (auth_queue_ s1)) as [res q] eqn:Hp.
  assert (Hrefused : res ≠ PushOK → Inv (base b1 b2)
    (stat (recordAuthResult Unavailable 0) (stat incrementAuthQueueRejected
       (stat incrementErrors (set_auth_queue_ q s1))))).
  { intros Hne. rewrite (push_not_ok _ _ _ _ Hp Hne). do 3 apply inv_stat. by destruct HI1; constructor. }
  destruct res.
  - split; [by eapply inv_admit_auth|done].
  - split; [by apply Hrefused|]. apply Forall_app. split; [done|]. constructor; [|done]. by rewrite <- Hk.
  - split; [by apply Hrefused|]. apply Forall_app. split; [done|]. constructor; [|done]. by rewrite <- Hk.
Qed.

Lemma inv_enqueue_requests b1 b2 key rs local s fd c :
  Inv (base b1 b2) s → connections_ s !! fd = Some c → conn_key c = key →
  (rs ≠ [] → c_authenticated c = true) →
  Forall (λ r, request_key r = key ∧ rq_type r ≠ AUTH) rs → Forall (local_ok key) local →
  let '(local', s') := enqueue_requests E rs local s in
  Inv (base b1 b2) s' ∧ Forall (local_ok key) local'.
Proof.
  intros HI Hc Hkc Hau Hrs. revert local s c HI Hc Hkc Hau.
  induction Hrs as [|r rs [Hk Hty] Hrs IH]; intros local s c HI Hc Hkc Hau Hloc; [done|].
  cbn [enqueue_requests]. assert (Hauth : c_authenticated c = true) by (by apply Hau).
  pose proof (inv_sync E _ _ HE HI) as HI1. sync_view E s s1. rewrite <- Vconn in Hc.
  destruct (push r (request_queue_ s1)) as [res q] eqn:Hp.
  assert (Hrefused : res ≠ PushOK → let '(local', s') := enqueue_requests E rs
      (local ++ [makeOverloadResponse r false])
      (stat incrementRequestQueueRejected (stat incrementErrors (set_request_queue_ q s1))) in
    Inv (base b1 b2) s' ∧ Forall (local_ok key) local').
  { intros Hne. rewrite (push_not_ok _ _ _ _ Hp Hne). apply (IH _ _ c); try done.
    - do 2 apply inv_stat. by destruct HI1; constructor.
    - apply Forall_app. split; [done|]. constructor; [|done]. by rewrite <- Hk. }
  destruct res; [|by apply Hrefused..].
  pose proof (live_fd _ _ HI1 _ _ Hc) as Efd.
  eapply (IH _ _ (set_c_in_flight_work (c_in_flight_work c + 1) c)); try done.
  - eapply inv_admit_request; try done. congruence.
  - rewrite (count_in_flight_live _ _ fd c); [|done|by rewrite Hk, <- Hkc, <- Efd|done].
    simpl. by rewrite Efd, lookup_insert_eq.
Qed.

Lemma inv_apply_local b1 b2 key rs s :
  Inv (base b1 b2) s → Forall (local_ok key) rs → Inv (base b1 b2) (apply_local E rs s).
Proof.
  intros HI Hrs. revert s HI. induction Hrs as [|r rs Hr Hrs IH]; intros s HI; [done|].
  apply IH, inv_applyResponse_local; [done|]. by eapply local_response_ok.
Qed.

(** The part of [decodeAndEnqueue] after the classification. *)
Definition enqueue_batch (b : Batch) (s : Server) : Server :=
  let '(local, s) := enqueue_auth E (b_auth_tasks b) (b_local b) s in
  let '(local, s) := enqueue_requests E (b_requests b) local s in
  apply_local E local s.

Lemma inv_enqueue_batch b1 b2 c0 cells b s fd :
  Inv (base b1 b2) s → batch_ok c0 cells b s →
  connections_ s !! fd = Some (b_conn b) → c_fd c0 = fd →
  (∀ x cx, connections_ s !! x = Some cx → c_auth_cancellation cx = Some (length cells) → x = fd) →
  Inv (base b1 b2) (enqueue_batch b s).
Proof.
  intros HI [Hrq Hlo Hau Htk] Hc Efd Hun. unfold enqueue_batch.
  destruct Htk as [(Ec & Et & _)|(Enu & r & Hk & Hty & Ec & Et & Ecells)]; rewrite Ec in Hc.
  - rewrite Et. cbn [enqueue_auth].
    pose proof (inv_enqueue_requests b1 b2 (conn_key c0) (b_requests b) (b_local b) s fd c0) as Hq.
    destruct (enqueue_requests E _ _ s) as [local s']. destruct Hq as [? ?]; try done.
    by eapply inv_apply_local.
  - assert (Erq : b_requests b = []).
    { destruct (b_requests b); [done|]. by rewrite Hau in Enu. }
    rewrite Et, Erq.
    pose proof (inv_enqueue_auth b1 b2 s fd _ (mkAuthTask r (length cells)) (b_local b) HI Hc) as Hq.
    destruct (enqueue_auth E _ _ s) as [local s']. cbn [enqueue_requests].
    destruct Hq as [? ?]; try done; [|by eapply inv_apply_local].
    rewrite Ecells. simpl. by rewrite lookup_app_r, Nat.sub_diag.
Qed.

Lemma inv_unread fd rd b1 b2 s :
  connections_ s !! fd = None → rd = None ∨ rd = Some fd →
  Inv (reading rd b1 b2) s → Inv (base b1 b2) s.
Proof.
  intros Hg Hrd. apply (inv_gone fd); try done. auto.
Qed.

Lemma decodeAndEnqueue_unfold fd eof s :
  decodeAndEnqueue E fd eof s =
  let s1 := sync E s in
  let config := runtime_config_ s1 in
  match connections_ s1 !! fd with
  | None => (false, s1)
  | Some c =>
    let '(status, input, decoded) :=
      decode (c_input_buffer c) (c_fd c) [] (c_conn_id c) (u32 (max_payload_size config)) in
    let invalid := bool_decide (status = INVALID_LENGTH) in
    let s2 := if invalid then stat incrementErrors s1 else s1 in
    let input := if negb invalid && (eof || c_read_eof c) && bool_decide (status = NEED_MORE_DATA)
                 then [] else input in
    let '(b, s3) := classify E config decoded
                      (mkBatch (set_c_input_buffer input c) [] [] [] invalid) s2 in
    let s4 := put_connection (b_conn b) s3 in
    if b_close_now b then (false, closeConnection E fd s4) else (true, enqueue_batch b s4)
  end.
Proof.
  unfold decodeAndEnqueue, getRuntimeConfigSnapshot, enqueue_batch. cbv zeta.
  destruct (connections_ (sync E s) !! fd) as [c|]; [|done].
  destruct (decode _ _ _ _ _) as [[status input] decoded].
  destruct (classify E _ decoded _ _) as [b s3]. destruct (b_close_now b); [done|].
  destruct (enqueue_auth E _ _ _) as [local s4]. by destruct (enqueue_requests E _ _ _).
Qed.

Lemma classify_close config decoded b s :
  b_close_now b = true → b_close_now (classify E config decoded b s).1 = true.
Proof.
  revert b s. induction decoded as [|r decoded IH]; intros b s Hb; [done|]. cbn [classify].
  repeat case_bool; try done; try (by apply IH).
  - case_match; [by apply IH|done].
  - destruct (allowRequestForClient E _ config s) as [[] s1]; by apply IH.
Qed.

Lemma fresh_cell L s a :
  Inv L s → (length (cancellations_ s) ≤ a)%nat →
  ∀ x cx, connections_ s !! x = Some cx → c_auth_cancellation cx ≠ Some a.
Proof.
  intros HI Ha x cx Hx Ea. destruct (inv_cancel _ _ HI) as [_ C]. destruct (C x cx a Hx Ea). lia.
Qed.

(** The connection and the batch after the classification. *)
Lemma inv_classified rd b1 b2 s s3 fd c input b invalid :
  Inv (reading rd b1 b2) s → connections_ s !! fd = Some c → (rd = None ∨ rd = Some fd) →
  batch_view s3 = batch_view s →
  batch_ok (set_c_input_buffer input c) (cancellations_ s) b s3 →
  zlen input < 4 + MAX_BODY_SIZE + (if decide ((if invalid : bool then rd else None) = Some fd) then 4096 else 0) →
  Inv (reading (if invalid then rd else None) b1 b2) (put_connection (b_conn b) s3) ∧
  connections_ (put_connection (b_conn b) s3) = <[fd := b_conn b]> (connections_ s).
Proof.
  intros HI Hc Hrd Hv HB Hin. pose proof (live_fd _ _ HI _ _ Hc) as Efd.
  assert (Vm : connections_ s3 = connections_ s) by (unfold batch_view in Hv; congruence).
  assert (Hfields : conn_key (b_conn b) = conn_key c ∧ c_output_buffer (b_conn b) = c_output_buffer c ∧
    c_write_offset (b_conn b) = c_write_offset c ∧ c_client_id (b_conn b) = c_client_id c ∧
    c_authenticated (b_conn b) = c_authenticated c ∧ c_closing (b_conn b) = c_closing c ∧
    c_read_eof (b_conn b) = c_read_eof c ∧ c_in_flight_work (b_conn b) = c_in_flight_work c ∧
    c_input_buffer (b_conn b) = input).
  { by destruct (bo_tasks _ _ _ _ HB) as [(-> & _)|(_ & r & _ & _ & -> & _)]. }
  destruct Hfields as (F1 & F2 & F3 & F4 & F5 & F6 & F7 & F8 & F9). split.
  - eapply (inv_decoded rd _ b1 b2 s _ fd c); try done; [by rewrite F9|].
    destruct (bo_tasks _ _ _ _ HB) as [(Ec & _ & Ecells)|(_ & r & _ & _ & Ec & _ & Ecells)];
      rewrite Ecells.
    + apply (cancel_put _ fd c _ [] []); try done; [apply HI|left; by rewrite Ec|apply HI].
    + eapply cancel_alloc; [done|done|by rewrite Ec|apply HI].
  - unfold put_connection. simpl. injection F1 as F1 _. by rewrite F1, Efd, Vm.
Qed.

(** The input kept after decoding: less than one frame, and while a length is
    invalid the untouched input. *)
Lemma kept_input_bound rd fd m c fd' id maxp status input decoded (discard : bool) :
  input_ok rd m → m !! fd = Some c →
  decode (c_input_buffer c) fd' [] id maxp = (status, input, decoded) → FIXED_BODY_SIZE ≤ maxp →
  let invalid := bool_decide (status = INVALID_LENGTH) in
  zlen (if negb invalid && discard then [] else input) <
    4 + MAX_BODY_SIZE + (if decide ((if invalid then rd else None) = Some fd) then 4096 else 0).
Proof.
  intros HI Hc Ed Hmb. cbv zeta. destruct (decide (status = INVALID_LENGTH)) as [Es|Es].
  - rewrite bool_decide_eq_true_2 by done. simpl.
    replace input with (c_input_buffer c) by (by eapply decode_invalid; [exact Ed|]). by apply HI.
  - rewrite bool_decide_eq_false_2, decide_False by done.
    destruct (decode_facts _ _ _ _ _ _ _ Ed Hmb) as [Hrest _]. specialize (Hrest Es).
    case_bool; [rewrite zlen_nil; vm_compute; congruence|lia].
Qed.

Lemma inv_decodeAndEnqueue fd eof rd b1 b2 s :
  Inv (reading rd b1 b2) s → (rd = None ∨ rd = Some fd) →
  Inv (base b1 b2) (decodeAndEnqueue E fd eof s).2.
Proof.
  intros HI Hrd. rewrite decodeAndEnqueue_unfold. cbv zeta.
  pose proof (inv_sync E _ _ HE HI) as HI1. sync_view E s s1.
  destruct (connections_ s1 !! fd) as [c|] eqn:Hc; [|by apply (inv_unread fd rd)].
  set (config := runtime_config_ s1). pose proof (live_fd _ _ HI1 _ _ Hc) as Efd.
  assert (Hmb : FIXED_BODY_SIZE ≤ u32 (max_payload_size config)).
  { destruct (inv_config _ _ HI1) as (_ & Hp & _). fold config in Hp.
    rewrite u32_small; unfold FIXED_BODY_SIZE, MAX_PAYLOAD_SIZE in *; lia. }
  destruct (decode (c_input_buffer c) (c_fd c) [] (c_conn_id c) _) as [[status input] decoded] eqn:Ed.
  destruct (decode_facts _ _ _ _ _ _ _ Ed Hmb) as [Hrest Hreqs].
  set (invalid := bool_decide (status = INVALID_LENGTH)).
  set (s2 := if invalid then stat incrementErrors s1 else s1).
  set (input' := if negb invalid && _ && _ then [] else input).
  assert (HI2 : Inv (reading rd b1 b2) s2) by (subst s2; case_bool; [by apply inv_stat|done]).
  assert (Hc2 : connections_ s2 !! fd = Some c) by (subst s2; by case_bool).
  assert (Hin : zlen input' < 4 + MAX_BODY_SIZE +
    (if decide ((if invalid then rd else None) = Some fd) then 4096 else 0)).
  { subst input' invalid. rewrite <- andb_assoc. by eapply kept_input_bound; [apply HI1|..]. }
  pose proof (classify_spec config (set_c_input_buffer input' c) (cancellations_ s2) decoded
    (mkBatch (set_c_input_buffer input' c) [] [] [] invalid) s2) as Hcl.
  pose proof (classify_close config decoded
    (mkBatch (set_c_input_buffer input' c) [] [] [] invalid) s2) as Hclose.
  destruct (classify E config decoded _ s2) as [b s3]. simpl in Hclose.
  destruct Hcl as [HB Hv].
  { eapply Forall_impl; [exact Hreqs|]. intros r (? & ? & _). unfold request_key, conn_key. simpl.
    congruence. }
  { constructor; simpl; [done|done|done|]. by left. }
  destruct (inv_classified rd b1 b2 s2 s3 fd c input' b invalid) as [HI3 Hm]; try done.
  destruct (b_close_now b) eqn:Ecn; simpl.
  - apply (inv_unread fd (if invalid then rd else None)).
    + by rewrite closeConnection_connections, lookup_delete_eq.
    + destruct invalid; auto.
    + by apply inv_close.
  - assert (Hval : invalid = false) by (apply not_true_is_false; intros Ht; by discriminate (Hclose Ht)).
    rewrite Hval in HI3.
    eapply (inv_enqueue_batch _ _ (set_c_input_buffer input' c) (cancellations_ s2) _ _ fd); try done.
    + by destruct HB; constructor.
    + rewrite Hm. apply lookup_insert_eq.
    + rewrite Hm. intros x cx [[? ?]|[_ Hx]]%lookup_insert_Some Ea; [done|].
      by destruct (fresh_cell _ _ (length (cancellations_ s2)) HI2 (le_n _) x cx Hx).
Qed.

(** ** What these operations leave alone *)

Lemma apply_output_fixed config r c s : fixed_view (apply_output E config r c s) = fixed_view s.
Proof.
  unfold apply_output. case_bool; [apply (closeConnection_fixed _ (stat _ (stat _ s)))|].
  apply (modify_fixed _ _ (emit _ (put_connection _ s))).
Qed.

Lemma applyResponse_fixed r o s : fixed_view (applyResponse E r o s) = fixed_view s.
Proof.
  rewrite applyResponse_unfold. cbv zeta. rewrite <- (sync_fixed s). set (s1 := sync E s). clearbody s1.
  destruct (connections_ s1 !! rs_fd r) as [c|]; [|done]. case_bool; [|done].
  assert (Hm : ∀ config c s2, fixed_view (apply_matched config r c s2) = fixed_view s2).
  { clear. intros config c s. unfold apply_matched. set (c1 := if _ || _ then _ else _). clearbody c1.
    unfold apply_authentication.
    repeat case_match; simplify_eq; rewrite ?closeConnection_fixed, ?apply_output_fixed; done. }
  destruct o; [|case_bool]; by rewrite Hm.
Qed.

Lemma apply_local_fixed rs s : fixed_view (apply_local E rs s) = fixed_view s.
Proof.
  revert s. induction rs as [|r rs IH]; intros s; [done|]. unfold apply_local. simpl.
  etransitivity; [apply IH|apply applyResponse_fixed].
Qed.

Lemma classify_fixed config decoded b s :
  fixed_view (classify E config decoded b s).2 = fixed_view s.
Proof.
  revert b s. induction decoded as [|r decoded IH]; intros b s; [done|]. cbn [classify].
  destruct (_ >? _); [done|]. destruct (negb (c_authenticated _)).
  - destruct (_ || _); [done|]. case_match; [by rewrite IH|done].
  - destruct (bool_decide _); [by rewrite IH|]. unfold allowRequestForClient, now. cbv zeta.
    repeat (case_bool; simpl); by rewrite IH.
Qed.

Lemma count_in_flight_fixed key s : fixed_view (count_in_flight key s) = fixed_view s.
Proof. unfold count_in_flight. repeat case_match; done. Qed.

Lemma enqueue_auth_fixed ts local s : fixed_view (enqueue_auth E ts local s).2 = fixed_view s.
Proof.
  revert local s. induction ts as [|t ts IH]; intros local s; [done|]. cbn [enqueue_auth].
  rewrite <- (sync_fixed s). set (s1 := sync E s). clearbody s1.
  pose proof (push_data t (auth_queue_ s1)) as Hp.
  destruct (push t _) as [res q]. destruct Hp as (_ & Est & _).
  destruct res; rewrite IH, ?count_in_flight_fixed; unfold fixed_view; simpl; by rewrite Est.
Qed.

Lemma enqueue_requests_fixed rs local s : fixed_view (enqueue_requests E rs local s).2 = fixed_view s.
Proof.
  revert local s. induction rs as [|r rs IH]; intros local s; [done|]. cbn [enqueue_requests].
  rewrite <- (sync_fixed s). set (s1 := sync E s). clearbody s1.
  pose proof (push_data r (request_queue_ s1)) as Hp.
  destruct (push r _) as [res q]. destruct Hp as (_ & Est & _).
  destruct res; rewrite IH, ?count_in_flight_fixed; unfold fixed_view; simpl; by rewrite Est.
Qed.

Lemma decodeAndEnqueue_fixed fd eof s : fixed_view (decodeAndEnqueue E fd eof s).2 = fixed_view s.
Proof.
  rewrite decodeAndEnqueue_unfold. cbv zeta. rewrite <- (sync_fixed s). set (s1 := sync E s). clearbody s1.
  destruct (connections_ s1 !! fd) as [c|]; [|done].
  destruct (decode _ _ _ _ _) as [[status input] decoded].
  match goal with |- context [classify E ?g ?d ?b ?s2] =>
    pose proof (classify_fixed g d b s2) as Hf; destruct (classify E g d b s2) as [b' s3] end.
  assert (Hs3 : fixed_view s3 = fixed_view s1) by (simpl in Hf; rewrite Hf; by case_bool).
  destruct (b_close_now b'); simpl; [by rewrite closeConnection_fixed|].
  unfold enqueue_batch.
  pose proof (enqueue_auth_fixed (b_auth_tasks b') (b_local b') (put_connection (b_conn b') s3)) as H1.
  destruct (enqueue_auth E _ _ _) as [local s4].
  pose proof (enqueue_requests_fixed (b_requests b') local s4) as H2.
  destruct (enqueue_requests E _ _ _) as [local' s5]. simpl in *.
  rewrite apply_local_fixed, H2, H1. done.
Qed.

Lemma markReadEof_fixed fd s : fixed_view (markReadEof E fd s) = fixed_view s.
Proof.
  unfold markReadEof, maybeCloseAfterDrain. destruct (connections_ s !! fd) as [c|]; [|done].
  repeat case_bool; try done; rewrite ?closeConnection_fixed, ?modify_fixed; done.
Qed.

Lemma handleRead_fixed fd script s s' :
  handleRead E fd script s = Some s' → fixed_view s' = fixed_view s.
Proof.
  revert s. induction script as [|a script IH]; intros s; cbn [handleRead]; (case_bool; [by intros [= <-]|]);
    (destruct (connections_ s !! fd) as [c|]; [|by intros [= <-]]); (case_bool; [by intros [= <-]|]); [done|].
  destruct a as [b| | | |].
  - case_bool; [done|]. match goal with |- context [decodeAndEnqueue E fd false ?s2] =>
      pose proof (decodeAndEnqueue_fixed fd false s2) as Hf;
      destruct (decodeAndEnqueue E fd false s2) as [[] s3] end; simpl in Hf.
    + intros Hr. by rewrite (IH _ Hr), Hf.
    + by intros [= <-].
  - intros [= <-]. by rewrite markReadEof_fixed, decodeAndEnqueue_fixed.
  - apply IH.
  - intros [= <-]. apply decodeAndEnqueue_fixed.
  - intros [= <-]. apply closeConnection_fixed.
Qed.

Lemma output_drained_fixed fd c s : fixed_view (output_drained E fd c s) = fixed_view s.
Proof. unfold output_drained. case_bool; [apply closeConnection_fixed|apply modify_fixed]. Qed.

Lemma handleWrite_fixed fd script s s' :
  handleWrite E fd script s = Some s' → fixed_view s' = fixed_view s.
Proof.
  revert s. induction script as [|a script IH]; intros s; cbn [handleWrite];
    (destruct (connections_ s !! fd) as [c|]; [|by intros [= <-]]);
    (case_bool; [intros [= <-]; apply output_drained_fixed|]); [done|].
  destruct a as [n| | |].
  - case_bool; [done|]. case_bool; [intros [= <-]; by rewrite output_drained_fixed|].
    intros Hw. by rewrite (IH _ Hw).
  - apply IH.
  - by intros [= <-].
  - intros [= <-]. apply closeConnection_fixed.
Qed.

(** ** Socket I/O *)

Lemma inv_receive b b1 b2 s fd c :
  Inv (base b1 b2) s → connections_ s !! fd = Some c → 0 ≤ zlen b ≤ 4096 →
  Inv (reading (Some fd) b1 b2)
    (emit (ORecv (c_conn_id c) b) (stat (incrementReadBytes (zlen b))
       (put_connection (set_c_input_buffer (c_input_buffer c ++ b) c) s))).
Proof.
  intros HI Hc Hb. destruct (live_facts _ _ _ _ HI Hc) as (Efd & ? & ? & Hst & Hau & Hcl & Hlaw).
  set (e := ORecv (c_conn_id c) b). set (c' := set_c_input_buffer (c_input_buffer c ++ b) c).
  destruct (same_io_neutral (trace_ s) e I (c_conn_id c)) as (I1 & I2 & _).
  assert (Hev : Forall (about (c_conn_id c)) [e]) by (by repeat constructor).
  eapply (inv_put (base b1 b2) (reading (Some fd) b1 b2) s _ fd c c' [e]); cbn [l_reading reading];
    try done; try apply HI.
  - simpl. by rewrite Efd.
  - apply always_snoc; [done|]. split; [|done]. intros i f [= <-]. apply Hcl.
  - intros f i. rewrite list_elem_of_singleton. done.
  - intros Ha. rewrite elem_of_app. left. by apply Hau.
  - by rewrite I1, I2.
  - by right.
  - intros x cx [[<- <-]|[Hne Hx]]%lookup_insert_Some.
    + pose proof (inv_input _ _ HI fd c Hc) as Hin. cbn [l_reading base] in Hin.
      rewrite decide_False in Hin by done. rewrite decide_True by done.
      unfold c'. simpl. rewrite zlen_app. lia.
    + pose proof (inv_input _ _ HI x cx Hx) as Hin. cbn [l_reading base] in Hin.
      rewrite decide_False in Hin by done. destruct (decide _); lia.
  - eapply (fresh_put c); [done|apply (inv_conns _ _ HI fd c Hc)|apply HI].
  - apply (account_put _ fd c); try done; apply HI.
  - apply (cancel_put _ fd c c' [] []); try done; [apply HI|by left|apply HI].
  - apply origin_app, HI.
  - apply (owed_put _ fd c); try done; apply HI.
  - split; apply HI.
Qed.

Lemma inv_handleRead fd script b1 b2 s s' :
  Inv (base b1 b2) s → handleRead E fd script s = Some s' → Inv (base b1 b2) s'.
Proof.
  revert s. induction script as [|a script IH]; intros s HI; cbn [handleRead];
    (case_bool; [by intros [= <-]|]);
    (destruct (connections_ s !! fd) as [c|] eqn:Hc; [|by intros [= <-]]);
    (case_bool; [by intros [= <-]|]); [done|].
  assert (Hdec : ∀ eof, Inv (base b1 b2) (decodeAndEnqueue E fd eof s).2).
  { intros eof. eapply (inv_decodeAndEnqueue fd eof None); [exact HI|by left]. }
  destruct a as [b| | | |].
  - destruct ((zlen b <=? 0) || (zlen b >? 4096)) eqn:Eb; [done|].
    rewrite Z.gtb_ltb in Eb. bool_facts.
    pose proof (inv_receive b _ _ _ _ _ HI Hc ltac:(lia)) as HI1.
    pose proof (inv_decodeAndEnqueue fd false (Some fd) _ _ _ HI1 (or_intror eq_refl)) as HI2.
    destruct (decodeAndEnqueue E fd false _) as [[] s3]; [by apply IH|by intros [= <-]].
  - intros [= <-]. by apply inv_markReadEof.
  - by apply IH.
  - intros [= <-]. apply Hdec.
  - intros [= <-]. by apply inv_close.
Qed.

Lemma inv_output_drained fd c b1 b2 s :
  Inv (owing [] [fd] b1 b2) s → connections_ s !! fd = Some c →
  Inv (base b1 b2) (output_drained E fd c s).
Proof.
  intros HI Hc. unfold output_drained. case_bool.
  - apply (inv_gone fd (owing [] [fd] b1 b2)); try done.
    + by rewrite closeConnection_connections, lookup_delete_eq.
    + simpl. intros x. rewrite list_elem_of_singleton. auto.
    + by left.
    + by apply inv_close.
  - by apply inv_modify_clean.
Qed.

(** A partial or complete [send].  [c'] is the connection after it. *)
Lemma inv_send n b1 b2 s fd c c' :
  Inv (base b1 b2) s → connections_ s !! fd = Some c →
  0 < n ≤ zlen (c_output_buffer c) - c_write_offset c →
  let c1 := set_c_write_offset (c_write_offset c + n) c in
  c' = (if c_write_offset c1 =? zlen (c_output_buffer c1)
        then set_c_write_offset 0 (set_c_output_buffer [] c1) else c1) →
  let s' := put_connection c'
    (emit (OSend (c_conn_id c)
             (take (Z.to_nat n) (drop (Z.to_nat (c_write_offset c)) (c_output_buffer c))))
       (stat (incrementWriteBytes n) s)) in
  Inv (if c_write_offset c1 =? zlen (c_output_buffer c1) then owing [] [fd] b1 b2 else base b1 b2) s'.
Proof.
  intros HI Hc Hn c1 Ec' s'.
  destruct (live_facts _ _ _ _ HI Hc) as (Efd & Hoff & Hlim & Hst & Hau & Hcl & Hlaw).
  set (b := take _ _) in *. set (e := OSend (c_conn_id c) b).
  assert (I1 : sent (c_conn_id c) (trace_ s ++ [e]) = sent (c_conn_id c) (trace_ s) ++ b).
  { unfold sent. rewrite gather_snoc. simpl. by rewrite decide_True. }
  assert (I2 : appended (c_conn_id c) (trace_ s ++ [e]) = appended (c_conn_id c) (trace_ s)).
  { unfold appended. rewrite gather_snoc. by rewrite app_nil_r. }
  assert (Hsplit : b ++ drop (Z.to_nat (c_write_offset c + n)) (c_output_buffer c)
                   = drop (Z.to_nat (c_write_offset c)) (c_output_buffer c)).
  { subst b. rewrite Z2Nat.inj_add, <- drop_drop by lia. apply take_drop. }
  set (dirty := if c_write_offset c1 =? zlen (c_output_buffer c1) then [fd] else []).
  replace (if _ =? _ then owing [] [fd] b1 b2 else base b1 b2) with (with_dirty dirty (base b1 b2))
    by (subst dirty; by case_bool).
  assert (Hc' : conn_key c' = conn_key c ∧ c_input_buffer c' = c_input_buffer c ∧
    c_client_id c' = c_client_id c ∧ c_authenticated c' = c_authenticated c ∧
    c_in_flight_work c' = c_in_flight_work c ∧ c_auth_cancellation c' = c_auth_cancellation c).
  { subst c'. by case_bool. }
  destruct Hc' as (F1 & F2 & F3 & F4 & F5 & F6).
  eapply (inv_touch (base b1 b2) dirty s s' fd c c' [e]); rewrite ?F3, ?F4; try done.
  - subst s'. simpl. injection F1 as -> _. by rewrite Efd.
  - by repeat constructor.
  - apply always_snoc; [done|]. split; [|done]. intros i f [= <-]. apply Hcl.
  - intros f i. rewrite list_elem_of_singleton. done.
  - intros Ha. rewrite elem_of_app. left. by apply Hau.
  - subst c'. case_bool; simpl; [done|lia].
  - subst c'. unfold OUTPUT_LIMIT in *. case_bool; simpl; [done|lia].
  - rewrite I1, I2, <- Hst, <- app_assoc. f_equal. rewrite <- Hsplit. f_equal. subst c'.
    destruct (c_write_offset c1 =? _) eqn:Ez; simpl in *; [|done]. bool_facts.
    rewrite drop_ge; [done|]. unfold zlen in Ez. lia.
  - intros x. by rewrite elem_of_nil.
  - subst dirty c'. destruct (c_write_offset c1 =? _) eqn:Ez; [left; by left|right].
    bool_facts. simpl in Ez. unfold connectionEvents. simpl.
    destruct (Z.ltb_spec (c_write_offset c + n) (zlen (c_output_buffer c))); [|lia].
    destruct (Z.ltb_spec (c_write_offset c) (zlen (c_output_buffer c))); [done|lia].
  - by rewrite F2.
  - by left.
Qed.

Lemma inv_handleWrite fd script b1 b2 s s' :
  Inv (base b1 b2) s → handleWrite E fd script s = Some s' → Inv (base b1 b2) s'.
Proof.
  revert s. induction script as [|a script IH]; intros s HI; cbn [handleWrite];
    (destruct (connections_ s !! fd) as [c|] eqn:Hc; [|by intros [= <-]]);
    pose proof (live_fd _ _ HI _ _ Hc) as Efd;
    (case_bool; [intros [= <-]; apply inv_output_drained; [by apply (inv_soil fd (base b1 b2))|done]|]); [done|].
  destruct a as [n| | |].
  - destruct ((n <=? 0) || _) eqn:En; [done|]. rewrite Z.gtb_ltb in En. bool_facts.
    pose proof (inv_send n b1 b2 s fd c _ HI Hc ltac:(lia) eq_refl) as HI1.
    case_bool.
    + intros [= <-]. apply inv_output_drained; [exact HI1|]. simpl. by rewrite Efd, lookup_insert_eq.
    + intros Hw. eapply IH; [exact HI1|exact Hw].
  - by apply IH.
  - by intros [= <-].
  - intros [= <-]. by apply inv_close.
Qed.

(** A task's ticket is outstanding work. *)
Lemma tasks_items t s : t ∈ tasks s → task_ticket t ∈ items s.
Proof.
  unfold tasks, items. rewrite !elem_of_app. intros [Ht|Ht].
  - right; left. by apply list_elem_of_fmap_2.
  - right; right; left. apply elem_of_gather in Ht as (w & Hw & Ht). apply elem_of_gather.
    exists w. split; [done|]. unfold worker_tasks, worker_tickets in *. destruct (w_pc w);
      try (by inversion Ht); apply list_elem_of_singleton in Ht as ->; by left.
Qed.

(** ** Accepting connections *)

Lemma inv_next_id b1 b2 s :
  Inv (base b1 b2) s → Inv (base b1 b2) (set_next_conn_id_ (next_conn_id_ s + 1) s).
Proof.
  intros HI. constructor; try apply HI.
  - intros fd c Hc. destruct (inv_conns _ _ HI fd c Hc) as (? & ? & ?). unfold conn_ok. simpl. split_and!; try done; lia.
  - simpl. pose proof (inv_next _ _ HI). lia.
  - destruct (inv_fresh _ _ HI) as (H1 & H2 & H3). split_and!; simpl.
    + intros t Ht. specialize (H1 t Ht). lia.
    + intros k Hk. specialize (H2 k Hk). lia.
    + intros e id He Hid. specialize (H3 e id He Hid). lia.
Qed.

(** The new connection, in the state whose next id was already advanced. *)
Definition accepted_state (fd id : Z) (s : Server) : Server :=
  emit (OAccept fd id)
    (stat incrementConnections
       (put_connection (newConnection fd id)
          (set_k_interest (<[fd := connectionEvents s (newConnection fd id)]> (k_interest s))
             (set_k_open ({[fd]} ∪ k_open s) s)))).

Lemma kernel_accept fd id dirty s :
  kernel_ok s dirty → 0 ≤ fd → fd ∉ k_open s → kernel_ok (accepted_state fd id s) dirty.
Proof.
  intros [H1 H2 H3 H4 H5] Hfd Hfresh.
  assert (Hne : ∀ x, x ∈ k_open s → x ≠ fd) by (intros x Hx ->; done).
  assert (Hlne : listen_fd_ s ≠ fd).
  { destruct H2 as [_ Hl]. destruct (decide (listen_fd_ s = -1)); [lia|]. apply Hne. by apply Hl. }
  unfold kernel_ok, accepted_state, put_connection. simpl. constructor; simpl.
  - destruct H1 as (? & ? & ?). split_and!; [done|by apply elem_of_union_r|].
    rewrite lookup_insert_ne by (apply not_eq_sym; by apply Hne). done.
  - destruct H2 as [? Hl]. rewrite lookup_insert_ne by done. split; [done|]. intros Hx.
    destruct (Hl Hx) as (? & ? & ?). split_and!; [by apply elem_of_union_r|done|done].
  - destruct H3 as [? ?]. split; [by apply elem_of_union_r|].
    rewrite lookup_insert_ne by (apply not_eq_sym; by apply Hne). done.
  - intros x [->%elem_of_singleton|Hx]%elem_of_union.
    + split; [lia|]. right; right; right. by rewrite lookup_insert_eq.
    + destruct (H4 x Hx) as [? [?|[?|[?|?]]]]; auto. split; [done|]. right; right; right.
      rewrite lookup_insert_ne by (apply not_eq_sym; by apply Hne). done.
  - intros x c [[<- <-]|[Hxne Hx]]%lookup_insert_Some.
    + split_and!; [by apply elem_of_union_l, elem_of_singleton|done|]. eexists. rewrite lookup_insert_eq. done.
    + destruct (H5 x c Hx) as (? & ? & ev & ? & Hev). split_and!; [by apply elem_of_union_r|done|].
      exists ev. rewrite lookup_insert_ne by done. done.
Qed.

(** The clauses of the invariant for a connection with a fresh id. *)
Section Accept.
Context (fd id : Z) (m : conns) (its : list ticket) (keys : list (Z * Z)) (tr : list Obs).
Context (Hids : ∀ x cx, m !! x = Some cx → c_conn_id cx ≠ id) (Hfr : fresh_ok id its keys tr).

Lemma accept_io i :
  sent i (tr ++ [OAccept fd id]) = sent i tr ∧ appended i (tr ++ [OAccept fd id]) = appended i tr ∧
  admitted i (tr ++ [OAccept fd id]) = admitted i tr ∧ answered i (tr ++ [OAccept fd id]) = answered i tr.
Proof. by apply same_io_neutral. Qed.

Lemma accept_key t : t ∈ its → t.1 ≠ (fd, id).
Proof. intros Ht Ek. destruct Hfr as (Hf & _). specialize (Hf t Ht). rewrite Ek in Hf. simpl in Hf. lia. Qed.

Lemma accept_unique : ids_unique m → ids_unique (<[fd := newConnection fd id]> m).
Proof.
  intros HU f1 f2 c1 c2 [[<- <-]|[? Hx]]%lookup_insert_Some [[<- <-]|[? Hy]]%lookup_insert_Some Ee;
    simpl in *; [done|by destruct (Hids _ _ Hy)|by destruct (Hids _ _ Hx)|by apply (HU f1 f2 c1 c2)].
Qed.

Lemma accept_account lost :
  account_ok m its lost tr → account_ok (<[fd := newConnection fd id]> m) its lost (tr ++ [OAccept fd id]).
Proof.
  intros HA x cx [[<- <-]|[? Hx]]%lookup_insert_Some.
  - rewrite (of_key_none (conn_key (newConnection fd id)) its) by (intros t Ht; by apply accept_key).
    change (c_conn_id (newConnection fd id)) with id. destruct (accept_io id) as (_ & _ & -> & ->).
    destruct (fresh_trace _ id _ _ _ Hfr ltac:(lia)) as (_ & _ & -> & ->). done.
  - destruct (accept_io (c_conn_id cx)) as (_ & _ & -> & ->). by apply (HA x).
Qed.

Lemma accept_cancel cells ts :
  (∀ t, t ∈ ts → task_ticket t ∈ its) →
  cancel_ok m cells ts → cancel_ok (<[fd := newConnection fd id]> m) cells ts.
Proof.
  intros Hts [C1 C2]. split.
  - intros t Ht. destruct (C1 t Ht) as [? Hd]. split; [done|].
    intros Hcell x cx [[<- <-]|[? Hx]]%lookup_insert_Some; [|by apply (Hd Hcell x)].
    intros Ek. apply (accept_key (task_ticket t)); [by apply Hts|exact (eq_sym Ek)].
  - intros x cx c [[<- <-]|[? Hx]]%lookup_insert_Some; [done|]. by apply (C2 x).
Qed.

Lemma accept_trace : trace_ok m tr → trace_ok (<[fd := newConnection fd id]> m) (tr ++ [OAccept fd id]).
Proof.
  destruct Hfr as (_ & _ & Hf). intros [Ha Ht]. split.
  - apply always_snoc; [done|]. split; [|done]. intros i f [= <-] Hin. specialize (Hf _ id Hin eq_refl). lia.
  - intros x cx [[<- <-]|[? Hx]]%lookup_insert_Some; simpl.
    + split; [|done]. intros f. rewrite elem_of_app, list_elem_of_singleton. intros [Hin|?]; [|done].
      specialize (Hf _ id Hin eq_refl). lia.
    + destruct (Ht x cx Hx) as [H1 H2]. split; [|intros Hc; rewrite elem_of_app; auto].
      intros f. rewrite elem_of_app, list_elem_of_singleton. intros [Hin|?]; [by eapply H1|done].
Qed.

Lemma accept_stream : stream_ok m tr → stream_ok (<[fd := newConnection fd id]> m) (tr ++ [OAccept fd id]).
Proof.
  intros [S1 S2]. split.
  - intros x cx [[<- <-]|[? Hx]]%lookup_insert_Some; simpl.
    + destruct (accept_io id) as (-> & -> & _).
      by destruct (fresh_trace _ id _ _ _ Hfr ltac:(lia)) as (-> & -> & _).
    + destruct (accept_io (c_conn_id cx)) as (-> & -> & _). by apply (S1 x).
  - intros i. destruct (accept_io i) as (-> & -> & _). apply S2.
Qed.

Lemma accept_owed owed : owed_ok m owed tr → owed_ok (<[fd := newConnection fd id]> m) owed (tr ++ [OAccept fd id]).
Proof.
  intros HO x cx [[<- <-]|[? Hx]]%lookup_insert_Some; simpl.
  - destruct (accept_io id) as (_ & _ & _ & ->).
    destruct (fresh_trace _ id _ _ _ Hfr ltac:(lia)) as (_ & _ & _ & ->). apply submseteq_nil_l.
  - destruct (accept_io (c_conn_id cx)) as (_ & -> & _ & ->). by apply (HO x).
Qed.
End Accept.

Lemma inv_accepted fd id b1 b2 s :
  Inv (base b1 b2) s → 0 ≤ fd → fd ∉ k_open s → next_conn_id_ s = id →
  Inv (base b1 b2) (accepted_state fd id (set_next_conn_id_ (id + 1) s)).
Proof.
  intros HI Hfd Hfresh Eid. set (s1 := set_next_conn_id_ (id + 1) s).
  assert (HI1 : Inv (base b1 b2) s1) by (subst id; by apply inv_next_id).
  pose proof (inv_fresh _ _ HI) as Hfr. rewrite Eid in Hfr. simpl in Hfr.
  assert (Hids : ∀ x cx, connections_ s !! x = Some cx → c_conn_id cx ≠ id).
  { intros x cx Hx. destruct (inv_conns _ _ HI x cx Hx). lia. }
  assert (Em : connections_ (accepted_state fd id s1) = <[fd := newConnection fd id]> (connections_ s)) by done.
  assert (Et : trace_ (accepted_state fd id s1) = trace_ s ++ [OAccept fd id]) by done.
  constructor; try apply HI1; rewrite ?Em, ?Et.
  - apply map_Forall_insert_2; [|apply HI1]. pose proof (inv_next _ _ HI). unfold conn_ok.
    split_and!; simpl; try done; lia.
  - apply accept_unique; [done|apply HI].
  - intros x cx [[<- <-]|[? Hx]]%lookup_insert_Some; [done|by apply (inv_input _ _ HI)].
  - apply fresh_emit; [apply HI1|]. intros i [= <-]. simpl. lia.
  - by eapply accept_account, HI.
  - eapply accept_cancel; [done| |apply HI]. intros t Ht. by apply tasks_items.
  - apply origin_emit, HI.
  - by eapply accept_trace, HI.
  - by eapply accept_stream, HI.
  - by eapply accept_owed, HI.
  - apply kernel_accept; [apply HI1|done|done].
Qed.

Lemma emplace_new c s : connections_ s !! c_fd c = None → emplace_connection c s = put_connection c s.
Proof. unfold emplace_connection. by intros ->. Qed.

Lemma inv_handleAccept script b1 b2 s s' :
  Inv (base b1 b2) s → next_conn_id_ s + zlen script < 2 ^ 64 →
  handleAccept E script s = Some s' →
  Inv (base b1 b2) s' ∧ next_conn_id_ s ≤ next_conn_id_ s' ≤ next_conn_id_ s + zlen script ∧
  fixed_view s' = fixed_view (set_next_conn_id_ (next_conn_id_ s') s).
Proof.
  revert s. induction script as [|a script IH]; intros s HI Hn; cbn [handleAccept].
  { case_bool; [|done]. intros [= <-]. split_and!; [done|rewrite ?zlen_nil; lia..|done]. }
  rewrite zlen_cons in *. pose proof (zlen_nonneg script).
  assert (Hdone : Some s = Some s' → Inv (base b1 b2) s' ∧
    next_conn_id_ s ≤ next_conn_id_ s' ≤ next_conn_id_ s + (1 + zlen script) ∧
    fixed_view s' = fixed_view (set_next_conn_id_ (next_conn_id_ s') s)).
  { intros [= <-]. split_and!; [done|lia..|done]. }
  case_bool; [done|]. destruct a as [fd| | |]; [|..|done|done].
  2:{ intros Hr. destruct (IH s HI ltac:(lia) Hr) as (? & ? & ?). split_and!; [done|lia..|done]. }
  destruct ((fd <? 0) || _) eqn:Ef; [done|]. bool_facts.
  pose proof (inv_next _ _ HI). rewrite u64_small by lia.
  set (s1 := set_next_conn_id_ (next_conn_id_ s + 1) s).
  assert (Hstep : ∀ s2, Inv (base b1 b2) s2 → next_conn_id_ s2 = next_conn_id_ s + 1 →
    fixed_view s2 = fixed_view s1 → handleAccept E script s2 = Some s' →
    Inv (base b1 b2) s' ∧ next_conn_id_ s ≤ next_conn_id_ s' ≤ next_conn_id_ s + (1 + zlen script) ∧
    fixed_view s' = fixed_view (set_next_conn_id_ (next_conn_id_ s') s)).
  { intros s2 HI2 En Hv Hr. destruct (IH s2 HI2 ltac:(lia) Hr) as (? & ? & Hv').
    split_and!; [done|lia..|]. rewrite Hv'. unfold fixed_view in *. simpl in *. congruence. }
  assert (Hnew : connections_ s !! fd = None).
  { destruct (connections_ s !! fd) as [c|] eqn:Hc; [|done].
    by destruct (k_conns _ _ _ _ _ _ _ _ (inv_kernel _ _ HI) fd c Hc). }
  destruct (ctl_ok E (k_ticks s1)); cbn [negb].
  - rewrite emplace_new by done. apply Hstep; [|done|done].
    apply (inv_accepted fd (next_conn_id_ s) b1 b2 (tick s)); [by apply inv_tick|lia|done|done].
  - apply Hstep; [|done|done]. by apply inv_tick, inv_next_id.
Qed.

(** ** Wake-ups *)

Lemma inv_reactor_consume fuel s s' :
  Inv (base false false) s → reactor_consume E fuel s = Some s' →
  Inv (base false false) s' ∧ fixed_view s' = fixed_view s.
Proof.
  revert s. induction fuel as [|fuel IH]; intros s HI; cbn [reactor_consume];
    (case_bool; [by intros [= <-]|]); [done|].
  pose proof (inv_sync E _ _ HE HI) as HI1. pose proof (sync_fixed s) as Hv.
  set (s1 := sync E s) in *. clearbody s1.
  destruct (eventfd_read (nf_counter (notifier_ s1))) as [a n] eqn:Er.
  assert (Hn : n = 0 ∨ n = nf_counter (notifier_ s1)).
  { unfold eventfd_read in Er. case_bool; injection Er as <- <-; auto. }
  destruct a; [|intros [= <-]; done..].
  assert (HI2 : Inv (base false false) (set_notifier_ (mkNotifier (nf_fd (notifier_ s1)) n) s1)).
  { destruct (inv_notifier _ _ HI1) as [Hok Hfd]. constructor; try apply HI1; try done.
    split; [|done]. unfold notifier_ok, EVENTFD_MAX in *. simpl. by destruct Hn as [->| ->]. }
  intros Hr. destruct (IH _ HI2 Hr) as [? Hv']. split; [done|]. rewrite Hv', <- Hv. done.
Qed.

(** ** The ready descriptors *)

(** How many descriptors the accept loops of an iteration may take. *)
Definition accepts (evs : list ReadyEvent) : Z := zlen (gather ev_accept evs).

Lemma inv_handleEvent ev s s' :
  Inv (base false false) s → next_conn_id_ s + zlen (ev_accept ev) < 2 ^ 64 →
  handleEvent E ev s = Some s' →
  Inv (base false false) s' ∧
  next_conn_id_ s ≤ next_conn_id_ s' ≤ next_conn_id_ s + zlen (ev_accept ev) ∧
  fixed_view s' = fixed_view (set_next_conn_id_ (next_conn_id_ s') s).
Proof.
  intros HI Hn. pose proof (zlen_nonneg (ev_accept ev)).
  assert (Hsame : ∀ s', Inv (base false false) s' ∧ fixed_view s' = fixed_view s →
    Inv (base false false) s' ∧
    next_conn_id_ s ≤ next_conn_id_ s' ≤ next_conn_id_ s + zlen (ev_accept ev) ∧
    fixed_view s' = fixed_view (set_next_conn_id_ (next_conn_id_ s') s)).
  { intros s2 [HI2 Hv]. assert (En : next_conn_id_ s2 = next_conn_id_ s) by (unfold fixed_view in Hv; congruence).
    split_and!; [done|lia..|]. unfold fixed_view in *. simpl. congruence. }
  unfold handleEvent. case_bool; [intros Hr; apply Hsame; by eapply inv_reactor_consume|].
  case_bool.
  { case_bool; [by apply inv_handleAccept|intros [= <-]; by apply Hsame]. }
  case_bool.
  { intros Hr. injection Hr as <-. apply Hsame. split; [by apply inv_close|apply closeConnection_fixed]. }
  intros (s1 & Hr & Hrest)%bind_Some. apply Hsame.
  assert (H1 : Inv (base false false) s1 ∧ fixed_view s1 = fixed_view s).
  { clear Hrest. case_bool; [|by injection Hr as <-]. split; [by eapply inv_handleRead|by eapply handleRead_fixed]. }
  destruct H1 as [HI1 Hv1]. destruct (connections_ s1 !! ev_fd ev); [|by injection Hrest as <-].
  set (s2 := if has_flag _ (Z.lor EPOLLRDHUP EPOLLHUP) then _ else _) in Hrest.
  assert (H2 : Inv (base false false) s2 ∧ fixed_view s2 = fixed_view s).
  { subst s2. case_bool; [|done]. rewrite markReadEof_fixed. split; [by apply inv_markReadEof|done]. }
  destruct H2 as [HI2 Hv2]. case_bool; [|by injection Hrest as <-].
  split; [by eapply inv_handleWrite|]. by rewrite (handleWrite_fixed _ _ _ _ Hrest).
Qed.

Lemma inv_handleEvents evs s s' :
  Inv (base false false) s → next_conn_id_ s + accepts evs < 2 ^ 64 →
  handleEvents E evs s = Some s' →
  Inv (base false false) s' ∧
  next_conn_id_ s ≤ next_conn_id_ s' ≤ next_conn_id_ s + accepts evs ∧
  fixed_view s' = fixed_view (set_next_conn_id_ (next_conn_id_ s') s).
Proof.
  unfold accepts. revert s. induction evs as [|ev evs IH]; intros s HI Hn.
  { intros [= <-]. split_and!; [done|rewrite ?gather_nil, ?zlen_nil; lia..|done]. }
  rewrite gather_cons, zlen_app in *.
  pose proof (zlen_nonneg (ev_accept ev)). pose proof (zlen_nonneg (gather ev_accept evs)).
  cbn [handleEvents]. intros (s1 & Hs1 & Hs2)%bind_Some.
  destruct (inv_handleEvent ev s s1 HI ltac:(lia) Hs1) as (HI1 & ? & Hv1).
  destruct (IH s1 HI1 ltac:(lia) Hs2) as (? & ? & Hv2). split_and!; [done|lia..|].
  rewrite Hv2. unfold fixed_view in *. simpl in *. congruence.
Qed.

(** ** Life cycle *)

Lemma inv_update_all pairs b1 b2 s :
  Inv (owing [] (map fst pairs) b1 b2) s → NoDup (map fst pairs) →
  (∀ fd ev c, (fd, ev) ∈ pairs → connections_ s !! fd = Some c → ev = connectionEvents s c) →
  Inv (base b1 b2) (update_all E pairs s).
Proof.
  revert s. induction pairs as [|[fd ev] pairs IH]; intros s HI Hnd Hev; [done|].
  apply NoDup_cons in Hnd as [Hni Hnd]. unfold update_all. simpl. apply IH; [|done|].
  - apply (inv_modify fd ev (map fst pairs) (owing [] (fd :: map fst pairs) b1 b2) s HI eq_refl).
    intros c Hc. apply (Hev fd ev c); [by left|done].
  - intros fd' ev' c Hin Hc.
    assert (Hne : fd' ≠ fd).
    { intros ->. apply Hni. apply list_elem_of_fmap. by exists (fd, ev'). }
    assert (Hc' : connections_ s !! fd' = Some c).
    { unfold update_events in Hc. destruct (modify_connections fd ev s) as [Em|Em]; rewrite Em in Hc; [done|].
      by rewrite lookup_delete_ne in Hc. }
    rewrite (Hev fd' ev' c); [|by right|done].
    pose proof (modify_fixed fd ev s) as Hv. unfold fixed_view in Hv.
    assert (Est : state_ (update_events E fd ev s) = state_ s) by (unfold update_events; congruence).
    unfold connectionEvents. by rewrite Est.
Qed.

Lemma inv_closeListener L s : Inv L s → Inv L (closeListener s).
Proof.
  intros HI. unfold closeListener. destruct (Z.eqb_spec (listen_fd_ s) (-1)) as [El|El]; [done|].
  pose proof (inv_kernel _ _ HI) as [H1 H2 H3 H4 H5]. destruct H1 as (Ep & Ep1 & Ep2).
  destruct (Z.eqb_spec (epfd_ s) (-1)); [done|]. destruct H2 as [L1 L2]. destruct (L2 El) as (La & Lb & Lc).
  assert (Hm1 : connections_ s !! (-1) = None).
  { destruct (connections_ s !! (-1)) as [c|] eqn:Hc; [|done]. destruct (H5 _ _ Hc) as (_ & ? & _). lia. }
  constructor; try apply HI. unfold kernel_ok. simpl. constructor.
  - split_and!; [done| |done]. apply elem_of_difference. rewrite elem_of_singleton. auto.
  - split; [done|]. by intros [].
  - split; [|apply H3]. apply elem_of_difference. rewrite elem_of_singleton. split; [apply H3|auto].
  - intros fd [Hin Hne]%elem_of_difference. rewrite elem_of_singleton in Hne.
    destruct (H4 fd Hin) as [? [?|[?|[?|?]]]]; auto. done.
  - intros fd c Hc. destruct (H5 fd c Hc) as (Ho & ? & ev & ? & ?).
    assert (fd ≠ listen_fd_ s) by congruence.
    split_and!; [apply elem_of_difference; by rewrite elem_of_singleton|done|].
    exists ev. by rewrite lookup_delete_ne.
Qed.

Lemma inv_stop_requests L s : Inv L s → Inv L (set_request_queue_ (stop (request_queue_ s)) s).
Proof. intros HI. by destruct HI; constructor. Qed.

Lemma inv_stop_auth L s : Inv L s → Inv L (set_auth_queue_ (stop (auth_queue_ s)) s).
Proof. intros HI. by destruct HI; constructor. Qed.

Lemma inv_set_draining b1 b2 s :
  Inv (base b1 b2) s → state_ s = RUNNING →
  Inv (owing [] (map fst (map_to_list (connections_ s))) b1 b2) (set_state_ DRAINING s).
Proof.
  intros HI Hst. constructor; try apply HI.
  - pose proof (inv_kernel _ _ HI) as [H1 H2 H3 H4 H5]. constructor; try done.
    intros fd c Hc. destruct (H5 fd c Hc) as (? & ? & ev & ? & ?). split_and!; [done|done|].
    exists ev. split; [done|]. intros []. apply list_elem_of_fmap.
    exists (fd, c). split; [done|]. by apply elem_of_map_to_list.
  - destruct (inv_producers _ _ HI) as (? & ? & H3 & ?). split_and!; try done. intros _. apply H3.
    by rewrite Hst.
Qed.

Lemma inv_beginDraining b1 b2 s :
  Inv (base b1 b2) s → Inv (base b1 b2) (beginDraining E s).
Proof.
  intros HI. unfold beginDraining. destruct (bool_decide (state_ s = RUNNING)) eqn:Est;
    cbn [negb]; [|done]. unfold now. cbv beta iota zeta.
  bool_facts. pose proof (inv_sync E _ _ HE HI) as HI1. sync_view E s s1. rewrite <- Vstate in Est.
  pose proof (inv_set_draining _ _ _ HI1 Est) as HI2. set (D := map fst _) in HI2.
  set (s2 := set_state_ DRAINING s1) in *.
  set (s3 := closeListener _).
  assert (HI3 : Inv (owing [] D b1 b2) s3).
  { apply inv_closeListener. unfold markNotReady. by case_bool; destruct HI2; constructor. }
  assert (Ec3 : connections_ s3 = connections_ s1).
  { subst s3. unfold closeListener, markNotReady. repeat (case_bool; simpl); done. }
  clearbody s3. clear HI2.
  pose proof (inv_stop_requests _ _ (inv_sync E _ _ HE HI3)) as HI4.
  assert (Ec4 : connections_ (set_request_queue_ (stop (request_queue_ (sync E s3))) (sync E s3))
                = connections_ s1) by (sync_view E s3 s4; by rewrite <- Ec3).
  set (s4 := set_request_queue_ _ _) in *. clearbody s4. clear HI3.
  pose proof (inv_stop_auth _ _ (inv_sync E _ _ HE HI4)) as HI5.
  assert (Ec5 : connections_ (set_auth_queue_ (stop (auth_queue_ (sync E s4))) (sync E s4))
                = connections_ s1) by (sync_view E s4 s5; by rewrite <- Ec4).
  set (s5 := set_auth_queue_ _ _) in *. clearbody s5. rewrite Ec5.
  assert (Efst : map fst (map (λ '(fd, c), (fd, connectionEvents s5 c)) (map_to_list (connections_ s1))) = D).
  { subst D. rewrite map_map. apply map_ext. by intros []. }
  apply inv_update_all.
  - by rewrite Efst.
  - rewrite Efst. subst D. apply NoDup_fst_map_to_list.
  - intros fd ev c Hin Hc. apply list_elem_of_fmap in Hin as ([fd' c'] & [= -> ->] & Hin).
    apply elem_of_map_to_list in Hin. rewrite Ec5 in Hc. by simplify_eq.
Qed.

Lemma inv_all_hold checks b1 b2 s :
  Inv (base b1 b2) s →
  let '(_, s') := all_hold E checks s in
  Inv (base b1 b2) s' ∧ fixed_view s' = fixed_view s ∧ connections_ s' = connections_ s ∧
  trace_ s' = trace_ s.
Proof.
  revert s. induction checks as [|f checks IH]; intros s HI; [done|]. cbn [all_hold].
  pose proof (inv_sync E _ _ HE HI) as HI1. pose proof (sync_fixed s) as Hv. sync_view E s s1.
  case_bool; [|done]. specialize (IH s1 HI1). destruct (all_hold E checks s1) as [b s2].
  destruct IH as (? & -> & -> & ->). done.
Qed.

Lemma inv_close_all fds L s :
  Inv L s → Inv L (close_all E fds s) ∧ fixed_view (close_all E fds s) = fixed_view s.
Proof.
  revert s. induction fds as [|fd fds IH]; intros s HI; [done|].
  destruct (IH _ (inv_close fd _ _ HI)) as [? Hv]. split; [done|].
  unfold close_all in *. simpl. by rewrite Hv, closeConnection_fixed.
Qed.

Lemma inv_drainComplete b1 b2 s :
  Inv (base b1 b2) s →
  Inv (base b1 b2) (drainComplete E s).2 ∧ fixed_view (drainComplete E s).2 = fixed_view s.
Proof.
  intros HI. unfold drainComplete. pose proof (inv_all_hold queues_drained _ _ _ HI) as Hh.
  destruct (all_hold E queues_drained s) as [drained s1]. destruct Hh as (HI1 & Hv & _).
  destruct drained; simpl; [|done].
  match goal with |- context [close_all E ?fds s1] => destruct (inv_close_all fds _ _ HI1) as [? ->] end.
  done.
Qed.

Lemma inv_set_stopped L s : Inv L s → state_ s ≠ RUNNING → Inv L (set_state_ STOPPED s).
Proof.
  intros HI Hst. constructor; try apply HI.
  - pose proof (inv_kernel _ _ HI) as [H1 H2 H3 H4 H5]. constructor; try done.
    intros fd c Hc. destruct (H5 fd c Hc) as (? & ? & ev & ? & Hev). split_and!; [done|done|].
    exists ev. split; [done|]. intros Hd. rewrite (Hev Hd). unfold connectionEvents. simpl.
    by rewrite (bool_decide_eq_false_2 (state_ s = RUNNING)).
  - destruct (inv_producers _ _ HI) as (? & ? & ? & ?). split_and!; done.
Qed.

(** The keys of all live connections. *)
Definition live_keys (s : Server) : list (Z * Z) := map (λ p, conn_key p.2) (map_to_list (connections_ s)).

Lemma elem_of_live_keys s fd c : connections_ s !! fd = Some c → conn_key c ∈ live_keys s.
Proof.
  intros Hc. apply list_elem_of_fmap. exists (fd, c). split; [done|]. by apply elem_of_map_to_list.
Qed.

Lemma inv_forget b1 b2 s : Inv (base b1 b2) s → Inv (pending (live_keys s) b1 b2) s.
Proof.
  intros HI. constructor; try apply HI.
  - destruct (inv_fresh _ _ HI) as (? & H2 & ?). split_and!; [done| |done].
    intros k. rewrite elem_of_app. intros [Hk|Hk]; [|by apply H2].
    apply list_elem_of_fmap in Hk as ([fd c] & -> & Hc). apply elem_of_map_to_list in Hc.
    apply (inv_conns _ _ HI fd c Hc).
  - eapply account_lost_mono; [|apply HI]. intros k Hk. rewrite elem_of_app. by right.
Qed.

(** Discarding queued work, when every live connection has been given up. *)
Lemma inv_discard keys b1 b2 s s' :
  Inv (pending keys b1 b2) s → (∀ fd c, connections_ s !! fd = Some c → conn_key c ∈ keys) →
  reactor_view s' = reactor_view s → notifier_ s' = notifier_ s → workers_ s' = workers_ s →
  rejected_response_connections_ s' = rejected_response_connections_ s →
  runtime_config_ s' = runtime_config_ s →
  data_queue_ (request_queue_ s') ⊆+ data_queue_ (request_queue_ s) →
  data_queue_ (auth_queue_ s') ⊆+ data_queue_ (auth_queue_ s) →
  data_queue_ (response_queue_ s') ⊆+ data_queue_ (response_queue_ s) →
  producers_ok s' →
  queue_ok (request_queue_ s') ∧ queue_ok (auth_queue_ s') ∧ queue_ok (response_queue_ s') →
  Inv (pending keys b1 b2) s'.
Proof.
  intros HI Hall Hv En Ew Er Ec D1 D2 D3 Hp Hq.
  assert (Hit : items s' ⊆+ items s).
  { unfold items. rewrite Ew. repeat apply submseteq_app; try done; by apply fmap_submseteq. }
  assert (Eref : refused s' = refused s) by (unfold refused; by rewrite Ew, Er).
  assert (Hsub : ∀ {A} (l k : list A) x, l ⊆+ k → x ∈ l → x ∈ k).
  { intros A l k x Hlk Hx. by eapply elem_of_submseteq. }
  eapply inv_shared; [exact HI|exact Hv|by rewrite En|rewrite En; apply HI|..]; try done.
  - intros t Ht. by eapply Hsub.
  - rewrite Eref. by left.
  - intros HA fd c Hc. destruct (HA fd c Hc) as [Hle _]. split.
    + etransitivity; [|exact Hle]. simpl. apply submseteq_Permutation in Hit as [more Hmore].
      assert (Hk : of_key (conn_key c) (items s) ≡ₚ of_key (conn_key c) (items s' ++ more))
        by (by rewrite Hmore).
      rewrite (zlen_perm _ _ Hk), of_key_app, zlen_app.
      pose proof (zlen_nonneg (of_key (conn_key c) more)). lia.
    + intros []. simpl. rewrite elem_of_app. left. by eapply Hall.
  - unfold tasks. rewrite Ew. intros t. rewrite !elem_of_app. intros [?|?]; [left; by eapply Hsub|by right].
  - unfold requests. rewrite Ew. intros t. rewrite !elem_of_app. intros [?|?]; [left; by eapply Hsub|by right].
  - unfold responses. rewrite Ew. intros t. rewrite !elem_of_app. intros [?|?]; left; [by left|].
    right. by eapply Hsub.
  - intros HL Hne. rewrite Ew, En. apply (inv_resp _ _ HI HL). intros Hnil. rewrite Hnil in D3.
    by apply submseteq_nil_r in D3.
  - intros HL. rewrite Er. intros Hne. rewrite Ew, En. by apply (inv_rej _ _ HI HL).
  - rewrite Ec. apply HI.
Qed.

Lemma sync_live_keys s (keys : list (Z * Z)) :
  (∀ fd c, connections_ s !! fd = Some c → conn_key c ∈ keys) →
  ∀ fd c, connections_ (sync E s) !! fd = Some c → conn_key c ∈ keys.
Proof. intros Hall. sync_view E s s1. by rewrite Vconn. Qed.

Lemma queue_ok_abort {T} (q : BlockQueue T) : queue_ok q → queue_ok (abort q).2.
Proof. unfold queue_ok, size, capacity. simpl. rewrite zlen_nil. pose proof (zlen_nonneg (data_queue_ q)). lia. Qed.

(** The deadline has passed: the queues are aborted and the loop ends. *)
Definition stop_at_deadline (s : Server) : Server :=
  let s := sync E s in
  let s := set_request_queue_ (abort (request_queue_ s)).2 s in
  let s := sync E s in
  let s := set_auth_queue_ (abort (auth_queue_ s)).2 s in
  let s := sync E s in
  let s := set_response_queue_ (abort (response_queue_ s)).2 s in
  set_state_ STOPPED s.

Lemma inv_stop_at_deadline s :
  Inv idle s → state_ s = DRAINING → Inv (pending (live_keys s) true true) (stop_at_deadline s).
Proof.
  intros HI Hst. unfold stop_at_deadline. apply inv_forget in HI. set (keys := live_keys s) in *.
  assert (Hall : ∀ fd c, connections_ s !! fd = Some c → conn_key c ∈ keys) by (intros; by eapply elem_of_live_keys).
  clearbody keys.
  assert (Hnil : ∀ {A} (l : list A), [] ⊆+ l) by (intros; apply submseteq_nil_l).
  pose proof (inv_sync E _ _ HE HI) as HI1. pose proof (sync_live_keys s keys Hall) as Hall1.
  sync_view E s s1. rewrite <- Vstate in Hst. clear HI Hall.
  assert (HI2 : Inv (pending keys true true) (set_request_queue_ (abort (request_queue_ s1)).2 s1)).
  { destruct (inv_queues _ _ HI1) as (? & ? & ?).
    apply (inv_discard _ _ _ s1); try done; [apply HI1|].
    split_and!; [by apply queue_ok_abort|done|done]. }
  set (s2 := set_request_queue_ _ s1) in *. assert (Hst2 : state_ s2 = DRAINING) by done.
  assert (Hall2 : ∀ fd c, connections_ s2 !! fd = Some c → conn_key c ∈ keys) by done. clearbody s2.
  pose proof (inv_sync E _ _ HE HI2) as HI3. pose proof (sync_live_keys s2 keys Hall2) as Hall3.
  sync_view E s2 s3. rewrite <- Vstate0 in Hst2.
  assert (HI4 : Inv (pending keys true true) (set_auth_queue_ (abort (auth_queue_ s3)).2 s3)).
  { destruct (inv_queues _ _ HI3) as (? & ? & ?).
    apply (inv_discard _ _ _ s3); try done; [apply HI3|].
    split_and!; [done|by apply queue_ok_abort|done]. }
  set (s4 := set_auth_queue_ _ s3) in *. assert (Hst4 : state_ s4 = DRAINING) by done.
  assert (Hall4 : ∀ fd c, connections_ s4 !! fd = Some c → conn_key c ∈ keys) by done. clearbody s4.
  pose proof (inv_sync E _ _ HE HI4) as HI5. pose proof (sync_live_keys s4 keys Hall4) as Hall5.
  sync_view E s4 s5. rewrite <- Vstate1 in Hst4.
  assert (HI6 : Inv (pending keys true true) (set_state_ STOPPED s5)).
  { apply inv_set_stopped; [done|]. by rewrite Hst4. }
  destruct (inv_queues _ _ HI6) as (? & ? & ?).
  apply (inv_discard _ _ _ (set_state_ STOPPED s5)); try done; [|].
  - destruct (inv_producers _ _ HI6) as (? & ? & ? & ?). split_and!; done.
  - split_and!; [done|done|by apply queue_ok_abort].
Qed.

Lemma finish_draining_unfold s :
  finish_draining E s =
  if bool_decide (state_ s = DRAINING) then
    let '(complete, s1) := drainComplete E s in
    if complete then set_state_ STOPPED s1
    else if clock E (k_ticks s1) >=? shutdown_deadline_ s1 then stop_at_deadline (tick s1) else tick s1
  else s.
Proof. done. Qed.

(** The state of the event loop between two iterations: running, with
    nothing pending, or stopped, possibly having given up connections. *)
Definition Loop (s : Server) : Prop :=
  ∃ keys, Inv (pending keys true true) s ∧ (state_ s ≠ STOPPED → keys = []).

Lemma inv_finish_draining s : Inv idle s → Loop (finish_draining E s).
Proof.
  intros HI. rewrite finish_draining_unfold.
  case_bool; [|by exists []]. bool_facts.
  destruct (inv_drainComplete _ _ _ HI) as [HI1 Hv].
  destruct (drainComplete E s) as [complete s1]. simpl in *.
  assert (Hst : state_ s1 = DRAINING) by (unfold fixed_view in Hv; congruence).
  destruct complete.
  - exists []. split; [|by intros []]. apply inv_set_stopped; [done|]. by rewrite Hst.
  - case_bool; [|exists []; split; [by apply inv_tick|done]].
    eexists. split; [apply inv_stop_at_deadline; [by apply inv_tick|done]|]. by intros [].
Qed.

Definition wait_accepts (w : WaitAnswer) : Z :=
  match w with WaitEvents evs _ => accepts evs | _ => 0 end.

Lemma beginDraining_next s : next_conn_id_ (beginDraining E s) = next_conn_id_ s.
Proof.
  unfold beginDraining. destruct (bool_decide (state_ s = RUNNING)); cbn [negb]; [|done].
  unfold now. cbv beta iota zeta.
  assert (Hu : ∀ pairs s1, next_conn_id_ (update_all E pairs s1) = next_conn_id_ s1).
  { induction pairs as [|[fd ev] pairs IH]; intros s1; [done|]. unfold update_all in *. simpl.
    rewrite IH. pose proof (modify_fixed fd ev s1) as Hv. unfold fixed_view, update_events in *. congruence. }
  assert (Hcl : ∀ s1, next_conn_id_ (closeListener s1) = next_conn_id_ s1).
  { intros s1. unfold closeListener. by repeat case_bool. }
  assert (Hm : ∀ b s1, next_conn_id_ (markNotReady b s1) = next_conn_id_ s1) by (by intros []).
  rewrite Hu.
  match goal with |- context [sync E (set_request_queue_ ?q ?x)] =>
    sync_view E (set_request_queue_ q x) s5 end.
  transitivity (next_conn_id_ s5); [done|]. rewrite Vnext.
  match goal with |- context [sync E (closeListener ?x)] => sync_view E (closeListener x) s4 end.
  transitivity (next_conn_id_ s4); [done|]. rewrite Vnext0, Hcl, Hm.
  sync_view E s s1. transitivity (next_conn_id_ s1); done.
Qed.

Lemma drainResponseQueue_fixed fuel s s' :
  drainResponseQueue E fuel s = Some s' → fixed_view s' = fixed_view s.
Proof.
  revert s. induction fuel as [|fuel IH]; intros s; [done|]. cbn [drainResponseQueue].
  rewrite <- (sync_fixed s). set (s1 := sync E s). clearbody s1.
  destruct (tryPop _) as [[r|] q]; [|by intros [= <-]].
  intros Hd. rewrite (IH _ Hd), applyResponse_fixed. done.
Qed.

Lemma drainRejectedResponses_fixed s : fixed_view (drainRejectedResponses E s) = fixed_view s.
Proof.
  unfold drainRejectedResponses. rewrite <- (sync_fixed s). set (s1 := sync E s). clearbody s1.
  set (keys := elements _). clearbody keys.
  change (fixed_view s1) with (fixed_view (set_rejected_response_connections_ ∅ s1)).
  generalize (set_rejected_response_connections_ ∅ s1) as s2.
  induction keys as [|k keys IH]; intros s2; [done|]. simpl. rewrite IH. unfold close_rejected.
  repeat case_match; try done. apply closeConnection_fixed.
Qed.

(** The beginning of an iteration, up to [epoll_wait]. *)
Definition begin_iteration (s : Server) : Server :=
  let s := sync E s in
  let s := if (stop_requested_ s || signal_stop_requested_ s) && bool_decide (state_ s = RUNNING)
           then beginDraining E s else s in
  let '(_, s) := epollTimeoutMs E s in
  sync E s.

Lemma loop_iteration_unfold w s :
  loop_iteration E w s =
  if bool_decide (state_ s = STOPPED) then None
  else
    let s := begin_iteration s in
    match w with
    | WaitIntr => Some s
    | WaitError => Some (beginDraining E s)
    | WaitEvents evs drains =>
      s ← handleEvents E evs s;
      s ← drainResponseQueue E drains s;
      Some (finish_draining E (drainRejectedResponses E s))
    end.
Proof.
  unfold loop_iteration, begin_iteration. case_bool; [done|]. cbv zeta.
  by destruct (epollTimeoutMs E _).
Qed.

Lemma inv_begin_iteration s :
  Inv idle s → Inv idle (begin_iteration s) ∧ next_conn_id_ (begin_iteration s) = next_conn_id_ s.
Proof.
  intros HI. unfold begin_iteration. pose proof (inv_sync E _ _ HE HI) as HI1. sync_view E s s1.
  set (s2 := if _ && _ then _ else _).
  assert (H2 : Inv idle s2 ∧ next_conn_id_ s2 = next_conn_id_ s).
  { subst s2. case_bool; [|done]. rewrite beginDraining_next. split; [by apply inv_beginDraining|done]. }
  clearbody s2. destruct H2 as [HI2 Hn2].
  assert (H3 : Inv idle (epollTimeoutMs E s2).2 ∧ next_conn_id_ (epollTimeoutMs E s2).2 = next_conn_id_ s).
  { unfold epollTimeoutMs. case_bool; [done|]. simpl. split; [by apply inv_tick|done]. }
  destruct (epollTimeoutMs E s2) as [t s3]. simpl in H3. destruct H3 as [HI3 Hn3].
  pose proof (inv_sync E _ _ HE HI3) as HI4. sync_view E s3 s4. split; [done|congruence].
Qed.

Lemma finish_draining_next s : Inv idle s → next_conn_id_ (finish_draining E s) = next_conn_id_ s.
Proof.
  intros HI. rewrite finish_draining_unfold. case_bool; [|done].
  destruct (inv_drainComplete _ _ _ HI) as [_ Hv]. destruct (drainComplete E s) as [complete s1].
  assert (Hn : next_conn_id_ s1 = next_conn_id_ s) by (unfold fixed_view in Hv; simpl in Hv; congruence).
  destruct complete; [done|]. case_bool; [|done]. unfold stop_at_deadline. rewrite <- Hn.
  change (next_conn_id_ s1) with (next_conn_id_ (tick s1)). set (s2 := tick s1). clearbody s2.
  sync_view E s2 s3. rewrite <- Vnext.
  match goal with |- context [sync E (set_request_queue_ ?q s3)] =>
    change (next_conn_id_ s3) with (next_conn_id_ (set_request_queue_ q s3));
    sync_view E (set_request_queue_ q s3) s4 end.
  rewrite <- Vnext0.
  match goal with |- context [sync E (set_auth_queue_ ?q s4)] =>
    change (next_conn_id_ s4) with (next_conn_id_ (set_auth_queue_ q s4));
    sync_view E (set_auth_queue_ q s4) s5 end.
  by rewrite <- Vnext1.
Qed.

(** One iteration of the event loop preserves the invariant. *)
Lemma inv_loop_iteration w s s' :
  Loop s → next_conn_id_ s + wait_accepts w < 2 ^ 64 → loop_iteration E w s = Some s' →
  Loop s' ∧ next_conn_id_ s ≤ next_conn_id_ s' ≤ next_conn_id_ s + wait_accepts w.
Proof.
  intros (keys & HI & Hk) Hn. rewrite loop_iteration_unfold. case_bool; [done|]. bool_facts.
  rewrite Hk in HI by done. destruct (inv_begin_iteration s HI) as [HI1 Hn1]. cbv zeta.
  set (s1 := begin_iteration s) in *. clearbody s1. destruct w as [evs drains| |]; cbn [wait_accepts] in *.
  - intros (s2 & H2 & (s3 & H3 & [= <-])%bind_Some)%bind_Some.
    assert (HI1' : Inv (base false false) s1).
    { eapply inv_weaken; [..|exact HI1]; try done. by left. }
    destruct (inv_handleEvents evs s1 s2 HI1' ltac:(lia) H2) as (HI2 & ? & _).
    pose proof (inv_drainResponseQueue _ _ _ _ _ HI2 H3) as HI3.
    pose proof (inv_drainRejectedResponses _ _ _ HI3) as HI4.
    split; [by apply inv_finish_draining|]. rewrite finish_draining_next by done.
    pose proof (drainRejectedResponses_fixed s3) as V4. pose proof (drainResponseQueue_fixed _ _ _ H3) as V3.
    unfold fixed_view in V3, V4. injection V3 as _ _ _ _ V3 _ _ _ _ _. injection V4 as _ _ _ _ V4 _ _ _ _ _. lia.
  - intros [= <-]. split; [by exists []|lia].
  - intros [= <-]. rewrite beginDraining_next. split; [|lia]. exists [].
    split; [by apply inv_beginDraining|done].
Qed.


End Reactor.
