(* ===== verification/System.v ===== *)
(** * The running gateway

    The reachable states of a started server, for every behaviour of the
    peers, of the kernel, of the control plane and of the scheduler, and the
    properties that hold in all of them. *)

From S2P Require Import Prelude Json Protocol BlockQueue Notifier ControlTypes Stats RuntimeConfig.
From S2P Require Import Logger Handlers Server Invariant Threads Reactor.
#[local] Open Scope Z_scope.

(** ** Start *)

(** The parameters the server is created and started with. *)
Record Setup := mkSetup {
  su_port : Z;
  su_request_queue_capacity : Z;
  su_response_queue_capacity : Z;
  su_shutdown_timeout_ms : Z;
  su_worker_count : Z;
  su_auth_worker_count : Z;
  su_auth_queue_capacity : Z;
  su_log : LogStorage;
  su_logger : Logger;
  su_listener : Z;
  su_epoll : Z;
  su_event : Z;
  su_ready_created : bool;
  su_hardware : Z;
}.

(** The kernel hands out three distinct descriptors; the thread counts fit
    the 32-bit producer counter. *)
Definition setup_ok (u : Setup) : Prop :=
  0 ≤ su_listener u ∧ 0 ≤ su_epoll u ∧ 0 ≤ su_event u ∧
  su_listener u ≠ su_epoll u ∧ su_listener u ≠ su_event u ∧ su_epoll u ≠ su_event u ∧
  0 ≤ su_worker_count u ∧ 0 ≤ su_auth_worker_count u ∧
  su_worker_count u + su_auth_worker_count u < 2 ^ 32 ∧ 0 ≤ su_hardware u.

Definition launched (u : Setup) (s : Server) : Prop :=
  ∃ s0, newServer (su_port u) (su_request_queue_capacity u) (su_response_queue_capacity u)
          (su_shutdown_timeout_ms u) (su_worker_count u) (su_auth_worker_count u)
          (su_auth_queue_capacity u) (su_log u) (su_logger u) = Some s0 ∧
        start (InitOk (su_listener u) (su_epoll u) (su_event u)) (su_ready_created u)
          (su_hardware u) s0 = (true, s).

Definition idle_worker (w : Worker) : Prop := w_pc w = WIdle.

Lemma gather_idle {B} (f : Worker → list B) ws :
  (∀ w, idle_worker w → f w = []) → Forall idle_worker ws → gather f ws = [].
Proof.
  intros Hf Hws. induction Hws as [|w ws Hw Hws IH]; [done|]. by rewrite gather_cons, Hf, IH.
Qed.

Lemma idle_work ws :
  Forall idle_worker ws →
  gather worker_tickets ws = [] ∧ gather worker_requests ws = [] ∧ gather worker_tasks ws = [] ∧
  gather worker_responses ws = [] ∧ gather worker_refused ws = [].
Proof.
  intros Hws. split_and!; apply gather_idle; try done; intros [k pc] Hw; unfold idle_worker in Hw;
    simpl in Hw; by subst.
Qed.

Lemma idle_producing ws : Forall idle_worker ws → filter producing ws = ws.
Proof.
  intros Hws. induction Hws as [|[k pc] ws Hw Hws IH]; [done|]. unfold idle_worker in Hw. simpl in Hw.
  subst. rewrite filter_cons_True by done. by rewrite IH.
Qed.

(** A server without connections and without work. *)
Lemma inv_quiet s :
  connections_ s = ∅ → trace_ s = [] → cancellations_ s = [] → rejected_response_connections_ s = ∅ →
  data_queue_ (request_queue_ s) = [] → data_queue_ (auth_queue_ s) = [] →
  data_queue_ (response_queue_ s) = [] → stopped_ (response_queue_ s) = false →
  0 ≤ capacity_ (request_queue_ s) → 0 ≤ capacity_ (auth_queue_ s) → 0 ≤ capacity_ (response_queue_ s) →
  Forall idle_worker (workers_ s) → response_producers_remaining_ s = zlen (workers_ s) →
  zlen (workers_ s) < 2 ^ 32 → next_conn_id_ s = 1 → runtime_config_ s = defaultRuntimeConfig →
  nf_counter (notifier_ s) = 0 → nf_fd (notifier_ s) ≠ -1 → epfd_ s ≠ -1 →
  k_open s = {[nf_fd (notifier_ s)]} ∪ ({[epfd_ s]} ∪ ({[listen_fd_ s]} ∪ ∅)) →
  listen_fd_ s ≠ epfd_ s → listen_fd_ s ≠ nf_fd (notifier_ s) → listen_fd_ s ≠ -1 →
  Inv idle s.
Proof.
  intros Em Et Ec Er Eq1 Eq2 Eq3 Est C1 C2 C3 Hws Erem Hlen En Ecfg Enf Hnf Hep Eo N1 N2 N3.
  destruct (idle_work _ Hws) as (W1 & W2 & W3 & W4 & W5). pose proof (idle_producing _ Hws) as W6.
  assert (E1 : items s = []) by (unfold items; by rewrite Eq1, Eq2, Eq3, W1).
  assert (E2 : refused s = []) by (unfold refused; by rewrite Er, elements_empty, W5).
  assert (E3 : tasks s = []) by (unfold tasks; by rewrite Eq2, W3).
  assert (E4 : requests s = []) by (unfold requests; by rewrite Eq1, W2).
  assert (E5 : responses s = []) by (unfold responses; by rewrite Eq3, W4).
  assert (E6 : producers s = zlen (workers_ s)) by (unfold producers; by rewrite W6).
  assert (Hnone : ∀ fd c, connections_ s !! fd = Some c → False).
  { intros fd c. rewrite Em, lookup_empty. done. }
  constructor; rewrite ?E1, ?E2, ?E3, ?E4, ?E5, ?Et, ?En, ?Ecfg; try done.
  - intros fd c Hc. by destruct (Hnone fd c).
  - intros f1 f2 c1 c2 Hc. by destruct (Hnone f1 c1).
  - intros fd c Hc. by destruct (Hnone fd c).
  - split_and!; intros x; rewrite ?elem_of_nil; try done. intros id. by rewrite elem_of_nil.
  - intros fd c Hc. by destruct (Hnone fd c).
  - split; [intros t; by rewrite elem_of_nil|]. intros fd c a Hc. by destruct (Hnone fd c).
  - split_and!; intros x; by rewrite elem_of_nil.
  - split; [apply always_nil|]. intros fd c Hc. by destruct (Hnone fd c).
  - split; [|done]. intros fd c Hc. by destruct (Hnone fd c).
  - intros fd c Hc. by destruct (Hnone fd c).
  - unfold kernel_ok. rewrite Em, Eo. constructor; rewrite ?lookup_empty; try done.
    + split_and!; [done| |done]. rewrite !elem_of_union, !elem_of_singleton. auto.
    + split; [done|]. intros _. rewrite !elem_of_union, !elem_of_singleton. auto 6.
    + split; [|done]. rewrite elem_of_union, elem_of_singleton. auto.
    + intros fd. rewrite !elem_of_union, !elem_of_singleton, elem_of_empty.
      intros [->|[->|[->|[]]]]; auto.
  - split; [|done]. unfold notifier_ok, EVENTFD_MAX. rewrite Enf. lia.
  - intros _ Hne. by rewrite Eq3 in Hne.
  - intros _ Hne. by rewrite Er in Hne.
  - unfold producers_ok, stopped. rewrite E6, Est. split_and!; try done. intros w Hw Hpc.
    rewrite Forall_forall in Hws. specialize (Hws w Hw). unfold idle_worker in Hws. congruence.
  - unfold queue_ok, size, capacity. rewrite Eq1, Eq2, Eq3, zlen_nil. done.
Qed.

Lemma inv_launched u s : setup_ok u → launched u s → Inv idle s ∧ state_ s = RUNNING ∧ next_conn_id_ s = 1.
Proof.
  intros (Hl & He & Hv & N1 & N2 & N3 & Hwc & Hawc & Hsum & Hhw) (s0 & Hs & Hst).
  unfold newServer in Hs. destruct ((_ =? 0) || (_ >? 16)) eqn:Ea; [done|].
  destruct ((_ =? 0) || (_ >? 65536)); [done|]. injection Hs as <-.
  rewrite Z.gtb_ltb in Ea. bool_facts.
  unfold start in Hst. simpl in Hst. injection Hst as <-.
  set (s := markReady _ _). unfold start_workers.
  assert (Ecfg : configured_worker_count_ s = su_worker_count u ∧
                 configured_auth_worker_count_ s = su_auth_worker_count u).
  { subst s. unfold markReady. by case_bool. }
  destruct Ecfg as [Ec1 Ec2]. rewrite Ec1, Ec2.
  set (n := if su_worker_count u =? 0 then _ else _).
  assert (Hn : 0 ≤ n ∧ n + su_auth_worker_count u < 2 ^ 32).
  { subst n. destruct (Z.eqb_spec (su_worker_count u) 0) as [Ez|Ez]; [|lia].
    destruct (su_hardware u =? 0); lia. }
  clearbody n. set (ws := replicate _ _ ++ replicate _ _).
  assert (Hws : Forall idle_worker ws).
  { apply Forall_app. split; apply Forall_replicate; done. }
  assert (Hlen : zlen ws = n + su_auth_worker_count u).
  { unfold ws. rewrite zlen_app. unfold zlen. rewrite !length_replicate.
    change (configured_auth_worker_count_ (set_response_producers_remaining_ _ s))
      with (configured_auth_worker_count_ s). lia. }
  clearbody ws. split; [|subst s; unfold markReady; by case_bool].
  apply inv_quiet; subst s; clear Ec1 Ec2; unfold markReady; destruct (su_ready_created u); simpl;
    rewrite ?Hlen; try done; try lia.
  - apply u32_small. lia.
  - apply u32_small. lia.
Qed.

(** ** Leaving [RUNNING] *)

(** New work is refused: the listener is closed, the readiness file is gone
    (unless it could not be removed),
    and the request and AUTH queues accept nothing more. *)
Definition quiesced (E : Env) (s : Server) : Prop :=
  listen_fd_ s = -1 ∧ not_ready E s ∧
  stopped (request_queue_ s) = true ∧ stopped (auth_queue_ s) = true.

Definition refuses_work (E : Env) (s : Server) : Prop := state_ s ≠ RUNNING → quiesced E s.

Section System.
Context `{JsonLib} (E : Env).

Lemma update_all_fixed pairs s : fixed_view (update_all E pairs s) = fixed_view s.
Proof.
  revert s. induction pairs as [|[fd ev] pairs IH]; intros s; [done|].
  unfold update_all in *. simpl. rewrite IH. apply modify_fixed.
Qed.

Lemma beginDraining_spec s :
  state_ s = RUNNING →
  state_ (beginDraining E s) = DRAINING ∧ quiesced E (beginDraining E s) ∧
  shutdown_timeout_ (beginDraining E s) = shutdown_timeout_ s ∧
  shutdown_deadline_ (beginDraining E s) = clock E (k_ticks (sync E s)) + shutdown_timeout_ s * 1000000.
Proof.
  intros Hst. unfold beginDraining. rewrite bool_decide_eq_true_2 by done. cbn [negb].
  unfold now. cbv beta iota zeta. set (s1 := set_state_ DRAINING (sync E s)).
  assert (H1 : state_ s1 = DRAINING) by done.
  assert (Ht : shutdown_timeout_ s1 = shutdown_timeout_ s) by (subst s1; sync_view E s sx; exact Vtmo).
  assert (Hk : k_ticks s1 = k_ticks (sync E s)) by done. rewrite <- Hk. clear Hk.
  clearbody s1. set (t := clock E (k_ticks s1)).
  set (s2 := markNotReady _ _).
  assert (H2 : state_ s2 = DRAINING ∧ not_ready E s2 ∧ shutdown_timeout_ s2 = shutdown_timeout_ s ∧
               shutdown_deadline_ s2 = t + shutdown_timeout_ s * 1000000).
  { subst s2. unfold not_ready, markNotReady. split_and!; [by case_bool| |by case_bool|by case_bool; simpl; rewrite Ht].
    intros Hu. by rewrite Hu. }
  clearbody s2.
  assert (H3 : state_ (closeListener s2) = DRAINING ∧ not_ready E (closeListener s2) ∧
    listen_fd_ (closeListener s2) = -1 ∧ shutdown_timeout_ (closeListener s2) = shutdown_timeout_ s ∧
    shutdown_deadline_ (closeListener s2) = t + shutdown_timeout_ s * 1000000).
  { unfold closeListener. destruct (Z.eqb_spec (listen_fd_ s2) (-1)); [tauto|].
    destruct H2 as (? & ? & ? & ?). by case_bool. }
  set (s3 := closeListener s2) in *. clearbody s3. clear H2.
  set (s4 := set_request_queue_ _ (sync E s3)).
  assert (H4 : state_ s4 = DRAINING ∧ not_ready E s4 ∧ listen_fd_ s4 = -1 ∧ shutdown_timeout_ s4 = shutdown_timeout_ s ∧
    shutdown_deadline_ s4 = t + shutdown_timeout_ s * 1000000 ∧ stopped_ (request_queue_ s4) = true).
  { subst s4. sync_view E s3 s3'. unfold not_ready in *. simpl. rewrite Vstate, Vready, Vlisten, Vdead, Vtmo. tauto. }
  clearbody s4. clear H3. set (s5 := set_auth_queue_ _ (sync E s4)).
  assert (H5 : state_ s5 = DRAINING ∧ not_ready E s5 ∧ listen_fd_ s5 = -1 ∧ shutdown_timeout_ s5 = shutdown_timeout_ s ∧
    shutdown_deadline_ s5 = t + shutdown_timeout_ s * 1000000 ∧ stopped_ (request_queue_ s5) = true ∧
    stopped_ (auth_queue_ s5) = true).
  { subst s5. sync_view E s4 s4'. unfold not_ready in *. simpl.
    rewrite Vstate, Vready, Vlisten, Vdead, Vstr, Vtmo. tauto. }
  clearbody s5. clear H4.
  match goal with |- context [update_all E ?p s5] => pose proof (update_all_fixed p s5) as Hv;
    set (s6 := update_all E p s5) in *; clearbody s6 end.
  unfold fixed_view in Hv. injection Hv as V1 V2 V3 V4 V5 V6 V7 V8 V9 V10.
  destruct H5 as (? & ? & ? & ? & ? & ? & ?). unfold quiesced, not_ready, stopped in *. rewrite V8.
  split_and!; try congruence. done.
Qed.

(** [refuses_work] and the deadline depend on [fixed_view] only. *)
Lemma refuses_fixed s s' : fixed_view s' = fixed_view s → refuses_work E s → refuses_work E s'.
Proof.
  unfold fixed_view, refuses_work, quiesced, not_ready, stopped.
  intros [= V1 V2 V3 V4 V5 V6 V7 V8 V9 V10] Hq Hne. rewrite V3, V8, V9, V10. apply Hq. congruence.
Qed.

Lemma refuses_action a s : refuses_work E s → refuses_work E (run_action a s).
Proof.
  pose proof (private_run_action a s) as Hv. unfold private_view, reactor_view in Hv.
  injection Hv as V1 V2 V3 V4 V5 V6 V7 V8 V9 V10 V11 V12 V13 V14 V15 V16 V17 V18.
  unfold refuses_work, quiesced, not_ready, stopped. intros Hq. rewrite V5, V7, V14, V17, V18. done.
Qed.

Lemma begin_iteration_spec s :
  refuses_work E s →
  let s' := begin_iteration E s in
  refuses_work E s' ∧
  ((state_ s = RUNNING ∧ state_ s' = DRAINING ∧
    shutdown_deadline_ s' = clock E (k_ticks (sync E (sync E s))) + shutdown_timeout_ s * 1000000 ∧
    begin_iteration E s = sync E (epollTimeoutMs E (beginDraining E (sync E s))).2) ∨
   fixed_view s' = fixed_view s).
Proof.
  intros Hq. unfold begin_iteration. pose proof (refuses_fixed _ _ (sync_fixed E s) Hq) as Hq1.
  pose proof (sync_fixed E s) as Hf1. sync_view E s s1. set (s2 := if _ && _ then _ else _).
  assert (H2 : refuses_work E s2 ∧ ((state_ s = RUNNING ∧ state_ s2 = DRAINING ∧
      shutdown_deadline_ s2 = clock E (k_ticks (sync E s1)) + shutdown_timeout_ s * 1000000 ∧
      s2 = beginDraining E s1) ∨
    fixed_view s2 = fixed_view s)).
  { subst s2. case_bool.
    - bool_facts. destruct (beginDraining_spec s1) as (E1 & E2 & _ & E4); [done|].
      split; [by intros _|]. left. split_and!; congruence.
    - split; [done|]. by right. }
  clearbody s2. destruct H2 as [Hq2 H2].
  assert (H3 : fixed_view (epollTimeoutMs E s2).2 = fixed_view s2).
  { unfold epollTimeoutMs. by case_bool. }
  destruct (epollTimeoutMs E s2) as [t s3] eqn:E3. simpl in H3.
  assert (H4 : fixed_view (sync E s3) = fixed_view s2) by (by rewrite sync_fixed).
  assert (Hs4 : s2 = beginDraining E s1 → sync E s3 = sync E (epollTimeoutMs E (beginDraining E s1)).2)
    by (intros <-; by rewrite E3).
  set (s4 := sync E s3) in *. clearbody s4.
  split; [by eapply refuses_fixed|]. destruct H2 as [(? & ? & ? & ?)|H2]; [left|right; congruence].
  unfold fixed_view in H4. injection H4 as V1 V2 V3 V4 V5 V6 V7 V8 V9 V10. rewrite V1, V6. split_and!; auto.
Qed.

Context (HE : env_ok E).

Lemma stop_at_deadline_fixed s : shutdown_deadline_ (stop_at_deadline E s) = shutdown_deadline_ s.
Proof.
  unfold stop_at_deadline. sync_view E s s1. set (s2 := set_request_queue_ _ s1).
  assert (H2 : shutdown_deadline_ s2 = shutdown_deadline_ s) by done. clearbody s2.
  sync_view E s2 s3. set (s4 := set_auth_queue_ _ s3).
  assert (H4 : shutdown_deadline_ s4 = shutdown_deadline_ s) by (by rewrite <- H2, <- Vdead0). clearbody s4.
  sync_view E s4 s5. by rewrite <- H4, <- Vdead1.
Qed.

Lemma stop_at_deadline_spec s :
  refuses_work E s → state_ s = DRAINING → refuses_work E (stop_at_deadline E s) ∧ state_ (stop_at_deadline E s) = STOPPED.
Proof.
  intros Hq Hst. split; [|done]. intros _. destruct (Hq ltac:(by rewrite Hst)) as (Q1 & Q2 & _ & _).
  unfold stop_at_deadline. sync_view E s s1. set (s2 := set_request_queue_ _ s1).
  assert (H2 : listen_fd_ s2 = -1 ∧ not_ready E s2 ∧ stopped_ (request_queue_ s2) = true)
    by (subst s2; unfold not_ready in *; simpl; rewrite Vready; split_and!; done || congruence).
  clearbody s2. sync_view E s2 s3. set (s4 := set_auth_queue_ _ s3).
  assert (H4 : listen_fd_ s4 = -1 ∧ not_ready E s4 ∧ stopped_ (request_queue_ s4) = true ∧
    stopped_ (auth_queue_ s4) = true).
  { destruct H2 as (? & ? & ?). subst s4. unfold not_ready in *. simpl. rewrite Vready0.
    split_and!; done || congruence. }
  clearbody s4. sync_view E s4 s5. destruct H4 as (? & ? & ? & ?).
  unfold quiesced, not_ready, stopped in *. simpl. rewrite Vready1. split_and!; done || congruence.
Qed.

Lemma drainComplete_empty s s' : drainComplete E s = (true, s') → connections_ s' = ∅.
Proof.
  unfold drainComplete. destruct (all_hold E queues_drained s) as [[] s1]; simpl; [|done].
  intros [= Hb <-]. by bool_facts.
Qed.

(** The clock is read at the tick after [drainComplete]; draining ends there
    exactly when everything was drained or the deadline has passed. *)
Lemma finish_draining_spec s :
  Inv idle s → refuses_work E s →
  let s' := finish_draining E s in
  let s1 := (drainComplete E s).2 in
  refuses_work E s' ∧ (state_ s' = state_ s ∨ (state_ s = DRAINING ∧ state_ s' = STOPPED)) ∧
  shutdown_deadline_ s' = shutdown_deadline_ s ∧
  (state_ s = DRAINING → shutdown_deadline_ s ≤ clock E (k_ticks s1) → state_ s' = STOPPED) ∧
  (state_ s = DRAINING → state_ s' = STOPPED → connections_ s' = ∅ ∨
     shutdown_deadline_ s ≤ clock E (k_ticks s1) ∧ s' = stop_at_deadline E (tick s1)).
Proof.
  intros HI Hq. rewrite finish_draining_unfold. cbv zeta.
  destruct (bool_decide (state_ s = DRAINING)) eqn:Est; bool_facts; [|by split_and!; [|left|..]].
  destruct (inv_drainComplete E HE _ _ _ HI) as [_ Hv]. destruct (drainComplete E s) as [complete s1] eqn:Ed.
  simpl in Hv |- *. pose proof (refuses_fixed _ _ Hv Hq) as Hq1.
  unfold fixed_view in Hv. injection Hv as V1 V2 V3 V4 V5 V6 V7 V8 V9 V10.
  destruct complete.
  - apply drainComplete_empty in Ed. split_and!; [|by right|done|done|by left].
    intros _. apply Hq1. congruence.
  - destruct (stop_at_deadline_spec (tick s1) Hq1) as [? Hst]; [simpl; congruence|].
    destruct (_ >=? _) eqn:Ec; rewrite Z.geb_leb in Ec; bool_facts; rewrite V6 in Ec.
    + split_and!; [done|right; done|by rewrite stop_at_deadline_fixed|done|by right].
    + split_and!; [done|left; simpl; congruence|simpl; congruence|lia|]. simpl. congruence.
Qed.

(** Between two iterations. *)
Definition Running (s : Server) : Prop := Loop s ∧ refuses_work E s.

(** The stages of an iteration with events, up to the last one, share the
    state and the deadline. *)
Lemma iteration_stages evs drains s s' :
  Running s → next_conn_id_ s + wait_accepts (WaitEvents evs drains) < 2 ^ 64 →
  loop_iteration E (WaitEvents evs drains) s = Some s' →
  ∃ s2 s3, handleEvents E evs (begin_iteration E s) = Some s2 ∧ drainResponseQueue E drains s2 = Some s3 ∧
    let s4 := drainRejectedResponses E s3 in
    s' = finish_draining E s4 ∧ Inv idle s4 ∧ refuses_work E s4 ∧
    state_ s4 = state_ (begin_iteration E s) ∧ shutdown_deadline_ s4 = shutdown_deadline_ (begin_iteration E s).
Proof.
  intros [HL Hq] Hn Hi.
  rewrite loop_iteration_unfold in Hi. destruct (bool_decide (state_ s = STOPPED)) eqn:Est; [done|].
  bool_facts. destruct HL as (keys & HI & Hk). rewrite Hk in HI by done.
  destruct (inv_begin_iteration E HE s HI) as [HI1 Hn1]. destruct (begin_iteration_spec s Hq) as [Hq1 _].
  cbv zeta in Hi. set (s1 := begin_iteration E s) in *. clearbody s1. cbn [wait_accepts] in Hn.
  apply bind_Some in Hi as (s2 & H2 & (s3 & H3 & [= <-])%bind_Some). exists s2, s3.
  assert (HI1' : Inv (base false false) s1).
  { eapply inv_weaken; [..|exact HI1]; try done. by left. }
  destruct (inv_handleEvents E HE evs s1 s2 HI1' ltac:(lia) H2) as (HI2 & _ & V2).
  pose proof (inv_drainResponseQueue E HE _ _ _ _ _ HI2 H3) as HI3.
  pose proof (inv_drainRejectedResponses E HE _ _ _ HI3) as HI4.
  set (s4 := drainRejectedResponses E s3) in *.
  assert (V4 : fixed_view s4 = fixed_view (set_next_conn_id_ (next_conn_id_ s2) s1)).
  { rewrite <- V2. subst s4. rewrite drainRejectedResponses_fixed. by eapply drainResponseQueue_fixed. }
  cbv zeta. clearbody s4. split_and!; [done..|eapply refuses_fixed; [exact V4|exact Hq1]| |];
    unfold fixed_view in V4; simpl in V4; congruence.
Qed.

Lemma beginDraining_skip s : state_ s ≠ RUNNING → beginDraining E s = s.
Proof. intros Hs. unfold beginDraining. by rewrite bool_decide_eq_false_2. Qed.

Lemma iteration_spec w s s' :
  Running s → next_conn_id_ s + wait_accepts w < 2 ^ 64 → loop_iteration E w s = Some s' →
  Running s' ∧ (state_ s' = RUNNING → state_ s = RUNNING).
Proof.
  intros HR Hn Hi. destruct (inv_loop_iteration E HE w s s' (proj1 HR) Hn Hi) as [HL' _].
  destruct (begin_iteration_spec s (proj2 HR)) as [Hq1 Hb].
  destruct w as [evs drains| |].
  - destruct (iteration_stages evs drains s s' HR Hn Hi) as (s2 & s3 & _ & _ & -> & HI4 & Hq4 & Es & _).
    destruct (finish_draining_spec _ HI4 Hq4) as (Hq5 & Hst & _). split; [done|].
    destruct Hb as [(? & _)|Hb]; [done|]. unfold fixed_view in Hb. destruct Hst as [?|[? ?]]; congruence.
  - rewrite loop_iteration_unfold in Hi. case_bool; [done|]. injection Hi as <-. split; [done|].
    destruct Hb as [(? & _)|Hb]; [done|]. unfold fixed_view in Hb. congruence.
  - rewrite loop_iteration_unfold in Hi. case_bool; [done|]. injection Hi as <-. set (s1 := begin_iteration E s) in *.
    destruct (decide (state_ s1 = RUNNING)) as [Er|Er].
    + destruct (beginDraining_spec s1 Er) as (Ed & ? & _). rewrite Ed. split; [|done]. split; [done|]. by intros _.
    + by rewrite beginDraining_skip in * by done.
Qed.

(** ** Reachable states *)

Inductive reachable (u : Setup) : Server → Prop :=
  | reach_start s : setup_ok u → launched u s → reachable u s
  | reach_step w s s' :
      reachable u s → next_conn_id_ s + wait_accepts w < 2 ^ 64 →
      loop_iteration E w s = Some s' → reachable u s'
  | reach_action a s : reachable u s → action_ok a → reachable u (run_action a s).

Lemma reachable_running u s : reachable u s → Running s.
Proof.
  induction 1 as [s Hu Hl|w s s' _ IH Hn Hi|a s _ IH Ha].
  - destruct (inv_launched u s Hu Hl) as (HI & Hst & _). split; [by exists []|]. by intros [].
  - by destruct (iteration_spec w s s' IH Hn Hi).
  - destruct IH as [(keys & HI & Hk) Hq]. split; [|by apply refuses_action].
    exists keys. split; [by apply inv_run_action|].
    pose proof (private_run_action a s) as Hv. unfold private_view, reactor_view in Hv.
    assert (Es : state_ (run_action a s) = state_ s) by congruence. by rewrite Es.
Qed.

(** The invariant in a reachable state, in the two forms the theorems use. *)
Lemma reachable_inv u s : reachable u s → ∃ keys, Inv (pending keys true true) s.
Proof. intros ((keys & HI & _) & _)%reachable_running. eauto. Qed.

Lemma reachable_idle u s : reachable u s → state_ s ≠ STOPPED → Inv idle s.
Proof. intros ((keys & HI & Hk) & _)%reachable_running Hst. by rewrite Hk in HI. Qed.

(** ** Theorems *)

(** C1: Exactly-once accounting of work under every interleaving of the
    reactor with the workers.  For every live connection that lost no response to a full response queue, the in-flight counter is the number of its
    outstanding requests (queued, in a worker, or in the response queue), the
    requests admitted so far are, as a multiset, exactly those answered plus
    those outstanding, and every answered request has its response in the
    connection's output; the debug assertion on the counter never fires. *)
Theorem work_accounted u s fd c :
  reachable u s → state_ s ≠ STOPPED → connections_ s !! fd = Some c → conn_key c ∉ refused s →
  c_in_flight_work c = zlen (of_key (conn_key c) (items s)) ∧
  admitted (c_conn_id c) (trace_ s) ≡ₚ
    answered (c_conn_id c) (trace_ s) ++ map snd (of_key (conn_key c) (items s)) ∧
  answered (c_conn_id c) (trace_ s) ⊆+ map rs_request_id (appended (c_conn_id c) (trace_ s)) ∧
  OAssertFailed ∉ trace_ s.
Proof.
  intros Hr Hst Hc Hl. pose proof (reachable_idle _ _ Hr Hst) as HI.
  destruct (inv_account _ _ HI fd c Hc) as [_ Hacc]. destruct (Hacc Hl) as [H1 H2].
  pose proof (inv_owed _ _ HI fd c Hc) as H3. rewrite app_nil_r in H3. split_and!; try done.
  intros (b & a & Et)%list_elem_of_split. destruct (inv_trace _ _ HI) as [Hlaw _].
  by destruct (Hlaw _ _ _ Et) as [_ []].
Qed.

(** C6: Isolation between connections across descriptor reuse.  A response is
    put only into the output of the connection whose id it carries, and once
    a connection was closed nothing is ever received, admitted, answered,
    appended or sent under its id, whatever responses for it are still under
    way. *)
Theorem closed_is_final u s before e after :
  reachable u s → trace_ s = before ++ e :: after →
  (∀ fd id, OClose fd id ∈ before → obs_conn e ≠ Some id) ∧
  (∀ id r, e = OAppend id r → rs_conn_id r = id).
Proof.
  intros Hr Et. destruct (reachable_inv _ _ Hr) as [keys HI]. destruct (inv_trace _ _ HI) as [Hlaw _].
  destruct (Hlaw _ _ _ Et) as [Hc He]. split.
  - intros fd id Hin Hid. by apply (Hc id fd Hid).
  - intros id r ->. done.
Qed.

(** C7: No request is processed before authentication.  A normal request is
    admitted only after its connection was authenticated, and that only after
    the same connection's AUTH request was admitted for checking. *)
Theorem authenticated_before_admitted u s before r after :
  reachable u s → trace_ s = before ++ OAdmit r :: after →
  rq_type r ≠ AUTH ∧
  ∃ client b1 b2 b3 q,
    before = b1 ++ OAdmitAuth q :: b2 ++ OAuthenticated (rq_conn_id r) client :: b3 ∧
    rq_conn_id q = rq_conn_id r ∧ rq_type q = AUTH.
Proof.
  intros Hr Et. destruct (reachable_inv _ _ Hr) as [keys HI]. destruct (inv_trace _ _ HI) as [Hlaw _].
  destruct (Hlaw _ _ _ Et) as (_ & Hty & client & Hin). split; [done|].
  apply list_elem_of_split in Hin as (b12 & b3 & ->).
  assert (Et1 : trace_ s = b12 ++ OAuthenticated (rq_conn_id r) client :: (b3 ++ OAdmit r :: after))
    by (rewrite Et; by rewrite <- app_assoc).
  destruct (Hlaw _ _ _ Et1) as (_ & q & Hq & Eq). apply list_elem_of_split in Hq as (b1 & b2 & ->).
  assert (Et2 : trace_ s = b1 ++ OAdmitAuth q ::
    (b2 ++ OAuthenticated (rq_conn_id r) client :: b3 ++ OAdmit r :: after))
    by (rewrite Et1; by rewrite <- app_assoc).
  destruct (Hlaw _ _ _ Et2) as (_ & Hqt). exists client, b1, b2, b3, q.
  split_and!; [by rewrite <- app_assoc|done|done].
Qed.

(** C11: The bytes on the wire.  What was handed to the kernel for a connection
    is always a prefix of the concatenation of its encoded responses, in the
    order they were applied, whatever partial sends occurred; for a live
    connection the rest of that concatenation is exactly what its output
    buffer still holds. *)
Theorem output_is_encoded_responses u s :
  reachable u s →
  (∀ id, sent id (trace_ s) `prefix_of` encoded (appended id (trace_ s))) ∧
  (∀ fd c, connections_ s !! fd = Some c →
     sent (c_conn_id c) (trace_ s) ++ drop (Z.to_nat (c_write_offset c)) (c_output_buffer c)
       = encoded (appended (c_conn_id c) (trace_ s))).
Proof.
  intros Hr. destruct (reachable_inv _ _ Hr) as [keys HI]. by destruct (inv_stream _ _ HI).
Qed.

(** C12: Memory bounds against any peer.  A live connection never has more than
    64 MiB of unsent output, its unparsed input is less than one maximal
    frame, and each of the three queues stays within its capacity. *)
Theorem memory_bounded u s :
  reachable u s →
  (∀ fd c, connections_ s !! fd = Some c →
     0 ≤ c_write_offset c ≤ zlen (c_output_buffer c) ∧
     zlen (c_output_buffer c) - c_write_offset c ≤ OUTPUT_LIMIT ∧
     zlen (c_input_buffer c) < 4 + MAX_BODY_SIZE) ∧
  size (request_queue_ s) ≤ capacity (request_queue_ s) ∧
  size (auth_queue_ s) ≤ capacity (auth_queue_ s) ∧
  size (response_queue_ s) ≤ capacity (response_queue_ s).
Proof.
  intros Hr. destruct (reachable_inv _ _ Hr) as [keys HI]. split; [|apply HI].
  intros fd c Hc. destruct (inv_conns _ _ HI fd c Hc) as (_ & _ & ? & ?).
  pose proof (inv_input _ _ HI fd c Hc) as Hin. cbn [l_reading pending] in Hin.
  rewrite decide_False in Hin by done. split_and!; done || lia.
Qed.

(** C13: Descriptors and epoll interest.  The descriptors the reactor holds are
    exactly the epoll instance, the eventfd, the listener while it is open
    and one per connection, all distinct, and every connection is registered
    for exactly the events its state asks for: input only while it may still
    be read, output exactly while unsent bytes remain. *)
Theorem epoll_interest_exact u s :
  reachable u s →
  (∀ fd, fd ∈ k_open s ↔ fd = epfd_ s ∨ fd = nf_fd (notifier_ s) ∨
     (fd = listen_fd_ s ∧ listen_fd_ s ≠ -1) ∨ is_Some (connections_ s !! fd)) ∧
  (∀ fd c, connections_ s !! fd = Some c →
     fd ≠ epfd_ s ∧ fd ≠ listen_fd_ s ∧ fd ≠ nf_fd (notifier_ s) ∧ c_fd c = fd ∧
     k_interest s !! fd = Some (connectionEvents s c)).
Proof.
  intros Hr. destruct (reachable_inv _ _ Hr) as [keys HI].
  pose proof (inv_kernel _ _ HI) as [(? & ? & ?) [? Hl] [? ?] Hown Hk]. split.
  - intros fd. split; [intros Hf; destruct (Hown fd Hf) as [? [?|[?|[?|?]]]]; auto; subst; auto 6|].
    intros [->|[->|[[-> Hx]|[c Hc]]]]; [done|done|by apply Hl|by apply (Hk fd c)].
  - intros fd c Hc. destruct (Hk fd c Hc) as (_ & _ & ev & Hi & Hev).
    rewrite (Hev (not_elem_of_nil _)) in Hi. pose proof (live_fd _ _ HI _ _ Hc).
    split_and!; congruence.
Qed.

(** C14: No lost wake-up.  Whenever the reactor is about to wait and a response
    or a rejected connection is waiting for it, the eventfd is readable or
    some worker is about to make it so. *)
Theorem no_lost_wakeup u s :
  reachable u s →
  (data_queue_ (response_queue_ s) ≠ [] ∨ rejected_response_connections_ s ≠ ∅) →
  readable (notifier_ s) ∨ ∃ w, w ∈ workers_ s ∧ w_pc w = WNotify.
Proof.
  intros Hr Hw. destruct (reachable_inv _ _ Hr) as [keys HI].
  destruct (inv_notifier _ _ HI) as [_ Hfd].
  destruct Hw as [Hw|Hw]; [destruct (inv_resp _ _ HI eq_refl Hw) as [?|?]
                          |destruct (inv_rej _ _ HI eq_refl Hw) as [?|?]];
    (by left) || (by right).
Qed.

(** A connection that is closed for drain has been served completely.
    When [canCloseAfterDrain] holds for a connection that lost no response,
    every request admitted from it has a response with its request id among
    the responses written (as multisets), and every byte of those responses
    has been handed to the kernel. *)
Theorem drained_connection_complete u s fd c :
  reachable u s → state_ s ≠ STOPPED → connections_ s !! fd = Some c → conn_key c ∉ refused s →
  canCloseAfterDrain s c = true →
  admitted (c_conn_id c) (trace_ s) ⊆+ map rs_request_id (appended (c_conn_id c) (trace_ s)) ∧
  sent (c_conn_id c) (trace_ s) = encoded (appended (c_conn_id c) (trace_ s)).
Proof.
  intros Hr Hst Hc Hl Hdr. pose proof (reachable_idle _ _ Hr Hst) as HI.
  unfold canCloseAfterDrain in Hdr. rewrite Z.geb_leb in Hdr. bool_facts.
  destruct (inv_account _ _ HI fd c Hc) as [_ Hacc]. destruct (Hacc Hl) as [Hfl ->].
  pose proof (inv_owed _ _ HI fd c Hc) as How. cbn [l_held l_owed idle base] in *.
  assert (Hnil : of_key (conn_key c) (items s) = []) by (apply zlen_0; simpl in Hfl; congruence).
  simpl in How. rewrite app_nil_r in How. simpl. rewrite Hnil, app_nil_r. split; [done|].
  destruct (inv_stream _ _ HI) as [Hs _]. specialize (Hs fd c Hc). rewrite drop_ge, app_nil_r in Hs; [done|].
  unfold zlen in *. lia.
Qed.

End System.

(** ** Executing the model *)

Fixpoint run_loop `{JsonLib} (E : Env) (ws : list WaitAnswer) (s : Server) : option Server :=
  match ws with
  | [] => Some s
  | w :: ws => s ← loop_iteration E w s; run_loop E ws s
  end.

Lemma run_loop_reachable `{JsonLib} E u ws s s' :
  env_ok E → reachable E u s → next_conn_id_ s + zlen (gather (λ w, replicate (Z.to_nat (wait_accepts w)) tt) ws) < 2 ^ 64 →
  run_loop E ws s = Some s' → reachable E u s'.
Proof.
  intros HE. revert s. induction ws as [|w ws IH]; intros s Hr Hn Hrun; [by injection Hrun as <-|].
  cbn [run_loop] in Hrun. apply bind_Some in Hrun as (s1 & H1 & H2).
  rewrite gather_cons, zlen_app in Hn. unfold zlen at 1 in Hn. rewrite length_replicate in Hn.
  assert (0 ≤ wait_accepts w) by (destruct w; [apply zlen_nonneg|done..]).
  pose proof (zlen_nonneg (gather (λ w, replicate (Z.to_nat (wait_accepts w)) tt) ws)).
  destruct (reachable_running E HE u s Hr) as [HL _].
  destruct (inv_loop_iteration E HE w s s1 HL ltac:(lia) H1) as [_ ?].
  apply (IH s1); [|lia|done]. eapply reach_step; [done| |done]. lia.
Qed.

(** A scenario: one client connects, authenticates, sends an ECHO request and
    receives both responses through partial sends and disconnects; then its
    descriptor is reused by another client.  Two workers run
    whenever the reactor touches shared state. *)
Definition sample_control : ControlPlane := λ _ _ _, Some (mkAuthResult Allowed NoError 200 []).
Definition sample_worker_env : WorkerEnv := mkWorkerEnv (lit "T") true sample_control false 5 0.
Definition sample_gateway : Env :=
  mkEnv (λ n, Z.of_nat n * 1000) (λ _, true) (λ _, true)
    (λ _, concat (replicate 4 [AWorker 0 sample_worker_env; AWorker 1 sample_worker_env])).
Definition sample_setup : Setup :=
  mkSetup 9000 8 8 5000 1 1 4 (newLogStorage None false true true) (newLogger None) 3 4 5 true 8.

Definition frame (t : MessageType) (id : Z) (p : bytes) : bytes :=
  encode (mkResponse 0 0 1 t id 0 p None false false).

Definition sample_script : list WaitAnswer := [
  WaitEvents [mkReady 3 1 5 [AcceptFd 6; AcceptAgain] [] []] 5;
  WaitEvents [mkReady 6 1 5 [] [RecvData (frame AUTH 1 (lit "{'client_id':'c1','token':'t1'}")); RecvAgain] []] 5;
  WaitEvents [mkReady 5 1 5 [] [] []] 5;
  WaitEvents [mkReady 6 5 5 [] [RecvData (frame ECHO 2 (lit "hi")); RecvAgain] [SendBytes 42]] 5;
  WaitEvents [mkReady 5 1 5 [] [] []] 5;
  WaitEvents [mkReady 6 4 5 [] [] [SendBytes 10; SendIntr; SendBytes 6]] 5;
  WaitIntr;
  WaitEvents [mkReady 6 8193 5 [] [RecvEof] []] 5;
  WaitEvents [mkReady 3 1 5 [AcceptFd 6; AcceptAgain] [] []] 5].

Definition sample_start : Server :=
  match newServer 9000 8 8 5000 1 1 4 (newLogStorage None false true true) (newLogger None) with
  | Some s => (start (InitOk 3 4 5) true 8 s).2
  | None => mkServer 0 0 0 false STOPPED false false false 0 0 0 0 0 0 0
              (newBlockQueue 0) (newBlockQueue 0) (newBlockQueue 0) newNotifier ∅ ∅ []
              defaultRuntimeConfig ∅ false (newLogger None) sample_hstate [] false ∅ ∅ 0 []
  end.

Definition sample_run (ws : list WaitAnswer) (s : Server) : Server :=
  default s (run_loop (H := sample_json) sample_gateway ws s).

(** The state after [n] iterations. *)
Definition sample_state (n : nat) : Server := sample_run (take n sample_script) sample_start.

(** The state after six iterations and the first iteration after a stop. *)
Definition sample_draining : Server :=
  sample_run [WaitIntr] (run_action (H := sample_json) AStopRequest (sample_state 6)).

Definition conn_of (fd : Z) (s : Server) : Connection :=
  default (newConnection fd 0) (connections_ s !! fd).

Lemma sample_env_ok : env_ok sample_gateway.
Proof. intros n. repeat constructor. Qed.

Lemma sample_start_reachable : reachable (H := sample_json) sample_gateway sample_setup sample_start.
Proof.
  apply reach_start; [by split_and!|]. eexists. split; reflexivity.
Qed.

Lemma sample_state_reachable n :
  (n ≤ 9)%nat → reachable (H := sample_json) sample_gateway sample_setup (sample_state n).
Proof.
  intros Hn. unfold sample_state, sample_run.
  assert (Hall : ∀ k, (k ≤ 9)%nat →
    is_Some (run_loop (H := sample_json) sample_gateway (take k sample_script) sample_start)).
  { intros k Hk. do 10 (destruct k as [|k]; [vm_compute; eauto|]). lia. }
  destruct (Hall n Hn) as [s Hs]. rewrite Hs. simpl.
  eapply run_loop_reachable; [apply sample_env_ok|apply sample_start_reachable| |exact Hs].
  do 10 (destruct n as [|n]; [vm_compute; done|]). lia.
Qed.

Lemma sample_draining_reachable :
  reachable (H := sample_json) sample_gateway sample_setup sample_draining.
Proof.
  eapply (run_loop_reachable (H := sample_json) sample_gateway sample_setup [WaitIntr]
    (run_action (H := sample_json) AStopRequest (sample_state 6))); [apply sample_env_ok| |vm_compute; done|].
  - apply reach_action; [|done]. apply sample_state_reachable. lia.
  - unfold sample_draining, sample_run.
    assert (Hs : is_Some (run_loop (H := sample_json) sample_gateway [WaitIntr]
      (run_action (H := sample_json) AStopRequest (sample_state 6)))) by (vm_compute; eauto).
    destruct Hs as [s Hs]. by rewrite Hs.
Qed.

(** The same client with slow workers: they act only when told to.  The AUTH
    worker has just pushed its response and not yet announced it. *)
Definition slow_gateway : Env := mkEnv (λ n, Z.of_nat n * 1000) (λ _, true) (λ _, true) (λ _, []).

Definition slow_start : Server :=
  default sample_start (run_loop (H := sample_json) slow_gateway (take 2 sample_script) sample_start).

Definition slow_state : Server :=
  run_actions (H := sample_json) (replicate 4 (AWorker 1 sample_worker_env)) slow_start.

Lemma slow_env_ok : env_ok slow_gateway.
Proof. intros n. constructor. Qed.

Lemma slow_state_reachable : reachable (H := sample_json) slow_gateway sample_setup slow_state.
Proof.
  unfold slow_state. cbn [replicate run_actions fold_left]. do 4 (apply reach_action; [|done]).
  assert (Hs : is_Some (run_loop (H := sample_json) slow_gateway (take 2 sample_script) sample_start))
    by (vm_compute; eauto).
  destruct Hs as [s Hs]. unfold slow_start. rewrite Hs.
  eapply (run_loop_reachable (H := sample_json) slow_gateway sample_setup (take 2 sample_script) sample_start);
    [apply slow_env_ok| |vm_compute; done|exact Hs].
  apply reach_start; [by split_and!|]. eexists. split; reflexivity.
Qed.

(** ** Witnesses *)

Lemma work_accounted_witness :
  let s := slow_state in
  let c := conn_of 6 s in
  c_in_flight_work c = zlen (of_key (conn_key c) (items s)) ∧
  admitted (c_conn_id c) (trace_ s) ≡ₚ
    answered (c_conn_id c) (trace_ s) ++ map snd (of_key (conn_key c) (items s)) ∧
  answered (c_conn_id c) (trace_ s) ⊆+ map rs_request_id (appended (c_conn_id c) (trace_ s)) ∧
  OAssertFailed ∉ trace_ s.
Proof.
  refine (@work_accounted sample_json slow_gateway slow_env_ok sample_setup slow_state 6
    (conn_of 6 slow_state) slow_state_reachable _ _ _).
  - vm_compute. discriminate.
  - vm_compute. reflexivity.
  - apply (bool_decide_unpack _). vm_compute. exact I.
Defined.

Lemma closed_is_final_witness :
  let tr := trace_ (sample_state 9) in
  (∀ fd id, OClose fd id ∈ take 14 tr → obs_conn (OAccept 6 2) ≠ Some id) ∧
  (∀ id r, OAccept 6 2 = OAppend id r → rs_conn_id r = id).
Proof.
  refine (@closed_is_final sample_json sample_gateway sample_env_ok sample_setup (sample_state 9)
    _ _ (drop 15 (trace_ (sample_state 9))) (sample_state_reachable 9 _) _).
  - lia.
  - vm_compute. reflexivity.
Defined.

Lemma authenticated_before_admitted_witness :
  let r := mkRequest 6 1 1 ECHO 2 (lit "hi") in
  rq_type r ≠ AUTH ∧
  ∃ client b1 b2 b3 q,
    take 7 (trace_ (sample_state 8))
      = b1 ++ OAdmitAuth q :: b2 ++ OAuthenticated (rq_conn_id r) client :: b3 ∧
    rq_conn_id q = rq_conn_id r ∧ rq_type q = AUTH.
Proof.
  refine (@authenticated_before_admitted sample_json sample_gateway sample_env_ok sample_setup
    (sample_state 8) _ _ (drop 8 (trace_ (sample_state 8))) (sample_state_reachable 8 _) _).
  - lia.
  - vm_compute. reflexivity.
Defined.

Lemma output_is_encoded_responses_witness :
  let tr := trace_ (sample_state 4) in
  (∀ id, sent id tr `prefix_of` encoded (appended id tr)) ∧
  (∀ fd c, connections_ (sample_state 4) !! fd = Some c →
     sent (c_conn_id c) tr ++ drop (Z.to_nat (c_write_offset c)) (c_output_buffer c)
       = encoded (appended (c_conn_id c) tr)).
Proof.
  refine (@output_is_encoded_responses sample_json sample_gateway sample_env_ok sample_setup
    (sample_state 4) (sample_state_reachable 4 _)). lia.
Defined.

Lemma memory_bounded_witness :
  let s := sample_state 4 in
  (∀ fd c, connections_ s !! fd = Some c →
     0 ≤ c_write_offset c ≤ zlen (c_output_buffer c) ∧
     zlen (c_output_buffer c) - c_write_offset c ≤ OUTPUT_LIMIT ∧
     zlen (c_input_buffer c) < 4 + MAX_BODY_SIZE) ∧
  size (request_queue_ s) ≤ capacity (request_queue_ s) ∧
  size (auth_queue_ s) ≤ capacity (auth_queue_ s) ∧
  size (response_queue_ s) ≤ capacity (response_queue_ s).
Proof.
  refine (@memory_bounded sample_json sample_gateway sample_env_ok sample_setup
    (sample_state 4) (sample_state_reachable 4 _)). lia.
Defined.

Lemma epoll_interest_exact_witness :
  let s := sample_state 5 in
  (∀ fd, fd ∈ k_open s ↔ fd = epfd_ s ∨ fd = nf_fd (notifier_ s) ∨
     (fd = listen_fd_ s ∧ listen_fd_ s ≠ -1) ∨ is_Some (connections_ s !! fd)) ∧
  (∀ fd c, connections_ s !! fd = Some c →
     fd ≠ epfd_ s ∧ fd ≠ listen_fd_ s ∧ fd ≠ nf_fd (notifier_ s) ∧ c_fd c = fd ∧
     k_interest s !! fd = Some (connectionEvents s c)).
Proof.
  refine (@epoll_interest_exact sample_json sample_gateway sample_env_ok sample_setup
    (sample_state 5) (sample_state_reachable 5 _)). lia.
Defined.

Lemma no_lost_wakeup_witness :
  readable (notifier_ slow_state) ∨ ∃ w, w ∈ workers_ slow_state ∧ w_pc w = WNotify.
Proof.
  refine (@no_lost_wakeup sample_json slow_gateway slow_env_ok sample_setup slow_state
    slow_state_reachable _).
  left. vm_compute. discriminate.
Defined.

Lemma drained_connection_complete_witness :
  let s := sample_draining in
  let c := conn_of 6 s in
  admitted (c_conn_id c) (trace_ s) ⊆+ map rs_request_id (appended (c_conn_id c) (trace_ s)) ∧
  sent (c_conn_id c) (trace_ s) = encoded (appended (c_conn_id c) (trace_ s)).
Proof.
  refine (@drained_connection_complete sample_json sample_gateway sample_env_ok sample_setup
    sample_draining 6 (conn_of 6 sample_draining) sample_draining_reachable _ _ _ _).
  - vm_compute. discriminate.
  - vm_compute. reflexivity.
  - apply (bool_decide_unpack _). vm_compute. exact I.
  - vm_compute. reflexivity.
Defined.
