(* ===== verification/Conservation.v ===== *)
(** * Conservation of requests

    From the bytes a client sends to the bytes it is sent: every frame received
    on a connection is decoded to one request, and every request is answered by
    exactly one response or still outstanding.  The invariant [Flow] follows
    the input side of every connection through the whole reactor
    ([src/net/TcpServer.cpp]); the accounting of [System] gives the other half. *)

From S2P Require Import Prelude Json JsonRound Protocol BlockQueue Notifier ControlTypes Stats.
From S2P Require Import RuntimeConfig Logger Handlers Server Invariant Threads Reactor System.
#[local] Open Scope Z_scope.

(** ** What a connection received *)

Definition received_in (id : Z) (e : Obs) : bytes :=
  match e with ORecv i b => if decide (i = id) then b else [] | _ => [] end.
Definition taken_in (id : Z) (e : Obs) : list Request :=
  match e with
  | OAdmit r | OAdmitAuth r => if decide (rq_conn_id r = id) then [r] else []
  | _ => []
  end.

(** The bytes read from a connection and the requests admitted from it. *)
Definition received (id : Z) (tr : list Obs) : bytes := gather (received_in id) tr.
Definition taken (id : Z) (tr : list Obs) : list Request := gather (taken_in id) tr.

(** The frame of a body: its length in four bytes, most significant first. *)
Definition frame_of (body : bytes) : bytes := be_bytes 4 (zlen body) ++ body.
Definition wire (bodies : list bytes) : bytes := concat (map frame_of bodies).

Definition body_id (body : bytes) : Z := rq_request_id (request_of_body 0 0 body).

Lemma admitted_taken id tr : admitted id tr = map rq_request_id (taken id tr).
Proof.
  unfold admitted, taken. induction tr as [|e tr IH]; [done|]. rewrite !gather_cons, map_app, IH. f_equal.
  destruct e; simpl; try done; by case_decide.
Qed.

Lemma ids_of_bodies fd id bodies : map rq_request_id (map (request_of_body fd id) bodies) = map body_id bodies.
Proof. by rewrite map_map. Qed.

Lemma wire_app a b : wire (a ++ b) = wire a ++ wire b.
Proof. unfold wire. by rewrite map_app, concat_app. Qed.

(** A length prefix is determined by its value. *)
Lemma be_val_inj a b : length a = length b → be_val a = be_val b → a = b.
Proof.
  revert b. induction a as [|x a IH]; intros [|y b] Hl; try done. cbn [be_val]. intros Hv.
  injection Hl as Hl. assert (El : zlen a = zlen b) by (unfold zlen; lia). rewrite El in Hv.
  pose proof (be_val_range a) as Ha. pose proof (be_val_range b) as Hb. rewrite El in Ha.
  set (p := 2 ^ (8 * zlen b)) in *.
  assert (Exy : byte_val x = byte_val y) by nia.
  assert (Eab : be_val a = be_val b) by nia. f_equal; [|by apply IH].
  by rewrite <- (byte_of_val x), Exy, byte_of_val.
Qed.

Lemma stream_wire mb b bodies rest st : stream mb b bodies rest st → b = wire bodies ++ rest.
Proof.
  induction 1 as [| | | |header body tail bodies rest st Hh Hv [[_ Hm] _] _ ->]; try done.
  assert (E : header = be_bytes 4 (zlen body)).
  { apply be_val_inj; [rewrite be_bytes_length; unfold zlen in Hh; lia|].
    rewrite be_val_bytes, Hv, Z.mod_small; [done|]. rewrite MAX_BODY_SIZE_val in Hm.
    pose proof (zlen_nonneg body). lia. }
  unfold wire, frame_of. simpl. by rewrite E, <- !app_assoc.
Qed.

(** What is left after the last frame: less than a length prefix, or less than
    the body that it announces. *)
Definition incomplete (rest : bytes) : Prop := zlen rest < 4 ∨ zlen rest < 4 + header_len rest.

Definition body_ok (body : bytes) : Prop := FIXED_BODY_SIZE ≤ zlen body ≤ MAX_BODY_SIZE.

(** The bytes [b] are exactly the frames of [bodies], with lengths that the
    protocol allows, and an incomplete frame. *)
Record well_framed (b : bytes) (bodies : list bytes) (rest : bytes) : Prop := mkFramed {
  wf_bytes : b = wire bodies ++ rest;
  wf_bodies : Forall body_ok bodies;
  wf_rest : incomplete rest;
}.

Lemma frame_header body tail : body_ok body → header_len (frame_of body ++ tail) = zlen body.
Proof.
  intros [_ Hm]. unfold header_len, frame_of. pose proof (zlen_nonneg body). rewrite MAX_BODY_SIZE_val in Hm.
  rewrite <- app_assoc, take_app_length' by (by rewrite be_bytes_length).
  rewrite be_val_bytes, Z.mod_small; [done|]. lia.
Qed.

Lemma frame_complete body tail : body_ok body → ¬ incomplete (frame_of body ++ tail).
Proof.
  intros Hb. unfold incomplete. rewrite frame_header by done. unfold frame_of. rewrite !zlen_app.
  pose proof (zlen_nonneg tail). pose proof (zlen_nonneg body).
  assert (zlen (be_bytes 4 (zlen body)) = 4) by (unfold zlen; by rewrite be_bytes_length). lia.
Qed.

(** There is only one way to cut bytes into frames and an incomplete rest. *)
Lemma well_framed_unique b bodies rest bodies' rest' :
  well_framed b bodies rest → well_framed b bodies' rest' → bodies = bodies' ∧ rest = rest'.
Proof.
  intros [-> Hb Hr] [E Hb' Hr']. revert bodies' E Hb'.
  induction Hb as [|x bodies Hx Hb IH]; intros [|y bodies'] E Hb'; unfold wire in *; cbn [map concat app] in *.
  - done.
  - apply Forall_cons in Hb' as [Hy _]. rewrite E, <- app_assoc in Hr. by apply frame_complete in Hr.
  - rewrite <- E, <- app_assoc in Hr'. by apply frame_complete in Hr'.
  - apply Forall_cons in Hb' as [Hy Hb']. rewrite <- !app_assoc in E.
    assert (El : zlen x = zlen y).
    { by rewrite <- (frame_header x (concat (map frame_of bodies) ++ rest)), E, frame_header. }
    apply app_inj_1 in E as [Ef E]; [|unfold frame_of, zlen in *; rewrite !length_app, !be_bytes_length; lia].
    destruct (IH bodies' E Hb') as [-> ->]. split; [|done]. f_equal. unfold frame_of in Ef.
    rewrite El in Ef. by apply app_inv_head in Ef.
Qed.

Lemma stream_framed mb b bodies rest st : stream mb b bodies rest st → st ≠ INVALID_LENGTH → well_framed b bodies rest.
Proof.
  intros Hs Hne. split; [by eapply stream_wire|..]; induction Hs as [|b Hb|b Hb Hv|b Hb Hv|header body tail bodies rest st Hh Hv Hl Hs IH];
    try done; auto.
  - constructor; [by destruct Hl|auto].
  - left. done.
  - left. lia.
  - right. lia.
Qed.

(** Decoding a buffer: the requests are those of the frames at its front. *)
Lemma decode_wire b fd cid mb st rest reqs :
  decode b fd [] cid mb = (st, rest, reqs) → st ≠ INVALID_LENGTH →
  ∃ bodies, well_framed b bodies rest ∧ reqs = map (request_of_body fd cid) bodies.
Proof.
  destruct (decode_spec b fd [] cid mb) as (bodies & r & st' & Hs & ->). intros [= -> <- <-] Hne.
  rewrite decide_False by done. exists bodies. split; [by eapply stream_framed|done].
Qed.

(** ** The invariant *)

(** Where the input side of a connection stands: every complete frame was
    decoded; bytes were read since; or an incomplete frame was dropped at the
    end of the input, which is not recorded yet. *)
Inductive stage := Framed | Fresh | Cut.

(** The history of connection [id]: the bytes received are the frames of
    [bodies] followed by [rest]; what was admitted comes from these frames;
    and while the connection lives, [rest] is its input buffer and an
    incomplete frame, and the
    requests of the frames are those admitted, those answered by the reactor
    itself, and the ones still [due]. *)
Record history (m : conns) (tr : list Obs) (due : list Z) (sg : stage) (id fd : Z)
    (bodies : list bytes) (rest : bytes) : Prop := mkHistory {
  h_received : received id tr = wire bodies ++ rest;
  h_bodies : Forall body_ok bodies;
  h_taken : taken id tr ⊆+ map (request_of_body fd id) bodies;
  h_live : ∀ x c, m !! x = Some c → c_conn_id c = id →
    x = fd ∧ (c_read_eof c = false → sg ≠ Cut → c_input_buffer c = rest) ∧
    (sg ≠ Fresh → incomplete rest) ∧
    map body_id bodies ++ answered id tr ≡ₚ
      admitted id tr ++ map rs_request_id (appended id tr) ++ due;
}.

(** Every connection has a history; [k] is the one the reactor works on.  (A
    failed assertion would void the accounting; [Inv] excludes it.) *)
Record Flow (k : Z) (due : list Z) (sg : stage) (s : Server) : Prop := mkFlow {
  f_next : 1 ≤ next_conn_id_ s;
  f_trace : ∀ e id, e ∈ trace_ s → obs_conn e = Some id → id < next_conn_id_ s;
  f_conns : ∀ fd c, connections_ s !! fd = Some c → c_fd c = fd ∧ c_conn_id c < next_conn_id_ s;
  f_unique : ids_unique (connections_ s);
  f_history : OAssertFailed ∈ trace_ s ∨ ∀ id, ∃ fd bodies rest,
    history (connections_ s) (trace_ s) (if decide (id = k) then due else [])
      (if decide (id = k) then sg else Framed) id fd bodies rest;
}.

(** Between operations nothing is due. *)
Definition Settled (s : Server) : Prop := Flow 0 [] Framed s.

Lemma flow_settled k s : Flow k [] Framed s ↔ Settled s.
Proof.
  split; intros [? ? ? ? H]; (constructor; [done..|]); (destruct H as [?|H]; [by left|right]);
    intros id; specialize (H id); by repeat case_decide.
Qed.

(** ** Steps that leave the input side alone *)

Definition similar (c c' : Connection) : Prop :=
  c_fd c' = c_fd c ∧ c_conn_id c' = c_conn_id c ∧ c_input_buffer c' = c_input_buffer c ∧
  (c_read_eof c = true → c_read_eof c' = true).

Definition live (m : conns) (id : Z) : Prop := ∃ fd c, m !! fd = Some c ∧ c_conn_id c = id.

Definition silent (m : conns) (e : Obs) : Prop :=
  match e with
  | OClose _ id | OSend id _ | OAuthenticated id _ => live m id
  | OAssertFailed => True
  | _ => False
  end.

(** From [s] to [s'] connections were closed or changed in other respects, and
    only events about live connections that carry no request happened. *)
Record carries (s s' : Server) : Prop := mkCarries {
  ca_next : next_conn_id_ s' = next_conn_id_ s;
  ca_trace : ∃ es, trace_ s' = trace_ s ++ es ∧ Forall (silent (connections_ s)) es;
  ca_conns : ∀ x c', connections_ s' !! x = Some c' → ∃ c, connections_ s !! x = Some c ∧ similar c c';
}.

Lemma similar_refl c : similar c c.
Proof. by split_and!. Qed.

Lemma similar_trans c1 c2 c3 : similar c1 c2 → similar c2 c3 → similar c1 c3.
Proof. intros (? & ? & ? & ?) (? & ? & ? & ?). split_and!; [congruence..|auto]. Qed.

Lemma carries_live s s' id : carries s s' → live (connections_ s') id → live (connections_ s) id.
Proof.
  intros [_ _ Hc] (fd & c' & Hl & <-). destruct (Hc fd c' Hl) as (c & ? & (_ & E & _)). exists fd, c. by rewrite E.
Qed.

Lemma carries_same s s' :
  next_conn_id_ s' = next_conn_id_ s → trace_ s' = trace_ s → connections_ s' = connections_ s → carries s s'.
Proof.
  intros E1 E2 E3. split; [done|exists []; split; [by rewrite app_nil_r|constructor]|].
  rewrite E3. intros x c Hc. exists c. split; [done|apply similar_refl].
Qed.

#[export] Instance carries_preorder : PreOrder carries.
Proof.
  split; [intros s; by apply carries_same|].
  intros s1 s2 s3 H1 H2. pose proof (carries_live s1 s2) as Hl.
  specialize (λ id, Hl id H1) as Hl. destruct H1 as [E1 (es1 & T1 & F1) C1]. destruct H2 as [E2 (es2 & T2 & F2) C2]. split; [congruence|..].
  - exists (es1 ++ es2). rewrite T2, T1, app_assoc. split; [done|]. apply Forall_app. split; [done|].
    eapply Forall_impl; [exact F2|]. intros [] He; simpl in *; auto.
  - intros x c3 H3. destruct (C2 x c3 H3) as (c2 & H2 & S2). destruct (C1 x c2 H2) as (c1 & H1' & S1).
    exists c1. split; [done|by eapply similar_trans].
Qed.

(** What a piece of trace says about the flow of one connection. *)
Definition flow_of (id : Z) (tr : list Obs) : bytes * list Request * list Response * list Z :=
  (received id tr, taken id tr, appended id tr, answered id tr).

Lemma flow_of_app id a b :
  flow_of id (a ++ b) = (received id a ++ received id b, taken id a ++ taken id b,
                         appended id a ++ appended id b, answered id a ++ answered id b).
Proof. unfold flow_of, received, taken, appended, answered. by rewrite !gather_app. Qed.

Lemma silent_flow m es id : Forall (silent m) es → flow_of id es = ([], [], [], []).
Proof.
  induction 1 as [|e es He _ IH]; [done|]. change (e :: es) with ([e] ++ es). rewrite flow_of_app.
  injection IH as -> -> -> ->. destruct e; try done; by rewrite !app_nil_r.
Qed.

Lemma flow_of_silent m tr es id : Forall (silent m) es → flow_of id (tr ++ es) = flow_of id tr.
Proof. intros Hs. rewrite flow_of_app. injection (silent_flow m es id Hs) as -> -> -> ->. by rewrite !app_nil_r. Qed.

Lemma history_mono m m' tr tr' due sg id fd bodies rest :
  history m tr due sg id fd bodies rest → flow_of id tr' = flow_of id tr →
  (∀ x c', m' !! x = Some c' → ∃ c, m !! x = Some c ∧ similar c c') →
  history m' tr' due sg id fd bodies rest.
Proof.
  intros [H1 Hb H2 H3] [= E1 E2 E3 E4] Hm. split; [congruence|done|congruence|].
  intros x c' Hc' Eid. destruct (Hm x c' Hc') as (c & Hc & (_ & E & Ein & Eeof)).
  destruct (H3 x c Hc) as (-> & Hin & Hinc & Hp); [congruence|]. split_and!; [done| |done|].
  - intros Hf Hsg. rewrite Ein. apply Hin; [|done]. destruct (c_read_eof c); [|done]. by rewrite Eeof in Hf.
  - rewrite !admitted_taken in *. by rewrite E2, E3, E4.
Qed.

Lemma flow_carries k due sg s s' : Flow k due sg s → carries s s' → Flow k due sg s'.
Proof.
  intros [H1 H2 H3 H4 H5] [En (es & Et & Hs) Hc]. split; rewrite ?En; [done|..].
  - intros e id. rewrite Et, elem_of_app. intros [He|He] Eid; [by apply (H2 e)|].
    rewrite Forall_forall in Hs. specialize (Hs e He).
    assert (live (connections_ s) id) as (fd & c & Hl & <-) by (destruct e; simpl in *; by simplify_eq).
    by apply (H3 fd c).
  - intros fd c' Hc'. destruct (Hc fd c' Hc') as (c & Hl & (E1 & E2 & _)).
    destruct (H3 fd c Hl). split; congruence.
  - intros f1 f2 c1 c2 Hx Hy. destruct (Hc _ _ Hx) as (d1 & ? & (_ & -> & _)).
    destruct (Hc _ _ Hy) as (d2 & ? & (_ & -> & _)). by apply H4.
  - rewrite Et. destruct H5 as [?|H5]; [left; rewrite elem_of_app; auto|right]. intros id.
    destruct (H5 id) as (fd & bodies & rest & Hh). exists fd, bodies, rest.
    eapply history_mono; [exact Hh| |exact Hc]. by eapply flow_of_silent.
Qed.

(** A connection that is gone owes nothing. *)
Lemma flow_gone k due due' sg sg' s :
  ¬ live (connections_ s) k → Flow k due sg s → Flow k due' sg' s.
Proof.
  intros Hg [H1 H2 H3 H4 H5]. split; try done. destruct H5 as [?|H5]; [by left|right]. intros id.
  destruct (H5 id) as (fd & bodies & rest & [Ha Hbo Hb Hc]). exists fd, bodies, rest. split; [done|done|done|].
  intros x c Hx Eid. destruct (decide (id = k)) as [->|Hne]; [by destruct Hg; exists x, c|]. by apply Hc.
Qed.

Section Flow.
Context `{JsonLib} (E : Env).

Lemma sync_carries s : carries s (sync E s).
Proof. sync_view E s s1. by apply carries_same. Qed.

(** A write to shared state after a synchronisation. *)
Local Ltac through_sync :=
  match goal with |- carries _ (_ (sync E ?b)) =>
    transitivity b; [|transitivity (sync E b); [apply sync_carries|by apply carries_same]] end.

Lemma action_carries a s : carries s (run_action a s).
Proof.
  pose proof (private_run_action a s) as Hv. unfold private_view, reactor_view in Hv.
  apply carries_same; congruence.
Qed.

Lemma put_carries c c' s :
  connections_ s !! c_fd c = Some c → similar c c' → carries s (put_connection c' s).
Proof.
  intros Hc Hs. split; [done|exists []; split; [by rewrite app_nil_r|constructor]|].
  intros x d. unfold put_connection. simpl. destruct Hs as (Efd & Hs). rewrite Efd.
  intros [[<- <-]|[_ Hx]]%lookup_insert_Some; [exists c; split; [done|by split]|].
  exists d. split; [done|apply similar_refl].
Qed.

Lemma emit_carries e s : silent (connections_ s) e → carries s (emit e s).
Proof.
  intros He. split; [done|exists [e]; split; [done|by constructor]|].
  intros x c Hc. exists c. split; [done|apply similar_refl].
Qed.

Lemma closeConnection_carries fd s : carries s (closeConnection E fd s).
Proof.
  unfold closeConnection. destruct (connections_ s !! fd) as [c|] eqn:Hc; [|done].
  sync_view E s s1.
  assert (Hd : ∀ s2, next_conn_id_ s2 = next_conn_id_ s1 → trace_ s2 = trace_ s1 ++ [OClose fd (c_conn_id c)] →
    connections_ s2 = delete fd (connections_ s1) → carries s s2).
  { intros s2 E1 E2 E3. split; [congruence| |].
    - exists [OClose fd (c_conn_id c)]. split; [congruence|]. constructor; [|done]. by exists fd, c.
    - rewrite E3, Vconn. intros x d [_ Hx]%lookup_delete_Some. exists d. split; [done|apply similar_refl]. }
  destruct (c_auth_cancellation c); simpl; repeat (case_bool; simpl); by apply Hd.
Qed.

Lemma closeConnection_gone fd s : connections_ (closeConnection E fd s) !! fd = None.
Proof. rewrite closeConnection_connections. apply lookup_delete_eq. Qed.

Lemma modify_carries fd events s : carries s (modifyConnectionEvents E fd events s).2.
Proof.
  unfold modifyConnectionEvents. case_bool; [by apply carries_same|].
  etransitivity; [|apply closeConnection_carries]. by apply carries_same.
Qed.

Lemma maybeClose_carries fd s : carries s (maybeCloseAfterDrain E fd s).
Proof.
  unfold maybeCloseAfterDrain. case_match; [|done]. case_bool; [apply closeConnection_carries|done].
Qed.

(** The key of a connection is its descriptor. *)
Definition keyed (s : Server) : Prop := ∀ fd c, connections_ s !! fd = Some c → c_fd c = fd.

Lemma flow_keyed k due sg s : Flow k due sg s → keyed s.
Proof. intros HF fd c Hc. by apply (f_conns _ _ _ _ HF). Qed.

Lemma carries_keyed s s' : carries s s' → keyed s → keyed s'.
Proof.
  intros [_ _ Hc] Hk fd c' Hc'. destruct (Hc fd c' Hc') as (c & Hl & (-> & _)). by apply Hk.
Qed.

Lemma markReadEof_carries fd s : keyed s → carries s (markReadEof E fd s).
Proof.
  intros Hk. unfold markReadEof. destruct (connections_ s !! fd) as [c|] eqn:Hc; [|done].
  case_bool; [apply maybeClose_carries|]. pose proof (Hk fd c Hc) as Efd.
  assert (Hp : carries s (put_connection (set_c_read_eof true c) s)).
  { apply (put_carries c); [by rewrite Efd|]. by split_and!. }
  case_bool; (etransitivity; [exact Hp|]); [apply closeConnection_carries|apply modify_carries].
Qed.

Lemma markReadEof_eof fd s c :
  keyed s → connections_ (markReadEof E fd s) !! fd = Some c → c_read_eof c = true.
Proof.
  intros Hk. unfold markReadEof. destruct (connections_ s !! fd) as [d|] eqn:Hd; [|congruence].
  pose proof (Hk fd d Hd) as Efd. destruct (c_read_eof d) eqn:Ee.
  - unfold maybeCloseAfterDrain. rewrite Hd. case_bool; [by rewrite closeConnection_gone|congruence].
  - case_bool; [by rewrite closeConnection_gone|]. intros Hc.
    match type of Hc with context [(modifyConnectionEvents E ?f ?ev ?s1).2] =>
      destruct (modify_connections E f ev s1) as [Em|Em] end; rewrite Em in Hc;
      unfold put_connection in Hc; simpl in Hc; rewrite Efd in Hc.
    + rewrite lookup_insert_eq in Hc. by injection Hc as <-.
    + by rewrite lookup_delete_eq in Hc.
Qed.

Lemma output_drained_carries fd c s : carries s (output_drained E fd c s).
Proof. unfold output_drained. case_bool; [apply closeConnection_carries|apply modify_carries]. Qed.

Lemma handleWrite_carries fd script s s' :
  keyed s → handleWrite E fd script s = Some s' → carries s s'.
Proof.
  revert s. induction script as [|a script IH]; intros s Hk; cbn [handleWrite];
    (destruct (connections_ s !! fd) as [c|] eqn:Hc; [|by intros [= <-]]);
    (case_bool; [intros [= <-]; apply output_drained_carries|]); [done|].
  destruct a as [n| | |]; [|by apply IH|by intros [= <-]|intros [= <-]; apply closeConnection_carries].
  case_bool; [done|]. pose proof (Hk fd c Hc) as Efd. set (e := OSend _ _).
  assert (Hstep : ∀ c', similar c c' → carries s (put_connection c' (emit e (stat (incrementWriteBytes n) s)))).
  { intros c' Hs. transitivity (emit e (stat (incrementWriteBytes n) s)).
    - transitivity (stat (incrementWriteBytes n) s); [by apply carries_same|]. apply emit_carries. by exists fd, c.
    - apply (put_carries c); [by rewrite Efd|done]. }
  case_bool.
  - intros [= <-]. etransitivity; [|apply output_drained_carries]. apply Hstep. by split_and!.
  - intros Hw. etransitivity; [|eapply IH; [|exact Hw]]; [apply Hstep; by split_and!|].
    eapply carries_keyed; [|exact Hk]. apply Hstep. by split_and!.
Qed.

Lemma fold_carries {A} (f : Server → A → Server) l s :
  (∀ s a, carries s (f s a)) → carries s (fold_left f l s).
Proof.
  intros Hf. revert s. induction l as [|a l IH]; intros s; [done|]. simpl. etransitivity; [apply Hf|apply IH].
Qed.

Lemma close_all_carries fds s : carries s (close_all E fds s).
Proof. apply fold_carries. intros. apply closeConnection_carries. Qed.

Lemma drainRejectedResponses_carries s : carries s (drainRejectedResponses E s).
Proof.
  unfold drainRejectedResponses. etransitivity; [apply (sync_carries s)|].
  etransitivity; [|apply fold_carries].
  - by apply carries_same.
  - intros s2 key. unfold close_rejected. case_match; [|done]. case_bool; [apply closeConnection_carries|done].
Qed.

Lemma beginDraining_carries s : carries s (beginDraining E s).
Proof.
  unfold beginDraining. case_bool; [done|]. unfold now, markNotReady, closeListener. cbv zeta.
  etransitivity; [|apply fold_carries; intros ? []; apply modify_carries].
  etransitivity; [apply (sync_carries s)|].
  do 2 through_sync.
  apply carries_same; repeat (case_bool; simpl); done.
Qed.

Lemma all_hold_carries checks s : carries s (all_hold E checks s).2.
Proof.
  revert s. induction checks as [|check checks IH]; intros s; [done|]. cbn [all_hold]. cbv zeta.
  etransitivity; [apply sync_carries|]. case_match; [apply IH|done].
Qed.

Lemma drainComplete_carries s : carries s (drainComplete E s).2.
Proof.
  unfold drainComplete. pose proof (all_hold_carries queues_drained s) as Hh.
  destruct (all_hold E queues_drained s) as [drained s1]. case_bool; [done|].
  etransitivity; [exact Hh|apply close_all_carries].
Qed.

Lemma finish_draining_carries s : carries s (finish_draining E s).
Proof.
  rewrite finish_draining_unfold. case_bool; [|done]. pose proof (drainComplete_carries s) as Hd.
  destruct (drainComplete E s) as [complete s1]. simpl in Hd.
  transitivity s1; [done|]. destruct complete; [by apply carries_same|]. case_bool; [|by apply carries_same].
  unfold stop_at_deadline. cbv zeta.
  match goal with |- carries _ (set_state_ _ ?s2) => transitivity s2; [|by apply carries_same] end.
  do 3 through_sync. by apply carries_same.
Qed.

Lemma reactor_consume_carries fuel s s' : reactor_consume E fuel s = Some s' → carries s s'.
Proof.
  revert s. induction fuel as [|fuel IH]; intros s; cbn [reactor_consume];
    (destruct (_ =? -1); [by intros [= <-]|]); [done|].
  cbv zeta. pose proof (sync_carries s) as Hs. destruct (eventfd_read _) as [[] n]; intros Hr;
    try (by injection Hr as <-). etransitivity; [|by eapply IH]. etransitivity; [exact Hs|by apply carries_same].
Qed.

Lemma begin_iteration_carries s : carries s (begin_iteration E s).
Proof.
  unfold begin_iteration, epollTimeoutMs, now. cbv zeta.
  assert (Hd : ∀ (b : bool) s1, carries s1 (if b then beginDraining E s1 else s1)).
  { intros [] s1; [apply beginDraining_carries|done]. }
  case_bool; (etransitivity; [|apply sync_carries]); (etransitivity; [apply sync_carries|]); [apply Hd|].
  etransitivity; [apply Hd|by apply carries_same].
Qed.

(** ** Steps on one connection *)

(** The history of a live connection. *)
Record ledger (c : Connection) (tr : list Obs) (due : list Z) (sg : stage) (fd : Z)
    (bodies : list bytes) (rest : bytes) : Prop := mkLedger {
  l_received : received (c_conn_id c) tr = wire bodies ++ rest;
  l_bodies : Forall body_ok bodies;
  l_taken : taken (c_conn_id c) tr ⊆+ map (request_of_body fd (c_conn_id c)) bodies;
  l_input : c_read_eof c = false → sg ≠ Cut → c_input_buffer c = rest;
  l_rest : sg ≠ Fresh → incomplete rest;
  l_ids : map body_id bodies ++ answered (c_conn_id c) tr ≡ₚ
            admitted (c_conn_id c) tr ++ map rs_request_id (appended (c_conn_id c) tr) ++ due;
}.

Lemma ledger_similar c c' tr due sg fd bodies rest :
  similar c c' → ledger c tr due sg fd bodies rest → ledger c' tr due sg fd bodies rest.
Proof.
  intros (_ & F2 & F3 & F4) [L1 Lb L2 L3 Lr L4]. split; rewrite ?F2, ?F3; try done.
  intros Hf. apply L3. destruct (c_read_eof c); [|done]. by rewrite F4 in Hf.
Qed.

(** One more event about the connection. *)
Local Ltac extend_ledger :=
  intros [L1 Lb L2 L3 Lr L4]; split; rewrite ?admitted_taken in *; unfold received, taken, appended, answered in *;
    rewrite ?gather_snoc; simpl; rewrite ?decide_True, ?app_nil_r by done; try done.

Lemma ledger_append c tr r due sg fd bodies rest :
  ledger c tr (rs_request_id r :: due) sg fd bodies rest →
  ledger c (tr ++ [OAppend (c_conn_id c) r]) due sg fd bodies rest.
Proof. extend_ledger. rewrite L4, map_app, <- !app_assoc. done. Qed.

Lemma ledger_answer c tr q due sg fd bodies rest :
  ledger c tr due sg fd bodies rest →
  ledger c (tr ++ [OAnswer (c_conn_id c) q]) (q :: due) sg fd bodies rest.
Proof. extend_ledger. rewrite app_assoc, L4, <- !app_assoc. by rewrite (Permutation_app_comm due). Qed.

Lemma flow_ledger k due sg s fd c :
  Flow k due sg s → connections_ s !! fd = Some c → c_conn_id c = k →
  OAssertFailed ∈ trace_ s ∨ ∃ bodies rest, ledger c (trace_ s) due sg fd bodies rest.
Proof.
  intros HF Hc <-. destruct (f_history _ _ _ _ HF) as [?|Hh]; [by left|right].
  destruct (Hh (c_conn_id c)) as (f & bodies & rest & [H1 Hb H2 H3]). exists bodies, rest.
  destruct (H3 fd c Hc eq_refl) as (-> & Hin & Hr & Hp). rewrite !decide_True in * by done.
  by split.
Qed.

Lemma flow_of_other k id tr es :
  Forall (about k) es → id ≠ k → flow_of id (tr ++ es) = flow_of id tr.
Proof.
  intros Ha Hne. rewrite flow_of_app. unfold flow_of, received, taken, appended, answered.
  rewrite !(gather_about _ k id es); [by rewrite !app_nil_r|..]; try done;
    intros e He Hk; unfold about in He; destruct e; simpl in *; try done; case_decide; congruence.
Qed.

(** The step changes connection [k] and adds events about it. *)
Lemma flow_update k due sg due' sg' s s' fd c c' es :
  Flow k due sg s → connections_ s !! fd = Some c → c_conn_id c = k →
  next_conn_id_ s' = next_conn_id_ s → trace_ s' = trace_ s ++ es → Forall (about k) es →
  connections_ s' = <[fd := c']> (connections_ s) → c_fd c' = fd → c_conn_id c' = k →
  (∀ bodies rest, ledger c (trace_ s) due sg fd bodies rest →
     ∃ bodies' rest', ledger c' (trace_ s') due' sg' fd bodies' rest') →
  Flow k due' sg' s'.
Proof.
  intros HF Hc Ek En Et Ha Em Efd Ek' Hstep. pose proof (flow_ledger _ _ _ _ _ _ HF Hc Ek) as Hl.
  destruct HF as [H1 H2 H3 H4 H5]. split; rewrite ?En, ?Em; [done|..].
  - intros e id. rewrite Et, elem_of_app. intros [He|He] Eid; [by apply (H2 e)|].
    rewrite Forall_forall in Ha. specialize (Ha e He). unfold about in Ha.
    destruct (H3 fd c Hc). congruence.
  - intros x d [[<- <-]|[_ Hx]]%lookup_insert_Some; [|by apply H3]. destruct (H3 fd c Hc). split; congruence.
  - intros f1 f2 c1 c2 [[<- <-]|[? Hx]]%lookup_insert_Some [[<- <-]|[? Hy]]%lookup_insert_Some Ee; try done.
    + apply (H4 fd f2 c c2); congruence.
    + apply (H4 f1 fd c1 c); congruence.
    + by apply (H4 f1 f2 c1 c2).
  - destruct Hl as [Hl|(bodies & rest & Hl)]; [left; rewrite Et, elem_of_app; auto|].
    destruct H5 as [?|H5]; [left; rewrite Et, elem_of_app; auto|right]. intros id.
    destruct (decide (id = k)) as [->|Hne].
    + destruct (Hstep bodies rest Hl) as (bodies' & rest' & [L1 Lb L2 L3 Lr L4]). rewrite Ek' in *.
      exists fd, bodies', rest'. split; [done|done|done|].
      intros x d [[<- <-]|[Hx Hd]]%lookup_insert_Some Eid; [done|].
      destruct Hx. apply (H4 fd x c d); congruence.
    + destruct (H5 id) as (f & bs & r & Hh). exists f, bs, r. rewrite !decide_False in Hh by done.
      eapply (history_mono (<[fd := c']> (connections_ s)));
        [|rewrite Et; by eapply flow_of_other|intros x d Hd; exists d; split; [done|apply similar_refl]].
      destruct Hh as [G1 Gb G2 G3]. split; [done|done|done|].
      intros x d [[<- <-]|[Hx Hd]]%lookup_insert_Some Eid; [congruence|]. by apply G3.
Qed.

Lemma flow_closed k due sg due' sg' s fd c :
  Flow k due sg s → connections_ s !! fd = Some c → c_conn_id c = k →
  Flow k due' sg' (closeConnection E fd s).
Proof.
  intros HF Hc Ek. apply (flow_gone k due due' sg sg').
  - intros (x & d & Hd & Eid). rewrite closeConnection_connections in Hd.
    apply lookup_delete_Some in Hd as [Hne Hd]. apply Hne. apply (f_unique _ _ _ _ HF fd x c d); congruence.
  - eapply flow_carries; [exact HF|apply closeConnection_carries].
Qed.

Lemma flow_voided k due sg k' due' sg' s :
  OAssertFailed ∈ trace_ s → Flow k due sg s → Flow k' due' sg' s.
Proof. intros Hv []. split; try done. by left. Qed.

(** ** Responses *)

Lemma put_lookup c s : connections_ (put_connection c s) !! c_fd c = Some c.
Proof. apply lookup_insert_eq. Qed.

Lemma flow_append k r due sg s fd c c' :
  Flow k (rs_request_id r :: due) sg s → connections_ s !! fd = Some c → c_conn_id c = k → similar c c' →
  Flow k due sg (emit (OAppend k r) (put_connection c' s)).
Proof.
  intros HF Hc Ek Hs. pose proof (flow_keyed _ _ _ _ HF fd c Hc) as Efd. destruct Hs as (F1 & F2 & F3 & F4).
  eapply (flow_update k _ _ _ _ s _ fd c c' [OAppend k r]); try done; [by repeat constructor| |congruence|congruence|].
  { unfold put_connection. simpl. by rewrite F1, Efd. }
  intros bodies rest Hl. exists bodies, rest. subst k. eapply ledger_similar; [by split_and!|].
  by apply ledger_append.
Qed.

Lemma apply_output_flow config k r due sg s c :
  Flow k (rs_request_id r :: due) sg s → connections_ s !! rs_fd r = Some c → c_conn_id c = k →
  Flow k due sg (apply_output E config r c s).
Proof.
  intros HF Hc Ek. unfold apply_output. case_bool.
  - eapply (flow_closed k (rs_request_id r :: due) sg); [|exact Hc|done].
    eapply flow_carries; [exact HF|by apply carries_same].
  - eapply flow_carries; [|apply modify_carries]. simpl.
    match goal with |- Flow _ _ _ (emit (OAppend (c_conn_id ?c') _) _) =>
      assert (Hs : similar c c') by (case_bool; by split_and!);
      replace (c_conn_id c') with k by (destruct Hs as (_ & -> & _); done) end.
    by eapply flow_append.
Qed.

(** The authentication part keeps the answer for the same request. *)
Lemma apply_authentication_carries config r c s r' c' s' :
  apply_authentication config r c s = (r', c', s') → live (connections_ s) (c_conn_id c) →
  similar c c' ∧ carries s s' ∧ connections_ s' = connections_ s ∧
  rs_request_id r' = rs_request_id r ∧ rs_fd r' = rs_fd r.
Proof.
  intros Ha Hl. unfold apply_authentication in Ha. repeat case_match; simplify_eq;
    (split; [by split_and!|]); (split; [|done]); try (by apply carries_same).
  etransitivity; [|by apply emit_carries]. by apply carries_same.
Qed.

Lemma apply_matched_flow config k r due sg s c c' :
  Flow k (rs_request_id r :: due) sg s → connections_ s !! rs_fd r = Some c → c_conn_id c = k → similar c c' →
  Flow k due sg (apply_matched E config r c' s).
Proof.
  intros HF Hc Ek Hs. unfold apply_matched. set (c1 := if _ || _ then _ else c').
  assert (Hs1 : similar c c1).
  { eapply similar_trans; [exact Hs|]. unfold c1. case_bool; by split_and!. }
  clearbody c1. pose proof (flow_keyed _ _ _ _ HF _ _ Hc) as Efd.
  destruct (apply_authentication config r c1 s) as [[r2 c2] s2] eqn:Ea.
  assert (Hl : live (connections_ s) (c_conn_id c1)) by (destruct Hs1 as (_ & -> & _); by eexists _, c).
  destruct (apply_authentication_carries _ _ _ _ _ _ _ Ea Hl) as (Hs2 & Hca & Em & Erq & Erf).
  pose proof (similar_trans _ _ _ Hs1 Hs2) as Hs3.
  assert (Hp : carries s (put_connection c2 s2)).
  { transitivity s2; [done|]. apply (put_carries c); [by rewrite Em, Efd|done]. }
  assert (Hc2 : connections_ (put_connection c2 s2) !! rs_fd r2 = Some c2).
  { replace (rs_fd r2) with (c_fd c2) by (destruct Hs3 as (-> & _); congruence). apply put_lookup. }
  assert (Ek2 : c_conn_id c2 = k) by (destruct Hs3 as (_ & -> & _); done).
  rewrite <- Erq in HF. pose proof (flow_carries _ _ _ _ _ HF Hp) as HF2.
  case_bool; [by eapply flow_closed|by eapply apply_output_flow].
Qed.

(** A response of the reactor itself pays for one of the requests due. *)
Lemma applyResponse_local_flow k r due sg s :
  Flow k (rs_request_id r :: due) sg s → rs_conn_id r = k →
  (∀ x c, connections_ s !! x = Some c → c_conn_id c = k → x = rs_fd r) →
  Flow k due sg (applyResponse E r Local_ s).
Proof.
  intros HF Ek Hfd. rewrite applyResponse_unfold. cbv zeta.
  pose proof (flow_carries _ _ _ _ _ HF (sync_carries s)) as HF1. sync_view E s s1. rewrite <- Vconn in Hfd.
  assert (Hgone : ¬ live (connections_ s1) k → Flow k due sg (stat incrementStaleResponseDropped s1)).
  { intros Hg. apply (flow_carries _ _ _ s1); [|by apply carries_same].
    by apply (flow_gone k (rs_request_id r :: due) due sg sg). }
  destruct (connections_ s1 !! rs_fd r) as [c|] eqn:Hc.
  - destruct (Z.eqb_spec (c_conn_id c) (rs_conn_id r)) as [Eid|Eid].
    + eapply apply_matched_flow; [exact HF1|exact Hc|congruence|apply similar_refl].
    + apply Hgone. intros (x & d & Hd & Ed). rewrite (Hfd x d Hd Ed) in Hd. congruence.
  - apply Hgone. intros (x & d & Hd & Ed). rewrite (Hfd x d Hd Ed) in Hd. congruence.
Qed.

(** A response of a worker answers a request that was admitted. *)
Lemma applyResponse_worker_flow r s : Settled s → Settled (applyResponse E r Worker_ s).
Proof.
  intros HF. rewrite applyResponse_unfold. cbv zeta.
  pose proof (flow_carries _ _ _ _ _ HF (sync_carries s)) as HF1. sync_view E s s1.
  destruct (connections_ s1 !! rs_fd r) as [c|] eqn:Hc; [|eapply flow_carries; [exact HF1|by apply carries_same]].
  case_bool; [|eapply flow_carries; [exact HF1|by apply carries_same]]. set (k := c_conn_id c).
  apply (flow_settled k). apply (flow_settled k) in HF1. case_bool.
  - eapply (apply_matched_flow _ k r [] Framed _ c); [|done|done|apply similar_refl].
    apply (flow_voided k [] Framed); [simpl; rewrite elem_of_app; right; by left|].
    eapply flow_carries; [exact HF1|by apply emit_carries].
  - eapply (apply_matched_flow _ k r [] Framed _ c); [|done|done|by split_and!].
    eapply (flow_update k [] Framed _ Framed s1 _ _ c c [OAnswer k (rs_request_id r)]);
      [exact HF1|exact Hc|done|done|done|by repeat constructor|by rewrite insert_id| |done|].
    { by eapply flow_keyed. }
    intros bodies rest Hl. exists bodies, rest. by apply ledger_answer.
Qed.

(** ** Requests *)

(** Admitting requests: the events, the refused ones among the local
    responses, and the connection counting its work. *)
Record admission (event : Request → Obs) (reqs : list Request) (fd : Z) (c : Connection)
    (local local' : list Response) (s s' : Server) (accepted refused : list Request) : Prop := mkAdmission {
  ad_reqs : reqs ≡ₚ accepted ++ refused;
  ad_trace : trace_ s' = trace_ s ++ map event accepted;
  ad_local : map rs_request_id local' ≡ₚ map rs_request_id local ++ map rq_request_id refused;
  ad_keys : Forall (local_ok (conn_key c)) local → Forall (local_ok (conn_key c)) local';
  ad_next : next_conn_id_ s' = next_conn_id_ s;
  ad_conns : ∃ c', connections_ s' = <[fd := c']> (connections_ s) ∧ similar c c';
}.

Lemma admission_none event fd c local s s' :
  connections_ s !! fd = Some c → connections_ s' = connections_ s → trace_ s' = trace_ s →
  next_conn_id_ s' = next_conn_id_ s → admission event [] fd c local local s s' [] [].
Proof.
  intros Hc E1 E2 E3. split; rewrite ?app_nil_r; try done. exists c. rewrite E1, insert_id by done.
  split; [done|apply similar_refl].
Qed.

Lemma count_in_flight_conns fd c s :
  connections_ s !! fd = Some c → c_fd c = fd →
  ∃ c', connections_ (count_in_flight (conn_key c) s) = <[fd := c']> (connections_ s) ∧ similar c c' ∧
    trace_ (count_in_flight (conn_key c) s) = trace_ s ∧
    next_conn_id_ (count_in_flight (conn_key c) s) = next_conn_id_ s.
Proof.
  intros Hc Efd. unfold count_in_flight, conn_key. simpl. rewrite Efd, Hc, Z.eqb_refl.
  exists (set_c_in_flight_work (c_in_flight_work c + 1) c). split; [|by split_and!].
  unfold put_connection. simpl. by rewrite Efd.
Qed.

Lemma admission_accept event r reqs fd c c1 local local' s s1 s' accepted refused :
  trace_ s1 = trace_ s ++ [event r] → next_conn_id_ s1 = next_conn_id_ s →
  connections_ s1 = <[fd := c1]> (connections_ s) → similar c c1 →
  admission event reqs fd c1 local local' s1 s' accepted refused →
  admission event (r :: reqs) fd c local local' s s' (r :: accepted) refused.
Proof.
  intros Et En Em Hs [H1 H2 H3 H4 H5 (c2 & E2 & S2)]. assert (Ek : conn_key c1 = conn_key c).
  { destruct Hs as (? & ? & _). unfold conn_key. congruence. }
  split; [by rewrite H1|by rewrite H2, Et, <- app_assoc|done|by rewrite <- Ek|congruence|].
  exists c2. rewrite E2, Em, insert_insert_eq. split; [done|by eapply similar_trans].
Qed.

Lemma admission_refuse event r refusal reqs fd c local local' s s1 s' accepted refused :
  trace_ s1 = trace_ s → next_conn_id_ s1 = next_conn_id_ s → connections_ s1 = connections_ s →
  rs_request_id refusal = rq_request_id r → local_ok (conn_key c) refusal →
  admission event reqs fd c (local ++ [refusal]) local' s1 s' accepted refused →
  admission event (r :: reqs) fd c local local' s s' accepted (r :: refused).
Proof.
  intros Et En Em Er Hk [H1 H2 H3 H4 H5 H6]. split.
  - by rewrite H1, Permutation_middle.
  - congruence.
  - rewrite H3, map_app, <- app_assoc. simpl. by rewrite Er.
  - intros Hl. apply H4, Forall_app. split; [done|]. constructor; [done|constructor].
  - congruence.
  - by rewrite <- Em.
Qed.

Lemma enqueue_requests_admission reqs fd c local s :
  connections_ s !! fd = Some c → c_fd c = fd → Forall (λ r, request_key r = conn_key c) reqs →
  ∃ accepted refused, admission OAdmit reqs fd c local (enqueue_requests E reqs local s).1 s
    (enqueue_requests E reqs local s).2 accepted refused.
Proof.
  intros Hc Efd Hk. revert c local s Hc Efd Hk. induction reqs as [|r reqs IH]; intros c local s Hc Efd Hk.
  { exists [], []. by apply admission_none. }
  apply Forall_cons in Hk as [Hr Hk]. cbn [enqueue_requests]. cbv zeta. sync_view E s s1.
  assert (Hrefuse : ∀ o s2, trace_ s2 = trace_ s1 → next_conn_id_ s2 = next_conn_id_ s1 →
    connections_ s2 = connections_ s1 → rs_request_id o = rq_request_id r → local_ok (conn_key c) o →
    ∃ acc ref, admission OAdmit (r :: reqs) fd c local
      (enqueue_requests E reqs (local ++ [o]) s2).1 s (enqueue_requests E reqs (local ++ [o]) s2).2 acc ref).
  { intros o s2 E1 E2 E3 Hid Ho. destruct (IH c (local ++ [o]) s2) as (acc & ref & Ha); [congruence|done|done|].
    exists acc, (r :: ref). eapply admission_refuse; [..|exact Ha]; congruence. }
  destruct (push r (request_queue_ s1)) as [[] q]; [|by apply Hrefuse..].
  rewrite Hr. set (s2 := emit (OAdmit r) (set_request_queue_ q s1)).
  destruct (count_in_flight_conns fd c s2) as (c1 & E1 & Hs & E2 & E3); [simpl; congruence|done|].
  destruct (IH c1 local (count_in_flight (conn_key c) s2)) as (acc & ref & Ha).
  - rewrite E1. apply lookup_insert_eq.
  - destruct Hs as (-> & _). done.
  - eapply Forall_impl; [exact Hk|]. destruct Hs as (? & ? & _). unfold conn_key. simpl. intros r' ->. congruence.
  - exists (r :: acc), ref. eapply admission_accept; [| | |exact Hs|exact Ha].
    + rewrite E2. simpl. by rewrite Vtrace.
    + rewrite E3. simpl. done.
    + rewrite E1. simpl. by rewrite Vconn.
Qed.

Lemma enqueue_auth_admission ts fd c local s :
  connections_ s !! fd = Some c → c_fd c = fd → Forall (λ t, task_key t = conn_key c) ts →
  ∃ accepted refused, admission OAdmitAuth (map at_request ts) fd c local (enqueue_auth E ts local s).1 s
    (enqueue_auth E ts local s).2 accepted refused.
Proof.
  intros Hc Efd Hk. revert c local s Hc Efd Hk. induction ts as [|t ts IH]; intros c local s Hc Efd Hk.
  { exists [], []. by apply admission_none. }
  apply Forall_cons in Hk as [Ht Hk]. cbn [enqueue_auth map]. cbv zeta. sync_view E s s1.
  assert (Hrefuse : ∀ o s2, trace_ s2 = trace_ s1 → next_conn_id_ s2 = next_conn_id_ s1 →
    connections_ s2 = connections_ s1 → rs_request_id o = rq_request_id (at_request t) → local_ok (conn_key c) o →
    ∃ acc ref, admission OAdmitAuth (at_request t :: map at_request ts) fd c local
      (enqueue_auth E ts (local ++ [o]) s2).1 s (enqueue_auth E ts (local ++ [o]) s2).2 acc ref).
  { intros o s2 E1 E2 E3 Hid Ho. destruct (IH c (local ++ [o]) s2) as (acc & ref & Ha); [congruence|done|done|].
    exists acc, (at_request t :: ref). eapply admission_refuse; [..|exact Ha]; congruence. }
  destruct (push t (auth_queue_ s1)) as [[] q]; [|by apply Hrefuse..].
  rewrite Ht. set (s2 := emit (OAdmitAuth (at_request t)) (set_auth_queue_ q s1)).
  destruct (count_in_flight_conns fd c s2) as (c1 & E1 & Hs & E2 & E3); [simpl; congruence|done|].
  destruct (IH c1 local (count_in_flight (conn_key c) s2)) as (acc & ref & Ha).
  - rewrite E1. apply lookup_insert_eq.
  - destruct Hs as (-> & _). done.
  - eapply Forall_impl; [exact Hk|]. destruct Hs as (? & ? & _). unfold conn_key. simpl. intros t' ->. congruence.
  - exists (at_request t :: acc), ref. eapply admission_accept; [| | |exact Hs|exact Ha].
    + rewrite E2. simpl. by rewrite Vtrace.
    + rewrite E3. simpl. done.
    + rewrite E1. simpl. by rewrite Vconn.
Qed.

Lemma perm_first {A} (a b l : list A) x : (a ++ [x]) ++ b ++ l ≡ₚ (a ++ b ++ l) ++ [x].
Proof. by rewrite <- !app_assoc, (Permutation_app_comm [x]), <- !app_assoc. Qed.

Lemma perm_second {A} (a b l : list A) x : a ++ (b ++ [x]) ++ l ≡ₚ (a ++ b ++ l) ++ [x].
Proof. by rewrite <- !app_assoc, (Permutation_app_comm [x] l). Qed.

(** The classification loses no request of a batch that is not refused as a
    whole: each is to be admitted or has a local response. *)
Definition batch_ids (b : Batch) : list Z :=
  map rq_request_id (map at_request (b_auth_tasks b)) ++ map rq_request_id (b_requests b)
    ++ map rs_request_id (b_local b).

Definition batch_requests (b : Batch) : list Request := map at_request (b_auth_tasks b) ++ b_requests b.

Lemma classify_conserves config decoded b s :
  b_close_now (classify E config decoded b s).1 = false →
  batch_ids (classify E config decoded b s).1 ≡ₚ batch_ids b ++ map rq_request_id decoded ∧
  batch_requests (classify E config decoded b s).1 ⊆+ batch_requests b ++ decoded.
Proof.
  revert b s. induction decoded as [|r decoded IH]; intros b s; [by rewrite !app_nil_r|].
  assert (Hstep : ∀ b1 s1, batch_ids b1 ≡ₚ batch_ids b ++ [rq_request_id r] →
    batch_requests b1 ⊆+ batch_requests b ++ [r] →
    b_close_now (classify E config decoded b1 s1).1 = false →
    batch_ids (classify E config decoded b1 s1).1 ≡ₚ batch_ids b ++ map rq_request_id (r :: decoded) ∧
    batch_requests (classify E config decoded b1 s1).1 ⊆+ batch_requests b ++ r :: decoded).
  { intros b1 s1 H1 H2 Hc. destruct (IH b1 s1 Hc) as [G1 G2]. split.
    - rewrite G1, H1, <- app_assoc. done.
    - etransitivity; [exact G2|]. rewrite cons_middle, app_assoc. by apply submseteq_app. }
  cbn [classify]. cbv zeta. case_bool; [done|]. case_bool.
  - case_bool; [done|]. unfold makeAuthTask. case_bool; [|done]. apply Hstep.
    + unfold batch_ids. simpl. rewrite !map_app. simpl. apply perm_first.
    + unfold batch_requests. simpl. rewrite map_app. simpl. by rewrite <- !app_assoc, (Permutation_app_comm [r]).
  - case_bool.
    + apply Hstep; [|by apply submseteq_inserts_r].
      unfold batch_ids. simpl. rewrite map_app, !app_assoc. done.
    + destruct (allowRequestForClient E _ config s) as [[] s1]; apply Hstep.
      * unfold batch_ids. simpl. rewrite !map_app. simpl. apply perm_second.
      * unfold batch_requests. simpl. by rewrite app_assoc.
      * unfold batch_ids. simpl. rewrite map_app, !app_assoc. done.
      * by apply submseteq_inserts_r.
Qed.

(** A response opens no connection. *)
Lemma apply_output_shrinks config r c s x c' :
  connections_ s !! c_fd c = Some c → connections_ (apply_output E config r c s) !! x = Some c' →
  ∃ c0, connections_ s !! x = Some c0 ∧ similar c0 c'.
Proof.
  intros Hc. unfold apply_output. case_bool.
  - intros Hx. by destruct (ca_conns _ _ (closeConnection_carries (rs_fd r) (stat _ (stat _ s))) x c' Hx) as (d & ? & ?);
      exists d.
  - match goal with |- context [emit (OAppend _ r) (put_connection ?d s)] => set (c1 := d) end.
    intros Hx. apply (ca_conns _ _ (modify_carries _ _ _)) in Hx as (d & Hd & Hs).
    destruct (ca_conns _ _ (put_carries c c1 s Hc ltac:(unfold c1; case_bool; by split_and!)) x d Hd)
      as (d0 & ? & ?). exists d0. split; [done|by eapply similar_trans].
Qed.

Lemma applyResponse_shrinks r o s x c' :
  keyed s → connections_ (applyResponse E r o s) !! x = Some c' →
  ∃ c, connections_ s !! x = Some c ∧ similar c c'.
Proof.
  intros Hk. rewrite applyResponse_unfold. cbv zeta. sync_view E s s1.
  assert (Hid : connections_ s1 !! x = Some c' → ∃ c, connections_ s !! x = Some c ∧ similar c c').
  { rewrite Vconn. intros Hx. exists c'. split; [done|apply similar_refl]. }
  destruct (connections_ s1 !! rs_fd r) as [c|] eqn:Hc; [|exact Hid]. case_bool; [|exact Hid].
  assert (Efd : c_fd c = rs_fd r) by (apply Hk; congruence).
  set (p := match o with Worker_ => _ | Local_ => _ end).
  assert (Hp : similar c p.1 ∧ connections_ p.2 = connections_ s).
  { unfold p. destruct o; [|case_bool]; simpl; (split; [by split_and!|done]). }
  destruct p as [c1 s2]. simpl in Hp. destruct Hp as [Hs1 E2]. unfold apply_matched.
  set (c2 := if _ || _ then _ else c1).
  assert (Hs2 : similar c c2) by (eapply similar_trans; [exact Hs1|]; unfold c2; case_bool; by split_and!).
  clearbody c2. destruct (apply_authentication _ r c2 s2) as [[r3 c3] s3] eqn:Ea.
  apply apply_authentication_carries in Ea as (Hs3 & Hca & E3 & _ & Ef3);
    [|destruct Hs2 as (_ & -> & _); exists (rs_fd r), c; split; congruence].
  pose proof (similar_trans _ _ _ Hs2 Hs3) as Hs.
  assert (Hput : ∀ d, connections_ (put_connection c3 s3) !! x = Some d → ∃ c0, connections_ s !! x = Some c0 ∧ similar c0 d).
  { intros d Hd. apply (ca_conns _ _ (put_carries c c3 s3 ltac:(congruence) Hs)) in Hd as (d0 & ? & ?).
    exists d0. split; [congruence|done]. }
  intros Hx.
  assert (∃ d, connections_ (put_connection c3 s3) !! x = Some d ∧ similar d c') as (d & Hd & Hsd).
  { destruct (rs_close_connection r3 && rs_skip_write r3).
    - by apply (ca_conns _ _ (closeConnection_carries _ _)) in Hx.
    - apply apply_output_shrinks in Hx; [done|apply put_lookup]. }
  destruct (Hput d Hd) as (d0 & ? & ?). exists d0. split; [done|by eapply similar_trans].
Qed.

(** Connection [k] lives at [fd], if at all. *)
Definition lives_at (k fd : Z) (s : Server) : Prop :=
  ∀ x c, connections_ s !! x = Some c → c_conn_id c = k → x = fd.

Lemma apply_local_flow k fd sg rs s :
  Flow k (map rs_request_id rs) sg s → Forall (λ r, response_key r = (fd, k)) rs → lives_at k fd s →
  Flow k [] sg (apply_local E rs s) ∧ lives_at k fd (apply_local E rs s).
Proof.
  intros HF Hr. revert s HF. induction Hr as [|r rs Hr _ IH]; intros s HF Hx; [done|].
  unfold apply_local. simpl. injection Hr as Efd Eid. apply IH.
  - apply applyResponse_local_flow; [done|done|]. rewrite Efd. done.
  - intros x c Hc Ek. destruct (applyResponse_shrinks _ _ _ _ _ (flow_keyed _ _ _ _ HF) Hc) as (d & Hd & (_ & E1 & _)).
    apply (Hx x d); congruence.
Qed.

Lemma flow_of_admits event k l :
  event = OAdmit ∨ event = OAdmitAuth → Forall (λ r, rq_conn_id r = k) l →
  flow_of k (map event l) = ([], l, [], []).
Proof.
  intros He Hl. induction Hl as [|r l Hr _ IH]; [done|]. cbn [map].
  change (event r :: map event l) with ([event r] ++ map event l). rewrite flow_of_app.
  injection IH as -> -> -> ->. destruct He as [-> | ->]; unfold received, taken, appended, answered, gather; simpl;
    by rewrite decide_True.
Qed.

(** A batch of decoded requests: the frames leave the input, and each of their
    requests is admitted or due a local response. *)
Lemma ledger_batch c c' tr bodies rest fd new input sg sg' auth normal due es :
  ledger c tr [] sg fd bodies rest → sg ≠ Cut → c_read_eof c = false → c_conn_id c' = c_conn_id c →
  well_framed (c_input_buffer c) new input → (sg' ≠ Cut → c_input_buffer c' = input) →
  flow_of (c_conn_id c) es = ([], auth ++ normal, [], []) →
  auth ++ normal ⊆+ map (request_of_body fd (c_conn_id c)) new →
  map rq_request_id (auth ++ normal) ++ due ≡ₚ map body_id new →
  ∃ bodies' rest', ledger c' (tr ++ es) due sg' fd bodies' rest'.
Proof.
  intros [L1 Lb L2 L3 _ L4] Hsg He Ek [Hin Hnew Hrest] Hin' Hf Hsub Hids. exists (bodies ++ new), input.
  specialize (L3 He Hsg). pose proof (flow_of_app (c_conn_id c) tr es) as Hfa. unfold flow_of in Hf, Hfa.
  injection Hf as G1 G2 G3 G4. rewrite G1, G2, G3, G4, !app_nil_r in Hfa. injection Hfa as F1 F2 F3 F4.
  rewrite app_nil_r in L4.
  split; rewrite ?Ek, ?admitted_taken, ?F1, ?F2, ?F3, ?F4.
  - by rewrite L1, wire_app, <- app_assoc, <- Hin, L3.
  - by apply Forall_app.
  - rewrite map_app. by apply submseteq_app.
  - intros _. exact Hin'.
  - done.
  - rewrite !map_app, <- Hids. rewrite admitted_taken in L4. rewrite map_app.
    rewrite (Permutation_app_comm (map body_id bodies)), <- app_assoc, L4.
    rewrite (Permutation_app_comm (_ ++ due)), <- !app_assoc. apply Permutation_app_head.
    rewrite (Permutation_app_comm (map rs_request_id _)), <- !app_assoc. do 2 apply Permutation_app_head.
    apply Permutation_app_comm.
Qed.

Lemma batch_admission b fd c s :
  connections_ s !! fd = Some c → c_fd c = fd → Forall (local_ok (conn_key c)) (b_local b) →
  Forall (λ r, request_key r = conn_key c) (batch_requests b) →
  ∃ auth normal local s' c', enqueue_batch E b s = apply_local E local s' ∧
    trace_ s' = trace_ s ++ map OAdmitAuth auth ++ map OAdmit normal ∧ next_conn_id_ s' = next_conn_id_ s ∧
    connections_ s' = <[fd := c']> (connections_ s) ∧ similar c c' ∧ Forall (local_ok (conn_key c)) local ∧
    auth ++ normal ⊆+ batch_requests b ∧
    map rq_request_id (auth ++ normal) ++ map rs_request_id local ≡ₚ batch_ids b.
Proof.
  intros Hc Efd Hloc [Hra%Forall_map Hrr]%Forall_app. unfold enqueue_batch.
  destruct (enqueue_auth_admission (b_auth_tasks b) fd c (b_local b) s) as (auth & ra & HA); [done..|].
  destruct (enqueue_auth E _ _ s) as [local2 s2]. simpl in HA.
  destruct HA as [A1 A2 A3 A4 A5 (c2 & A6 & S2)].
  assert (Hk2 : conn_key c2 = conn_key c) by (destruct S2 as (? & ? & _); unfold conn_key; congruence).
  destruct (enqueue_requests_admission (b_requests b) fd c2 local2 s2) as (normal & rr & HB);
    [rewrite A6; apply lookup_insert_eq|destruct S2; congruence|by rewrite Hk2|].
  destruct (enqueue_requests E _ _ s2) as [local3 s3]. simpl in HB.
  destruct HB as [B1 B2 B3 B4 B5 (c3 & B6 & S3)]. rewrite Hk2 in B4.
  exists auth, normal, local3, s3, c3. split_and!; auto.
  - by rewrite B2, A2, app_assoc.
  - congruence.
  - by rewrite B6, A6, insert_insert_eq.
  - by eapply similar_trans.
  - unfold batch_requests. rewrite A1, B1. apply submseteq_app; by apply submseteq_inserts_r.
  - unfold batch_ids. rewrite A1, B1, B3, A3, !map_app, <- !app_assoc. apply Permutation_app_head.
    rewrite (Permutation_app_swap_app (map rq_request_id ra)). apply Permutation_app_head.
    by rewrite (Permutation_app_comm (map rs_request_id _)), <- app_assoc.
Qed.

Lemma enqueue_batch_flow k b c c1 s fd new input sg sg' :
  Flow k [] sg s → sg ≠ Cut → connections_ s !! fd = Some c → c_conn_id c = k → c_read_eof c = false →
  well_framed (c_input_buffer c) new input → (sg' ≠ Cut → c_input_buffer c1 = input) →
  conn_key c1 = conn_key c → Forall (local_ok (conn_key c)) (b_local b) →
  Forall (λ r, request_key r = conn_key c) (batch_requests b) →
  batch_requests b ⊆+ map (request_of_body fd k) new → batch_ids b ≡ₚ map body_id new →
  Flow k [] sg' (enqueue_batch E b (put_connection c1 s)) ∧
  lives_at k fd (enqueue_batch E b (put_connection c1 s)).
Proof.
  intros HF Hsg0 Hc Ek He Hin Hin' Hkey Hloc Hreq Hsub Hids. pose proof (flow_keyed _ _ _ _ HF _ _ Hc) as Efd.
  rewrite <- Hkey in Hloc, Hreq. set (s1 := put_connection c1 s).
  assert (E1 : c_fd c1 = fd) by (injection Hkey; congruence).
  assert (E2 : c_conn_id c1 = k) by (injection Hkey; congruence).
  destruct (batch_admission b fd c1 s1) as (auth & normal & local & s3 & c3 & -> & Et & En & Em & Hs & Hl & Hs1 & Hs2);
    [rewrite <- E1; apply put_lookup|done|done|done|].
  assert (Em3 : connections_ s3 = <[fd := c3]> (connections_ s)) by (rewrite Em; simpl; by rewrite E1, insert_insert_eq).
  destruct Hs as (F1 & F2 & F3 & F4).
  assert (Hall : Forall (λ r, rq_conn_id r = k) (auth ++ normal)).
  { rewrite Forall_forall in *. intros r Hr. eapply elem_of_submseteq in Hr; [|exact Hs1].
    specialize (Hreq r Hr). injection Hreq. congruence. }
  apply (apply_local_flow k fd).
  - apply Forall_app in Hall as [Ha Hn].
    apply (flow_update k [] sg _ _ s s3 fd c c3 (map OAdmitAuth auth ++ map OAdmit normal)); try done; try congruence.
    + apply Forall_app. split; apply Forall_map; (eapply Forall_impl; [done|]); intros r <-; done.
    + intros bodies rest Hld. rewrite Et.
      apply (ledger_batch c c3 _ bodies rest fd new input sg _ auth normal); try done; try congruence.
      * intros Hsg. rewrite F3. by apply Hin'.
      * rewrite Ek, flow_of_app. injection (flow_of_admits OAdmitAuth k auth (or_intror eq_refl) Ha) as -> -> -> ->.
        by injection (flow_of_admits OAdmit k normal (or_introl eq_refl) Hn) as -> -> -> ->.
      * rewrite Ek. by etransitivity.
      * by rewrite Hs2.
  - eapply Forall_impl; [exact Hl|]. intros r (-> & _). unfold conn_key. congruence.
  - intros x d Hd Eid. rewrite Em3 in Hd. apply lookup_insert_Some in Hd as [[<- <-]|[_ Hd]]; [done|].
    apply (f_unique _ _ _ _ HF x fd d c); congruence.
Qed.

Lemma put_close_carries fd c c' s :
  connections_ s !! fd = Some c → c_fd c' = fd → c_conn_id c' = c_conn_id c →
  carries s (closeConnection E fd (put_connection c' s)).
Proof.
  intros Hc Efd Eid. destruct (closeConnection_carries fd (put_connection c' s)) as [En (es & Et & Hs) _].
  split; [done| |].
  - exists es. split; [done|]. eapply Forall_impl; [exact Hs|].
    assert (Hl : ∀ id, live (connections_ (put_connection c' s)) id → live (connections_ s) id).
    { intros id (x & d & Hd & <-). simpl in Hd. rewrite Efd in Hd.
      apply lookup_insert_Some in Hd as [[<- <-]|[_ Hd]]; [by exists fd, c|by exists x, d]. }
    intros [] He; simpl in *; auto.
  - intros x d. rewrite closeConnection_connections. simpl. rewrite Efd.
    intros [Hne Hd]%lookup_delete_Some. rewrite lookup_insert_ne in Hd by done.
    exists d. split; [done|apply similar_refl].
Qed.

Lemma decode_keys b fd cid mb st rest reqs :
  decode b fd [] cid mb = (st, rest, reqs) → Forall (λ r, request_key r = (fd, cid)) reqs.
Proof.
  destruct (decode_spec b fd [] cid mb) as (bodies & r & st' & _ & ->). intros [= _ _ <-].
  apply Forall_map, Forall_forall. done.
Qed.

Lemma batch_keys c cells b s :
  batch_ok c cells b s → conn_key (b_conn b) = conn_key c ∧ c_input_buffer (b_conn b) = c_input_buffer c ∧
  Forall (λ r, request_key r = conn_key c) (batch_requests b).
Proof.
  intros [Hr _ _ Ht]. assert (Hn : Forall (λ r, request_key r = conn_key c) (b_requests b)).
  { eapply Forall_impl; [exact Hr|]. by intros r []. }
  unfold batch_requests.
  destruct Ht as [(-> & -> & _)|(_ & r & Hk & _ & -> & -> & _)]; [done|].
  split_and!; [done|done|]. by constructor.
Qed.

Lemma decoded_flow fd (eof : bool) s c input' config status input decoded mb (invalid : bool) sg :
  Flow (c_conn_id c) [] sg s → sg ≠ Cut → connections_ s !! fd = Some c → c_read_eof c = false →
  decode (c_input_buffer c) (c_fd c) [] (c_conn_id c) mb = (status, input, decoded) →
  (invalid = false → status ≠ INVALID_LENGTH) → (eof = false → input' = input) →
  let '(b, s3) := classify E config decoded (mkBatch (set_c_input_buffer input' c) [] [] [] invalid) s in
  let s4 := put_connection (b_conn b) s3 in
  let s5 := if b_close_now b then closeConnection E fd s4 else enqueue_batch E b s4 in
  Flow (c_conn_id c) [] (if eof then Cut else Framed) s5 ∧ lives_at (c_conn_id c) fd s5.
Proof.
  intros HF Hsg Hc He Ed Hst Hin. pose proof (flow_keyed _ _ _ _ HF _ _ Hc) as Efd. set (k := c_conn_id c) in *.
  set (c0 := set_c_input_buffer input' c). set (b0 := mkBatch c0 [] [] [] invalid).
  pose proof (classify_spec E config c0 (cancellations_ s) decoded b0 s) as Hcl.
  pose proof (classify_conserves config decoded b0 s) as Hco. pose proof (classify_close E config decoded b0 s) as Hcn.
  destruct (classify E config decoded b0 s) as [b s3]. simpl in Hco, Hcn.
  destruct Hcl as [HB Hv]; [exact (decode_keys _ _ _ _ _ _ _ Ed)|constructor; [done|done|done|by left]|].
  destruct (batch_keys _ _ _ _ HB) as (Kb & Ib & Hk).
  assert (Hca : carries s s3) by (unfold batch_view, core_view in Hv; apply carries_same; congruence).
  assert (Hc3 : connections_ s3 !! fd = Some c) by (unfold batch_view in Hv; congruence).
  pose proof (flow_carries _ _ _ _ _ HF Hca) as HF3. cbv zeta.
  destruct (b_close_now b).
  - injection Kb as K1 K2. simpl in K1, K2. rewrite Efd in K1.
    assert (Hg : ¬ live (connections_ (closeConnection E fd (put_connection (b_conn b) s3))) k).
    { intros (x & d & Hd & Eid). rewrite closeConnection_connections in Hd. simpl in Hd.
      rewrite K1, delete_insert_eq in Hd. apply lookup_delete_Some in Hd as [Hne Hd].
      apply Hne, (f_unique _ _ _ _ HF3 fd x c d); [done|done|by rewrite Eid]. }
    split; [|intros x d Hd Eid; destruct Hg; by exists x, d]. apply (flow_gone k [] [] sg); [done|].
    eapply flow_carries; [exact HF3|]. by eapply put_close_carries.
  - assert (Hval : invalid = false) by (apply not_true_is_false; intros Ht; by discriminate (Hcn Ht)).
    destruct (decode_wire _ _ _ _ _ _ _ Ed (Hst Hval)) as (new & Hw & ->).
    destruct (Hco eq_refl) as [Hids Hsub].
    eapply (enqueue_batch_flow k b c (b_conn b) s3 fd new input sg); try done.
    + intros Hf. rewrite Ib. apply Hin. by destruct eof.
    + apply HB.
    + by rewrite <- Efd.
    + by rewrite Hids, ids_of_bodies.
Qed.

(** It decodes what was read from connection [k]. *)
Lemma decodeAndEnqueue_flow k sg fd (eof : bool) s c :
  Flow k [] sg s → sg ≠ Cut → connections_ s !! fd = Some c → c_conn_id c = k → c_read_eof c = false →
  Flow k [] (if eof then Cut else Framed) (decodeAndEnqueue E fd eof s).2 ∧
  lives_at k fd (decodeAndEnqueue E fd eof s).2.
Proof.
  intros HF Hsg Hc <- He. rewrite decodeAndEnqueue_unfold. cbv zeta.
  pose proof (flow_carries _ _ _ _ _ HF (sync_carries s)) as HF1. sync_view E s s1. rewrite <- Vconn in Hc. rewrite Hc.
  destruct (decode _ _ _ _ _) as [[status input] decoded] eqn:Ed.
  set (invalid := bool_decide (status = INVALID_LENGTH)).
  set (s2 := if invalid then stat incrementErrors s1 else s1).
  set (input' := if negb invalid && _ && _ then [] else input).
  assert (HF2 : Flow (c_conn_id c) [] sg s2)
    by (subst s2; case_bool; [eapply flow_carries; [exact HF1|by apply carries_same]|done]).
  assert (Hc2 : connections_ s2 !! fd = Some c) by (subst s2; by case_bool).
  pose proof (decoded_flow fd eof s2 c input' (runtime_config_ s1) status input decoded _ invalid sg
    HF2 Hsg Hc2 He Ed) as Hd.
  destruct (classify E _ decoded _ s2) as [b s3]. simpl in Hd.
  destruct (b_close_now b); apply Hd; subst invalid; try (by intros Hx; bool_facts);
    intros ->; subst input'; by rewrite He, andb_false_r.
Qed.

Lemma flow_eof k due fd s :
  Flow k due Cut s → lives_at k fd s → (∀ c, connections_ s !! fd = Some c → c_read_eof c = true) →
  Flow k due Framed s.
Proof.
  intros [H1 H2 H3 H4 H5] Hat He. split; try done. destruct H5 as [?|H5]; [by left|right]. intros id.
  destruct (H5 id) as (f & bodies & rest & [G1 Gb G2 G3]). exists f, bodies, rest. split; [done|done|done|].
  intros x c Hc Eid. destruct (G3 x c Hc Eid) as (-> & Hin & Hr & Hp).
  destruct (decide (id = k)) as [->|Hne]; [|done]. split_and!; [done| |by intros _; apply Hr|done].
  intros Hf _. rewrite (Hat _ _ Hc Eid) in Hc. rewrite (He c Hc) in Hf. done.
Qed.

(** Bytes read are appended to the history and to the input buffer, where they
    wait to be decoded. *)
Lemma receive_flow fd c b s :
  Settled s → connections_ s !! fd = Some c → c_read_eof c = false →
  Flow (c_conn_id c) [] Fresh (emit (ORecv (c_conn_id c) b) (stat (incrementReadBytes (zlen b))
             (put_connection (set_c_input_buffer (c_input_buffer c ++ b) c) s))).
Proof.
  intros HF Hc He. pose proof (flow_keyed _ _ _ _ HF _ _ Hc) as Efd. set (k := c_conn_id c).
  apply (flow_settled k) in HF. set (c' := set_c_input_buffer _ c).
  apply (flow_update k [] Framed [] Fresh s _ fd c c' [ORecv k b]); try done; [by repeat constructor|by simpl; rewrite Efd|].
  intros bodies rest [L1 Lb L2 L3 Lr L4]. exists bodies, (rest ++ b). fold k in L1, L2, L4.
  split; rewrite ?admitted_taken in *; unfold received, taken, appended, answered in *; simpl; fold k;
    rewrite ?gather_snoc; simpl; rewrite ?decide_True, ?app_nil_r by done; try done.
  - by rewrite L1, app_assoc.
  - intros _ _. by rewrite L3.
  - by rewrite L4, app_nil_r.
Qed.

Lemma handleRead_flow fd script s s' : Settled s → handleRead E fd script s = Some s' → Settled s'.
Proof.
  revert s. induction script as [|a script IH]; intros s HF; cbn [handleRead]; (case_bool; [by intros [= <-]|]);
    (destruct (connections_ s !! fd) as [c|] eqn:Hc; [|by intros [= <-]]);
    (destruct (c_closing c || c_read_eof c) eqn:Ee; [by intros [= <-]|]); [done|].
  apply orb_false_iff in Ee as [_ Ee].
  destruct a as [b| | | |]; [|..|by apply IH| |intros [= <-]; eapply flow_carries; [done|apply closeConnection_carries]].
  - destruct (_ || _); [done|]. pose proof (receive_flow fd c b s HF Hc Ee) as HF1.
    match type of HF1 with Flow ?k _ _ ?s1 =>
      destruct (decodeAndEnqueue_flow k Fresh fd false s1 (set_c_input_buffer (c_input_buffer c ++ b) c) HF1) as [HF2 _] end;
      [done|simpl; rewrite (flow_keyed _ _ _ _ HF _ _ Hc); apply lookup_insert_eq|done|done|].
    apply flow_settled in HF2. destruct (decodeAndEnqueue E fd false _) as [[] s2]; [by apply IH|by intros [= <-]].
  - intros [= <-]. apply (flow_settled (c_conn_id c)) in HF. set (k := c_conn_id c) in *.
    destruct (decodeAndEnqueue_flow k Framed fd true s c HF) as [HF2 Hat]; [done..|].
    pose proof (flow_keyed _ _ _ _ HF2) as Hk. set (s2 := (decodeAndEnqueue E fd true s).2) in *. clearbody s2.
    pose proof (markReadEof_carries fd s2 Hk) as Hm. apply (flow_settled k).
    apply (flow_eof k [] fd); [by eapply flow_carries| |intros d Hd; by eapply markReadEof_eof].
    intros x d Hd Eid. destruct (ca_conns _ _ Hm x d Hd) as (d0 & Hd0 & (_ & Ed & _)). apply (Hat x d0); congruence.
  - intros [= <-]. apply (flow_settled (c_conn_id c)) in HF.
    destruct (decodeAndEnqueue_flow (c_conn_id c) Framed fd false s c HF) as [HF2 _]; [done..|].
    by apply flow_settled in HF2.
Qed.

(** ** New connections *)

Lemma fresh_flow tr next id :
  (∀ e i, e ∈ tr → obs_conn e = Some i → i < next) → next ≤ id → flow_of id tr = ([], [], [], []).
Proof.
  intros Hf Hn. induction tr as [|e tr IH]; [done|].
  change (e :: tr) with ([e] ++ tr). rewrite flow_of_app. specialize (IH ltac:(intros e' i He; apply Hf; by right)).
  injection IH as -> -> -> ->. specialize (λ i, Hf e i ltac:(by left)) as He.
  unfold received, taken, appended, answered, gather. destruct e; simpl in *; rewrite ?app_nil_r; try done;
    specialize (He _ eq_refl); (rewrite decide_False; [done|lia]).
Qed.

Lemma flow_next s next :
  Settled s → next_conn_id_ s ≤ next → Settled (set_next_conn_id_ next s).
Proof.
  intros [H1 H2 H3 H4 H5] Hn. split; try done; simpl; [lia|..].
  - intros e id He Hid. specialize (H2 e id He Hid). lia.
  - intros fd c Hc. destruct (H3 fd c Hc). split; [done|lia].
Qed.

Lemma accept_flow fd s s' :
  Settled s → trace_ s' = trace_ s ++ [OAccept fd (next_conn_id_ s)] → next_conn_id_ s' = next_conn_id_ s + 1 →
  connections_ s' = connections_ s ∨
    connections_ s !! fd = None ∧ connections_ s' = <[fd := newConnection fd (next_conn_id_ s)]> (connections_ s) →
  Settled s'.
Proof.
  intros HF Et En Em. set (id := next_conn_id_ s) in *. destruct HF as [H1 H2 H3 H4 H5].
  assert (Hm : ∀ x c, connections_ s' !! x = Some c → connections_ s !! x = Some c ∨ x = fd ∧ c = newConnection fd id).
  { intros x c. destruct Em as [-> |[_ ->]]; [auto|]. intros [[<- <-]|[_ ?]]%lookup_insert_Some; auto. }
  assert (Hfl : ∀ i, flow_of i (trace_ s') = flow_of i (trace_ s)).
  { intros i. rewrite Et, flow_of_app. unfold flow_of. by rewrite !app_nil_r. }
  split; rewrite ?En; [lia|..].
  - intros e i. rewrite Et, elem_of_app, list_elem_of_singleton. intros [He| ->] Hi.
    + specialize (H2 e i He Hi). lia.
    + injection Hi as <-. lia.
  - intros x c [Hc|[-> ->]]%Hm; [destruct (H3 x c Hc); split; [done|lia]|]. split; [done|simpl; lia].
  - intros x y c d [Hc|[-> ->]]%Hm [Hd|[-> ->]]%Hm Eid; simpl in *; [by apply (H4 x y c d)|..|done].
    + destruct (H3 x c Hc). lia.
    + destruct (H3 y d Hd). lia.
  - destruct H5 as [?|H5]; [left; rewrite Et, elem_of_app; auto|right]. intros i.
    replace (if decide (i = 0) then [] else []) with (@nil Z) by (by case_decide).
    replace (if decide (i = 0) then Framed else Framed) with Framed by (by case_decide).
    destruct (decide (i = id)) as [->|Hne].
    + pose proof (fresh_flow (trace_ s) id id H2 ltac:(lia)) as Hf. rewrite <- Hfl in Hf. injection Hf as F1 F2 F3 F4.
      exists fd, [], []. split; rewrite ?F1, ?F2; [done|constructor|apply submseteq_nil_l|].
      intros x c [Hc|[-> ->]]%Hm Eid; [destruct (H3 x c Hc); lia|]. rewrite admitted_taken, F2, F3, F4.
      split_and!; [done|done|by left|done].
    + destruct (H5 i) as (f & bodies & rest & [G1 Gb G2 G3]). exists f, bodies, rest.
      injection (Hfl i) as F1 F2 F3 F4. split; rewrite ?F1, ?F2; [done|done|done|].
      intros x c [Hc|[-> ->]]%Hm Eid; [|by destruct Hne].
      rewrite admitted_taken, F2, F3, F4, <- admitted_taken. specialize (G3 x c Hc Eid). by case_decide.
Qed.

Lemma handleAccept_flow script s s' :
  Settled s → next_conn_id_ s + zlen script < 2 ^ 64 → handleAccept E script s = Some s' →
  Settled s' ∧ next_conn_id_ s' ≤ next_conn_id_ s + zlen script.
Proof.
  revert s. induction script as [|a script IH]; intros s HF Hn; cbn [handleAccept].
  { case_bool; [|done]. intros [= <-]. rewrite zlen_nil. split; [done|lia]. }
  rewrite zlen_cons in *. pose proof (zlen_nonneg script).
  case_bool; [intros [= <-]; split; [done|lia]|].
  destruct a as [fd| | |]; [|intros Hr; destruct (IH s HF ltac:(lia) Hr); split; [done|lia]|
    intros [= <-]; split; [done|lia]|intros [= <-]; split; [done|lia]].
  destruct (_ || _); [done|]. pose proof (f_next _ _ _ _ HF). rewrite u64_small by lia.
  assert (Hstep : ∀ s2, Settled s2 → next_conn_id_ s2 = next_conn_id_ s + 1 → handleAccept E script s2 = Some s' →
    Settled s' ∧ next_conn_id_ s' ≤ next_conn_id_ s + (1 + zlen script)).
  { intros s2 HF2 En Hr. destruct (IH s2 HF2 ltac:(lia) Hr). split; [done|lia]. }
  case_bool.
  - apply Hstep; [|done]. apply (flow_carries _ _ _ (set_next_conn_id_ (next_conn_id_ s + 1) s)); [|by apply carries_same].
    apply flow_next; [done|lia].
  - apply Hstep; [|unfold emplace_connection; by case_match].
    apply (accept_flow fd s); [done|unfold emplace_connection; by case_match..|].
    unfold emplace_connection. simpl. destruct (connections_ s !! fd) eqn:Hc; [by left|by right].
Qed.

(** ** The event loop *)

Lemma carries_settled s s' : carries s s' → Settled s → Settled s' ∧ next_conn_id_ s' = next_conn_id_ s.
Proof. intros Hc HF. split; [by eapply flow_carries|apply Hc]. Qed.

Lemma handleEvent_flow ev s s' :
  Settled s → next_conn_id_ s + zlen (ev_accept ev) < 2 ^ 64 → handleEvent E ev s = Some s' →
  Settled s' ∧ next_conn_id_ s' ≤ next_conn_id_ s + zlen (ev_accept ev).
Proof.
  intros HF Hn. pose proof (zlen_nonneg (ev_accept ev)).
  assert (Hsame : ∀ s1, Settled s1 ∧ next_conn_id_ s1 = next_conn_id_ s →
    Settled s1 ∧ next_conn_id_ s1 ≤ next_conn_id_ s + zlen (ev_accept ev)) by (intros s1 [? ->]; split; [done|lia]).
  unfold handleEvent. cbv zeta. case_bool.
  { intros Hr%reactor_consume_carries. apply Hsame. by apply carries_settled. }
  case_bool; [case_bool; [by apply handleAccept_flow|intros [= <-]; by apply Hsame]|].
  case_bool; [intros [= <-]; apply Hsame, carries_settled; [apply closeConnection_carries|done]|].
  intros (s1 & H1 & H2)%bind_Some.
  assert (HS : Settled s1 ∧ next_conn_id_ s1 = next_conn_id_ s).
  { destruct (_ && _); [|by injection H1 as <-]. split; [by eapply handleRead_flow|].
    apply handleRead_fixed in H1. unfold fixed_view in H1. congruence. }
  destruct HS as [HF1 En]. destruct (connections_ s1 !! ev_fd ev); [|injection H2 as <-; by apply Hsame].
  set (s2 := if has_flag _ _ then _ else s1) in H2.
  assert (Hc2 : carries s1 s2).
  { unfold s2. case_bool; [apply markReadEof_carries; by eapply flow_keyed|done]. }
  destruct (carries_settled _ _ Hc2 HF1) as [HF2 En2]. clearbody s2. apply Hsame. rewrite <- En, <- En2.
  destruct (has_flag _ EPOLLOUT); [|by injection H2 as <-].
  apply carries_settled; [|done]. eapply handleWrite_carries; [by eapply flow_keyed|done].
Qed.

Lemma handleEvents_flow evs s s' :
  Settled s → next_conn_id_ s + accepts evs < 2 ^ 64 → handleEvents E evs s = Some s' → Settled s'.
Proof.
  unfold accepts. revert s. induction evs as [|ev evs IH]; intros s HF Hn.
  { by intros [= <-]. }
  rewrite gather_cons, zlen_app in Hn. pose proof (zlen_nonneg (gather ev_accept evs)).
  intros (s1 & H1 & H2)%bind_Some. destruct (handleEvent_flow ev s s1 HF ltac:(lia) H1).
  by apply (IH s1); [|lia|].
Qed.

Lemma drainResponseQueue_flow fuel s s' : Settled s → drainResponseQueue E fuel s = Some s' → Settled s'.
Proof.
  revert s. induction fuel as [|fuel IH]; intros s HF; [done|]. cbn [drainResponseQueue]. cbv zeta.
  pose proof (flow_carries _ _ _ _ _ HF (sync_carries s)) as HF1. set (s1 := sync E s) in *. clearbody s1.
  assert (Hq : ∀ q, Settled (set_response_queue_ q s1)) by (intros q; eapply flow_carries; [exact HF1|by apply carries_same]).
  destruct (tryPop _) as [[r|] q]; [|by intros [= <-]]. apply IH. by apply applyResponse_worker_flow.
Qed.

Lemma loop_iteration_flow w s s' :
  Settled s → next_conn_id_ s + wait_accepts w < 2 ^ 64 → loop_iteration E w s = Some s' → Settled s'.
Proof.
  intros HF Hn. rewrite loop_iteration_unfold. case_bool; [done|]. cbv zeta.
  destruct (carries_settled _ _ (begin_iteration_carries s) HF) as [HF1 En].
  set (s1 := begin_iteration E s) in *. clearbody s1. destruct w as [evs drains| |]; cbn [wait_accepts] in Hn.
  - intros (s2 & H2 & (s3 & H3 & [= <-])%bind_Some)%bind_Some.
    eapply flow_carries; [|apply finish_draining_carries]. eapply flow_carries; [|apply drainRejectedResponses_carries].
    eapply drainResponseQueue_flow; [|exact H3]. eapply handleEvents_flow; [exact HF1| |exact H2]. lia.
  - by intros [= <-].
  - intros [= <-]. eapply flow_carries; [exact HF1|apply beginDraining_carries].
Qed.
End Flow.

(** ** Theorems *)

Section Theorems.
Context `{JsonLib} (E : Env) (HE : env_ok E).

Lemma start_workers_carries h s : carries s (start_workers h s).
Proof. by apply carries_same. Qed.

Lemma start_carries l e v ready h s s' : start (InitOk l e v) ready h s = (true, s') → carries s s'.
Proof.
  unfold start. destruct (started_ s); [done|]. cbn [initServer]. intros [= <-].
  etransitivity; [|apply start_workers_carries]. unfold markReady. case_bool; by apply carries_same.
Qed.

Lemma new_blank a b c d e f g log logger s0 :
  newServer a b c d e f g log logger = Some s0 →
  next_conn_id_ s0 = 1 ∧ trace_ s0 = [] ∧ connections_ s0 = ∅.
Proof. unfold newServer. repeat (case_bool; [done|]). by intros [= <-]. Qed.

Lemma new_settled a b c d e f g log logger s0 : newServer a b c d e f g log logger = Some s0 → Settled s0.
Proof.
  intros (E1 & E2 & E3)%new_blank. split; rewrite ?E1, ?E2, ?E3; [done| | | |right].
  - intros ev id He. by apply elem_of_nil in He.
  - intros fd k Hc. by rewrite lookup_empty in Hc.
  - intros ? ? ? ? Hc. by rewrite lookup_empty in Hc.
  - intros id. exists 0, [], []. split; [done|constructor|done|]. intros x k Hc. by rewrite lookup_empty in Hc.
Qed.

Lemma launched_settled u s : launched u s → Settled s.
Proof. intros (s0 & Hn & Hs). eapply flow_carries; [by eapply new_settled|by eapply start_carries]. Qed.

Lemma reachable_settled u s : reachable E u s → Settled s.
Proof.
  induction 1 as [s _ Hl|w s s' _ IH Hn Hi|a s _ IH _].
  - by eapply launched_settled.
  - by eapply loop_iteration_flow.
  - eapply flow_carries; [exact IH|apply action_carries].
Qed.

Lemma reachable_history u s id :
  reachable E u s → ∃ fd bodies rest, history (connections_ s) (trace_ s) [] Framed id fd bodies rest.
Proof.
  intros Hr. destruct (f_history _ _ _ _ (reachable_settled _ _ Hr)) as [Hf|Hh].
  - destruct (reachable_inv E HE _ _ Hr) as [keys HI]. destruct (inv_trace _ _ HI) as [Hlaw _].
    apply list_elem_of_split in Hf as (b & a & Et). by destruct (Hlaw _ _ _ Et) as [_ []].
  - specialize (Hh id). by destruct (decide (id = 0)).
Qed.

(** Every request of a live connection is answered or outstanding. *)
Lemma live_conserved u s fd c :
  reachable E u s → state_ s ≠ STOPPED → connections_ s !! fd = Some c → conn_key c ∉ refused s →
  ∃ bodies rest, well_framed (received (c_conn_id c) (trace_ s)) bodies rest ∧
    (c_read_eof c = false → rest = c_input_buffer c) ∧
    map body_id bodies ≡ₚ
      map rs_request_id (appended (c_conn_id c) (trace_ s)) ++ map snd (of_key (conn_key c) (items s)).
Proof.
  intros Hr Hst Hc Hl. pose proof (reachable_idle E HE _ _ Hr Hst) as HI.
  destruct (inv_account _ _ HI fd c Hc) as [_ Hacc]. destruct (Hacc Hl) as [_ H2]. simpl in H2.
  destruct (reachable_history u s (c_conn_id c) Hr) as (f & bodies & rest & [G1 Gb _ G3]).
  destruct (G3 fd c Hc eq_refl) as (-> & Hin & Hrest & Hp). exists bodies, rest.
  split_and!; [split; [done|done|by apply Hrest]|intros He; symmetry; by apply Hin|]. rewrite app_nil_r, H2 in Hp.
  apply (Permutation_app_inv_l (answered (c_conn_id c) (trace_ s))).
  rewrite (Permutation_app_comm _ (map body_id bodies)), Hp, <- app_assoc. apply Permutation_app_head, Permutation_app_comm.
Qed.

(** C2: Conservation of requests.  The bytes received on a live connection are
    complete frames followed by one incomplete frame or nothing, however the
    network cut them into reads; there is only one way to divide them so
    ([well_framed_unique]).  The requests of all these frames are, as a
    multiset of request ids, exactly those whose response is in the output and
    those outstanding in the queues and the workers: no request is lost,
    answered twice or answered without having been sent, also after the end of
    the input.  While the input has not ended, the incomplete frame is what the
    input buffer holds; afterwards it is dropped.  The statement is about a
    loop that has not stopped, and about connections that lost no response to
    a full response queue: one that did is waiting to be closed for it. *)
Theorem requests_conserved u s fd c :
  reachable E u s → state_ s ≠ STOPPED → connections_ s !! fd = Some c → conn_key c ∉ refused s →
  ∃ bodies rest, well_framed (received (c_conn_id c) (trace_ s)) bodies rest ∧
    (c_read_eof c = false → rest = c_input_buffer c) ∧
    map rq_request_id (map (request_of_body fd (c_conn_id c)) bodies) ≡ₚ
      map rs_request_id (appended (c_conn_id c) (trace_ s)) ++ map snd (of_key (conn_key c) (items s)).
Proof. intros. setoid_rewrite ids_of_bodies. by eapply live_conserved. Qed.

(** C3: Nothing is admitted that was not received.  On every connection, open
    or closed, the requests handed to the queues are among those of the frames
    received on it, each at most once and with exactly the version, type, id
    and payload the frame holds. *)
Theorem admitted_were_received u s id :
  reachable E u s →
  ∃ fd bodies rest, received id (trace_ s) = wire bodies ++ rest ∧
    taken id (trace_ s) ⊆+ map (request_of_body fd id) bodies.
Proof.
  intros Hr. destruct (reachable_history u s id Hr) as (fd & bodies & rest & [G1 _ G2 _]). by exists fd, bodies, rest.
Qed.

(** C4: A connection that is closed for drain has been served completely.
    When [canCloseAfterDrain] holds for a connection of a loop that has not
    stopped, and it lost no response to a full response queue, then every
    complete frame in the bytes received on it has exactly one response with
    its request id, there are no other responses, and every byte of the responses has been
    handed to the kernel.  What remains of the bytes received is an incomplete
    frame. *)
Theorem drained_connection_answered u s fd c :
  reachable E u s → state_ s ≠ STOPPED → connections_ s !! fd = Some c → conn_key c ∉ refused s →
  canCloseAfterDrain s c = true →
  ∃ bodies rest, well_framed (received (c_conn_id c) (trace_ s)) bodies rest ∧
    map rq_request_id (map (request_of_body fd (c_conn_id c)) bodies) ≡ₚ
      map rs_request_id (appended (c_conn_id c) (trace_ s)) ∧
    sent (c_conn_id c) (trace_ s) = encoded (appended (c_conn_id c) (trace_ s)).
Proof.
  intros Hr Hst Hc Hl Hdr. destruct (live_conserved u s fd c) as (bodies & rest & H1 & _ & H2); try done.
  pose proof (reachable_idle E HE _ _ Hr Hst) as HI.
  unfold canCloseAfterDrain in Hdr. rewrite Z.geb_leb in Hdr. bool_facts.
  destruct (inv_account _ _ HI fd c Hc) as [_ Hacc]. destruct (Hacc Hl) as [Hfl _].
  assert (Hnil : of_key (conn_key c) (items s) = []) by (apply zlen_0; simpl in Hfl; congruence).
  rewrite Hnil, app_nil_r in H2. exists bodies, rest. rewrite ids_of_bodies. split_and!; [done|done|].
  destruct (inv_stream _ _ HI) as [Hs _]. specialize (Hs fd c Hc). rewrite drop_ge, app_nil_r in Hs; [done|].
  unfold zlen in *. lia.
Qed.
End Theorems.

(** ** Witnesses *)

Lemma requests_conserved_witness :
  let s := slow_state in
  let c := conn_of 6 s in
  ∃ bodies rest, well_framed (received (c_conn_id c) (trace_ s)) bodies rest ∧
    (c_read_eof c = false → rest = c_input_buffer c) ∧
    map rq_request_id (map (request_of_body 6 (c_conn_id c)) bodies) ≡ₚ
      map rs_request_id (appended (c_conn_id c) (trace_ s)) ++ map snd (of_key (conn_key c) (items s)).
Proof.
  refine (@requests_conserved sample_json slow_gateway slow_env_ok sample_setup slow_state 6
    (conn_of 6 slow_state) slow_state_reachable _ _ _).
  - vm_compute. discriminate.
  - vm_compute. reflexivity.
  - apply (bool_decide_unpack _). vm_compute. exact I.
Defined.

Lemma admitted_were_received_witness :
  let s := sample_state 4 in
  ∃ fd bodies rest, received 1 (trace_ s) = wire bodies ++ rest ∧
    taken 1 (trace_ s) ⊆+ map (request_of_body fd 1) bodies.
Proof.
  refine (@admitted_were_received sample_json sample_gateway sample_env_ok sample_setup (sample_state 4) 1
    (sample_state_reachable 4 _)). lia.
Defined.

(** There are two such requests. *)
Example sample_taken : map rq_request_id (taken 1 (trace_ (sample_state 4))) = [1; 2].
Proof. vm_compute. reflexivity. Qed.

Lemma drained_connection_answered_witness :
  let s := sample_draining in
  let c := conn_of 6 s in
  ∃ bodies rest, well_framed (received (c_conn_id c) (trace_ s)) bodies rest ∧
    map rq_request_id (map (request_of_body 6 (c_conn_id c)) bodies) ≡ₚ
      map rs_request_id (appended (c_conn_id c) (trace_ s)) ∧
    sent (c_conn_id c) (trace_ s) = encoded (appended (c_conn_id c) (trace_ s)).
Proof.
  refine (@drained_connection_answered sample_json sample_gateway sample_env_ok sample_setup
    sample_draining 6 (conn_of 6 sample_draining) sample_draining_reachable _ _ _ _).
  - vm_compute. discriminate.
  - vm_compute. reflexivity.
  - apply (bool_decide_unpack _). vm_compute. exact I.
  - vm_compute. reflexivity.
Defined.
