(* ===== verification/Limits.v ===== *)
(** * Per-client limits

    The rate limit ([allowRequestForClient]) over any sequence of calls, also
    when [closeConnection] erases the client's window in between, and
    the limit on connections per client at authentication
    ([apply_authentication]). *)

From S2P Require Import Prelude Json JsonRound Protocol BlockQueue Notifier ControlTypes Stats RuntimeConfig.
From S2P Require Import Logger Handlers Server Reactor.
#[local] Open Scope Z_scope.

(** ** Rate limiting *)

Definition ONE_SECOND : Z := 1000000000.

(** What happens to the limit of one client: a check, at its time and with its
    answer, or the departure of the client's last authenticated connection,
    which erases the window. *)
Inductive rate_event :=
  | Checked (t : Z) (allowed : bool)
  | Departed.

(** How many checks let the request through. *)
Definition is_pass (e : rate_event) : bool := match e with Checked _ a => a | Departed => false end.
Definition is_departure (e : rate_event) : bool := match e with Checked _ _ => false | Departed => true end.
Definition let_through (l : list rate_event) : Z := zlen (filter (λ e, is_pass e = true) l).
Definition departures (l : list rate_event) : Z := zlen (filter (λ e, is_departure e = true) l).

(** The checks of the list are made less than a second after [t0]. *)
Definition within_a_second (t0 : Z) (l : list rate_event) : Prop :=
  Forall (λ e, match e with Checked t _ => t0 ≤ t < t0 + ONE_SECOND | Departed => True end) l.

Section Rate.
Context `{JsonLib} (E : Env) (client : bytes) (limit : Z).

Definition window_of (s : Server) : RateLimitWindow :=
  default (mkWindow 0 0) (rate_limit_windows_ s !! client).

(** [rate_trace s l]: [l] is what happens to the limit of [client] from state
    [s] on.  A check uses the configuration of its time, whose limit is at most
    [limit].  [closeConnection] erases the window with the last authenticated
    connection.  Only these two functions write the table; any other step, of
    any thread and for any other client, leaves the client's window as it is. *)
Inductive rate_trace : Server → list rate_event → Prop :=
  | rt_nil s : rate_trace s []
  | rt_check s s' config allowed l :
      max_requests_per_client_per_second config ≤ limit →
      allowRequestForClient E client config s = (allowed, s') →
      rate_trace s' l → rate_trace s (Checked (clock E (k_ticks s)) allowed :: l)
  | rt_close s fd l :
      is_Some (rate_limit_windows_ s !! client) →
      rate_limit_windows_ (closeConnection E fd s) !! client = None →
      rate_trace (closeConnection E fd s) l → rate_trace s (Departed :: l)
  | rt_other s s' l :
      rate_limit_windows_ s' !! client = rate_limit_windows_ s !! client →
      rate_trace s' l → rate_trace s l.

(** The window after a check at time [t] under the limit [m]. *)
Definition window_step (m t : Z) (w : RateLimitWindow) : bool * RateLimitWindow :=
  let w := if (rw_started_at w =? 0) || (t - rw_started_at w >=? ONE_SECOND) then mkWindow t 0 else w in
  if rw_count w >=? m then (false, w) else (true, mkWindow (rw_started_at w) (rw_count w + 1)).

Lemma allowRequest_window config s allowed s' :
  allowRequestForClient E client config s = (allowed, s') →
  window_step (max_requests_per_client_per_second config) (clock E (k_ticks s)) (window_of s) = (allowed, window_of s').
Proof.
  unfold allowRequestForClient, window_step, window_of, now, ONE_SECOND. cbv zeta. simpl.
  set (w := if _ || _ then mkWindow _ 0 else _). clearbody w.
  destruct (rw_count w >=? _); intros [= <- <-]; simpl; by rewrite lookup_insert_eq.
Qed.

Lemma let_through_cons e l : let_through (e :: l) = (if is_pass e then 1 else 0) + let_through l.
Proof. unfold let_through. rewrite filter_cons. destruct (is_pass e); case_decide; done || by rewrite zlen_cons. Qed.

Lemma departures_cons e l : departures (e :: l) = (if is_departure e then 1 else 0) + departures l.
Proof. unfold departures. rewrite filter_cons. destruct (is_departure e); case_decide; done || by rewrite zlen_cons. Qed.

Lemma departures_nonneg l : 0 ≤ departures l.
Proof. apply zlen_nonneg. Qed.

Lemma expired_spec w t :
  (rw_started_at w =? 0) || (t - rw_started_at w >=? ONE_SECOND) = true ↔
  rw_started_at w = 0 ∨ ONE_SECOND ≤ t - rw_started_at w.
Proof. by rewrite orb_true_iff, Z.eqb_eq, Z.geb_le. Qed.

(** The window has started at [t0] or later, or has not started. *)
Definition fresh (t0 : Z) (w : RateLimitWindow) : Prop :=
  rw_started_at w = 0 ∧ rw_count w = 0 ∨ t0 ≤ rw_started_at w.

(** A check in a second that begins at [t0], with a window that does not
    expire in it, takes from the window's quota. *)
Lemma window_step_fresh m t0 t w a w' :
  m ≤ limit → 0 < t0 → t0 ≤ t < t0 + ONE_SECOND → fresh t0 w → window_step m t w = (a, w') →
  fresh t0 w' ∧ (if a then 1 else 0) + Z.max 0 (limit - rw_count w') ≤ Z.max 0 (limit - rw_count w).
Proof.
  unfold window_step, fresh. intros Hm Ht0 Ht Hw.
  destruct (_ || _) eqn:He; [apply expired_spec in He|apply not_true_iff_false in He; rewrite expired_spec in He]; cbv zeta; simpl;
    (destruct (_ >=? m) eqn:Ec; rewrite Z.geb_leb in Ec; bool_facts; intros [= <- <-]; simpl; lia).
Qed.

(** A check that finds the window expired starts one. *)
Lemma window_step_restart m t w a w' :
  m ≤ limit → rw_started_at w = 0 ∨ ONE_SECOND ≤ t - rw_started_at w → window_step m t w = (a, w') →
  fresh t w' ∧ (if a then 1 else 0) + Z.max 0 (limit - rw_count w') ≤ Z.max 0 limit.
Proof.
  unfold window_step, fresh. intros Hm Hw. rewrite (proj2 (expired_spec w t) Hw). cbv zeta. simpl.
  destruct (0 >=? m) eqn:Ec; rewrite Z.geb_leb in Ec; bool_facts; intros [= <- <-]; simpl; lia.
Qed.

Lemma window_step_count m t w a w' : 0 ≤ rw_count w → window_step m t w = (a, w') → 0 ≤ rw_count w'.
Proof. unfold window_step. repeat case_bool; intros ? [= <- <-]; simpl in *; lia. Qed.

Lemma departed_window s fd :
  rate_limit_windows_ (closeConnection E fd s) !! client = None → window_of (closeConnection E fd s) = mkWindow 0 0.
Proof. unfold window_of. by intros ->. Qed.

(** In a second in which the window does not expire, at most its remaining
    quota passes, and a full one after every departure. *)
Lemma within_window t0 s l :
  0 ≤ limit → 0 < t0 → rate_trace s l → within_a_second t0 l → fresh t0 (window_of s) →
  let_through l ≤ Z.max 0 (limit - rw_count (window_of s)) + limit * departures l.
Proof.
  intros Hlim Ht0. unfold within_a_second.
  induction 1 as [s|s s' config a l Hm Ha Hr IH|s fd l Hs Hn Hr IH|s s' l Hw Hr IH]; intros Hall Hf.
  - unfold let_through, departures. rewrite !filter_nil, zlen_nil. lia.
  - apply Forall_cons in Hall as [Ht Hall]. rewrite let_through_cons, departures_cons. simpl.
    destruct (window_step_fresh _ _ _ _ _ _ Hm Ht0 Ht Hf (allowRequest_window _ _ _ _ Ha)) as [Hf' ?].
    specialize (IH Hall Hf'). lia.
  - apply Forall_cons in Hall as [_ Hall]. rewrite let_through_cons, departures_cons. simpl.
    rewrite (departed_window _ _ Hn) in IH. specialize (IH Hall (or_introl (conj eq_refl eq_refl))). simpl in IH. lia.
  - unfold window_of in *. rewrite <- Hw in *. auto.
Qed.

(** Within a second the window expires at most once. *)
Lemma within_second t0 s l :
  0 ≤ limit → 0 < t0 → rate_trace s l → within_a_second t0 l →
  let_through l ≤ Z.max 0 (limit - rw_count (window_of s)) + limit * (1 + departures l).
Proof.
  intros Hlim Ht0. unfold within_a_second.
  induction 1 as [s|s s' config a l Hm Ha Hr IH|s fd l Hs Hn Hr IH|s s' l Hw Hr IH]; intros Hall.
  - unfold let_through, departures. rewrite !filter_nil, zlen_nil. lia.
  - apply Forall_cons in Hall as [Ht Hall]. rewrite let_through_cons, departures_cons. simpl.
    pose proof (allowRequest_window _ _ _ _ Ha) as Hs. set (t := clock E (k_ticks s)) in *.
    destruct (decide (rw_started_at (window_of s) = 0 ∨ ONE_SECOND ≤ t - rw_started_at (window_of s))) as [He|He].
    + destruct (window_step_restart _ _ _ _ _ Hm He Hs) as [Hf ?].
      assert (Hf0 : fresh t0 (window_of s')) by (unfold fresh in *; lia).
      pose proof (within_window t0 _ _ Hlim Ht0 Hr Hall Hf0). lia.
    + apply Decidable.not_or in He as [He1 He2].
      unfold window_step in Hs. specialize (IH Hall).
      destruct (Z.eqb_spec (rw_started_at (window_of s)) 0); [done|].
      destruct (_ >=? ONE_SECOND) eqn:Eg; rewrite Z.geb_leb in Eg; bool_facts; [lia|]. simpl in Hs.
      destruct (_ >=? _) eqn:Ec in Hs; rewrite Z.geb_leb in Ec; bool_facts;
        injection Hs as <- Hs2; rewrite <- Hs2 in IH; simpl in IH; lia.
  - apply Forall_cons in Hall as [_ Hall]. rewrite let_through_cons, departures_cons. simpl.
    rewrite (departed_window _ _ Hn) in IH. specialize (IH Hall). simpl in IH. lia.
  - unfold window_of in *. rewrite <- Hw in *. auto.
Qed.

(** From the check that finds the window expired on. *)
Lemma window_quota t0 s a l :
  0 ≤ limit → 0 < t0 → rate_trace s (Checked t0 a :: l) → within_a_second t0 (Checked t0 a :: l) →
  rw_started_at (window_of s) = 0 ∨ ONE_SECOND ≤ t0 - rw_started_at (window_of s) →
  let_through (Checked t0 a :: l) ≤ limit * (1 + departures l).
Proof.
  intros Hlim Ht0 Hr Hall. apply Forall_cons in Hall as [_ Hall]. rewrite let_through_cons. simpl.
  remember (Checked t0 a :: l) as l0 eqn:El.
  induction Hr as [s|s s' config a' l' Hm Ha Hr IH|s fd l' Hs Hn Hr IH|s s' l' Hw Hr IH]; intros He; try done.
  - injection El as <- <- <-. destruct (window_step_restart _ _ _ _ _ Hm He (allowRequest_window _ _ _ _ Ha)) as [Hf ?].
    pose proof (within_window _ _ _ Hlim Ht0 Hr Hall Hf). lia.
  - unfold window_of in *. rewrite <- Hw in He. auto.
Qed.

Lemma rate_trace_suffix s a l :
  rate_trace s (a ++ l) → 0 ≤ rw_count (window_of s) → ∃ s', rate_trace s' l ∧ 0 ≤ rw_count (window_of s').
Proof.
  intros Hr. remember (a ++ l) as l0 eqn:El. revert a El.
  induction Hr as [s|s s' config a' l' Hm Ha Hr IH|s fd l' Hs Hn Hr IH|s s' l' Hw Hr IH]; intros [|p a] El Hc;
    simpl in El; try done; subst.
  - eexists; split; [constructor|exact Hc].
  - exists s. split; [by eapply rt_check|done].
  - injection El as <- ->. apply (IH a eq_refl). by eapply window_step_count, allowRequest_window.
  - exists s. split; [by eapply rt_close|done].
  - injection El as <- ->. apply (IH a eq_refl). by rewrite (departed_window _ _ Hn).
  - exists s. split; [by eapply rt_other|done].
  - apply (IH (p :: a) eq_refl). unfold window_of in *. by rewrite Hw.
Qed.

Lemma rate_trace_prefix s l b : rate_trace s (l ++ b) → rate_trace s l.
Proof.
  intros Hr. remember (l ++ b) as l0 eqn:El. revert l El.
  induction Hr as [s|s s' config a' l' Hm Ha Hr IH|s fd l' Hs Hn Hr IH|s s' l' Hw Hr IH]; intros [|p l] El;
    try (by constructor); simpl in El; try done; simplify_eq.
  - econstructor; eauto.
  - econstructor; eauto.
  - eapply rt_other; eauto.
Qed.

(** The window is erased only with the client's last authenticated connection. *)
Lemma departure_is_last s fd :
  is_Some (rate_limit_windows_ s !! client) → rate_limit_windows_ (closeConnection E fd s) !! client = None →
  ∃ c, connections_ s !! fd = Some c ∧ c_authenticated c = true ∧ c_client_id c = client ∧
    countAuthenticatedConnectionsForClient client (-1) (closeConnection E fd s) = 0.
Proof.
  intros [w Hw]. unfold closeConnection. destruct (connections_ s !! fd) as [c|] eqn:Hc; [|by rewrite Hw].
  sync_view E s s1. set (s2 := match c_auth_cancellation c with Some _ => _ | None => _ end).
  assert (Hs2 : rate_limit_windows_ s2 = rate_limit_windows_ s ∧ connections_ s2 = connections_ s).
  { unfold s2. by destruct (c_auth_cancellation c). }
  set (s3 := set_connections_ _ s2). assert (Hs3 : rate_limit_windows_ s3 = rate_limit_windows_ s) by apply Hs2.
  clearbody s3. clear Hs2 s2. destruct (c_authenticated c && _) eqn:Ea;
    [|destruct (epfd_ s3 =? -1); simpl; by rewrite Hs3, Hw].
  apply andb_true_iff in Ea as [Ea E0]. bool_facts. set (s4 := set_rate_limit_windows_ _ s3).
  intros Hn. exists c. assert (Hw4 : rate_limit_windows_ s4 !! client = None).
  { by destruct (epfd_ s4 =? -1). }
  assert (Hcl : c_client_id c = client).
  { destruct (decide (c_client_id c = client)) as [|Hne]; [done|]. simpl in Hw4.
    by rewrite lookup_delete_ne, Hs3, Hw in Hw4 by done. }
  split_and!; [done|done|done|]. rewrite Hcl in E0. by destruct (epfd_ s4 =? -1).
Qed.

End Rate.

(** C37: The rate limit, whatever else the server does between the checks made
    for a client, as long as the configured limit stays at most [limit].
    From the check that finds the client's window expired or missing, the
    checks of the next second let at most [limit] requests through; and the
    checks of any second, wherever it begins, at most twice [limit].  In both
    cases [limit] more are let through for every time the client's window is
    erased in that second, which [closeConnection] does only when the client's
    last authenticated connection closes. *)
Theorem rate_limit_enforced `{JsonLib} E client limit :
  0 ≤ limit →
  (∀ s t0 a l, 0 < t0 → rate_trace E client limit s (Checked t0 a :: l) →
     rw_started_at (window_of client s) = 0 ∨ ONE_SECOND ≤ t0 - rw_started_at (window_of client s) →
     within_a_second t0 (Checked t0 a :: l) →
     let_through (Checked t0 a :: l) ≤ limit * (1 + departures l)) ∧
  (∀ s a seg b t0, 0 < t0 → rate_trace E client limit s (a ++ seg ++ b) → 0 ≤ rw_count (window_of client s) →
     within_a_second t0 seg → let_through seg ≤ limit * (2 + departures seg)) ∧
  (∀ s fd, is_Some (rate_limit_windows_ s !! client) →
     rate_limit_windows_ (closeConnection E fd s) !! client = None →
     ∃ c, connections_ s !! fd = Some c ∧ c_authenticated c = true ∧ c_client_id c = client ∧
       countAuthenticatedConnectionsForClient client (-1) (closeConnection E fd s) = 0).
Proof.
  intros Hlim. split_and!.
  - intros s t0 a l Ht0 Hr He Hall. by eapply window_quota.
  - intros s a seg b t0 Ht0 Hr Hc Hall.
    destruct (rate_trace_suffix _ _ _ _ _ _ Hr Hc) as (s1 & Hr1 & Hc1).
    apply rate_trace_prefix in Hr1. pose proof (within_second _ _ _ t0 _ _ Hlim Ht0 Hr1 Hall). lia.
  - apply departure_is_last.
Qed.

(** ** Connections per client *)

(** Changing one connection adds at most one to the others of a client. *)
Lemma count_one_more client fd c (m : gmap Z Connection) :
  Z.of_nat (base.size (filter (authenticated_as client (-1)) (<[fd := c]> m))) ≤
  Z.of_nat (base.size (filter (authenticated_as client fd) m)) + 1.
Proof.
  set (m0 := filter (authenticated_as client fd) m).
  assert (Hsub : filter (authenticated_as client (-1)) (<[fd := c]> m) ⊆ <[fd := c]> m0).
  { apply map_subseteq_spec. intros x d [Hx Hp]%map_lookup_filter_Some.
    apply lookup_insert_Some in Hx as [[<- <-]|[Hne Hx]]; [apply lookup_insert_eq|].
    rewrite lookup_insert_ne by done. apply map_lookup_filter_Some. split; [done|]. by destruct Hp as (_ & ? & ?). }
  apply map_subseteq_size in Hsub. rewrite map_size_insert in Hsub. destruct (m0 !! fd); simpl in Hsub; lia.
Qed.

(** The limit on connections per client is enforced when a connection
    authenticates.  The control plane's approval takes effect only if fewer
    than [max_connections_per_client] other connections are authenticated as
    this client, and then the client has at most that many connections;
    otherwise the connection stays unauthenticated and its AUTH response is
    turned into a denial that closes it. *)
Theorem connection_limit_enforced config response current s response' current' s' client :
  rs_client_id_to_authenticate response = Some client → 0 ≤ c_fd current →
  apply_authentication config response current s = (response', current', s') →
  let others := countAuthenticatedConnectionsForClient client (c_fd current) s in
  (others < max_connections_per_client config →
     response' = response ∧ c_authenticated current' = true ∧ c_client_id current' = client ∧
     countAuthenticatedConnectionsForClient client (-1) (put_connection current' s')
       ≤ max_connections_per_client config) ∧
  (max_connections_per_client config ≤ others →
     current' = current ∧ rs_client_id_to_authenticate response' = None ∧
     rs_close_connection response' = true ∧ rs_type response' = AUTH_RESP).
Proof.
  intros Ha Hfd. unfold apply_authentication. rewrite Ha. cbv zeta.
  set (others := countAuthenticatedConnectionsForClient client (c_fd current) s).
  destruct (others >=? _) eqn:Eo; rewrite Z.geb_leb in Eo; bool_facts; intros [= <- <- <-].
  - split; [lia|]. intros _. done.
  - split; [|lia]. intros _. split_and!; try done.
    enough (countAuthenticatedConnectionsForClient client (-1)
      (put_connection (set_c_client_id client (set_c_authenticated true current))
         (emit (OAuthenticated (c_conn_id current) client) (stat incrementAuthSuccess s))) ≤ others + 1) by lia.
    unfold countAuthenticatedConnectionsForClient, others, put_connection. simpl. apply count_one_more.
Qed.

(** ** Witnesses *)

Definition limits_env : Env := mkEnv (λ n, 1000 * (Z.of_nat n + 1)) (λ _, true) (λ _, true) (λ _, []).
Definition limits_config : RuntimeConfig :=
  mkRuntimeConfig 1 1024 1 1 4096 (lit "INFO") 8.
Definition limits_server : option Server :=
  newServer 9000 8 8 5000 1 1 4 (newLogStorage None false true true) (newLogger None).

(** Two checks of the same client within a second, under a limit of one; then
    its only connection closes, and it is checked again. *)
Definition limits_state (s : Server) : Server :=
  put_connection (set_c_client_id (lit "c1") (set_c_authenticated true (newConnection 6 1))) s.

Definition limits_check (s : Server) : rate_event * Server :=
  let '(a, s') := allowRequestForClient limits_env (lit "c1") limits_config s in
  (Checked (clock limits_env (k_ticks s)) a, s').

Definition limits_checked (s : Server) : Server := (limits_check (limits_check s).2).2.

Definition limits_trace (s : Server) : list rate_event :=
  [(limits_check s).1; (limits_check (limits_check s).2).1; Departed;
   (limits_check (closeConnection limits_env 6 (limits_checked s))).1].

Lemma limits_check_trace s l :
  rate_trace limits_env (lit "c1") 1 (limits_check s).2 l →
  rate_trace limits_env (lit "c1") 1 s ((limits_check s).1 :: l).
Proof.
  unfold limits_check. destruct (allowRequestForClient _ _ _ s) as [a s'] eqn:Ea. simpl. intros Hr.
  econstructor; [|exact Ea|exact Hr]. simpl. lia.
Qed.

Lemma limits_trace_rate s :
  is_Some (rate_limit_windows_ (limits_checked s) !! lit "c1") →
  rate_limit_windows_ (closeConnection limits_env 6 (limits_checked s)) !! lit "c1" = None →
  rate_trace limits_env (lit "c1") 1 s (limits_trace s).
Proof.
  intros Hs Hn. unfold limits_trace. apply limits_check_trace, limits_check_trace.
  refine (rt_close limits_env (lit "c1") 1 _ 6 _ Hs Hn _). apply limits_check_trace. constructor.
Qed.

Definition limits_started : option Server := option_map limits_state limits_server.
Definition limits_run : list rate_event := [Checked 1000 true; Checked 2000 false; Departed; Checked 4000 true].

Lemma limits_started_runs :
  match limits_started with
  | Some s => limits_trace s = limits_run ∧ rw_count (window_of (lit "c1") s) = 0 ∧
      rate_trace limits_env (lit "c1") 1 s (limits_trace s)
  | None => False
  end.
Proof.
  destruct limits_started as [s|] eqn:Es; [|vm_compute in Es; discriminate].
  assert (H : (limits_trace s, rw_count (window_of (lit "c1") s),
      bool_decide (is_Some (rate_limit_windows_ (limits_checked s) !! lit "c1")),
      bool_decide (rate_limit_windows_ (closeConnection limits_env 6 (limits_checked s)) !! lit "c1" = None))
    = (limits_run, 0, true, true)).
  { transitivity (match limits_started with Some s => (limits_trace s, rw_count (window_of (lit "c1") s),
      bool_decide (is_Some (rate_limit_windows_ (limits_checked s) !! lit "c1")),
      bool_decide (rate_limit_windows_ (closeConnection limits_env 6 (limits_checked s)) !! lit "c1" = None))
      | None => ([], 0, false, false) end); [by rewrite Es|vm_compute; reflexivity]. }
  apply pair_equal_spec in H as [H Hn]. apply pair_equal_spec in H as [H Hs].
  apply pair_equal_spec in H as [H Hc]. apply bool_decide_eq_true in Hs, Hn.
  split; [exact H|split; [exact Hc|]]. exact (limits_trace_rate s Hs Hn).
Qed.

Lemma rate_limit_enforced_witness :
  match limits_started with
  | Some s =>
    limits_trace s = limits_run ∧ let_through (limits_trace s) ≤ 1 * (2 + departures (limits_trace s)) ∧
    let_through (limits_trace s) = 2
  | None => False
  end.
Proof.
  pose proof limits_started_runs as H. destruct limits_started as [s|]; [|exact H].
  destruct H as (Hrun & Hc & Hr).
  split; [exact Hrun|split; [|rewrite Hrun; reflexivity]].
  destruct (rate_limit_enforced limits_env (lit "c1") 1 ltac:(lia)) as (_ & Hsecond & _).
  apply (Hsecond s [] (limits_trace s) [] 1000).
  - lia.
  - rewrite app_nil_l, app_nil_r. exact Hr.
  - rewrite Hc. lia.
  - rewrite Hrun. repeat constructor; simpl; unfold ONE_SECOND; lia.
Defined.

Definition limits_auth (s : Server) : Response * Connection * Server :=
  apply_authentication limits_config
    (mkResponse 6 1 1 AUTH_RESP 7 200 [] (Some (lit "c1")) false false) (newConnection 6 1) s.

Lemma connection_limit_enforced_witness :
  match limits_server with
  | Some s =>
    let '(r', c', s') := limits_auth s in
    c_authenticated c' = true ∧
    countAuthenticatedConnectionsForClient (lit "c1") (-1) (put_connection c' s') ≤ 1
  | None => False
  end.
Proof.
  unfold limits_server. simpl. match goal with |- context [limits_auth ?s] => set (s0 := s) end.
  destruct (limits_auth s0) as [[r' c'] s'] eqn:Hauth.
  destruct (connection_limit_enforced limits_config
    (mkResponse 6 1 1 AUTH_RESP 7 200 [] (Some (lit "c1")) false false) (newConnection 6 1) s0
    r' c' s' (lit "c1") eq_refl ltac:(simpl; lia) Hauth) as [Hlow _].
  destruct Hlow as (_ & Hau & _ & Hcount); [vm_compute; reflexivity|]. exact (conj Hau Hcount).
Defined.
