(* ===== verification/Identity.v ===== *)
(** * One identity per connection

    What the reactor guarantees about who a connection is.  An AUTH check is
    passed from the reactor to an AUTH worker and back as a verdict; at any
    moment an open connection has at most one of them under way, and none once
    it is authenticated.  So a connection is authenticated at most once in its
    life, as a client whose credentials it has itself sent and the control
    plane has approved, its identity never changes afterwards, and the table of
    rate-limit windows holds entries only for the identities of open
    connections. *)

From S2P Require Import Prelude Json Protocol BlockQueue Notifier ControlTypes Stats RuntimeConfig Socket Client.
From S2P Require Import Logger Handlers Server Invariant Auth Threads Reactor System Conservation Limits.
#[local] Open Scope Z_scope.

(** ** Checks under way *)

(** The connection whose AUTH check a response decides. *)
Definition verdict_key (r : Response) : list (Z * Z) :=
  if decide (rs_type r = AUTH_RESP) then [response_key r] else [].

(** The connection whose AUTH check a worker holds. *)
Definition check_key (w : Worker) : list (Z * Z) :=
  match w_pc w with
  | WCheck t | WAuth t => [task_key t]
  | WPush r => verdict_key r
  | _ => []
  end.

(** The AUTH checks that were admitted and whose verdict the reactor has not
    yet taken: in the queue, at a worker, or on the way back. *)
Definition under_way (s : Server) : list (Z * Z) :=
  map task_key (data_queue_ (auth_queue_ s)) ++ gather check_key (workers_ s)
    ++ gather verdict_key (data_queue_ (response_queue_ s)).

Definition tally (k : Z * Z) (l : list (Z * Z)) : Z := zlen (filter (λ x, x = k) l).

(** How many checks a connection may have under way. *)
Definition may_check (c : Connection) : Z :=
  if c_auth_pending c && negb (c_authenticated c) then 1 else 0.

(** The connections that were authenticated, in order. *)
Definition named_in (e : Obs) : list Z := match e with OAuthenticated id _ => [id] | _ => [] end.
Definition names (tr : list Obs) : list Z := gather named_in tr.

(** What is assumed of the control plane: the credentials it approves, and the
    largest [max_connections_per_client] it configures. *)
Record Policy := mkPolicy {
  approves : bytes → bytes → Prop;
  most : Z;
}.

Section Identity.
Context `{JsonLib} (pol : Policy).

(** The connection [id] has sent credentials for [name] that are approved. *)
Definition granted (tr : list Obs) (id : Z) (name : bytes) : Prop :=
  ∃ q token, OAdmitAuth q ∈ tr ∧ rq_conn_id q = id ∧ auth_credentials (rq_payload q) = Some (name, token) ∧
    approves pol name token.

Definition vouched (before : list Obs) (e : Obs) : Prop :=
  match e with OAuthenticated id name => granted before id name | _ => True end.

(** Only a verdict authenticates a connection or closes it, and it
    authenticates only the client whose approved credentials were sent. *)
Definition tame (tr : list Obs) (r : Response) : Prop :=
  (rs_type r ≠ AUTH_RESP → rs_client_id_to_authenticate r = None ∧ rs_close_connection r = false) ∧
  ∀ name, rs_client_id_to_authenticate r = Some name → granted tr (rs_conn_id r) name.

(** A response that authenticates nobody. *)
Definition meek (r : Response) : Prop :=
  rs_client_id_to_authenticate r = None ∧ (rs_type r ≠ AUTH_RESP → rs_close_connection r = false).

Definition sound (tr : list Obs) (s : Server) : Prop :=
  Forall (tame tr) (responses s) ∧ Forall (λ t, OAdmitAuth (at_request t) ∈ tr) (tasks s).

Definition bounded (config : RuntimeConfig) : Prop := max_connections_per_client config ≤ most pol.

(** What the workers and the puller ask is answered by a control plane that
    allows only what is approved and configures nothing beyond the policy. *)
Definition vetted (a : Action) : Prop :=
  match a with
  | AWorker _ env => ∀ client token not_after result,
      @control_check (we_control env) client token not_after = Some result → ar_outcome result = Allowed →
      approves pol client token
  | APullEnd (Some config) => bounded config
  | _ => True
  end.

(** [held]: checks that are in the reactor's own hands, between the decoder
    and the queue or between the response queue and the connection. *)
Record One (held : list (Z * Z)) (s : Server) : Prop := mkOne {
  o_keyed : keyed s;
  o_unique : ids_unique (connections_ s);
  o_below : ∀ fd c, connections_ s !! fd = Some c → c_conn_id c < next_conn_id_ s;
  o_checks : ∀ fd c, connections_ s !! fd = Some c → tally (conn_key c) (held ++ under_way s) ≤ may_check c;
  o_fresh : ∀ k, 0 < tally k (held ++ under_way s) → k.2 < next_conn_id_ s;
  o_sound : sound (trace_ s) s;
  o_granted : always vouched (trace_ s);
  o_windows : ∀ name w, rate_limit_windows_ s !! name = Some w →
    ∃ fd c, connections_ s !! fd = Some c ∧ c_authenticated c = true ∧ c_client_id c = name;
  o_config : bounded (runtime_config_ s);
  o_limit : ∀ client, countAuthenticatedConnectionsForClient client (-1) s ≤ most pol;
  o_names : NoDup (names (trace_ s)) ∧ ∀ id, id ∈ names (trace_ s) → id < next_conn_id_ s;
  o_unnamed : ∀ fd c, connections_ s !! fd = Some c → c_authenticated c = false → c_conn_id c ∉ names (trace_ s);
}.

(** ** Counting *)

Lemma tally_app k l1 l2 : tally k (l1 ++ l2) = tally k l1 + tally k l2.
Proof. unfold tally. by rewrite filter_app, zlen_app. Qed.

Lemma tally_nil k : tally k [] = 0.
Proof. done. Qed.

Lemma tally_cons k x l : tally k (x :: l) = tally k [x] + tally k l.
Proof. apply (tally_app k [x]). Qed.

Lemma tally_one k : tally k [k] = 1.
Proof. unfold tally. rewrite filter_cons_True by done. done. Qed.

Lemma tally_other k x : x ≠ k → tally k [x] = 0.
Proof. intros Hx. unfold tally. by rewrite filter_cons_False. Qed.

Lemma tally_nonneg k l : 0 ≤ tally k l.
Proof. apply zlen_nonneg. Qed.

Lemma names_snoc tr e : names (tr ++ [e]) = names tr ++ named_in e.
Proof. apply gather_snoc. Qed.

(** [tally_lia]: arithmetic on the tallies of concatenations. *)
Ltac tally_lia :=
  repeat match goal with
  | |- context [tally ?k (?l1 ++ ?l2)] => rewrite (tally_app k l1 l2)
  | H : context [tally ?k (?l1 ++ ?l2)] |- _ => rewrite (tally_app k l1 l2) in H
  end;
  repeat match goal with
  | |- context [tally ?k ?l] => lazymatch goal with H : 0 ≤ tally k l |- _ => fail | _ => pose proof (tally_nonneg k l) end
  | H : context [tally ?k ?l] |- _ => lazymatch goal with H : 0 ≤ tally k l |- _ => fail | _ => pose proof (tally_nonneg k l) end
  end; lia.

Lemma verdict_auth r : rs_type r = AUTH_RESP → verdict_key r = [response_key r].
Proof. intros Hr. unfold verdict_key. by rewrite decide_True. Qed.

Lemma verdict_other r : rs_type r ≠ AUTH_RESP → verdict_key r = [].
Proof. intros Hr. unfold verdict_key. by rewrite decide_False. Qed.

Lemma plain_meek r : plain r → meek r ∧ verdict_key r = [].
Proof. intros (? & ? & ?). split; [done|by apply verdict_other]. Qed.

Lemma meek_tame tr r : meek r → tame tr r.
Proof. intros [Hn Hc]. split; [auto|congruence]. Qed.

Lemma granted_mono tr tr' id name : tr ⊆ tr' → granted tr id name → granted tr' id name.
Proof. intros Hsub (q & token & Hq & ?). exists q, token. split; [by apply Hsub|done]. Qed.

Lemma tame_mono tr tr' r : tr ⊆ tr' → tame tr r → tame tr' r.
Proof. intros Hsub [H1 H2]. split; [done|]. intros name Hn. eapply granted_mono; [done|auto]. Qed.

Lemma sound_mono tr tr' s : tr ⊆ tr' → sound tr s → sound tr' s.
Proof.
  intros Hsub [H1 H2]. split; (eapply Forall_impl; [eassumption|]); [|auto]. intros r. by apply tame_mono.
Qed.

(** The trace goes on without an authentication. *)
Definition goes_on (tr tr' : list Obs) : Prop := ∃ evs, tr' = tr ++ evs ∧ gather named_in evs = [].

Lemma goes_on_refl tr : goes_on tr tr.
Proof. exists []. by rewrite app_nil_r. Qed.

Lemma goes_on_emit e s s0 : named_in e = [] → trace_ s = trace_ s0 → goes_on (trace_ s0) (trace_ (emit e s)).
Proof. intros He <-. exists [e]. split; [done|]. by rewrite gather_cons, He. Qed.

Lemma goes_on_names tr tr' : goes_on tr tr' → names tr' = names tr.
Proof. intros (evs & -> & He). unfold names. by rewrite gather_app, He, app_nil_r. Qed.

Lemma goes_on_sub tr tr' : goes_on tr tr' → tr ⊆ tr'.
Proof. intros (evs & -> & _) e He. apply elem_of_app. by left. Qed.

Lemma goes_on_vouched tr tr' : goes_on tr tr' → always vouched tr → always vouched tr'.
Proof.
  intros (evs & -> & He) Hv. induction evs as [|e evs IH] using rev_ind; [by rewrite app_nil_r|].
  rewrite gather_snoc in He. apply app_eq_nil in He as [He1 He2]. rewrite app_assoc. apply always_snoc; [auto|]. by destruct e.
Qed.

(** ** The other threads *)

(** The change of the checks under way when worker [i] moves on. *)
Lemma under_way_set_pc k i kind pc pc' s s1 :
  workers_ s !! i = Some (mkWorker kind pc) → workers_ s1 = workers_ s →
  tally k (gather check_key (workers_ (set_pc i pc' s1))) + tally k (check_key (mkWorker kind pc)) =
  tally k (gather check_key (workers_ s)) + tally k (check_key (mkWorker kind pc')).
Proof.
  intros Hi Ew. destruct (set_pc_split i pc' s1 (mkWorker kind pc)) as (l1 & l2 & E1 & E2); [by rewrite Ew|].
  rewrite E2, <- Ew, E1, !gather_app, !gather_cons. cbn [w_kind]. tally_lia.
Qed.

Lemma gather_set_pc {B} (f : Worker → list B) (P : B → Prop) i kind pc pc' s s1 :
  workers_ s !! i = Some (mkWorker kind pc) → workers_ s1 = workers_ s →
  Forall P (gather f (workers_ s)) → Forall P (f (mkWorker kind pc')) →
  Forall P (gather f (workers_ (set_pc i pc' s1))).
Proof.
  intros Hi Ew HP Hp. destruct (set_pc_split i pc' s1 (mkWorker kind pc)) as (l1 & l2 & E1 & E2); [by rewrite Ew|].
  rewrite <- Ew, E1, gather_app, gather_cons, !Forall_app in HP. rewrite E2, gather_app, gather_cons, !Forall_app. naive_solver.
Qed.

(** An action only takes checks away. *)
Definition fewer (s s' : Server) : Prop :=
  (∀ k, tally k (under_way s') ≤ tally k (under_way s)) ∧ (∀ tr, sound tr s → sound tr s') ∧
  (bounded (runtime_config_ s) → bounded (runtime_config_ s')).

#[local] Instance fewer_preorder : PreOrder fewer.
Proof.
  split; [by split|]. intros s1 s2 s3 (H1 & T1 & C1) (H2 & T2 & C2). split; [|auto].
  intros k. specialize (H1 k). specialize (H2 k). lia.
Qed.

Lemma fewer_same s s' :
  data_queue_ (auth_queue_ s') = data_queue_ (auth_queue_ s) → workers_ s' = workers_ s →
  data_queue_ (response_queue_ s') = data_queue_ (response_queue_ s) → runtime_config_ s' = runtime_config_ s → fewer s s'.
Proof. intros E1 E2 E3 E4. unfold fewer, under_way, sound, responses, tasks. rewrite E1, E2, E3, E4. done. Qed.

(** What a worker holds is sound. *)
Lemma sound_worker tr i w s :
  workers_ s !! i = Some w → sound tr s →
  Forall (tame tr) (worker_responses w) ∧ Forall (λ t, OAdmitAuth (at_request t) ∈ tr) (worker_tasks w).
Proof.
  unfold sound, responses, tasks. rewrite !Forall_app. intros Hw%list_elem_of_lookup_2 [[H1 _] [_ H2]].
  split; apply Forall_forall; intros x Hx.
  - eapply Forall_forall in H1; [exact H1|]. apply elem_of_gather. eauto.
  - eapply Forall_forall in H2; [exact H2|]. apply elem_of_gather. eauto.
Qed.

Lemma sound_set_pc tr i kind pc pc' s s1 :
  workers_ s !! i = Some (mkWorker kind pc) → workers_ s1 = workers_ s → sound tr s →
  Forall (tame tr) (worker_responses (mkWorker kind pc')) →
  Forall (λ t, OAdmitAuth (at_request t) ∈ tr) (worker_tasks (mkWorker kind pc')) →
  Forall (tame tr) (data_queue_ (response_queue_ s1)) →
  Forall (λ t, OAdmitAuth (at_request t) ∈ tr) (data_queue_ (auth_queue_ s1)) →
  sound tr (set_pc i pc' s1).
Proof.
  intros Hi Ew [[H1 _]%Forall_app [_ H2]%Forall_app] Hr Ht Hq Ha.
  split; apply Forall_app; split; try done; by eapply gather_set_pc.
Qed.

(** A worker moves on and its check, if it had one, stays the same. *)
Lemma fewer_move i kind pc pc' s s1 :
  workers_ s !! i = Some (mkWorker kind pc) → workers_ s1 = workers_ s → auth_queue_ s1 = auth_queue_ s →
  data_queue_ (response_queue_ s1) = data_queue_ (response_queue_ s) → runtime_config_ s1 = runtime_config_ s →
  (check_key (mkWorker kind pc') = [] ∨ check_key (mkWorker kind pc') = check_key (mkWorker kind pc)) →
  (worker_tasks (mkWorker kind pc') = [] ∨ worker_tasks (mkWorker kind pc') = worker_tasks (mkWorker kind pc)) →
  (∀ tr, sound tr s → Forall (tame tr) (worker_responses (mkWorker kind pc'))) → fewer s (set_pc i pc' s1).
Proof.
  intros Hi Ew Ea Er Ec Hk Hts Ht. split; [|split; [|simpl; by rewrite Ec]].
  - intros k. pose proof (under_way_set_pc k i kind pc pc' s s1 Hi Ew) as Hm. unfold under_way.
    change (auth_queue_ (set_pc i pc' s1)) with (auth_queue_ s1). change (response_queue_ (set_pc i pc' s1)) with (response_queue_ s1).
    rewrite Ea, Er. destruct Hk as [Hk|Hk]; rewrite Hk, ?tally_nil in Hm; tally_lia.
  - intros tr Hs. eapply sound_set_pc; [exact Hi|done|exact Hs|auto|..].
    + destruct Hts as [->| ->]; [done|]. by eapply sound_worker.
    + rewrite Er. destruct Hs as [[_ ?]%Forall_app _]. done.
    + rewrite Ea. destruct Hs as [_ [? _]%Forall_app]. done.
Qed.

Lemma fewer_worker_pop i kind s :
  workers_ s !! i = Some (mkWorker kind WIdle) → fewer s (worker_pop i kind s).
Proof.
  intros Hi. unfold worker_pop. destruct kind.
  - destruct (pop (request_queue_ s)) as [[[r|] q]|]; [..|done]; (eapply fewer_move; [exact Hi|done..|by left|by left|done]).
  - destruct (pop (auth_queue_ s)) as [[[t|] q]|] eqn:Ep; [|eapply fewer_move; [exact Hi|done..|by left|by left|done]|done].
    apply pop_Some in Ep as (Ed & _). split; [|split; [|done]].
    + intros k. pose proof (under_way_set_pc k i _ _ (WCheck t) s (set_auth_queue_ q s) Hi eq_refl) as Hm.
      change (check_key (mkWorker AuthWorker WIdle)) with (@nil (Z * Z)) in Hm.
      change (check_key (mkWorker AuthWorker (WCheck t))) with [task_key t] in Hm. rewrite tally_nil in Hm.
      pose proof (tally_cons k (task_key t) (map task_key (data_queue_ q))).
      unfold under_way. simpl in *. rewrite Ed, map_cons. tally_lia.
    + intros tr Hs. pose proof Hs as [[_ H1]%Forall_app [H2 _]%Forall_app]. rewrite Ed in H2. apply Forall_cons in H2 as [H2 H3].
      eapply sound_set_pc; [exact Hi|done|exact Hs|done| |done|done]. by constructor.
Qed.

Lemma fewer_worker_push i kind r s :
  workers_ s !! i = Some (mkWorker kind (WPush r)) → fewer s (worker_push i kind r s).
Proof.
  intros Hi. unfold worker_push. pose proof (push_data r (response_queue_ s)) as Hp.
  destruct (push r (response_queue_ s)) as [res q] eqn:Eq. destruct Hp as [Hd _].
  assert (Hno : res ≠ PushOK → ∀ s1, workers_ s1 = workers_ s → auth_queue_ s1 = auth_queue_ s → response_queue_ s1 = q →
    runtime_config_ s1 = runtime_config_ s → fewer s (set_pc i (WReject (response_key r)) s1)).
  { intros Hr s1 E1 E2 E3 E4. rewrite decide_False, app_nil_r in Hd by done.
    eapply fewer_move; [exact Hi|done|done|by rewrite E3|done|by left|by left|done]. }
  destruct res; try (destruct kind; by apply Hno). rewrite decide_True in Hd by done. split; [|split; [|done]].
  - intros k. pose proof (under_way_set_pc k i _ _ WNotify s (set_response_queue_ q s) Hi eq_refl) as Hm.
    change (check_key (mkWorker kind (WPush r))) with (verdict_key r) in Hm.
    change (check_key (mkWorker kind WNotify)) with (@nil (Z * Z)) in Hm. rewrite tally_nil in Hm.
    unfold under_way. simpl in *. rewrite Hd, gather_snoc. tally_lia.
  - intros tr Hs. pose proof Hs as [[_ H1]%Forall_app [H2 _]%Forall_app]. destruct (sound_worker _ _ _ _ Hi Hs) as [H3 _].
    eapply sound_set_pc; [exact Hi|done|exact Hs|done|done| |done]. simpl. rewrite Hd. by apply Forall_app.
Qed.

Lemma fewer_worker_auth i env kind t s :
  vetted (AWorker i env) → workers_ s !! i = Some (mkWorker kind (WAuth t)) → fewer s (worker_auth i env t s).
Proof.
  intros Hv Hi. unfold worker_auth. case_bool.
  - eapply fewer_move; [exact Hi|done..|by right|by left|]. intros tr _. constructor; [|done]. by apply meek_tame.
  - match goal with |- context [@handleAuth ?J ?C ?r ?n ?h] =>
      pose proof (@handleAuth_safe J C r n h) as Hs; pose proof (@handleAuth_granted J C r n h) as Hg end.
    destruct (handleAuth _ _ _) as [handled h]. destruct Hs as ((E1 & E2 & _) & Ht & _). simpl in Hg.
    eapply fewer_move; [exact Hi|done..| |by left|].
    + right. unfold check_key. simpl. rewrite verdict_auth by done. unfold task_key, request_key, response_key. congruence.
    + intros tr Hs. constructor; [|done]. split; [done|]. intros name (token & result & Hc & Hk & Ha)%Hg.
      destruct (sound_worker _ _ _ _ Hi Hs) as [_ [Hin _]%Forall_cons].
      exists (at_request t), token. split_and!; [done|congruence|done|by eapply Hv].
Qed.

Lemma fewer_worker_step i env s : vetted (AWorker i env) → fewer s (worker_step i env s).
Proof.
  intros Hv. unfold worker_step. destruct (workers_ s !! i) as [[kind pc]|] eqn:Hi; [|done].
  assert (Hrespond : ∀ r resp h, (∀ resp', resp = Some resp' → plain resp') →
    check_key (mkWorker kind pc) = [] → fewer s (worker_respond i r resp (set_hstate_ h s))).
  { intros r resp h Hp Hk. destruct resp as [resp|]; simpl.
    - destruct (plain_meek _ (Hp resp eq_refl)) as [Ht Hm]. eapply fewer_move; [exact Hi|done..|by left|by left|].
      intros tr _. constructor; [by apply meek_tame|done].
    - eapply fewer_move; [exact Hi|done..|left; by apply verdict_other|by left|]. intros tr _. constructor; [by apply meek_tame|done]. }
  destruct pc as [|r|r loads|t|t|r|key| | | | | |]; try done;
    try (eapply fewer_move; [exact Hi|done..|left; by repeat case_match|left; by repeat case_match|by repeat case_match]).
  - by apply fewer_worker_pop.
  - unfold worker_dispatch. case_bool.
    { eapply fewer_move; [exact Hi|done..|by left|by left|done]. }
    set (p := if we_throws env then _ else _). assert (Hp : ∀ resp, p.1 = Some resp → plain resp).
    { subst p. case_bool; [done|]. destruct (dispatch _ _ _) as [o h'] eqn:Ed. simpl. intros resp ->. by eapply dispatch_safe. }
    destruct p as [resp h]. by apply Hrespond.
  - unfold worker_stats. destruct (stats_order !! length loads) as [load|].
    { eapply fewer_move; [exact Hi|done..|by left|by left|done]. }
    replace s with (set_hstate_ (hstate_ s) s) at 2 by (by destruct s). apply Hrespond; [|done].
    case_bool; [done|]. intros resp Hr. by eapply handleStats_safe.
  - unfold worker_check. case_bool; (eapply fewer_move; [exact Hi|done..| | |done]); [by left|by left|by right|by right].
  - by eapply fewer_worker_auth.
  - by apply fewer_worker_push.
Qed.

Lemma fewer_action a s : vetted a → fewer s (run_action a s).
Proof.
  intros Hv. destruct a; simpl; try (by apply fewer_same).
  - by apply fewer_worker_step.
  - unfold config_pull_begin. case_bool; by apply fewer_same.
  - unfold config_pull_end. case_bool; [|done]. destruct fetched as [config|]; [|by apply fewer_same].
    unfold applyRuntimeConfigIfNewer. case_bool; split_and!; done.
Qed.

Lemma fewer_actions l s : Forall vetted l → fewer s (run_actions l s).
Proof.
  intros Hl. unfold run_actions. revert s. induction Hl as [|a l Ha _ IH]; intros s; [done|].
  simpl. etransitivity; [by apply (fewer_action a)|apply IH].
Qed.

(** ** Transfer of the invariant *)

(** A step of another thread, or one of the reactor that takes a check in or
    out of the queues. *)
Lemma one_shared held held' s s' :
  connections_ s' = connections_ s → next_conn_id_ s' = next_conn_id_ s →
  rate_limit_windows_ s' = rate_limit_windows_ s → goes_on (trace_ s) (trace_ s') →
  (∀ k, tally k (held' ++ under_way s') ≤ tally k (held ++ under_way s)) →
  (sound (trace_ s') s → sound (trace_ s') s') → (bounded (runtime_config_ s) → bounded (runtime_config_ s')) →
  One held s → One held' s'.
Proof.
  intros E1 E2 E3 Hg Hk Ht Hcf []. pose proof (goes_on_names _ _ Hg) as E4.
  constructor; unfold keyed in *; rewrite ?E1, ?E2, ?E3, ?E4; try done; auto.
  - intros fd c Hc. specialize (o_checks0 fd c Hc). specialize (Hk (conn_key c)). lia.
  - intros k Hp. apply o_fresh0. specialize (Hk k). lia.
  - apply Ht. eapply sound_mono; [by apply goes_on_sub|done].
  - by eapply goes_on_vouched.
  - intros client. specialize (o_limit0 client). unfold countAuthenticatedConnectionsForClient in *. by rewrite E1.
Qed.

Lemma one_fewer held s s' :
  connections_ s' = connections_ s → next_conn_id_ s' = next_conn_id_ s →
  rate_limit_windows_ s' = rate_limit_windows_ s → goes_on (trace_ s) (trace_ s') →
  fewer s s' → One held s → One held s'.
Proof.
  intros E1 E2 E3 E4 (Hk & Ht & Hc). apply one_shared; try done; [|apply Ht]. intros k. specialize (Hk k). tally_lia.
Qed.

Lemma one_same held s s' :
  connections_ s' = connections_ s → next_conn_id_ s' = next_conn_id_ s →
  rate_limit_windows_ s' = rate_limit_windows_ s → goes_on (trace_ s) (trace_ s') →
  auth_queue_ s' = auth_queue_ s → workers_ s' = workers_ s → response_queue_ s' = response_queue_ s →
  runtime_config_ s' = runtime_config_ s → One held s → One held s'.
Proof. intros E1 E2 E3 E4 E5 E6 E7 E8. apply one_fewer; try done. apply fewer_same; congruence. Qed.

Lemma one_drop held held' s : One (held ++ held') s → One held' s.
Proof. apply one_shared; try done; [apply goes_on_refl|]. intros k. tally_lia. Qed.

Lemma one_action a held s : vetted a → One held s → One held (run_action a s).
Proof.
  intros Ha. pose proof (private_run_action a s) as Hv. unfold private_view, reactor_view in Hv.
  injection Hv as V1 V2 V3 V4 V5 V6 V7 V8 V9 V10 V11 V12 V13 V14 V15 V16 V17 V18.
  apply one_fewer; try congruence; [rewrite V4; apply goes_on_refl|by apply fewer_action].
Qed.

(** [same s]: the invariant carries over from [s]. *)
Ltac same s :=
  apply (one_same _ s); [first [done|apply goes_on_refl|apply goes_on_emit; done]..|].

(** ** Changing a connection *)

Section Reactor.
Context (E : Env) (HV : ∀ n, Forall vetted (sched E n)).

Lemma one_sync held s : One held s → One held (sync E s).
Proof.
  assert (Hf : fewer s (sync E s)).
  { unfold sync. transitivity (run_actions (sched E (k_ticks s)) s); [by apply fewer_actions|by apply fewer_same]. }
  sync_view E s s1. apply one_fewer; try congruence. rewrite Vtrace. apply goes_on_refl.
Qed.

Lemma may_check_range c : 0 ≤ may_check c ≤ 1.
Proof. unfold may_check. case_bool; lia. Qed.

(** The entries after a change. *)
Lemma put_entry c s fd d :
  connections_ (put_connection c s) !! fd = Some d →
  (fd = c_fd c ∧ d = c) ∨ (fd ≠ c_fd c ∧ connections_ s !! fd = Some d).
Proof. unfold put_connection. simpl. intros [[<- <-]|[? ?]]%lookup_insert_Some; auto. Qed.

Lemma put_keyed c s : keyed s → keyed (put_connection c s).
Proof. intros Hk fd d [[-> ->]|[_ Hd]]%put_entry; [done|by apply Hk]. Qed.

Lemma put_unique c c0 s :
  connections_ s !! c_fd c = Some c0 → c_conn_id c = c_conn_id c0 →
  ids_unique (connections_ s) → ids_unique (connections_ (put_connection c s)).
Proof.
  intros Hc Ei Hu x y d1 d2 [[-> ->]|[_ Hd1]]%put_entry [[-> ->]|[_ Hd2]]%put_entry Hid; [done|..|by eapply Hu].
  - eapply Hu; [exact Hc|exact Hd2|congruence].
  - eapply Hu; [exact Hd1|exact Hc|congruence].
Qed.

(** The number of a client's connections depends on which entries count. *)
Lemma count_mono client (m m' : gmap Z Connection) excluded excluded' :
  (∀ fd c, m' !! fd = Some c → authenticated_as client excluded' (fd, c) →
     ∃ c0, m !! fd = Some c0 ∧ authenticated_as client excluded (fd, c0)) →
  Z.of_nat (base.size (filter (authenticated_as client excluded') m')) ≤
  Z.of_nat (base.size (filter (authenticated_as client excluded) m)).
Proof.
  intros Hm. apply inj_le. rewrite <- !size_dom. apply subseteq_size. intros fd (c & [Hc Hp]%map_lookup_filter_Some)%elem_of_dom.
  destruct (Hm _ _ Hc Hp) as (c0 & ? & ?). apply elem_of_dom. exists c0. by apply map_lookup_filter_Some.
Qed.

(** The reactor changes a connection, but not who it is. *)
Lemma one_put held held' c c0 s :
  connections_ s !! c_fd c = Some c0 → c_conn_id c = c_conn_id c0 →
  c_authenticated c = c_authenticated c0 → c_client_id c = c_client_id c0 →
  (∀ k, k ≠ conn_key c → tally k (held' ++ under_way s) ≤ tally k (held ++ under_way s)) →
  tally (conn_key c) (held' ++ under_way s) ≤ may_check c →
  One held s → One held' (put_connection c s).
Proof.
  intros Hc Ei Ea En Hk Hm HO. pose proof (o_below _ _ HO _ _ Hc) as Hb. destruct HO.
  change (under_way s) with (under_way (put_connection c s)) in Hk at 1, Hm.
  constructor; try done; [by apply put_keyed|by eapply put_unique|..]; change (next_conn_id_ (put_connection c s)) with (next_conn_id_ s).
  - intros fd d [[-> ->]|[_ Hd]]%put_entry; [lia|by eapply o_below0].
  - intros fd d [[-> ->]|[Hne Hd]]%put_entry; [done|]. etransitivity; [apply Hk|by apply o_checks0 with fd].
    unfold conn_key. rewrite (o_keyed0 _ _ Hd). congruence.
  - intros k Hp. destruct (decide (k = conn_key c)) as [->|Hne]; [simpl; lia|]. apply o_fresh0. specialize (Hk k Hne). lia.
  - intros name w Hw. destruct (o_windows0 name w Hw) as (fd & d & Hd & Hau & Hn). destruct (decide (fd = c_fd c)) as [->|Hne].
    + exists (c_fd c), c. unfold put_connection. simpl. rewrite lookup_insert_eq. split_and!; congruence.
    + exists fd, d. unfold put_connection. simpl. by rewrite lookup_insert_ne.
  - intros client. etransitivity; [|apply (o_limit0 client)]. apply count_mono.
    intros fd d [[-> ->]|[_ Hd]]%put_entry (? & Hau & Hn); [|by exists d]. exists c0. split; [done|]. repeat split; simpl in *; congruence.
  - intros fd d [[-> ->]|[_ Hd]]%put_entry; [|by eapply o_unnamed0]. rewrite Ei. intros Hf. eapply o_unnamed0; [exact Hc|congruence].
Qed.

Lemma one_put_same held c c0 s :
  connections_ s !! c_fd c = Some c0 → c_conn_id c = c_conn_id c0 →
  c_authenticated c = c_authenticated c0 → c_client_id c = c_client_id c0 → c_auth_pending c = c_auth_pending c0 →
  One held s → One held (put_connection c s).
Proof.
  intros Hc Ei Ea En Ep HO. eapply one_put; [done..| |exact HO].
  assert (conn_key c = conn_key c0 ∧ may_check c = may_check c0) as [-> ->].
  { unfold conn_key, may_check. rewrite (o_keyed _ _ HO _ _ Hc), Ei, Ea, Ep. done. }
  by eapply o_checks.
Qed.

(** A verdict makes the connection known. *)
Lemma one_authenticate held c c0 s :
  connections_ s !! c_fd c = Some c0 → c_conn_id c = c_conn_id c0 → c_authenticated c0 = false →
  c_authenticated c = true → tally (conn_key c) (held ++ under_way s) = 0 →
  granted (trace_ s) (c_conn_id c) (c_client_id c) →
  countAuthenticatedConnectionsForClient (c_client_id c) (c_fd c) s < most pol → One held s →
  One held (put_connection c (emit (OAuthenticated (c_conn_id c) (c_client_id c)) s)).
Proof.
  intros Hc Ei Ea Ha Ht Hg Hlim HO. set (s1 := emit _ s).
  pose proof (o_below _ _ HO _ _ Hc) as Hb. pose proof (o_unnamed _ _ HO _ _ Hc Ea) as Hu. rewrite <- Ei in Hb, Hu.
  assert (En : names (trace_ (put_connection c s1)) = names (trace_ s) ++ [c_conn_id c]) by apply names_snoc.
  assert (Hsub : trace_ s ⊆ trace_ (put_connection c s1)) by (intros e He; apply elem_of_app; by left).
  destruct HO. constructor; try done; [by apply put_keyed|by eapply (put_unique c c0 s1)|..];
    change (next_conn_id_ (put_connection c s1)) with (next_conn_id_ s); rewrite ?En.
  - intros fd d [[-> ->]|[_ Hd]]%put_entry; [lia|by eapply o_below0].
  - intros fd d [[-> ->]|[Hne Hd]]%put_entry; [|by apply o_checks0 with fd].
    change (under_way (put_connection c s1)) with (under_way s). rewrite Ht. apply may_check_range.
  - by eapply sound_mono.
  - by apply always_snoc.
  - intros name w Hw. destruct (o_windows0 name w Hw) as (fd & d & Hd & Hau & Hn).
    assert (fd ≠ c_fd c) by congruence. exists fd, d. unfold put_connection. simpl. by rewrite lookup_insert_ne.
  - intros client. destruct (decide (client = c_client_id c)) as [->|Hne].
    + pose proof (count_one_more (c_client_id c) (c_fd c) c (connections_ s)).
      unfold countAuthenticatedConnectionsForClient in *. simpl in *. lia.
    + etransitivity; [|apply (o_limit0 client)]. apply count_mono.
      intros fd d [[-> ->]|[_ Hd]]%put_entry (? & Hau & Hn); [by destruct Hne|by exists d].
  - destruct o_names0 as [N1 N2]. split.
    + apply NoDup_app. split_and!; [done| |apply NoDup_singleton]. intros x Hx ->%list_elem_of_singleton. done.
    + intros id. rewrite elem_of_app, list_elem_of_singleton. intros [?| ->]; [auto|lia].
  - intros fd d [[-> ->]|[Hne Hd]]%put_entry Hf; [congruence|]. rewrite elem_of_app, list_elem_of_singleton.
    intros [Hin|Eid]; [by eapply o_unnamed0|]. apply Hne. eapply o_unique0; [exact Hd|exact Hc|congruence].
Qed.

(** A window is dropped with the last connection of its client. *)
Lemma one_close held fd s : One held s → One held (closeConnection E fd s).
Proof.
  intros HO. unfold closeConnection. destruct (connections_ s !! fd) as [c|] eqn:Hc; [|done].
  apply one_sync in HO. sync_view E s s1. rewrite <- Vconn in Hc. cbv zeta.
  set (s2 := match c_auth_cancellation c with Some a => _ | None => s1 end).
  assert (HO2 : One held s2 ∧ connections_ s2 = connections_ s1).
  { subst s2. split; [|by destruct (c_auth_cancellation c)]. by destruct (c_auth_cancellation c); same s1. }
  clearbody s2. destruct HO2 as [HO2 E2]. rewrite <- E2 in Hc. clear HO E2 Vconn.
  set (s3 := set_connections_ (delete fd (connections_ s2)) s2).
  set (s4 := if c_authenticated c && _ then _ else s3).
  enough (H4 : One held s4) by (case_bool; by same s4).
  assert (Hsup : ∀ name w, rate_limit_windows_ s4 !! name = Some w → rate_limit_windows_ s2 !! name = Some w ∧
    (c_authenticated c = true → c_client_id c = name →
     ∃ x d, delete fd (connections_ s2) !! x = Some d ∧ c_authenticated d = true ∧ c_client_id d = name)).
  { subst s4. intros name w. case_bool; simpl.
    - bool_facts. intros [Hne Hw]%lookup_delete_Some. by split; [|intros].
    - intros Hw. split; [done|]. intros Ha Hn. rewrite Ha in E0. simpl in E0. bool_facts.
      assert (Hsz : filter (authenticated_as (c_client_id c) (-1)) (delete fd (connections_ s2)) ≠ ∅).
      { intros He. apply E0. unfold countAuthenticatedConnectionsForClient. simpl. by rewrite He, map_size_empty. }
      apply map_choose in Hsz as (x & d & [Hd (_ & Hda & Hdn)]%map_lookup_filter_Some). exists x, d. naive_solver. }
  assert (Hv : connections_ s4 = delete fd (connections_ s2) ∧ under_way s4 = under_way s2 ∧
    (∀ tr, sound tr s4 = sound tr s2) ∧ next_conn_id_ s4 = next_conn_id_ s2 ∧ trace_ s4 = trace_ s2 ∧
    runtime_config_ s4 = runtime_config_ s2) by (subst s4; case_bool; done).
  clearbody s4. clear s3. destruct Hv as (V1 & V2 & V3 & V4 & V5 & V6). destruct HO2.
  assert (Hl : ∀ x d, connections_ s4 !! x = Some d → connections_ s2 !! x = Some d).
  { rewrite V1. by intros x d [_ Hd]%lookup_delete_Some. }
  constructor; unfold keyed; rewrite ?V2, ?V3, ?V4, ?V5, ?V6; try done; eauto.
  - intros x y d1 d2 H1 H2. eapply o_unique0; eauto.
  - intros name w [Hw Hs]%Hsup. rewrite V1. destruct (o_windows0 _ _ Hw) as (x & d & Hd & Ha & Hn).
    destruct (decide (x = fd)) as [->|Hne]; [|exists x, d; by rewrite lookup_delete_ne].
    simplify_eq. auto.
  - intros client. etransitivity; [|apply (o_limit0 client)]. apply count_mono. intros x d Hd Hp. exists d. auto.
Qed.

Lemma one_modify held fd events s : One held s → One held (modifyConnectionEvents E fd events s).2.
Proof.
  intros HO. unfold modifyConnectionEvents. case_bool; simpl; [by same s|]. apply one_close. by same s.
Qed.

Lemma one_maybeClose held fd s : One held s → One held (maybeCloseAfterDrain E fd s).
Proof. intros HO. unfold maybeCloseAfterDrain. repeat case_match; try done. by apply one_close. Qed.

(** The entry of a connection at its own descriptor. *)
Lemma one_entry held fd c s : One held s → connections_ s !! fd = Some c → connections_ s !! c_fd c = Some c.
Proof. intros HO Hc. by rewrite (o_keyed _ _ HO _ _ Hc). Qed.

Lemma one_markReadEof held fd s : One held s → One held (markReadEof E fd s).
Proof.
  intros HO. unfold markReadEof. destruct (connections_ s !! fd) as [c|] eqn:Hc; [|done].
  case_bool; [by apply one_maybeClose|]. pose proof (one_entry _ _ _ _ HO Hc) as Hk.
  assert (HO1 : One held (put_connection (set_c_read_eof true c) s)) by (by eapply one_put_same).
  case_bool; [by apply one_close|by apply one_modify].
Qed.

Lemma one_output_drained held fd c s : One held s → One held (output_drained E fd c s).
Proof. intros HO. unfold output_drained. case_bool; [by apply one_close|by apply one_modify]. Qed.

(** ** Responses *)

Lemma one_apply_output held config r c s :
  connections_ s !! c_fd c = Some c → One held s → One held (apply_output E config r c s).
Proof.
  intros Hc HO. unfold apply_output. case_bool; [apply one_close; by same s|]. cbv zeta. apply one_modify.
  set (c1 := if c_write_offset c >? 0 then _ else c).
  assert (H1 : c_fd c1 = c_fd c ∧ c_conn_id c1 = c_conn_id c ∧ c_authenticated c1 = c_authenticated c ∧
    c_client_id c1 = c_client_id c ∧ c_auth_pending c1 = c_auth_pending c) by (subst c1; case_bool; done).
  clearbody c1. destruct H1 as (K1 & K2 & K3 & K4 & K5).
  match goal with |- One _ (emit _ ?s1) => same s1 end. eapply one_put_same; simpl; try done. by rewrite K1.
Qed.

(** What applying a response does to the connection: its check is over. *)
Definition settles (r : Response) (c : Connection) : Connection :=
  if bool_decide (rs_type r = AUTH_RESP) || rs_close_connection r
  then set_c_auth_cancellation None (set_c_auth_pending false c) else c.

Lemma one_verdict held config r c0 c s r' c' s' :
  connections_ s !! c_fd c0 = Some c0 → c_fd c = c_fd c0 → c_conn_id c = c_conn_id c0 →
  c_authenticated c = c_authenticated c0 → c_client_id c = c_client_id c0 → c_auth_pending c = c_auth_pending c0 →
  conn_key c = response_key r → bounded config → tame (trace_ s) r → apply_authentication config r (settles r c) s = (r', c', s') →
  One (verdict_key r ++ held) s → One held (put_connection c' s') ∧ c_fd c' = c_fd c.
Proof.
  intros Hc E1 E2 E3 E4 E5 Hkey Hcf [Ht Hgr] Ha HO. pose proof (o_checks _ _ HO _ _ Hc) as Hm.
  assert (Ek : conn_key c = conn_key c0) by (unfold conn_key; congruence). rewrite <- Ek in Hm.
  unfold settles in Ha. destruct (decide (rs_type r = AUTH_RESP)) as [Hr|Hr].
  - rewrite (bool_decide_eq_true_2 _ Hr) in Ha. cbn [orb] in Ha. rewrite (verdict_auth r Hr) in Hm, HO.
    assert (Hau : c_authenticated c0 = false ∧ tally (conn_key c) (held ++ under_way s) = 0).
    { rewrite <- Hkey in Hm. pose proof (tally_one (conn_key c)). unfold may_check in Hm.
      destruct (c_auth_pending c0), (c_authenticated c0); cbn [andb negb] in Hm; tally_lia. }
    destruct Hau as [Hau Hz]. set (c1 := set_c_auth_cancellation None _) in *.
    assert (Hput : One held (put_connection c1 s)).
    { eapply (one_put _ held c1 c0); simpl; try congruence; [| |exact HO].
      - intros k Hk. tally_lia.
      - change (conn_key c1) with (conn_key c). rewrite Hz. apply may_check_range. }
    unfold apply_authentication in Ha. destruct (rs_client_id_to_authenticate r) as [client|];
      [specialize (Hgr _ eq_refl)|clear Hgr];
      (match goal with Hx : context [if ?b then _ else _] |- _ => destruct b eqn:Eb end); injection Ha as <- <- <-; (split; [|done]); try (by same (put_connection c1 s)).
    eapply (one_authenticate held (set_c_client_id client (set_c_authenticated true c1)) c0 (stat incrementAuthSuccess s));
      simpl; try congruence; [exact Hz|injection Hkey as _ ->; exact Hgr| |].
    { rewrite Z.geb_leb in Eb. bool_facts. unfold bounded, countAuthenticatedConnectionsForClient in *. simpl in *. lia. }
    same s. by eapply (one_drop [_]).
  - destruct (Ht Hr) as [Hn Hcl]. rewrite (verdict_other r Hr) in HO. rewrite bool_decide_eq_false_2, Hcl in Ha by done.
    simpl in Ha. unfold apply_authentication in Ha. rewrite Hn, bool_decide_eq_false_2 in Ha by done. injection Ha as <- <- <-.
    split; [|done]. eapply one_put_same; try done. congruence.
Qed.

Lemma one_applyResponse held r origin s :
  tame (trace_ s) r → One (verdict_key r ++ held) s → One held (applyResponse E r origin s).
Proof.
  intros Ht HO. unfold applyResponse, getRuntimeConfigSnapshot. cbv zeta. apply one_sync in HO.
  sync_view E s s1. rewrite <- Vtrace in Ht. clear Vconn. destruct (connections_ s1 !! rs_fd r) as [c|] eqn:Hc; [|apply one_drop in HO; by same s1].
  case_bool; [apply one_drop in HO; by same s1|]. bool_facts. pose proof (o_keyed _ _ HO _ _ Hc) as Hk.
  match goal with |- context [let '(_, _) := ?x in _] => destruct x as [c1 s2] eqn:E1 end.
  assert (Hg : goes_on (trace_ s1) (trace_ s2)).
  { destruct origin; [|case_bool]; injection E1 as _ <-; by first [apply goes_on_refl|apply goes_on_emit]. }
  apply (tame_mono _ (trace_ s2)) in Ht; [|by apply goes_on_sub].
  assert (H1 : One (verdict_key r ++ held) s2 ∧ connections_ s2 = connections_ s1 ∧ c_fd c1 = c_fd c ∧ c_conn_id c1 = c_conn_id c ∧
    c_authenticated c1 = c_authenticated c ∧ c_client_id c1 = c_client_id c ∧ c_auth_pending c1 = c_auth_pending c).
  { destruct origin; [|case_bool]; injection E1 as <- <-; (split; [|done]); by same s1. }
  destruct H1 as (HO2 & Em & K1 & K2 & K3 & K4 & K5). change (if _ || _ then _ else c1) with (settles r c1).
  destruct (apply_authentication _ r (settles r c1) s2) as [[r3 c3] s3] eqn:E3.
  eapply (one_verdict held _ r c) in E3 as [HO3 K6]; try done; [..|by rewrite Em, Hk|unfold conn_key, response_key; congruence|apply HO].
  case_bool; [by apply one_close|]. apply one_apply_output; [|done]. unfold put_connection. simpl. by rewrite lookup_insert_eq.
Qed.

Lemma one_drainResponseQueue fuel s s' : One [] s → drainResponseQueue E fuel s = Some s' → One [] s'.
Proof.
  revert s. induction fuel as [|fuel IH]; intros s HO; [done|]. cbn [drainResponseQueue]. cbv zeta.
  apply one_sync in HO. set (s1 := sync E s) in *. clearbody s1.
  destruct (tryPop_data (response_queue_ s1)) as [Hd _]. destruct (o_sound _ _ HO) as [Ht Hts]. unfold responses in Ht.
  destruct (tryPop (response_queue_ s1)) as [[r|] q]; simpl in Hd; rewrite Hd in Ht.
  - apply IH. apply Forall_app in Ht as [Ht1 [Ht2 Ht3]%Forall_cons]. apply one_applyResponse; [done|]. rewrite app_nil_r.
    revert HO. apply one_shared; try done; [apply goes_on_refl|..].
    + intros k. unfold under_way. simpl. rewrite Hd, gather_cons. tally_lia.
    + intros _. split; [|done]. by apply Forall_app.
  - intros [= <-]. eapply (one_fewer [] s1); try done; [apply goes_on_refl|by apply fewer_same].
Qed.

Lemma one_fold {A} held (f : Server → A → Server) l s :
  (∀ s a, One held s → One held (f s a)) → One held s → One held (fold_left f l s).
Proof. intros Hf. revert s. induction l as [|a l IH]; intros s Ht; simpl; auto. Qed.

Lemma one_drainRejected s : One [] s → One [] (drainRejectedResponses E s).
Proof.
  intros HO%one_sync. unfold drainRejectedResponses. apply one_fold.
  - intros s1 key H1. unfold close_rejected. repeat case_match; try done. by apply one_close.
  - by same (sync E s).
Qed.

(** ** Requests *)

Lemma one_allow held client config s allowed s' fd c :
  allowRequestForClient E client config s = (allowed, s') → connections_ s !! fd = Some c →
  c_authenticated c = true → c_client_id c = client → One held s → One held s'.
Proof.
  unfold allowRequestForClient, now. cbv zeta. set (p := if _ >=? _ then _ else _). destruct p as [a w].
  intros [= _ <-] Hc Ha Hn []. constructor; try done. simpl. intros name w' [[<- _]|[_ Hw]]%lookup_insert_Some; eauto.
Qed.

Lemma allow_put c client config s :
  allowRequestForClient E client config (put_connection c s) =
  (let '(a, s') := allowRequestForClient E client config s in (a, put_connection c s')).
Proof. unfold allowRequestForClient, now. cbv zeta. simpl. by destruct (_ >=? _). Qed.

(** What the loop over the decoded requests keeps. *)
Definition batch_one (key : Z * Z) (b : Batch) (s : Server) : Prop :=
  conn_key (b_conn b) = key ∧ Forall (λ r, meek r ∧ verdict_key r = []) (b_local b) ∧
  One (map task_key (b_auth_tasks b)) (put_connection (b_conn b) s).

Lemma local_error_meek c r status payload : meek (local_error c r status payload) ∧ verdict_key (local_error c r status payload) = [].
Proof. by apply plain_meek. Qed.

Lemma batch_check key cancellation r b s task :
  request_key r = key → makeAuthTask r (Some cancellation) = Some task → c_authenticated (b_conn b) = false →
  c_auth_pending (b_conn b) = false → batch_one key b s →
  batch_one key
    (mkBatch (set_c_auth_cancellation (Some cancellation) (set_c_auth_pending true (b_conn b))) (b_requests b)
       (b_auth_tasks b ++ [task]) (b_local b) (b_close_now b))
    (set_cancellations_ (cancellations_ s ++ [false]) s).
Proof.
  intros Hr Hm Ha Hp (Hk & Hl & HO). assert (Ht : task_key task = key).
  { unfold makeAuthTask in Hm. case_bool; [|done]. by injection Hm as <-. }
  split_and!; [done|done|]. cbn [b_conn b_auth_tasks]. set (c := set_c_auth_cancellation _ _).
  apply (one_same _ (put_connection c (put_connection (b_conn b) s)));
    [unfold put_connection; simpl; by rewrite insert_insert_eq|done|done|apply goes_on_refl|done..|].
  assert (Hl0 : connections_ (put_connection (b_conn b) s) !! c_fd c = Some (b_conn b)) by apply lookup_insert_eq.
  pose proof (o_checks _ _ HO _ _ Hl0) as Hc. unfold may_check in Hc. rewrite Hp in Hc. simpl in Hc. rewrite Hk in Hc.
  rewrite map_app. eapply one_put; [exact Hl0|done..| | |exact HO].
  - intros k Hne. change (conn_key c) with (conn_key (b_conn b)) in Hne. pose proof (tally_other k (task_key task) ltac:(congruence)).
    cbn [map]. tally_lia.
  - change (conn_key c) with (conn_key (b_conn b)). unfold may_check. simpl. rewrite Ha, Hk. simpl. rewrite Ht.
    pose proof (tally_one key). tally_lia.
Qed.

Lemma one_classify config decoded key b s b' s' :
  Forall (λ r, request_key r = key) decoded → classify E config decoded b s = (b', s') →
  batch_one key b s → batch_one key b' s'.
Proof.
  revert b s. induction decoded as [|r decoded IH]; intros b s Hd; cbn [classify]; cbv zeta.
  { by intros [= <- <-]. }
  apply Forall_cons in Hd as [Hr Hd].
  assert (Hend : ∀ s1, s1 = stat incrementErrors s → batch_one key b s →
    batch_one key (mkBatch (b_conn b) (b_requests b) (b_auth_tasks b) (b_local b) true) s1).
  { intros s1 -> (Hk & Hl & HO). split_and!; [done..|]. by same (put_connection (b_conn b) s). }
  case_bool; [intros [= <- <-]; by apply Hend|]. destruct (c_authenticated (b_conn b)) eqn:Ha; cbn [negb].
  - case_bool.
    + intros Hc (Hk & Hl & HO). eapply IH; [done|exact Hc|]. split_and!; [done| |done].
      apply Forall_app. split; [done|]. constructor; [|done]. apply local_error_meek.
    + pose proof (allow_put (b_conn b) (c_client_id (b_conn b)) config s) as Hput.
      destruct (allowRequestForClient E _ _ s) as [allowed s1]. intros Hc (Hk & Hl & HO).
      assert (HO1 : One (map task_key (b_auth_tasks b)) (put_connection (b_conn b) s1)).
      { eapply one_allow; [exact Hput|apply lookup_insert_eq|done..]. }
      destruct allowed; (eapply IH; [done|exact Hc|]); (split_and!; [done|..]); try done.
      * apply Forall_app. split; [done|]. constructor; [|done]. apply local_error_meek.
      * by same (put_connection (b_conn b) s1).
  - destruct (negb (bool_decide (rq_type r = AUTH)) || c_auth_pending (b_conn b)) eqn:Eg; [intros [= <- <-]; by apply Hend|].
    bool_facts. destruct (makeAuthTask r _) as [task|] eqn:Em.
    + intros Hc HB. eapply IH; [done|exact Hc|]. by eapply batch_check.
    + unfold makeAuthTask in Em. by rewrite bool_decide_eq_true_2 in Em.
Qed.

Lemma one_count_in_flight held key s : One held s → One held (count_in_flight key s).
Proof.
  intros HO. unfold count_in_flight. destruct (connections_ s !! key.1) as [c|] eqn:Hc; [|done]. case_bool; [|done].
  pose proof (one_entry _ _ _ _ HO Hc). by eapply one_put_same.
Qed.

(** A check goes to the queue, or its refusal becomes its verdict. *)
Lemma one_enqueue_auth ts local s local' s' :
  enqueue_auth E ts local s = (local', s') → Forall meek local →
  One (map task_key ts ++ gather verdict_key local) s → One (gather verdict_key local') s' ∧ Forall meek local'.
Proof.
  revert local s. induction ts as [|t ts IH]; intros local s; cbn [enqueue_auth]; [by intros [= <- <-]|]. cbv zeta.
  intros He Ht HO. apply one_sync in HO. set (s1 := sync E s) in *. clearbody s1.
  pose proof (push_data t (auth_queue_ s1)) as Hp. destruct (push t (auth_queue_ s1)) as [res q] eqn:Eq. destruct Hp as [Hq _].
  rewrite map_cons in HO.
  assert (Hrefused : ∀ s2 r, One ((task_key t :: map task_key ts) ++ gather verdict_key local) s2 →
    rs_type r = AUTH_RESP → meek r → response_key r = task_key t → enqueue_auth E ts (local ++ [r]) s2 = (local', s') →
    One (gather verdict_key local') s' ∧ Forall meek local').
  { intros s2 r HO2 Hr Hmk Hk He2. apply IH in He2; [done|..].
    - apply Forall_app. split; [done|]. by constructor.
    - rewrite gather_snoc, (verdict_auth r Hr), Hk. revert HO2. apply one_shared; try done; [apply goes_on_refl|].
      intros k. pose proof (tally_cons k (task_key t) (map task_key ts)). tally_lia. }
  destruct res; [|refine (Hrefused _ _ _ _ _ _ He); [|done..]; apply push_not_ok in Eq as ->; [by same s1|done]..].
  apply IH in He; [done|done|]. apply one_count_in_flight.
  revert HO. apply one_shared; [done..|by apply goes_on_emit| | |done].
  - intros k. rewrite decide_True in Hq by done. unfold under_way. cbn [auth_queue_ workers_ response_queue_ emit set_trace_ set_auth_queue_].
    rewrite Hq, map_app. cbn [map]. pose proof (tally_cons k (task_key t) (map task_key ts)). tally_lia.
  - intros [Hs1 [Hs2 Hs3]%Forall_app]. split; [done|]. apply Forall_app. split; [|done]. simpl. rewrite Hq, decide_True by done.
    apply Forall_app. split; [done|]. constructor; [|done]. apply elem_of_app. right. by left.
Qed.

Lemma one_enqueue_requests rs local s local' s' :
  enqueue_requests E rs local s = (local', s') → Forall meek local →
  One (gather verdict_key local) s → One (gather verdict_key local') s' ∧ Forall meek local'.
Proof.
  revert local s. induction rs as [|r rs IH]; intros local s; cbn [enqueue_requests]; [by intros [= <- <-]|]. cbv zeta.
  intros He Ht HO. apply one_sync in HO. set (s1 := sync E s) in *. clearbody s1.
  destruct (plain_meek (makeOverloadResponse r false) ltac:(done)) as [Ho Hv].
  destruct (push r (request_queue_ s1)) as [res q]. destruct res; (apply IH in He; [exact He|..]);
    rewrite ?gather_snoc, ?Hv, ?app_nil_r; try (apply Forall_app; by split; [|constructor]); try done; try (by same s1).
  apply one_count_in_flight. by same s1.
Qed.

Lemma one_apply_local local s :
  Forall meek local → One (gather verdict_key local) s → One [] (apply_local E local s).
Proof.
  unfold apply_local. revert s. induction local as [|r local IH]; intros s Ht HO; [done|]. simpl.
  apply Forall_cons in Ht as [Hr Ht]. apply IH; [done|]. apply one_applyResponse; [by apply meek_tame|done].
Qed.

Lemma one_decodeAndEnqueue fd eof s : One [] s → One [] (decodeAndEnqueue E fd eof s).2.
Proof.
  intros HO. unfold decodeAndEnqueue, getRuntimeConfigSnapshot. cbv zeta. apply one_sync in HO. set (s1 := sync E s) in *.
  clearbody s1. destruct (connections_ s1 !! fd) as [c|] eqn:Hc; [|done]. pose proof (one_entry _ _ _ _ HO Hc) as Hk.
  destruct (decode _ _ _ _ _) as [[status input] decoded] eqn:Ed. apply decode_keys in Ed.
  set (s2 := if bool_decide (status = INVALID_LENGTH) then _ else s1).
  assert (HO2 : One [] s2 ∧ connections_ s2 = connections_ s1).
  { subst s2. case_bool; (split; [|done]); by same s1. }
  clearbody s2. destruct HO2 as [HO2 Em]. rewrite <- Em in Hk.
  match goal with |- context [classify E ?cf decoded ?b0 s2] => destruct (classify E cf decoded b0 s2) as [b s3] eqn:E3 end.
  eapply one_classify in E3; [|exact Ed|split_and!; [done|done|]]; [|by eapply one_put_same].
  destruct E3 as (_ & Hl & HO3). case_bool; [by eapply one_close, (one_drop _ []); rewrite app_nil_r|].
  destruct (enqueue_auth E _ _ _) as [local s5] eqn:E5. apply one_enqueue_auth in E5 as [HO5 Ht5].
  - destruct (enqueue_requests E _ _ _) as [local' s6] eqn:E6. apply one_enqueue_requests in E6 as [HO6 Ht6]; [|done..].
    by apply one_apply_local.
  - eapply Forall_impl; [exact Hl|]. by intros r [? _].
  - assert (gather verdict_key (b_local b) = []) as ->; [|by rewrite app_nil_r].
    clear -Hl. induction (b_local b) as [|r l IH]; [done|]. apply Forall_cons in Hl as [[_ Hr] Hl].
    by rewrite gather_cons, Hr, IH.
Qed.

(** ** Socket I/O *)

Lemma one_handleRead fd script s s' : One [] s → handleRead E fd script s = Some s' → One [] s'.
Proof.
  revert s. induction script as [|a script IH]; intros s HO; cbn [handleRead];
    (case_bool; [by intros [= <-]|]); destruct (connections_ s !! fd) as [c|] eqn:Hc; try (by intros [= <-]);
    (case_bool; [by intros [= <-]|]); [done|]. pose proof (one_entry _ _ _ _ HO Hc) as Hk.
  destruct a as [b| | | |].
  - case_bool; [done|]. set (s1 := emit _ _).
    assert (HO1 : One [] s1).
    { subst s1. match goal with |- One _ (emit _ (stat _ ?x)) => same x end. by eapply one_put_same. }
    clearbody s1. pose proof (one_decodeAndEnqueue fd false s1 HO1) as HO2.
    destruct (decodeAndEnqueue E fd false s1) as [[|] s2]; simpl in HO2; [by apply IH|by intros [= <-]].
  - intros [= <-]. by apply one_markReadEof, one_decodeAndEnqueue.
  - by apply IH.
  - intros [= <-]. by apply one_decodeAndEnqueue.
  - intros [= <-]. by apply one_close.
Qed.

Lemma one_handleWrite fd script s s' : One [] s → handleWrite E fd script s = Some s' → One [] s'.
Proof.
  revert s. induction script as [|a script IH]; intros s HO; cbn [handleWrite];
    destruct (connections_ s !! fd) as [c|] eqn:Hc; try (by intros [= <-]);
    (case_bool; [intros [= <-]; by apply one_output_drained|]); [done|].
  destruct a as [n| | |]; [|by apply IH|by intros [= <-]|intros [= <-]; by apply one_close].
  case_bool; [done|]. cbv zeta. set (s1 := emit _ _).
  assert (HO1 : One [] s1 ∧ connections_ s1 = connections_ s) by (subst s1; split; [by same s|done]).
  clearbody s1. destruct HO1 as [HO1 Em]. pose proof (one_entry _ _ _ _ HO Hc) as Hk. rewrite <- Em in Hk.
  case_bool.
  - intros [= <-]. apply one_output_drained. by eapply one_put_same.
  - apply IH. by eapply one_put_same.
Qed.

Lemma one_next held n s : One held s → next_conn_id_ s ≤ n → One held (set_next_conn_id_ n s).
Proof.
  intros [] Hn. constructor; try done; simpl.
  - intros fd c Hc. specialize (o_below0 fd c Hc). lia.
  - intros k Hk. specialize (o_fresh0 k Hk). lia.
  - split; [apply o_names0|]. intros id Hid. apply o_names0 in Hid. lia.
Qed.

(** A new connection has a new id. *)
Lemma one_accept fd s :
  One [] s → connections_ s !! fd = None →
  One [] (put_connection (newConnection fd (next_conn_id_ s)) (set_next_conn_id_ (next_conn_id_ s + 1) s)).
Proof.
  intros HO Hnone. set (c := newConnection _ _). set (s1 := set_next_conn_id_ _ s).
  pose proof (one_next [] (next_conn_id_ s + 1) s HO ltac:(lia)) as HO1. fold s1 in HO1.
  assert (Hb : ∀ x d, connections_ s1 !! x = Some d → c_conn_id d ≠ next_conn_id_ s).
  { intros x d Hd. pose proof (o_below _ _ HO x d Hd). lia. }
  destruct HO1. constructor; try done; [by apply put_keyed|..].
  - intros x y d1 d2 [[-> ->]|[_ Hd1]]%put_entry [[-> ->]|[_ Hd2]]%put_entry Hid; [done|..|by eapply o_unique0].
    + by apply Hb in Hd2.
    + by apply Hb in Hd1.
  - intros x d [[-> ->]|[_ Hd]]%put_entry; [simpl; lia|by eapply o_below0].
  - intros x d [[-> ->]|[_ Hd]]%put_entry; [|by eapply o_checks0]. change (may_check c) with 0.
    destruct (Z_lt_le_dec 0 (tally (conn_key c) ([] ++ under_way s))) as [Hp|Hp]; [|exact Hp].
    apply (o_fresh _ _ HO) in Hp. simpl in Hp. lia.
  - intros name w Hw. destruct (o_windows0 name w Hw) as (x & d & Hd & ? & ?). exists x, d. split; [|done].
    change (connections_ s !! x = Some d) in Hd. unfold put_connection. simpl. rewrite lookup_insert_ne by congruence. done.
  - intros client. etransitivity; [|apply (o_limit0 client)]. apply count_mono.
    intros x d [[-> ->]|[_ Hd]]%put_entry Hp; [by destruct Hp as (_ & ? & _)|by exists d].
  - intros x d [[-> ->]|[_ Hd]]%put_entry Ha; [|by eapply o_unnamed0]. intros Hin. apply (o_names _ _ HO) in Hin. simpl in Hin. lia.
Qed.

Lemma one_handleAccept script s s' :
  One [] s → 0 ≤ next_conn_id_ s → next_conn_id_ s + zlen script < 2 ^ 64 → handleAccept E script s = Some s' → One [] s'.
Proof.
  revert s. induction script as [|a script IH]; intros s HO H0 Hn; cbn [handleAccept]; (case_bool; [by intros [= <-]|]); [done|].
  rewrite zlen_cons in Hn. pose proof (zlen_nonneg script).
  destruct a as [fd| | |]; [|intros Hr; apply (IH s); [done|lia|lia|done]|by intros [= <-]..].
  case_bool; [done|]. cbv zeta. rewrite u64_small by lia.
  pose proof (one_next [] (next_conn_id_ s + 1) s HO ltac:(lia)) as HO1.
  case_bool; (intros Hr; eapply IH; [| | |exact Hr]; clear IH Hr); unfold emplace_connection; simpl (connections_ _); simpl (c_fd _);
    try (destruct (connections_ s !! fd) eqn:Hc; simpl; lia); try (simpl; lia).
  - by same (set_next_conn_id_ (next_conn_id_ s + 1) s).
  - destruct (connections_ s !! fd) eqn:Hc; [by same (set_next_conn_id_ (next_conn_id_ s + 1) s)|].
    pose proof (one_accept fd s HO Hc) as HO2.
    by same (put_connection (newConnection fd (next_conn_id_ s)) (set_next_conn_id_ (next_conn_id_ s + 1) s)).
Qed.

(** ** Draining and the event loop *)

Lemma one_closeListener s : One [] s → One [] (closeListener s).
Proof. intros HO. unfold closeListener. case_bool; [done|]. case_bool; by same s. Qed.

Lemma one_markNotReady removed s : One [] s → One [] (markNotReady removed s).
Proof. intros HO. unfold markNotReady. case_bool; [by same s|done]. Qed.

Lemma one_beginDraining s : One [] s → One [] (beginDraining E s).
Proof.
  intros HO. unfold beginDraining, now. case_bool; [done|]. cbv zeta. apply one_fold.
  { intros s1 [fd events] H1. by apply one_modify. }
  match goal with |- One [] (set_auth_queue_ _ ?x) => apply (one_fewer [] x); [done..|apply goes_on_refl|by apply fewer_same|] end.
  apply one_sync. match goal with |- One [] (set_request_queue_ _ ?x) => same x end. apply one_sync, one_closeListener, one_markNotReady.
  same (sync E s). by apply one_sync.
Qed.

Lemma one_all_hold checks s : One [] s → One [] (all_hold E checks s).2.
Proof.
  revert s. induction checks as [|f l IH]; intros s HO; [done|]. simpl. apply one_sync in HO. case_bool; auto.
Qed.

Lemma one_drainComplete s : One [] s → One [] (drainComplete E s).2.
Proof.
  intros HO. unfold drainComplete. pose proof (one_all_hold queues_drained s HO) as H1.
  destruct (all_hold E queues_drained s) as [b s1]. simpl in H1. case_bool; simpl; [done|].
  apply one_fold; [|done]. intros. by apply one_close.
Qed.

(** Emptying a queue takes checks away. *)
Lemma fewer_abort_auth s : fewer s (set_auth_queue_ (abort (auth_queue_ s)).2 s).
Proof.
  split; [|split; [|done]].
  - intros k. unfold under_way. cbn [auth_queue_ workers_ response_queue_ set_auth_queue_ abort snd data_queue_ map app]. tally_lia.
  - intros tr [H1 [_ H2]%Forall_app]. split; [done|]. apply Forall_app. done.
Qed.

Lemma fewer_abort_responses s : fewer s (set_response_queue_ (abort (response_queue_ s)).2 s).
Proof.
  split; [|split; [|done]].
  - intros k. unfold under_way. cbn [auth_queue_ workers_ response_queue_ set_response_queue_ abort snd data_queue_].
    rewrite gather_nil, app_nil_r. tally_lia.
  - intros tr [[H1 _]%Forall_app H2]. split; [|done]. apply Forall_app. done.
Qed.

Lemma one_finish_draining s : One [] s → One [] (finish_draining E s).
Proof.
  intros HO. unfold finish_draining, now. case_bool; [|done]. pose proof (one_drainComplete s HO) as H1.
  destruct (drainComplete E s) as [[|] s1]; simpl in H1; [by same s1|]. cbv zeta.
  assert (H2 : One [] (tick s1)) by (by same s1). case_bool; [|done].
  apply one_sync in H2. set (s2 := sync E (tick s1)) in *. clearbody s2.
  assert (H3 : One [] (set_request_queue_ (abort (request_queue_ s2)).2 s2)) by (by same s2).
  apply one_sync in H3. set (s3 := sync E _) in *. clearbody s3.
  assert (H4 : One [] (set_auth_queue_ (abort (auth_queue_ s3)).2 s3)).
  { apply (one_fewer [] s3); [done..|apply goes_on_refl|apply fewer_abort_auth|done]. }
  apply one_sync in H4. set (s4 := sync E _) in *. clearbody s4.
  same (set_response_queue_ (abort (response_queue_ s4)).2 s4). apply (one_fewer [] s4); [done..|apply goes_on_refl|apply fewer_abort_responses|done].
Qed.

Lemma one_reactor_consume fuel s s' : One [] s → reactor_consume E fuel s = Some s' → One [] s'.
Proof.
  revert s. induction fuel as [|fuel IH]; intros s HO; cbn [reactor_consume]; (case_bool; [by intros [= <-]|]); [done|].
  cbv zeta. apply one_sync in HO. set (s1 := sync E s) in *. clearbody s1.
  destruct (eventfd_read _) as [[] c]; try (by intros [= <-]). apply IH. by same s1.
Qed.

Lemma one_handleEvent ev s s' :
  One [] s → 0 ≤ next_conn_id_ s → next_conn_id_ s + zlen (ev_accept ev) < 2 ^ 64 → handleEvent E ev s = Some s' → One [] s'.
Proof.
  intros HO H0 Hn. unfold handleEvent. cbv zeta. case_bool; [by apply one_reactor_consume|].
  case_bool; [case_bool; [by apply one_handleAccept|by intros [= <-]]|].
  case_bool; [intros [= <-]; by apply one_close|]. intros (s1 & H1 & H2)%bind_Some.
  assert (HO1 : One [] s1) by (destruct (_ && _); [by eapply one_handleRead|by injection H1 as <-]).
  destruct (connections_ s1 !! ev_fd ev); [|by injection H2 as <-]. set (s2 := if has_flag _ _ then _ else s1) in H2.
  assert (HO2 : One [] s2) by (unfold s2; case_bool; [by apply one_markReadEof|done]). clearbody s2.
  destruct (has_flag _ EPOLLOUT); [by eapply one_handleWrite|by injection H2 as <-].
Qed.

Lemma one_handleEvents evs s s' :
  Settled s → One [] s → next_conn_id_ s + accepts evs < 2 ^ 64 → handleEvents E evs s = Some s' → One [] s'.
Proof.
  unfold accepts. revert s. induction evs as [|ev evs IH]; intros s HF HO Hn.
  { by intros [= <-]. }
  rewrite gather_cons, zlen_app in Hn. pose proof (zlen_nonneg (gather ev_accept evs)).
  intros (s1 & H1 & H2)%bind_Some. destruct (handleEvent_flow E ev s s1 HF ltac:(lia) H1).
  apply (IH s1); [done| |lia|done]. eapply one_handleEvent; [done| | |done]; [pose proof (f_next _ _ _ _ HF)|]; lia.
Qed.

Lemma one_loop_iteration w s s' :
  Settled s → One [] s → next_conn_id_ s + wait_accepts w < 2 ^ 64 → loop_iteration E w s = Some s' → One [] s'.
Proof.
  intros HF HO Hn. rewrite loop_iteration_unfold. case_bool; [done|]. cbv zeta.
  destruct (carries_settled _ _ (begin_iteration_carries E s) HF) as [HF1 En].
  assert (HO1 : One [] (begin_iteration E s)).
  { unfold begin_iteration, epollTimeoutMs, now. apply one_sync in HO. cbv zeta.
    repeat (case_bool; simpl); apply one_sync; try (match goal with |- One _ (tick ?x) => same x end);
      by try apply one_beginDraining. }
  set (s1 := begin_iteration E s) in *. clearbody s1. destruct w as [evs drains| |]; cbn [wait_accepts] in Hn.
  - intros (s2 & H2 & (s3 & H3 & [= <-])%bind_Some)%bind_Some. apply one_finish_draining, one_drainRejected.
    eapply one_drainResponseQueue; [|exact H3]. eapply one_handleEvents; [exact HF1|exact HO1| |exact H2]. lia.
  - by intros [= <-].
  - intros [= <-]. by apply one_beginDraining.
Qed.
End Reactor.

(** ** Reachable states *)

(** Nothing has happened yet. *)
Lemma one_empty s :
  connections_ s = ∅ → rate_limit_windows_ s = ∅ → trace_ s = [] → under_way s = [] → responses s = [] → tasks s = [] →
  bounded (runtime_config_ s) → 0 ≤ most pol → One [] s.
Proof.
  intros E1 E2 E3 E4 E5 E6 Hb H0.
  constructor; unfold keyed, ids_unique, sound, names, countAuthenticatedConnectionsForClient;
    rewrite ?E1, ?E2, ?E3, ?E4, ?E5, ?E6, ?gather_nil; try (intros *; rewrite lookup_empty; done); try done.
  - apply always_nil.
  - split; [by apply NoDup_nil_2|by intros id ?%not_elem_of_nil].
Qed.

Lemma one_launched u s : bounded defaultRuntimeConfig → launched u s → One [] s.
Proof.
  intros Hb (s0 & Hs & Hst). unfold newServer in Hs. destruct ((_ =? 0) || (_ >? 16)); [done|].
  destruct ((_ =? 0) || (_ >? 65536)); [done|]. injection Hs as <-. unfold start in Hst. simpl in Hst. injection Hst as <-.
  assert (Hw : ∀ {B} (f : Worker → list B) n m, (∀ kind, f (mkWorker kind WIdle) = []) →
    gather f (replicate n (mkWorker NormalWorker WIdle) ++ replicate m (mkWorker AuthWorker WIdle)) = []).
  { intros B f n m Hf. assert (Hk : ∀ kind l, gather f (replicate l (mkWorker kind WIdle)) = []).
    { intros kind l. induction l as [|l IH]; [done|]. simpl. by rewrite gather_cons, Hf, IH. }
    by rewrite gather_app, !Hk. }
  unfold start_workers, markReady. destruct (su_ready_created u); apply one_empty; try done;
    try (unfold bounded in Hb; simpl in Hb; lia); unfold under_way, responses, tasks; simpl; by rewrite Hw.
Qed.

(** The states a server reaches when every answer its workers get from the
    control plane is a vetted one. *)
Section Reachable.
Context (E : Env).

Inductive attested (u : Setup) : Server → Prop :=
  | att_start s : setup_ok u → launched u s → attested u s
  | att_step w s s' :
      attested u s → next_conn_id_ s + wait_accepts w < 2 ^ 64 → loop_iteration E w s = Some s' → attested u s'
  | att_action a s : attested u s → action_ok a → vetted a → attested u (run_action a s).

Lemma attested_reachable u s : attested u s → reachable E u s.
Proof. induction 1; [by apply reach_start|by eapply reach_step|by apply reach_action]. Qed.

Lemma attested_one u s :
  bounded defaultRuntimeConfig → (∀ n, Forall vetted (sched E n)) → attested u s → One [] s.
Proof.
  intros Hb HV Hr. induction Hr as [s Hu Hl|w s s' Hr IH Hn Hi|a s Hr IH Ha Hv].
  - by eapply one_launched.
  - eapply one_loop_iteration; [done|by eapply reachable_settled, attested_reachable|done..].
  - by apply one_action.
Qed.
End Reachable.
End Identity.

(** Without a claim about the control plane every reachable state counts. *)
Definition anything : Policy := mkPolicy (λ _ _, True) INT_MAX.

Lemma action_vetted `{JsonLib} a : action_ok a → vetted anything a.
Proof. destruct a as [| |[config|]| | |]; try done. intros (_ & _ & [_ Hc] & _). exact Hc. Qed.

Lemma reachable_one `{JsonLib} E u s : env_ok E → reachable E u s → One anything [] s.
Proof.
  intros HE Hr. assert (Ha : attested anything E u s).
  { induction Hr as [s Hu Hl|w s s' _ IH Hn Hi|a s _ IH Ha]; [by apply att_start|by eapply att_step|].
    apply att_action; [done|done|]. by apply action_vetted. }
  eapply attested_one; [done| |exact Ha]. intros n. eapply Forall_impl; [apply HE|]. intros a. apply action_vetted.
Qed.

(** ** What the names say *)

Lemma elem_of_names id tr : id ∈ names tr ↔ ∃ name, OAuthenticated id name ∈ tr.
Proof.
  unfold names. rewrite elem_of_gather. split.
  - intros (e & He & Hid). destruct e; try (by apply not_elem_of_nil in Hid). apply list_elem_of_singleton in Hid as ->. eauto.
  - intros (name & He). eexists. split; [exact He|]. by left.
Qed.

Lemma names_once id n1 n2 before between after :
  ¬ NoDup (names (before ++ OAuthenticated id n1 :: between ++ OAuthenticated id n2 :: after)).
Proof.
  unfold names. rewrite gather_app, gather_cons, gather_app, gather_cons. simpl.
  intros (_ & _ & Hn)%NoDup_app. apply NoDup_cons in Hn as [Hn _]. apply Hn. set_solver.
Qed.

Lemma names_agree id n1 n2 tr :
  NoDup (names tr) → OAuthenticated id n1 ∈ tr → OAuthenticated id n2 ∈ tr → n1 = n2.
Proof.
  induction tr as [|e tr IH]; [by intros _ ?%not_elem_of_nil|]. unfold names. rewrite gather_cons. fold (names tr).
  intros (_ & Hd & Hn)%NoDup_app. rewrite !elem_of_cons. intros [E1|H1] [E2|H2]; [congruence|..|auto].
  - exfalso. apply (Hd id); [rewrite <- E1; by left|apply elem_of_names; eauto].
  - exfalso. apply (Hd id); [rewrite <- E2; by left|apply elem_of_names; eauto].
Qed.

(** The clients with a window are at most as many as the connections. *)
Lemma windows_bounded `{JsonLib} pol s :
  One pol [] s → (base.size (rate_limit_windows_ s) ≤ base.size (connections_ s))%nat.
Proof.
  intros HO. rewrite <- !length_map_to_list, <- (length_map fst (map_to_list (rate_limit_windows_ s))),
    <- (length_map (λ p, c_client_id p.2) (map_to_list (connections_ s))).
  apply submseteq_length, NoDup_submseteq; [apply NoDup_fst_map_to_list|].
  intros name ([x w] & -> & Hw%elem_of_map_to_list)%list_elem_of_fmap. destruct (o_windows _ _ _ HO _ _ Hw) as (fd & c & Hc & _ & Hn).
  apply list_elem_of_fmap. exists (fd, c). split; [done|]. by apply elem_of_map_to_list.
Qed.

(** ** Theorems *)

Section Theorems.
Context `{JsonLib} (E : Env) (HE : env_ok E).

(** C8: Nobody is anybody without the control plane's word.  Take any policy
    such that every control plane the workers consult allows only pairs of
    client id and token in it.  Then whenever a connection of the gateway is
    authenticated as a client, an AUTH request admitted on that same
    connection before carried a token for exactly that client, and the pair
    was approved; the same holds for the identity of every open connection
    that counts as authenticated. *)
Theorem authenticated_with_approval (pol : Policy) u s :
  bounded pol defaultRuntimeConfig → (∀ n, Forall (vetted pol) (sched E n)) → attested pol E u s →
  (∀ before after id name, trace_ s = before ++ OAuthenticated id name :: after → granted pol before id name) ∧
  (∀ fd c, connections_ s !! fd = Some c → c_authenticated c = true →
     granted pol (trace_ s) (c_conn_id c) (c_client_id c)).
Proof.
  intros Hb HV Ha. pose proof (o_granted _ _ _ (attested_one pol E u s Hb HV Ha)) as Hv. split.
  - intros before after id name Et. exact (Hv before _ after Et).
  - intros fd c Hc Hau. destruct (reachable_inv E HE _ _ (attested_reachable _ _ _ _ Ha)) as [keys HI].
    destruct (inv_trace _ _ HI) as [_ Ht]. destruct (Ht _ _ Hc) as [_ Hin]. specialize (Hin Hau).
    apply list_elem_of_split in Hin as (before & after & Et). eapply granted_mono; [|exact (Hv before _ after Et)].
    rewrite Et. intros e He. apply elem_of_app. by left.
Qed.

(** C10: What the gateway keeps per client is bounded.  If the default
    configuration and every configuration the control plane ever serves allow
    at most [most] connections per client, then at no time are more than
    [most] open connections authenticated as the same client, whatever the
    schedule of checks, closings and configuration changes.  Each rate-limit
    window belongs to a client that some open connection is authenticated as,
    so there are at most as many windows as connections, and a client that
    has left starts with a fresh window when it comes back. *)
Theorem client_state_bounded (pol : Policy) u s :
  bounded pol defaultRuntimeConfig → (∀ n, Forall (vetted pol) (sched E n)) → attested pol E u s →
  (∀ client, countAuthenticatedConnectionsForClient client (-1) s ≤ most pol) ∧
  (∀ name w, rate_limit_windows_ s !! name = Some w →
     ∃ fd c, connections_ s !! fd = Some c ∧ c_authenticated c = true ∧ c_client_id c = name) ∧
  (base.size (rate_limit_windows_ s) ≤ base.size (connections_ s))%nat ∧
  (∀ client, countAuthenticatedConnectionsForClient client (-1) s = 0 → rate_limit_windows_ s !! client = None).
Proof.
  intros Hb HV Ha. pose proof (attested_one pol E u s Hb HV Ha) as HO. apply attested_reachable in Ha.
  split_and!; [apply HO|apply HO|by eapply windows_bounded|].
  intros client Hz. destruct (rate_limit_windows_ s !! client) as [w|] eqn:Hw; [|done]. exfalso.
  destruct (o_windows _ _ _ HO _ _ Hw) as (fd & c & Hc & Hau & Hn). destruct (reachable_inv E HE _ _ Ha) as [keys HI].
  destruct (k_conns _ _ _ _ _ _ _ _ (inv_kernel _ _ HI) _ _ Hc) as (_ & Hfd & _).
  unfold countAuthenticatedConnectionsForClient in Hz.
  assert (Hf : filter (authenticated_as client (-1)) (connections_ s) = ∅) by (apply map_size_empty_inv; lia).
  apply (map_filter_empty_not_lookup _ _ fd c Hf); [|done]. repeat split; [simpl; lia|done|done].
Qed.

(** C9: A connection gets its identity at most once and keeps it: in every
    reachable state no connection id was authenticated twice, an open
    connection that is authenticated carries the client id it was
    authenticated with, and one that is not was never authenticated. An open
    connection has at most one AUTH check under way in the AUTH queue, the
    workers and the response queue together, and then it is waiting for its
    verdict and not yet authenticated, so no later verdict can rename it. *)
Theorem identity_fixed u s :
  reachable E u s →
  (∀ id n1 n2 before between after,
     trace_ s ≠ before ++ OAuthenticated id n1 :: between ++ OAuthenticated id n2 :: after) ∧
  (∀ fd c, connections_ s !! fd = Some c →
     (∀ name, OAuthenticated (c_conn_id c) name ∈ trace_ s ↔ c_authenticated c = true ∧ name = c_client_id c) ∧
     tally (conn_key c) (under_way s) ≤ 1 ∧
     (conn_key c ∈ under_way s → c_auth_pending c = true ∧ c_authenticated c = false)).
Proof.
  intros Hr. pose proof (reachable_one E u s HE Hr) as HO. destruct (o_names _ _ _ HO) as [Hnd _]. split.
  - intros id n1 n2 before between after Et. rewrite Et in Hnd. by eapply names_once.
  - intros fd c Hc. pose proof (o_checks _ _ _ HO _ _ Hc) as Hm. cbn [app] in Hm. pose proof (may_check_range c).
    destruct (reachable_inv E HE _ _ Hr) as [keys HI]. destruct (inv_trace _ _ HI) as [_ Ht].
    destruct (Ht _ _ Hc) as [_ Hau]. split_and!; [|lia|].
    + intros name. split; [|intros [Ha ->]; by apply Hau]. intros Hn.
      destruct (c_authenticated c) eqn:Ea; [|exfalso; eapply o_unnamed; [done..|apply elem_of_names; eauto]].
      split; [done|]. eapply names_agree; [done|done|by apply Hau].
    + intros (l1 & l2 & Hin)%list_elem_of_split. rewrite Hin, tally_app, tally_cons, tally_one in Hm.
      pose proof (tally_nonneg (conn_key c) l1). pose proof (tally_nonneg (conn_key c) l2).
      unfold may_check in Hm. destruct (c_auth_pending c), (c_authenticated c); simpl in Hm; done || lia.
Qed.
End Theorems.

(** ** The control-plane client *)

(** Some call of the client, made with the system in a state that satisfies
    [at_call], brought the answer that these credentials are allowed. *)
Definition confirmed `{JsonLib} (w : World) (fuel : nat) (c : ControlPlaneClient) (at_call : Net → Prop)
    (client token : bytes) : Prop :=
  ∃ net not_after result net', at_call net ∧ checkAuth w fuel c client token not_after net = Some (Some result, net') ∧
    auth_evidence c client token true (n_open net) net'.

(** The control-plane client of the gateway is a vetted control plane: what
    its [checkAuth] allows was confirmed over a connection, by exactly one
    well-framed successful response to the request for these credentials. *)
Theorem client_vetted `{JsonLib} (w : World) (δ R : Z) (fuel : nat) (host : bytes) (port timeout_ms : Z)
    (gateway_token : bytes) (c : ControlPlaneClient) (at_call : Net → Prop) (n : Z) i env net :
  Lawful w δ → (∀ k, w_resolve_cost w k ≤ R) → newClient host port timeout_ms gateway_token = Some c →
  timeout_ms * MILLISECOND + 1 < Z.of_nat fuel → at_call net → we_control env = client_control w fuel c net →
  vetted (mkPolicy (confirmed w fuel c at_call) n) (AWorker i env).
Proof.
  intros HL HR [Hok ->]%newClient_ok Hf Hnet Hw client token not_after result. rewrite Hw.
  set (c := mkClient _ _ _ _) in *. unfold control_check, client_control. intros Hr Ha.
  destruct (checkAuth_spec w δ fuel c client token not_after net R) as (r & net' & Hrun & _ & _ & Hev); [done|done|done|].
  rewrite Hrun in Hr. subst r. rewrite Ha in Hev. by exists net, not_after, result, net'.
Qed.

(** ** Witnesses *)

(** The sample gateway with a control plane that allows one pair only. *)
Definition strict_policy : Policy := mkPolicy (λ client token, client = lit "c1" ∧ token = lit "t1") 2.
Definition strict_control : ControlPlane := λ client token _,
  Some (mkAuthResult (if bool_decide (client = lit "c1") && bool_decide (token = lit "t1") then Allowed else Denied)
          NoError 200 []).
Definition strict_env : WorkerEnv := mkWorkerEnv (lit "T") true strict_control false 5 0.
Definition strict_gateway : Env :=
  mkEnv (λ n, Z.of_nat n * 1000) (λ _, true) (λ _, true)
    (λ _, concat (replicate 4 [AWorker 0 strict_env; AWorker 1 strict_env])).
Definition strict_state (n : nat) : Server :=
  default sample_start (run_loop (H := sample_json) strict_gateway (take n sample_script) sample_start).

Lemma strict_vetted n : Forall (vetted strict_policy) (sched strict_gateway n).
Proof.
  assert (Hv : ∀ i, vetted strict_policy (AWorker i strict_env)).
  { intros i client token not_after result [= <-]. simpl. case_bool; [|done]. intros _. by bool_facts. }
  repeat (constructor; [apply Hv|]). constructor.
Qed.

Lemma strict_state_attested : attested (H := sample_json) strict_policy strict_gateway sample_setup (strict_state 4).
Proof.
  assert (Hstep : ∀ k w, sample_script !! k = Some w → (k ≤ 3)%nat →
    attested (H := sample_json) strict_policy strict_gateway sample_setup (strict_state k) →
    attested (H := sample_json) strict_policy strict_gateway sample_setup (strict_state (S k))).
  { intros k w Hw Hk Ha. apply (att_step _ _ _ w (strict_state k)); [exact Ha|..];
      do 4 (destruct k as [|k]; [injection Hw as <-; vm_compute; reflexivity|]); lia. }
  do 4 (eapply Hstep; [reflexivity|lia|]). apply att_start; [by split_and!|]. eexists. split; reflexivity.
Qed.

Lemma authenticated_with_approval_witness :
  c_authenticated (conn_of 6 (strict_state 4)) = true ∧
  granted (H := sample_json) strict_policy (trace_ (strict_state 4)) 1 (lit "c1").
Proof.
  assert (Hk : env_ok strict_gateway) by (intros n; repeat constructor).
  destruct (@authenticated_with_approval sample_json strict_gateway Hk strict_policy sample_setup (strict_state 4)
    ltac:(done) strict_vetted strict_state_attested) as [_ Hc].
  assert (Ha : c_authenticated (conn_of 6 (strict_state 4)) = true) by (vm_compute; reflexivity).
  split; [exact Ha|]. specialize (Hc 6 (conn_of 6 (strict_state 4))).
  assert (E1 : c_conn_id (conn_of 6 (strict_state 4)) = 1) by (vm_compute; reflexivity).
  assert (E2 : c_client_id (conn_of 6 (strict_state 4)) = lit "c1") by (vm_compute; reflexivity).
  rewrite E1, E2 in Hc. apply Hc; [vm_compute; reflexivity|exact Ha].
Defined.

Lemma client_state_bounded_witness :
  countAuthenticatedConnectionsForClient (lit "c1") (-1) (strict_state 4) = 1 ∧
  is_Some (rate_limit_windows_ (strict_state 4) !! lit "c1") ∧
  (∀ client, countAuthenticatedConnectionsForClient client (-1) (strict_state 4) ≤ 2) ∧
  (base.size (rate_limit_windows_ (strict_state 4)) ≤ base.size (connections_ (strict_state 4)))%nat.
Proof.
  assert (Hk : env_ok strict_gateway) by (intros n; repeat constructor).
  destruct (@client_state_bounded sample_json strict_gateway Hk strict_policy sample_setup (strict_state 4)
    ltac:(done) strict_vetted strict_state_attested) as (Hc & _ & Hs & _).
  split_and!; [vm_compute; reflexivity|vm_compute; eauto|exact Hc|exact Hs].
Defined.

(** While the control plane has not answered, the check of the client is
    under way; afterwards the client has its identity. *)
Lemma identity_fixed_witness :
  (tally (6, 1) (under_way slow_state) = 1 ∧ c_auth_pending (conn_of 6 slow_state) = true) ∧
  (c_authenticated (conn_of 6 (sample_state 4)) = true ∧
   ∀ name, OAuthenticated 1 name ∈ trace_ (sample_state 4) ↔ name = lit "c1").
Proof.
  split.
  - destruct (@identity_fixed sample_json slow_gateway slow_env_ok sample_setup slow_state slow_state_reachable) as [_ Hc].
    assert (Hin : conn_key (conn_of 6 slow_state) ∈ under_way slow_state) by (apply (bool_decide_unpack _); vm_compute; exact I).
    destruct (Hc 6 (conn_of 6 slow_state)) as (_ & _ & Hp); [vm_compute; reflexivity|].
    destruct (Hp Hin) as [Hpend _]. split; [vm_compute; reflexivity|exact Hpend].
  - destruct (@identity_fixed sample_json sample_gateway sample_env_ok sample_setup (sample_state 4)
      (sample_state_reachable 4 ltac:(lia))) as [_ Hc].
    assert (Ha : c_authenticated (conn_of 6 (sample_state 4)) = true) by (vm_compute; reflexivity).
    split; [exact Ha|]. destruct (Hc 6 (conn_of 6 (sample_state 4))) as (Hn & _); [vm_compute; reflexivity|].
    assert (E1 : c_conn_id (conn_of 6 (sample_state 4)) = 1) by (vm_compute; reflexivity).
    assert (E2 : c_client_id (conn_of 6 (sample_state 4)) = lit "c1") by (vm_compute; reflexivity).
    intros name. rewrite E1, E2 in Hn. rewrite (Hn name). tauto.
Defined.
