(* ===== verification/Lifecycle.v ===== *)
(** * Start-up failures and the end of the server

    [start] releases what it opened when initialisation fails; once the
    queues are stopped every worker thread ends after boundedly many actions;
    and [finishShutdown] releases every descriptor and connection. *)

From S2P Require Import Prelude Json Protocol BlockQueue Notifier ControlTypes Stats RuntimeConfig.
From S2P Require Import Logger Handlers Server Invariant Threads Reactor System.
#[local] Open Scope Z_scope.

(** ** Releasing the descriptors *)

(** The common end of [start] (when it fails) and of [finishShutdown]. *)
Definition release (s : Server) : Server := close_epoll (close_notifier_fd (closeListener s)).

Definition end_view (s : Server) :=
  (workers_ s, ready_file_ s, state_ s, started_ s, connections_ s, trace_ s).

Lemma closeListener_spec s :
  listen_fd_ (closeListener s) = -1 ∧ epfd_ (closeListener s) = epfd_ s ∧
  nf_fd (notifier_ (closeListener s)) = nf_fd (notifier_ s) ∧
  end_view (closeListener s) = end_view s ∧
  (∀ fd, fd ∈ k_open (closeListener s) → fd ∈ k_open s ∧ (listen_fd_ s ≠ -1 → fd ≠ listen_fd_ s)).
Proof.
  unfold closeListener. destruct (Z.eqb_spec (listen_fd_ s) (-1)) as [El|El]; [done|].
  destruct (epfd_ s =? -1); split_and!; try done; simpl; intros fd [? Hne]%elem_of_difference;
    rewrite elem_of_singleton in Hne; done.
Qed.

Lemma close_notifier_fd_spec s :
  listen_fd_ (close_notifier_fd s) = listen_fd_ s ∧ epfd_ (close_notifier_fd s) = epfd_ s ∧
  nf_fd (notifier_ (close_notifier_fd s)) = -1 ∧ end_view (close_notifier_fd s) = end_view s ∧
  (∀ fd, fd ∈ k_open (close_notifier_fd s) →
     fd ∈ k_open s ∧ (nf_fd (notifier_ s) ≠ -1 → fd ≠ nf_fd (notifier_ s))).
Proof.
  unfold close_notifier_fd, close_notifier.
  destruct (Z.eqb_spec (nf_fd (notifier_ s)) (-1)) as [El|El]; [done|].
  split_and!; try done; simpl; intros fd [? Hne]%elem_of_difference;
    rewrite elem_of_singleton in Hne; done.
Qed.

Lemma close_epoll_spec s :
  listen_fd_ (close_epoll s) = listen_fd_ s ∧ epfd_ (close_epoll s) = -1 ∧
  nf_fd (notifier_ (close_epoll s)) = nf_fd (notifier_ s) ∧ end_view (close_epoll s) = end_view s ∧
  (∀ fd, fd ∈ k_open (close_epoll s) → fd ∈ k_open s ∧ (epfd_ s ≠ -1 → fd ≠ epfd_ s)).
Proof.
  unfold close_epoll. destruct (Z.eqb_spec (epfd_ s) (-1)) as [El|El]; [done|].
  split_and!; try done; simpl; intros fd [? Hne]%elem_of_difference;
    rewrite elem_of_singleton in Hne; done.
Qed.

(** Every descriptor that is the listener, the eventfd or the epoll instance
    is closed. *)
Lemma release_spec s :
  (∀ fd, fd ∈ k_open s → fd ≠ -1 ∧ (fd = epfd_ s ∨ fd = listen_fd_ s ∨ fd = nf_fd (notifier_ s))) →
  listen_fd_ (release s) = -1 ∧ epfd_ (release s) = -1 ∧ nf_fd (notifier_ (release s)) = -1 ∧
  end_view (release s) = end_view s ∧ k_open (release s) = ∅.
Proof.
  intros Hown. unfold release.
  destruct (closeListener_spec s) as (A1 & A2 & A3 & A4 & A5). set (s1 := closeListener s) in *. clearbody s1.
  destruct (close_notifier_fd_spec s1) as (B1 & B2 & B3 & B4 & B5).
  set (s2 := close_notifier_fd s1) in *. clearbody s2.
  destruct (close_epoll_spec s2) as (D1 & D2 & D3 & D4 & D5). set (s3 := close_epoll s2) in *. clearbody s3.
  split_and!; try congruence. apply elem_of_equiv_empty_L. intros fd Hfd.
  destruct (D5 fd Hfd) as [Hfd2 Hne1]. destruct (B5 fd Hfd2) as [Hfd1 Hne2].
  destruct (A5 fd Hfd1) as [Hfd0 Hne3]. destruct (Hown fd Hfd0) as [Hm [->|[->| ->]]].
  - apply Hne1; congruence.
  - by apply Hne3.
  - apply Hne2; congruence.
Qed.

(** ** Failed starts *)

(** The descriptors the successful calls of an initialisation returned. *)
Definition opened_by (a : InitAnswer) : list Z :=
  match a with
  | SocketFailed => []
  | SetsockoptFailed l | BindFailed l | ListenFailed l | EpollFailed l => [l]
  | EventfdFailed l e => [l; e]
  | AddListenerFailed l e v | AddEventfdFailed l e v | InitOk l e v => [l; e; v]
  end.

Lemma initServer_spec a s :
  k_open s = ∅ → nf_fd (notifier_ s) = -1 → Forall (λ fd, 0 ≤ fd) (opened_by a) →
  let '(ok, s') := initServer a s in
  (∀ fd, fd ∈ k_open s' → fd ≠ -1 ∧ (fd = epfd_ s' ∨ fd = listen_fd_ s' ∨ fd = nf_fd (notifier_ s'))) ∧
  end_view s' = end_view s ∧ (ok = true ↔ ∃ l e v, a = InitOk l e v).
Proof.
  intros Ho Hn Hpos.
  assert (Hopen : ∀ v, nf_fd (open v (notifier_ s)).2 = v) by (intros v; unfold open; by rewrite Hn).
  destruct a; simpl in Hpos; rewrite ?Forall_cons in Hpos; cbn [initServer];
    (split_and!; [|done|naive_solver]); intros fd; simpl; rewrite ?Ho, ?Hn, ?Hopen;
    rewrite ?elem_of_union, ?elem_of_singleton, ?elem_of_empty; intuition lia.
Qed.

Lemma start_spec port rqc rsc tmo wc awc aqc log logger s0 a ready hw :
  newServer port rqc rsc tmo wc awc aqc log logger = Some s0 →
  Forall (λ fd, 0 ≤ fd) (opened_by a) →
  let '(ok, s) := start a ready hw s0 in
  (ok = false →
     k_open s = ∅ ∧ listen_fd_ s = -1 ∧ epfd_ s = -1 ∧ nf_fd (notifier_ s) = -1 ∧
     started_ s = false ∧ workers_ s = [] ∧ ready_file_ s = false ∧ state_ s = STOPPED ∧ connections_ s = ∅) ∧
  (ok = true → started_ s = true ∧ ∀ a' ready' hw', start a' ready' hw' s = (false, s)).
Proof.
  intros Hs Hpos. destruct (start a ready hw s0) as [ok s] eqn:Est.
  assert (Hfresh : k_open s0 = ∅ ∧ nf_fd (notifier_ s0) = -1 ∧ started_ s0 = false ∧
    workers_ s0 = [] ∧ ready_file_ s0 = false ∧ state_ s0 = STOPPED ∧ connections_ s0 = ∅).
  { unfold newServer in Hs. repeat case_bool; try done. by injection Hs as <-. }
  destruct Hfresh as (F1 & F2 & F3 & F4 & F5 & F6 & F7). unfold start in Est. rewrite F3 in Est.
  set (s1 := set_shutdown_finished_ false (set_started_ true s0)) in Est.
  pose proof (initServer_spec a s1 F1 F2 Hpos) as Hi.
  destruct (initServer a s1) as [[] s2].
  - injection Est as <- <-. split; [done|]. intros _.
    assert (Hst : started_ (start_workers hw (markReady ready (set_state_ RUNNING
      (set_signal_stop_requested_ false s2)))) = true).
    { destruct Hi as (_ & Hv & _). unfold end_view in Hv. injection Hv as _ _ _ Hv _ _.
      unfold markReady. destruct ready; exact Hv. }
    split; [done|]. intros. unfold start at 1. by rewrite Hst.
  - destruct Hi as (Hown & Hv & _). destruct (release_spec s2 Hown) as (R1 & R2 & R3 & R4 & R5).
    injection Est as <- <-. split; [|done]. intros _. unfold end_view in *. fold (release s2).
    injection R4 as V1 V2 V3 V4 V5 V6. injection Hv as W1 W2 W3 W4 W5 W6. simpl.
    split_and!; congruence.
Qed.

(** A failed start releases everything.  Whichever call of the
    initialisation fails, [start] reports failure, closes every descriptor it
    had opened, and leaves the server as never started, so that it can be
    started again; a second start of a running server changes nothing. *)
Theorem start_failure_releases port rqc rsc tmo wc awc aqc log logger s0 a ready hw :
  newServer port rqc rsc tmo wc awc aqc log logger = Some s0 →
  Forall (λ fd, 0 ≤ fd) (opened_by a) →
  let '(ok, s) := start a ready hw s0 in
  (ok = false →
     k_open s = ∅ ∧ listen_fd_ s = -1 ∧ epfd_ s = -1 ∧ nf_fd (notifier_ s) = -1 ∧
     started_ s = false ∧ workers_ s = [] ∧ ready_file_ s = false ∧ state_ s = STOPPED ∧ connections_ s = ∅) ∧
  (ok = true → started_ s = true ∧ ∀ a' ready' hw', start a' ready' hw' s = (false, s)).
Proof. apply start_spec. Qed.

(** ** Termination of the worker threads *)

(** The reads of one STATS request. *)
Definition STATS_READS : Z := 38.

Lemma stats_reads : zlen stats_order = STATS_READS.
Proof. done. Qed.

(** A bound on the actions a worker can still take before it needs another item. *)
Definition rank (w : Worker) : Z :=
  match w_pc w with
  | WDone => 0 | WLastNotify => 1 | WLastStop => 2 | WExit => 3 | WIdle => 4 | WLeave => 5
  | WNotify => 6 | WReject _ => 7 | WPush _ => 8 | WAuth _ => 9 | WCheck _ => 10
  | WStats _ loads => 9 + Z.max 0 (STATS_READS - zlen loads) | WNormal _ => 10 + STATS_READS
  end.

Definition ranks (ws : list Worker) : Z := fold_right (λ w n, rank w + n) 0 ws.

(** The work left once nothing is admitted any more. *)
Definition work_left (s : Server) : Z :=
  (8 + STATS_READS) * (size (request_queue_ s) + size (auth_queue_ s)) + ranks (workers_ s).

Definition admits_nothing (s : Server) : Prop :=
  stopped (request_queue_ s) = true ∧ stopped (auth_queue_ s) = true.

Lemma rank_range w : 0 ≤ rank w.
Proof. unfold rank, STATS_READS. destruct (w_pc w); lia. Qed.

Lemma ranks_range ws : 0 ≤ ranks ws.
Proof. induction ws as [|w ws IH]; simpl; [lia|]. pose proof (rank_range w). lia. Qed.

Lemma ranks_app l1 l2 : ranks (l1 ++ l2) = ranks l1 + ranks l2.
Proof. induction l1 as [|w l1 IH]; simpl; [lia|]. lia. Qed.

Lemma work_left_range s : 0 ≤ work_left s.
Proof.
  unfold work_left, size, STATS_READS. pose proof (ranks_range (workers_ s)).
  pose proof (zlen_nonneg (data_queue_ (request_queue_ s))).
  pose proof (zlen_nonneg (data_queue_ (auth_queue_ s))). lia.
Qed.

Lemma ranks_set_pc i pc s kind pc0 :
  workers_ s !! i = Some (mkWorker kind pc0) →
  ranks (workers_ (set_pc i pc s)) = ranks (workers_ s) - rank (mkWorker kind pc0) + rank (mkWorker kind pc).
Proof.
  intros Hw. destruct (set_pc_split i pc s _ Hw) as (l1 & l2 & -> & ->).
  rewrite !ranks_app. simpl. lia.
Qed.

Section Workers.
Context `{JsonLib}.

(** The effect of one action on the measure: the new program counter and the
    queues it leaves. *)
Lemma work_left_set_pc i pc s s1 kind pc0 :
  workers_ s !! i = Some (mkWorker kind pc0) → workers_ s1 = workers_ s →
  work_left (set_pc i pc s1) =
    (8 + STATS_READS) * (size (request_queue_ s1) + size (auth_queue_ s1)) + ranks (workers_ s)
      - rank (mkWorker kind pc0) + rank (mkWorker kind pc).
Proof.
  intros Hw E1. unfold work_left. rewrite (ranks_set_pc i pc s1 kind pc0) by (by rewrite E1).
  rewrite E1. simpl. lia.
Qed.

(** A worker that has ended, or waits for an item. *)
Definition blocked (s : Server) (w : Worker) : bool :=
  match w with
  | mkWorker NormalWorker WIdle => bool_decide (pop (request_queue_ s) = None)
  | mkWorker AuthWorker WIdle => bool_decide (pop (auth_queue_ s) = None)
  | mkWorker _ WDone => true
  | _ => false
  end.

Lemma worker_step_decreases i env s w :
  workers_ s !! i = Some w → blocked s w = false → work_left (worker_step i env s) < work_left s.
Proof.
  destruct w as [kind pc]. intros Hw Hb. unfold worker_step. rewrite Hw.
  assert (Hkeep : ∀ pc' s1, workers_ s1 = workers_ s → request_queue_ s1 = request_queue_ s →
    auth_queue_ s1 = auth_queue_ s → rank (mkWorker kind pc') < rank (mkWorker kind pc) →
    work_left (set_pc i pc' s1) < work_left s).
  { intros pc' s1 E1 E2 E3 Hlt. rewrite (work_left_set_pc i pc' s s1 kind pc Hw E1), E2, E3.
    unfold work_left. lia. }
  destruct pc; try (apply Hkeep; done).
  - unfold worker_pop. simpl in Hb. destruct kind; bool_facts.
    + destruct (pop (request_queue_ s)) as [[[r|] q]|] eqn:Ep; [|by apply Hkeep|done].
      apply pop_Some in Ep as (Ed & _ & _).
      rewrite (work_left_set_pc i _ s (set_request_queue_ q s) _ _ Hw eq_refl).
      unfold work_left, size, rank, STATS_READS. simpl. rewrite Ed, zlen_cons. lia.
    + destruct (pop (auth_queue_ s)) as [[[t|] q]|] eqn:Ep; [|by apply Hkeep|done].
      apply pop_Some in Ep as (Ed & _ & _).
      rewrite (work_left_set_pc i _ s (set_auth_queue_ q s) _ _ Hw eq_refl).
      unfold work_left, size, rank, STATS_READS. simpl. rewrite Ed, zlen_cons. lia.
  - unfold worker_dispatch. case_bool; [by apply Hkeep|].
    destruct (if we_throws env then _ else _) as [[resp|] h]; by apply Hkeep.
  - unfold worker_stats. destruct (stats_order !! length loads) as [load|] eqn:El.
    + apply Hkeep; try done. apply lookup_lt_Some in El. pose proof stats_reads. unfold rank, zlen in *. simpl.
      rewrite length_app. simpl. lia.
    + unfold worker_respond. destruct (if we_throws env then _ else _); apply Hkeep; try done; unfold rank; simpl; lia.
  - unfold worker_check. case_bool; by apply Hkeep.
  - unfold worker_auth. case_bool; [by apply Hkeep|]. destruct (handleAuth _ _ _). by apply Hkeep.
  - unfold worker_push. destruct (push _ _) as [[] q]; [by apply Hkeep|destruct kind; by apply Hkeep..].
  - apply Hkeep; destruct kind; done.
  - unfold worker_exit. apply Hkeep; try done. by case_bool.
  - by destruct kind.
Qed.

Lemma pop_stopped {T} (q : BlockQueue T) : stopped q = true → pop q ≠ None.
Proof. unfold pop, stopped. intros ->. by destruct (data_queue_ q). Qed.

Lemma worker_step_progress i env s kind pc :
  admits_nothing s → workers_ s !! i = Some (mkWorker kind pc) → pc ≠ WDone →
  work_left (worker_step i env s) < work_left s.
Proof.
  intros [Hr%pop_stopped Ha%pop_stopped] Hw Hne. eapply worker_step_decreases; [done|].
  destruct kind, pc; simpl; try done; by apply bool_decide_eq_false.
Qed.

Lemma admits_nothing_action a s : admits_nothing s → admits_nothing (run_action a s).
Proof.
  pose proof (private_run_action a s) as Hv. unfold private_view, reactor_view in Hv.
  injection Hv as V1 V2 V3 V4 V5 V6 V7 V8 V9 V10 V11 V12 V13 V14 V15 V16 V17 V18.
  unfold admits_nothing, stopped. by rewrite V17, V18.
Qed.

(** The actions of a schedule that some unfinished worker takes. *)
Definition live_step (a : Action) (s : Server) : bool :=
  match a with
  | AWorker i _ => match workers_ s !! i with Some w => negb (worker_done w) | None => false end
  | _ => false
  end.

Fixpoint live_steps (acts : list Action) (s : Server) : Z :=
  match acts with
  | [] => 0
  | a :: acts => (if live_step a s then 1 else 0) + live_steps acts (run_action a s)
  end.

Lemma work_left_action a s :
  admits_nothing s → work_left (run_action a s) + (if live_step a s then 1 else 0) ≤ work_left s.
Proof.
  intros Hs. destruct a as [i env| | | | |]; simpl; try (unfold work_left; simpl; lia).
  - destruct (workers_ s !! i) as [[kind pc]|] eqn:Hw.
    2:{ unfold worker_step. rewrite Hw. lia. }
    destruct (worker_done (mkWorker kind pc)) eqn:Ed; cbn [negb].
    + destruct pc; try done. unfold worker_step. rewrite Hw. lia.
    + assert (Hne : pc ≠ WDone) by (by intros ->).
      pose proof (worker_step_progress i env s kind pc Hs Hw Hne). lia.
  - unfold config_pull_begin. case_bool; unfold work_left; simpl; lia.
  - unfold config_pull_end. repeat (case_match || case_bool); unfold work_left; simpl; lia.
Qed.

Lemma live_steps_bound acts s :
  admits_nothing s → live_steps acts s + work_left (run_actions acts s) ≤ work_left s.
Proof.
  revert s. induction acts as [|a acts IH]; intros s Hs; [simpl; lia|]. cbn [live_steps].
  pose proof (work_left_action a s Hs). pose proof (IH _ (admits_nothing_action a s Hs)).
  unfold run_actions in *. simpl. lia.
Qed.

Lemma unfinished_worker ws : forallb worker_done ws = false → ∃ i w, ws !! i = Some w ∧ worker_done w = false.
Proof.
  induction ws as [|w ws IH]; [done|]. simpl. destruct (worker_done w) eqn:Ed.
  - simpl. intros (i & w' & ? & ?)%IH. by exists (S i), w'.
  - intros _. by exists 0%nat, w.
Qed.

Lemma workers_can_finish env s :
  admits_nothing s →
  ∃ acts, Forall (λ a, ∃ i, a = AWorker i env) acts ∧
    forallb worker_done (workers_ (run_actions acts s)) = true.
Proof.
  intros Hs. remember (Z.to_nat (work_left s)) as n eqn:En.
  assert (Hn : (Z.to_nat (work_left s) ≤ n)%nat) by lia. clear En. revert s Hs Hn.
  induction n as [n IH] using lt_wf_ind. intros s Hs Hn.
  destruct (forallb worker_done (workers_ s)) eqn:Ed; [by exists []|].
  apply unfinished_worker in Ed as (i & [kind pc] & Hw & Hd).
  pose proof (worker_step_progress i env s kind pc Hs Hw ltac:(by intros ->)) as Hlt.
  pose proof (work_left_range (worker_step i env s)).
  destruct (IH (Z.to_nat (work_left (worker_step i env s))) ltac:(lia) (worker_step i env s)
    (admits_nothing_action (AWorker i env) s Hs) ltac:(lia)) as (acts & Hall & Hdone).
  exists (AWorker i env :: acts). split; [|done]. constructor; [by exists i|done].
Qed.

(** The worker threads end.  Once the request and AUTH queues are stopped,
    no worker ever blocks again: every action of an unfinished worker, in any
    interleaving and whatever the handlers and the control plane answer,
    decreases the work left, so that a schedule contains at most [work_left]
    such actions; and there is a schedule after which all have ended. *)
Theorem workers_terminate s :
  admits_nothing s →
  (∀ acts, live_steps acts s ≤ work_left s) ∧
  (∀ i env w, workers_ s !! i = Some w → worker_done w = false →
     work_left (run_action (AWorker i env) s) < work_left s) ∧
  (∀ env, ∃ acts, Forall (λ a, ∃ i, a = AWorker i env) acts ∧
     forallb worker_done (workers_ (run_actions acts s)) = true).
Proof.
  intros Hs. split_and!.
  - intros acts. pose proof (live_steps_bound acts s Hs). pose proof (work_left_range (run_actions acts s)). lia.
  - intros i env [kind pc] Hw Hd. simpl. eapply worker_step_progress; [done|done|]. by intros ->.
  - intros env. by apply workers_can_finish.
Qed.

End Workers.

(** ** [finishShutdown] *)

Section Shutdown.
Context `{JsonLib} (E : Env) (HE : env_ok E).

Lemma closeConnection_trace fd c s :
  connections_ s !! fd = Some c →
  trace_ (closeConnection E fd s) = trace_ s ++ [OClose fd (c_conn_id c)].
Proof.
  intros Hc. unfold closeConnection. rewrite Hc. sync_view E s s1.
  destruct (c_auth_cancellation c); simpl; repeat (case_bool; simpl); by rewrite Vtrace.
Qed.

Lemma closeConnection_none fd s : connections_ s !! fd = None → closeConnection E fd s = s.
Proof. intros Hc. unfold closeConnection. by rewrite Hc. Qed.

Lemma close_all_spec fds s :
  (∀ e, e ∈ trace_ s → e ∈ trace_ (close_all E fds s)) ∧
  (∀ fd c, fd ∈ fds → connections_ s !! fd = Some c →
     OClose fd (c_conn_id c) ∈ trace_ (close_all E fds s)) ∧
  (∀ fd, connections_ (close_all E fds s) !! fd =
     if decide (fd ∈ fds) then None else connections_ s !! fd).
Proof.
  revert s. induction fds as [|x fds IH]; intros s.
  { split_and!; [done|intros fd c []%elem_of_nil|]. intros fd. by rewrite decide_False by apply not_elem_of_nil. }
  destruct (IH (closeConnection E x s)) as (H1 & H2 & H3).
  change (close_all E (x :: fds) s) with (close_all E fds (closeConnection E x s)).
  assert (Hpre : ∀ e, e ∈ trace_ s → e ∈ trace_ (closeConnection E x s)).
  { intros e He. destruct (connections_ s !! x) as [c|] eqn:Hc.
    - rewrite (closeConnection_trace _ _ _ Hc), elem_of_app. by left.
    - by rewrite closeConnection_none. }
  split_and!.
  - auto.
  - intros fd c Hin Hc. destruct (decide (fd = x)) as [->|Hne].
    + apply H1. rewrite (closeConnection_trace _ _ _ Hc), elem_of_app, list_elem_of_singleton. by right.
    + apply H2; [by apply elem_of_cons in Hin as [?|?]|].
      by rewrite closeConnection_connections, lookup_delete_ne.
  - intros fd. rewrite H3, closeConnection_connections. destruct (decide (fd = x)) as [->|Hne].
    + rewrite lookup_delete_eq, (decide_True (P := x ∈ x :: fds)) by (by left). by case_decide.
    + rewrite lookup_delete_ne by done. apply decide_ext. rewrite elem_of_cons. tauto.
Qed.

Lemma all_done_action a s :
  forallb worker_done (workers_ s) = true → workers_ (run_action a s) = workers_ s.
Proof.
  intros Hd. destruct a as [i env| | | | |]; simpl; try done.
  - unfold worker_step. destruct (workers_ s !! i) as [[kind pc]|] eqn:Hw; [|done].
    assert (Hdone : worker_done (mkWorker kind pc) = true).
    { apply (proj1 (forallb_forall _ _) Hd), list_elem_of_In, list_elem_of_lookup. eauto. }
    by destruct pc.
  - unfold config_pull_begin. by case_bool.
  - unfold config_pull_end. by repeat (case_match || case_bool).
Qed.

Lemma all_done_sync s :
  forallb worker_done (workers_ s) = true → workers_ (sync E s) = workers_ s.
Proof.
  intros Hd. unfold sync. simpl. unfold run_actions. set (acts := sched E (k_ticks s)). clearbody acts.
  revert s Hd. induction acts as [|a acts IH]; intros s Hd; [done|]. simpl.
  rewrite IH; rewrite all_done_action; done.
Qed.

Lemma all_done_close_all fds s :
  forallb worker_done (workers_ s) = true → workers_ (close_all E fds s) = workers_ s.
Proof.
  revert s. induction fds as [|fd fds IH]; intros s Hd; [done|].
  assert (Hcl : workers_ (closeConnection E fd s) = workers_ s).
  { unfold closeConnection. destruct (connections_ s !! fd) as [c|]; [|done].
    pose proof (all_done_sync s Hd) as Hs. set (s1 := sync E s) in *. clearbody s1.
    destruct (c_auth_cancellation c); simpl; repeat (case_bool; simpl); done. }
  change (close_all E (fd :: fds) s) with (close_all E fds (closeConnection E fd s)).
  rewrite IH; by rewrite Hcl.
Qed.

(** The state in which [finishShutdown] joins the threads. *)
Definition before_join (s : Server) : Server :=
  let s := markNotReady (unlink_ok E (k_ticks s)) s in
  let s := sync E s in
  let s := set_request_queue_ (stop (request_queue_ s)) s in
  let s := sync E s in
  let s := set_auth_queue_ (stop (auth_queue_ s)) s in
  let s := sync E s in
  set_response_queue_ (stop (response_queue_ s)) s.

Lemma inv_stop_responses L s :
  Inv L s → state_ s = STOPPED → Inv L (set_response_queue_ (stop (response_queue_ s)) s).
Proof.
  intros HI Hst. constructor; try apply HI.
  destruct (inv_producers _ _ HI) as (? & ? & ? & ?). split_and!; done.
Qed.

Lemma before_join_spec keys s :
  Inv (pending keys true true) s → state_ s = STOPPED →
  Inv (pending keys true true) (before_join s) ∧ state_ (before_join s) = STOPPED ∧
  not_ready E (before_join s) ∧ admits_nothing (before_join s) ∧
  connections_ (before_join s) = connections_ s.
Proof.
  intros HI Hst. unfold before_join.
  set (s1 := markNotReady _ s).
  assert (H1 : Inv (pending keys true true) s1 ∧ state_ s1 = STOPPED ∧ not_ready E s1 ∧
    connections_ s1 = connections_ s) by (unfold s1, not_ready, markNotReady; split_and!;
      [by case_bool; destruct HI; constructor|by case_bool|intros Hu; by rewrite Hu|by case_bool]).
  clearbody s1. destruct H1 as (HI1 & S1 & R1 & C1).
  pose proof (inv_sync E _ _ HE HI1) as HI2. sync_view E s1 s2.
  pose proof (inv_stop_requests _ _ HI2) as HI3. set (s3 := set_request_queue_ _ s2) in *.
  assert (H3 : state_ s3 = STOPPED ∧ not_ready E s3 ∧ connections_ s3 = connections_ s ∧
    stopped_ (request_queue_ s3) = true) by (subst s3; unfold not_ready in *; simpl; rewrite Vready; split_and!; done || congruence).
  clearbody s3. destruct H3 as (S3 & R3 & C3 & Q3).
  pose proof (inv_sync E _ _ HE HI3) as HI4. sync_view E s3 s4.
  pose proof (inv_stop_auth _ _ HI4) as HI5. set (s5 := set_auth_queue_ _ s4) in *.
  assert (H5 : state_ s5 = STOPPED ∧ not_ready E s5 ∧ connections_ s5 = connections_ s ∧
    stopped_ (request_queue_ s5) = true ∧ stopped_ (auth_queue_ s5) = true)
    by (subst s5; unfold not_ready in *; simpl; rewrite Vready0; split_and!; done || congruence).
  clearbody s5. destruct H5 as (S5 & R5 & C5 & Q5 & A5).
  pose proof (inv_sync E _ _ HE HI5) as HI6. sync_view E s5 s6.
  unfold admits_nothing, not_ready, stopped in *. simpl. rewrite Vready1.
  split_and!; try done; try congruence. apply inv_stop_responses; [done|congruence].
Qed.

Lemma finishShutdown_unfold joins s :
  finishShutdown E joins s =
  let s := run_actions joins (before_join s) in
  if puller_busy_ s || negb (forallb worker_done (workers_ s)) then None
  else
    let s := close_all E (map fst (map_to_list (connections_ s))) s in
    Some (set_shutdown_finished_ true (set_state_ STOPPED (release s))).
Proof. done. Qed.

Lemma finishShutdown_spec keys joins s s' :
  Inv (pending keys true true) s → state_ s = STOPPED → Forall action_ok joins →
  finishShutdown E joins s = Some s' →
  (listen_fd_ s' = -1 ∧ epfd_ s' = -1 ∧ nf_fd (notifier_ s') = -1 ∧ k_open s' = ∅) ∧
  connections_ s' = ∅ ∧
  (∀ fd c, connections_ s !! fd = Some c → OClose fd (c_conn_id c) ∈ trace_ s') ∧
  forallb worker_done (workers_ s') = true ∧ not_ready E s' ∧
  state_ s' = STOPPED ∧ shutdown_finished_ s' = true.
Proof.
  intros HI Hst Hj Hf. rewrite finishShutdown_unfold in Hf. cbv zeta in Hf.
  destruct (before_join_spec keys s HI Hst) as (HI1 & S1 & R1 & _ & C1).
  set (s1 := before_join s) in *. clearbody s1.
  pose proof (inv_run_actions joins _ _ HI1 Hj) as HI2.
  pose proof (private_run_actions joins s1) as Hv. unfold private_view, reactor_view in Hv.
  injection Hv as V1 V2 V3 V4 V5 V6 V7 V8 V9 V10 V11 V12 V13 V14 V15 V16 V17 V18.
  set (s2 := run_actions joins s1) in *. clearbody s2.
  destruct (puller_busy_ s2 || _) eqn:Ej; [done|]. bool_facts.
  set (fds := map fst (map_to_list (connections_ s2))) in Hf.
  assert (Hfds : ∀ fd, fd ∈ fds ↔ is_Some (connections_ s2 !! fd)).
  { intros fd. unfold fds. rewrite list_elem_of_fmap. split.
    - intros ([x c] & -> & Hx%elem_of_map_to_list). simpl. eauto.
    - intros [c Hc]. exists (fd, c). split; [done|]. by apply elem_of_map_to_list. }
  destruct (inv_close_all E HE fds _ _ HI2) as [HI3 Hfix].
  destruct (close_all_spec fds s2) as (_ & T2 & T3). pose proof (all_done_close_all fds s2 ltac:(done)) as Hw.
  set (s3 := close_all E fds s2) in *.
  assert (C3 : connections_ s3 = ∅).
  { apply map_eq. intros fd. rewrite T3, lookup_empty. case_decide as Hd; [done|].
    destruct (connections_ s2 !! fd) eqn:Ec; [|done]. destruct Hd. apply Hfds. eauto. }
  clearbody s3. unfold fixed_view in Hfix. injection Hfix as F1 F2 F3 F4 F5 F6 F7 F8 F9 F10.
  destruct (release_spec s3) as (L1 & L2 & L3 & L4 & L5).
  { intros fd Hfd. destruct (k_owned _ _ _ _ _ _ _ _ (inv_kernel _ _ HI3) fd Hfd) as [? [?|[?|[?|[c Hc]]]]]; auto.
    rewrite C3, lookup_empty in Hc. done. }
  injection Hf as <-. unfold end_view in L4. injection L4 as W1 W2 W3 W4 W5 W6. simpl.
  unfold not_ready in *. split_and!; try done; try congruence;
    [|intros Hu; specialize (R1 Hu); simpl; congruence]. intros fd c Hc. rewrite W6. apply T2; [|congruence]. apply Hfds. rewrite V1, C1. eauto.
Qed.

Lemma puller_worker_step i env s : puller_busy_ (worker_step i env s) = puller_busy_ s.
Proof.
  unfold worker_step. destruct (workers_ s !! i) as [[kind pc]|]; [|done].
  destruct pc; unfold worker_pop, worker_dispatch, worker_stats, worker_respond, worker_check, worker_auth, worker_push, worker_exit;
    repeat (case_match || case_bool); done.
Qed.

(** The threads can always be joined: the puller ends its round, and the
    workers finish. *)
Lemma finishShutdown_returns (env : WorkerEnv) keys s :
  Inv (pending keys true true) s → state_ s = STOPPED →
  ∃ joins s', Forall action_ok joins ∧ finishShutdown E joins s = Some s'.
Proof.
  intros HI Hst. destruct (before_join_spec keys s HI Hst) as (_ & _ & _ & Hn & _).
  set (s1 := before_join s) in *.
  destruct (workers_can_finish env (run_action (APullEnd None) s1)
    (admits_nothing_action _ _ Hn)) as (acts & Hall & Hdone).
  assert (Hidle : puller_busy_ (run_actions acts (run_action (APullEnd None) s1)) = false).
  { assert (H0 : puller_busy_ (run_action (APullEnd None) s1) = false).
    { simpl. unfold config_pull_end. by destruct (puller_busy_ s1) eqn:Ep. }
    clear Hdone. revert H0. generalize (run_action (APullEnd None) s1) as s2.
    induction Hall as [|a acts [i ->] Hall IH]; intros s2 H2; [done|].
    unfold run_actions. simpl. apply IH. by rewrite puller_worker_step. }
  eexists (APullEnd None :: acts), _. split.
  - constructor; [done|]. eapply Forall_impl; [exact Hall|]. by intros a [i ->].
  - rewrite finishShutdown_unfold. fold s1. cbv zeta.
    change (run_actions (APullEnd None :: acts) s1) with (run_actions acts (run_action (APullEnd None) s1)).
    rewrite Hidle, Hdone. simpl. reflexivity.
Qed.

(** C20: Shutdown is clean and always possible.  When the event loop of a
    reachable server has stopped, by a completed drain or by the deadline,
    [finishShutdown] can join all threads, and whenever it returns, every
    worker has ended, every connection that was left has been closed, no
    descriptor is left open, the readiness file is gone (unless it could not
    be removed) and waiting callers of [stop] are released. *)
Theorem shutdown_releases u s :
  reachable E u s → state_ s = STOPPED →
  (∃ joins s', Forall action_ok joins ∧ finishShutdown E joins s = Some s') ∧
  (∀ joins s', Forall action_ok joins → finishShutdown E joins s = Some s' →
     (listen_fd_ s' = -1 ∧ epfd_ s' = -1 ∧ nf_fd (notifier_ s') = -1 ∧ k_open s' = ∅) ∧
     connections_ s' = ∅ ∧
     (∀ fd c, connections_ s !! fd = Some c → OClose fd (c_conn_id c) ∈ trace_ s') ∧
     forallb worker_done (workers_ s') = true ∧ not_ready E s' ∧
     state_ s' = STOPPED ∧ shutdown_finished_ s' = true).
Proof.
  intros Hr Hst. destruct (reachable_inv E HE _ _ Hr) as [keys HI]. split.
  - by apply (finishShutdown_returns sample_worker_env keys).
  - intros joins s' Hj Hf. by eapply finishShutdown_spec.
Qed.

End Shutdown.

(** ** Witnesses *)

Definition sample_new : Server :=
  default sample_start (newServer 9000 8 8 5000 1 1 4 (newLogStorage None false true true) (newLogger None)).

Lemma start_failure_releases_witness :
  let s := (start (EventfdFailed 3 4) true 8 sample_new).2 in
  k_open s = ∅ ∧ listen_fd_ s = -1 ∧ epfd_ s = -1 ∧ nf_fd (notifier_ s) = -1 ∧
  started_ s = false ∧ workers_ s = [] ∧ ready_file_ s = false ∧ state_ s = STOPPED ∧ connections_ s = ∅.
Proof.
  refine (proj1 (start_failure_releases 9000 8 8 5000 1 1 4 (newLogStorage None false true true) (newLogger None)
    sample_new (EventfdFailed 3 4) true 8 eq_refl _) eq_refl).
  repeat constructor; simpl; lia.
Defined.

Lemma workers_terminate_witness :
  let s := beginDraining (H := sample_json) slow_gateway slow_state in
  (∀ acts, live_steps (H := sample_json) acts s ≤ work_left s) ∧
  (∀ i env w, workers_ s !! i = Some w → worker_done w = false →
     work_left (run_action (H := sample_json) (AWorker i env) s) < work_left s) ∧
  (∀ env, ∃ acts, Forall (λ a, ∃ i, a = AWorker i env) acts ∧
     forallb worker_done (workers_ (run_actions (H := sample_json) acts s)) = true).
Proof.
  refine (@workers_terminate sample_json _ _). split; vm_compute; reflexivity.
Defined.

(** The sample run to its end: drained, with all threads ended. *)
Definition sample_stopped : Server := sample_run [WaitEvents [] 5] sample_draining.

Lemma sample_stopped_reachable : reachable (H := sample_json) sample_gateway sample_setup sample_stopped.
Proof.
  eapply (run_loop_reachable (H := sample_json) sample_gateway sample_setup [WaitEvents [] 5]
    sample_draining); [apply sample_env_ok|apply sample_draining_reachable|vm_compute; done|].
  assert (Hs : is_Some (run_loop (H := sample_json) sample_gateway [WaitEvents [] 5] sample_draining))
    by (vm_compute; eauto).
  destruct Hs as [s Hs]. unfold sample_stopped, sample_run. by rewrite Hs.
Qed.

Lemma shutdown_releases_witness :
  (∃ joins s', Forall action_ok joins ∧
     finishShutdown (H := sample_json) sample_gateway joins sample_stopped = Some s') ∧
  (∀ joins s', Forall action_ok joins →
     finishShutdown (H := sample_json) sample_gateway joins sample_stopped = Some s' →
     (listen_fd_ s' = -1 ∧ epfd_ s' = -1 ∧ nf_fd (notifier_ s') = -1 ∧ k_open s' = ∅) ∧
     connections_ s' = ∅ ∧
     (∀ fd c, connections_ sample_stopped !! fd = Some c → OClose fd (c_conn_id c) ∈ trace_ s') ∧
     forallb worker_done (workers_ s') = true ∧ not_ready sample_gateway s' ∧
     state_ s' = STOPPED ∧ shutdown_finished_ s' = true).
Proof.
  refine (@shutdown_releases sample_json sample_gateway sample_env_ok sample_setup sample_stopped
    sample_stopped_reachable _).
  vm_compute. reflexivity.
Defined.
