(* ===== verification/Progress.v ===== *)
(** * Every admitted request is answered

    The reactor and the other threads meet in the three queues, the set of
    rejected connections and the program counters of the workers.  This file
    describes what any reactor operation can do to them as a sequence of
    elementary changes, derives that a queue with items always has a worker
    that will take them, and concludes that work comes to an end: every action
    of a worker that is not blocked decreases the work left, and when all are
    blocked one iteration of the event loop leaves no request outstanding.  It
    also follows the shutdown deadline, from the reading of the clock that sets
    it to the iteration that stops the loop. *)

From S2P Require Import Prelude Json Protocol BlockQueue Notifier ControlTypes Stats RuntimeConfig.
From S2P Require Import Logger Handlers Server Invariant Threads Reactor System Lifecycle.
#[local] Open Scope Z_scope.

(** ** Elementary changes *)

Inductive change :=
  | Act (a : Action) | Same
  | PushRequest (r : Request) | PushAuth (t : AuthTask)
  | StopRequests | StopAuth | AbortRequests | AbortAuth | AbortResponses
  | PopResponse | TakeRejected.

(** What the threads share. *)
Definition shared_view (s : Server) :=
  (workers_ s, request_queue_ s, auth_queue_ s, response_queue_ s, rejected_response_connections_ s).

Definition changes `{JsonLib} (ch : change) (s s' : Server) : Prop :=
  match ch with
  | Act a => s' = run_action a s
  | Same => shared_view s' = shared_view s ∧ (k_ticks s ≤ k_ticks s')%nat
  | PushRequest r => s' = set_request_queue_ (push r (request_queue_ s)).2 s
  | PushAuth t => s' = set_auth_queue_ (push t (auth_queue_ s)).2 s
  | StopRequests => s' = set_request_queue_ (stop (request_queue_ s)) s
  | StopAuth => s' = set_auth_queue_ (stop (auth_queue_ s)) s
  | AbortRequests => s' = set_request_queue_ (abort (request_queue_ s)).2 s
  | AbortAuth => s' = set_auth_queue_ (abort (auth_queue_ s)).2 s
  | AbortResponses => s' = set_response_queue_ (abort (response_queue_ s)).2 s
  | PopResponse => s' = set_response_queue_ (tryPop (response_queue_ s)).2 s
  | TakeRejected => s' = set_rejected_response_connections_ ∅ s
  end.

(** An event that brings no input: while the server is running, it is one of
    the eventfd or of the listener, or does not announce input or the end of
    input.  (A draining server reads no more.) *)
Definition inputless (s : Server) (ev : ReadyEvent) : Prop :=
  state_ s = RUNNING →
  ev_fd ev = nf_fd (notifier_ s) ∨ ev_fd ev = listen_fd_ s ∨
  has_flag (ev_flags ev) (Z.lor EPOLLIN (Z.lor EPOLLRDHUP EPOLLHUP)) = false.

Definition moves `{JsonLib} (ok : change → Prop) : Server → Server → Prop :=
  rtc (λ s s', ∃ ch, ok ch ∧ changes ch s s').

(** The changes of an operation that neither enqueues nor dequeues. *)
Definition local_change (ch : change) : Prop := match ch with Act _ | Same => True | _ => False end.
Definition stops (ch : change) : Prop := match ch with StopRequests | StopAuth => True | _ => local_change ch end.
Definition enqueues (ch : change) : Prop := match ch with PushRequest _ | PushAuth _ => True | _ => local_change ch end.
(** The changes of an operation that takes no new request on. *)
Definition admits_none (ch : change) : Prop := match ch with PushRequest _ | PushAuth _ => False | _ => True end.

Section Moves.
Context `{JsonLib} (E : Env).

Lemma moves_mono (ok ok' : change → Prop) s s' : (∀ ch, ok ch → ok' ch) → moves ok s s' → moves ok' s s'.
Proof. intros Hok. apply rtc_subrel. intros x y (ch & ? & ?). exists ch. auto. Qed.

Lemma moves_invariant (ok : change → Prop) (P : Server → Prop) s s' :
  (∀ ch s s', ok ch → changes ch s s' → P s → P s') → moves ok s s' → P s → P s'.
Proof. intros HP Hm Hs. induction Hm as [|x y z (ch & Ho & Hc) _ IH]; eauto. Qed.

Lemma ticks_run_action a s : k_ticks (run_action a s) = k_ticks s.
Proof.
  destruct a; simpl; try done.
  - unfold worker_step. destruct (workers_ s !! i) as [[kind pc]|]; [|done].
    destruct pc; unfold worker_pop, worker_dispatch, worker_stats, worker_respond, worker_check, worker_auth, worker_push, worker_exit;
      repeat (case_match || case_bool); done.
  - unfold config_pull_begin. by case_bool.
  - unfold config_pull_end. repeat (case_match || case_bool); done.
Qed.

(** The environment's answers are used in order. *)
Lemma changes_ticks ch s s' : changes ch s s' → (k_ticks s ≤ k_ticks s')%nat.
Proof.
  destruct ch; simpl; intros Hc; try (subst s'; simpl; done); [|by destruct Hc].
  subst s'. by rewrite ticks_run_action.
Qed.

Lemma moves_ticks ok s s' : moves ok s s' → (k_ticks s ≤ k_ticks s')%nat.
Proof. induction 1 as [|x y z (ch & _ & Hc%changes_ticks) _ IH]; lia. Qed.

(** [M s]: the state [s] is reached from [s0] by changes of the given kind,
    which include the local ones. *)
Section From.
Context (ok : change → Prop) (Hlocal : ∀ ch, local_change ch → ok ch) (s0 : Server).
Notation M := (moves ok s0).

Lemma M_change ch s s' : ok ch → changes ch s s' → M s → M s'.
Proof. intros Ho Hc HM. eapply rtc_r; [exact HM|]. by exists ch. Qed.

Lemma M_same s s' : shared_view s' = shared_view s → (k_ticks s ≤ k_ticks s')%nat → M s → M s'.
Proof. intros Hv Hk. apply (M_change Same); [by apply Hlocal|by split]. Qed.

Lemma M_sync s : M s → M (sync E s).
Proof.
  intros HM. unfold sync. apply (M_same (run_actions (sched E (k_ticks s)) s)); [done|simpl; lia|].
  generalize (sched E (k_ticks s)) as acts. intros acts. revert s HM.
  induction acts as [|a acts IH]; intros s HM; [done|]. unfold run_actions. simpl. apply IH.
  apply (M_change (Act a) s); [by apply Hlocal|done..].
Qed.

Ltac same := match goal with H : M ?s |- M _ => solve [apply (M_same s); [done|simpl; lia|done]] end.

Lemma M_fold {A} (f : Server → A → Server) l s :
  (∀ s a, M s → M (f s a)) → M s → M (fold_left f l s).
Proof. intros Hf. revert s. induction l as [|a l IH]; intros s HM; simpl; auto. Qed.

Lemma M_close fd s : M s → M (closeConnection E fd s).
Proof.
  intros HM. unfold closeConnection. destruct (connections_ s !! fd) as [c|]; [|done].
  apply M_sync in HM. destruct (c_auth_cancellation c); simpl; repeat (case_bool; simpl); same.
Qed.

Lemma M_modify fd events s : M s → M (modifyConnectionEvents E fd events s).2.
Proof.
  intros HM. unfold modifyConnectionEvents. case_bool; simpl; [same|]. apply M_close. same.
Qed.

Lemma M_maybeClose fd s : M s → M (maybeCloseAfterDrain E fd s).
Proof. intros HM. unfold maybeCloseAfterDrain. repeat case_match; try done. by apply M_close. Qed.

Lemma M_markReadEof fd s : M s → M (markReadEof E fd s).
Proof.
  intros HM. unfold markReadEof. destruct (connections_ s !! fd) as [c|]; [|done].
  case_bool; [by apply M_maybeClose|]. case_bool; [apply M_close|apply M_modify]; same.
Qed.

Lemma M_output_drained fd c s : M s → M (output_drained E fd c s).
Proof. intros HM. unfold output_drained. case_bool; [by apply M_close|by apply M_modify]. Qed.

Lemma M_applyResponse r origin s : M s → M (applyResponse E r origin s).
Proof.
  intros HM. unfold applyResponse, getRuntimeConfigSnapshot. apply M_sync in HM.
  set (s1 := sync E s) in *. clearbody s1. destruct (connections_ s1 !! rs_fd r) as [c|]; [|same].
  case_bool; [same|]. match goal with |- context [let '(_, _) := ?x in _] => destruct x as [c1 s2] eqn:E1 end.
  assert (H2 : M s2) by (destruct origin; [|case_bool]; injection E1 as <- <-; same).
  destruct (apply_authentication _ _ _ _) as [[r3 c3] s3] eqn:E3.
  assert (H3 : M s3).
  { unfold apply_authentication in E3. repeat (case_match || case_bool); injection E3 as <- <- <-; same. }
  case_bool; [apply M_close; same|]. unfold apply_output. case_bool; [apply M_close; same|].
  cbv zeta. apply M_modify. same.
Qed.

Lemma M_handleWrite fd script s s' : M s → handleWrite E fd script s = Some s' → M s'.
Proof.
  revert s. induction script as [|a script IH]; intros s HM; cbn [handleWrite];
    destruct (connections_ s !! fd) as [c|]; try (by intros [= <-]);
    (case_bool; [intros [= <-]; by apply M_output_drained|]); [done|].
  destruct a as [n| | |]; [|by apply IH|by intros [= <-]|intros [= <-]; by apply M_close].
  case_bool; [done|]. cbv zeta. case_bool; [intros [= <-]; apply M_output_drained|apply IH]; same.
Qed.

Lemma M_handleAccept script s s' : M s → handleAccept E script s = Some s' → M s'.
Proof.
  revert s. induction script as [|a script IH]; intros s HM; cbn [handleAccept]; (case_bool; [by intros [= <-]|]); [done|].
  destruct a as [fd| | |]; [|by apply IH|by intros [= <-]..]. case_bool; [done|]. cbv zeta.
  case_bool; [apply IH; same|]. unfold emplace_connection. case_match; apply IH; same.
Qed.

Lemma M_reactor_consume fuel s s' : M s → reactor_consume E fuel s = Some s' → M s'.
Proof.
  revert s. induction fuel as [|fuel IH]; intros s HM; cbn [reactor_consume]; (case_bool; [by intros [= <-]|]); [done|].
  cbv zeta. apply M_sync in HM. set (s1 := sync E s) in *. clearbody s1.
  destruct (eventfd_read _) as [[] c]; try (by intros [= <-]). apply IH. same.
Qed.

Lemma M_inputless ev s s' : inputless s ev → M s → handleEvent E ev s = Some s' → M s'.
Proof.
  intros Hq HM. unfold handleEvent. cbv zeta. case_bool; [by apply M_reactor_consume|].
  case_bool; [case_bool; [by apply M_handleAccept|by intros [= <-]]|].
  case_bool; [intros [= <-]; by apply M_close|].
  assert (Hr : has_flag (ev_flags ev) (Z.lor EPOLLIN (Z.lor EPOLLRDHUP EPOLLHUP)) && bool_decide (state_ s = RUNNING) = false).
  { destruct (bool_decide (state_ s = RUNNING)) eqn:Es; [|apply andb_false_r]. bool_facts.
    destruct (Hq Es) as [?|[?|Hf]]; [done|done|]. by rewrite Hf. }
  rewrite Hr. cbn [mbind option_bind]. destruct (connections_ s !! ev_fd ev); [|by intros [= <-]].
  set (s2 := if has_flag _ _ then _ else s).
  assert (HM2 : M s2) by (unfold s2; case_bool; [by apply M_markReadEof|done]). clearbody s2.
  destruct (has_flag _ EPOLLOUT); [by apply M_handleWrite|by intros [= <-]].
Qed.
End From.

(** Operations that enqueue, stop or take from the queues. *)
Section Kinds.
Context (s0 : Server).

Section Enqueue.
Context (ok : change → Prop) (Henq : ∀ ch, enqueues ch → ok ch).
Notation M := (moves ok s0).

Lemma enqueue_local ch : local_change ch → ok ch.
Proof. intros Hl. apply Henq. by destruct ch. Qed.
#[local] Hint Extern 0 (ok _) => apply enqueue_local; assumption : core.

Ltac same := match goal with H : moves _ _ ?s |- moves _ _ _ =>
  solve [apply (M_same ok enqueue_local s0 s); [done|simpl; lia|done]] end.

Lemma M_classify config decoded b s b' s' : classify E config decoded b s = (b', s') → M s → M s'.
Proof.
  revert b s. induction decoded as [|r decoded IH]; intros b s; cbn [classify]; cbv zeta.
  { by intros [= <- <-]. }
  case_bool; [intros [= <- <-] HM; same|]. case_bool.
  - case_bool; [intros [= <- <-] HM; same|]. destruct (makeAuthTask _ _) as [task|].
    + intros Hc HM. apply IH in Hc; [exact Hc|same].
    + intros [= <- <-] HM. same.
  - case_bool; [intros Hc HM; by apply IH in Hc|]. destruct (allowRequestForClient _ _ _ _) as [allowed s1] eqn:Ea.
    assert (Hv : shared_view s1 = shared_view s ∧ (k_ticks s ≤ k_ticks s1)%nat).
    { unfold allowRequestForClient, now in Ea. repeat case_bool; injection Ea as _ <-; split; simpl; done || lia. }
    intros Hc HM. assert (H1 : M s1) by (apply (M_same ok enqueue_local s0 s); by destruct Hv).
    case_bool; (apply IH in Hc; [done|]); same.
Qed.

Lemma M_count_in_flight key s : M s → M (count_in_flight key s).
Proof. intros HM. unfold count_in_flight. case_match; [|done]. case_bool; [same|done]. Qed.

Lemma M_enqueue_auth ts local s : M s → M (enqueue_auth E ts local s).2.
Proof.
  revert local s. induction ts as [|t ts IH]; intros local s HM; [done|]. cbn [enqueue_auth]. cbv zeta.
  apply (M_sync ok enqueue_local) in HM. set (s1 := sync E s) in *. clearbody s1.
  assert (Hp : M (set_auth_queue_ (push t (auth_queue_ s1)).2 s1)).
  { eapply (M_change ok s0 (PushAuth t)); [by apply Henq|done|done]. }
  destruct (push t (auth_queue_ s1)) as [res q]. simpl in Hp.
  destruct res; apply IH; [apply M_count_in_flight|..]; same.
Qed.

Lemma M_enqueue_requests rs local s : M s → M (enqueue_requests E rs local s).2.
Proof.
  revert local s. induction rs as [|r rs IH]; intros local s HM; [done|]. cbn [enqueue_requests]. cbv zeta.
  apply (M_sync ok enqueue_local) in HM. set (s1 := sync E s) in *. clearbody s1.
  assert (Hp : M (set_request_queue_ (push r (request_queue_ s1)).2 s1)).
  { eapply (M_change ok s0 (PushRequest r)); [by apply Henq|done|done]. }
  destruct (push r (request_queue_ s1)) as [res q]. simpl in Hp.
  destruct res; apply IH; [apply M_count_in_flight|..]; same.
Qed.

Lemma M_decodeAndEnqueue fd eof s : M s → M (decodeAndEnqueue E fd eof s).2.
Proof.
  intros HM. unfold decodeAndEnqueue, getRuntimeConfigSnapshot. apply (M_sync ok enqueue_local) in HM.
  set (s1 := sync E s) in *. clearbody s1. destruct (connections_ s1 !! fd) as [c|]; [|done].
  destruct (decode _ _ _ _ _) as [[status input] decoded]. cbv zeta.
  match goal with |- context [classify E ?config decoded ?b ?s2] =>
    assert (H2 : M s2) by (case_bool; same); destruct (classify E config decoded b s2) as [b' s3] eqn:E3 end.
  apply M_classify in E3; [|done]. case_bool; [apply M_close; [done|]; same|].
  assert (H4 : M (put_connection (b_conn b') s3)) by same.
  pose proof (M_enqueue_auth (b_auth_tasks b') (b_local b') _ H4) as H5.
  destruct (enqueue_auth _ _ _ _) as [local s5]. simpl in H5.
  pose proof (M_enqueue_requests (b_requests b') local _ H5) as H6.
  destruct (enqueue_requests _ _ _ _) as [local' s6]. simpl in H6 |- *.
  apply M_fold; [|done]. intros. by apply M_applyResponse.
Qed.

Lemma M_handleRead fd script s s' : M s → handleRead E fd script s = Some s' → M s'.
Proof.
  revert s. induction script as [|a script IH]; intros s HM; cbn [handleRead];
    (case_bool; [by intros [= <-]|]); destruct (connections_ s !! fd) as [c|]; try (by intros [= <-]);
    (case_bool; [by intros [= <-]|]); [done|].
  destruct a as [b| | | |].
  - case_bool; [done|]. set (s1 := emit _ _). assert (H1 : M s1) by same.
    clearbody s1. pose proof (M_decodeAndEnqueue fd false s1 H1) as H2.
    destruct (decodeAndEnqueue E fd false s1) as [[|] s2]; simpl in H2; [by apply IH|by intros [= <-]].
  - intros [= <-]. by apply M_markReadEof, M_decodeAndEnqueue.
  - by apply IH.
  - intros [= <-]. by apply M_decodeAndEnqueue.
  - intros [= <-]. by apply M_close.
Qed.

Lemma M_handleEvent ev s s' : M s → handleEvent E ev s = Some s' → M s'.
Proof.
  intros HM. unfold handleEvent. cbv zeta. case_bool; [by apply M_reactor_consume|].
  case_bool; [case_bool; [by apply M_handleAccept|by intros [= <-]]|].
  case_bool; [intros [= <-]; by apply M_close|]. intros (s1 & H1 & H2)%bind_Some.
  assert (HM1 : M s1) by (destruct (_ && _); [by eapply M_handleRead|by injection H1 as <-]).
  destruct (connections_ s1 !! ev_fd ev); [|by injection H2 as <-]. set (s2 := if has_flag _ _ then _ else s1) in H2.
  assert (HM2 : M s2) by (unfold s2; case_bool; [by apply M_markReadEof|done]). clearbody s2.
  destruct (has_flag _ EPOLLOUT); [by eapply M_handleWrite|by injection H2 as <-].
Qed.

Lemma M_handleEvents evs s s' : M s → handleEvents E evs s = Some s' → M s'.
Proof.
  revert s. induction evs as [|ev evs IH]; intros s HM; [by intros [= <-]|].
  intros (s1 & H1 & H2)%bind_Some. eapply IH; [|exact H2]. by eapply M_handleEvent.
Qed.
End Enqueue.

Section Stop.
Context (ok : change → Prop) (Hstops : ∀ ch, stops ch → ok ch).
Notation M := (moves ok s0).

Lemma stop_local ch : local_change ch → ok ch.
Proof. intros Hl. apply Hstops. by destruct ch. Qed.
#[local] Hint Extern 0 (ok _) => apply stop_local; assumption : core.

Ltac same := match goal with H : moves _ _ ?s |- moves _ _ _ =>
  solve [apply (M_same ok stop_local s0 s); [done|simpl; lia|done]] end.
Ltac change_by ch := eapply (M_change ok s0 ch); [by apply Hstops|reflexivity|].

Lemma M_closeListener s : M s → M (closeListener s).
Proof. intros HM. unfold closeListener. case_bool; [done|]. case_bool; same. Qed.

Lemma M_beginDraining_from s :
  state_ s = RUNNING → M (tick (set_state_ DRAINING (sync E s))) → M (beginDraining E s).
Proof.
  intros Hs HM. unfold beginDraining, now. rewrite bool_decide_eq_true_2 by done. cbn [negb]. cbv zeta. apply M_fold.
  { intros s1 [fd events] H1. unfold update_events. by apply M_modify. }
  change_by StopAuth. apply M_sync; [done|]. change_by StopRequests.
  apply M_sync, M_closeListener; [done|]. unfold markNotReady. case_bool; same.
Qed.

Lemma M_beginDraining s : M s → M (beginDraining E s).
Proof.
  intros HM. destruct (decide (state_ s = RUNNING)); [|by rewrite beginDraining_skip].
  apply M_beginDraining_from; [done|]. apply (M_sync ok stop_local) in HM. same.
Qed.

Lemma M_begin_iteration s : M s → M (begin_iteration E s).
Proof.
  intros HM%(M_sync ok stop_local). unfold begin_iteration, epollTimeoutMs, now. cbv zeta.
  repeat (case_bool; simpl); apply M_sync; try done;
    try (match goal with |- moves _ _ (tick ?x) => apply (M_same ok stop_local s0 x); [done|simpl; lia|] end);
    by try apply M_beginDraining.
Qed.
End Stop.

Section Drain.
Context (ok : change → Prop) (Hnone : ∀ ch, admits_none ch → ok ch).
Notation M := (moves ok s0).

Lemma drain_local ch : local_change ch → ok ch.
Proof. intros Hl. apply Hnone. by destruct ch. Qed.
#[local] Hint Extern 0 (ok _) => apply drain_local; assumption : core.

Ltac same := match goal with H : moves _ _ ?s |- moves _ _ _ =>
  solve [apply (M_same ok drain_local s0 s); [done|simpl; lia|done]] end.
Ltac change_by ch := eapply (M_change ok s0 ch); [by apply Hnone|reflexivity|].

Lemma M_drainResponseQueue fuel s s' : M s → drainResponseQueue E fuel s = Some s' → M s'.
Proof.
  revert s. induction fuel as [|fuel IH]; intros s HM; [done|]. cbn [drainResponseQueue]. cbv zeta.
  apply (M_sync ok drain_local) in HM. set (s1 := sync E s) in *. clearbody s1.
  assert (Hp : M (set_response_queue_ (tryPop (response_queue_ s1)).2 s1)) by (by change_by PopResponse).
  destruct (tryPop (response_queue_ s1)) as [[r|] q]; simpl in Hp; [|by intros [= <-]].
  by apply IH, M_applyResponse.
Qed.

Lemma M_drainRejected s : M s → M (drainRejectedResponses E s).
Proof.
  intros HM%(M_sync ok drain_local). unfold drainRejectedResponses. apply M_fold; [|by change_by TakeRejected].
  intros s1 key H1. unfold close_rejected. repeat case_match; try done. by apply M_close.
Qed.

Lemma M_all_hold checks s : M s → M (all_hold E checks s).2.
Proof.
  revert s. induction checks as [|f l IH]; intros s HM; [done|]. simpl.
  apply (M_sync ok drain_local) in HM. case_bool; auto.
Qed.

Lemma M_drainComplete s : M s → M (drainComplete E s).2.
Proof.
  intros HM. unfold drainComplete. pose proof (M_all_hold queues_drained s HM) as H1.
  destruct (all_hold E queues_drained s) as [b s1]. simpl in H1. case_bool; simpl; [done|].
  apply M_fold; [|done]. intros. by apply M_close.
Qed.

Lemma M_stop_at_deadline s : M s → M (stop_at_deadline E s).
Proof.
  intros H2. unfold stop_at_deadline. apply (M_sync ok drain_local) in H2.
  assert (H3 : M (set_request_queue_ (abort (request_queue_ (sync E s))).2 (sync E s))) by (by change_by AbortRequests).
  apply (M_sync ok drain_local) in H3. set (s3 := sync E (set_request_queue_ _ _)) in *. clearbody s3.
  assert (H4 : M (set_auth_queue_ (abort (auth_queue_ s3)).2 s3)) by (by change_by AbortAuth).
  apply (M_sync ok drain_local) in H4. set (s4 := sync E (set_auth_queue_ _ _)) in *. clearbody s4.
  assert (H5 : M (set_response_queue_ (abort (response_queue_ s4)).2 s4)) by (by change_by AbortResponses). same.
Qed.

Lemma M_finish_draining s : M s → M (finish_draining E s).
Proof.
  intros HM. rewrite finish_draining_unfold. case_bool; [|done]. pose proof (M_drainComplete s HM) as H1.
  destruct (drainComplete E s) as [[|] s1]; simpl in H1; [same|].
  assert (H2 : M (tick s1)) by same. case_bool; [by apply M_stop_at_deadline|done].
Qed.

End Drain.

(** One iteration of the event loop is a sequence of elementary changes. *)
Lemma loop_iteration_moves w s s' :
  loop_iteration E w s = Some s' → moves (λ _, True) s0 s → moves (λ _, True) s0 s'.
Proof.
  rewrite loop_iteration_unfold. case_bool; [done|]. cbv zeta. intros Hi HM.
  apply (M_begin_iteration (λ _, True)) in HM; [|done]. destruct w as [evs drains| |].
  - apply bind_Some in Hi as (s2 & H2 & (s3 & H3 & [= <-])%bind_Some).
    apply M_finish_draining, M_drainRejected; [done..|]. eapply M_drainResponseQueue; [done| |exact H3].
    by eapply M_handleEvents.
  - by injection Hi as <-.
  - injection Hi as <-. by apply M_beginDraining.
Qed.
End Kinds.
End Moves.

(** ** Every queue has its workers *)

Definition exited (w : Worker) : bool :=
  match w_pc w with WExit | WLastStop | WLastNotify | WDone => true | _ => false end.

Definition closed_empty (kind : ResponseProducer) (s : Server) : Prop :=
  match kind with
  | NormalWorker => stopped (request_queue_ s) = true ∧ data_queue_ (request_queue_ s) = []
  | AuthWorker => stopped (auth_queue_ s) = true ∧ data_queue_ (auth_queue_ s) = []
  end.

(** There is a worker of either kind, and one that has left its loop leaves an
    empty queue that accepts nothing more. *)
Definition Staffed (s : Server) : Prop :=
  (∀ kind, ∃ w, w ∈ workers_ s ∧ w_kind w = kind) ∧
  (∀ w, w ∈ workers_ s → exited w = true → closed_empty (w_kind w) s).

Lemma staffed_keep s s' :
  workers_ s' = workers_ s → (∀ kind, closed_empty kind s → closed_empty kind s') → Staffed s → Staffed s'.
Proof. intros Ew Hc [H1 H2]. split; intros; rewrite Ew in *; auto. Qed.

Lemma staffed_set_pc i kind pc pc' s s1 :
  workers_ s !! i = Some (mkWorker kind pc) → workers_ s1 = workers_ s → Staffed s →
  (∀ k, closed_empty k s → closed_empty k s1) →
  (exited (mkWorker kind pc') = true → closed_empty kind s1) → Staffed (set_pc i pc' s1).
Proof.
  intros Hi Ew Hs Hc Hx. destruct (set_pc_split i pc' s1 (mkWorker kind pc)) as (l1 & l2 & E1 & E2); [by rewrite Ew|].
  apply (staffed_keep s s1 Ew Hc) in Hs as [H1 H2]. cbn [w_kind] in E2. rewrite E1 in H1, H2. split; rewrite E2.
  - intros k. destruct (H1 k) as (w & Hw & <-). apply elem_of_app in Hw as [Hw|[->|Hw]%elem_of_cons];
      [exists w|exists (mkWorker kind pc')|exists w]; rewrite elem_of_app, elem_of_cons; auto.
  - intros w [Hw|[->|Hw]%elem_of_cons]%elem_of_app Hex.
    + apply H2; [|done]. rewrite elem_of_app. auto.
    + by apply Hx.
    + apply H2; [|done]. rewrite elem_of_app, elem_of_cons. auto.
Qed.

Section Workers.
Context `{JsonLib}.

Lemma staffed_worker_step i env s : Staffed s → Staffed (worker_step i env s).
Proof.
  intros Hs. unfold worker_step. destruct (workers_ s !! i) as [[kind pc]|] eqn:Hi; [|done].
  assert (Hset : ∀ pc' s1, workers_ s1 = workers_ s → (∀ k, closed_empty k s → closed_empty k s1) →
    (exited (mkWorker kind pc') = true → closed_empty kind s1) → Staffed (set_pc i pc' s1)).
  { intros. by eapply staffed_set_pc. }
  assert (Hend : exited (mkWorker kind pc) = true → closed_empty kind s).
  { intros Hx. apply (proj2 Hs (mkWorker kind pc)); [by eapply list_elem_of_lookup_2|done]. }
  destruct pc; try done; try (by apply Hset).
  - unfold worker_pop. destruct kind.
    + destruct (pop (request_queue_ s)) as [[[r|] q]|] eqn:Ep; [| |done]; apply Hset; try done.
      * intros [] Hc; [|done]. destruct Hc as [_ Hd]. apply pop_Some in Ep as (Ed & _). congruence.
      * intros _. by apply pop_None in Ep as (_ & ? & ?).
    + destruct (pop (auth_queue_ s)) as [[[r|] q]|] eqn:Ep; [| |done]; apply Hset; try done.
      * intros [] Hc; [done|]. destruct Hc as [_ Hd]. apply pop_Some in Ep as (Ed & _). congruence.
      * intros _. by apply pop_None in Ep as (_ & ? & ?).
  - unfold worker_dispatch, worker_respond. case_bool; [by apply Hset|].
    destruct (if we_throws env then _ else _) as [[resp|] h]; by apply Hset.
  - unfold worker_stats, worker_respond. repeat case_match; by apply Hset.
  - unfold worker_check. case_bool; by apply Hset.
  - unfold worker_auth. case_bool; [by apply Hset|]. destruct (handleAuth _ _ _). by apply Hset.
  - unfold worker_push. destruct (push _ _) as [[] q]; [by apply Hset|destruct kind; by apply Hset..].
  - apply Hset; try done. by destruct kind.
  - unfold worker_exit. apply Hset; try done. intros _. by apply Hend.
Qed.

Lemma push_stopped {T} (x : T) q : stopped q = true → (push x q).2 = q.
Proof. unfold push, stopped. by intros ->. Qed.

Lemma staffed_change ch s s' : changes ch s s' → Staffed s → Staffed s'.
Proof.
  intros Hch Hs. destruct ch; simpl in Hch; try subst s'.
  - destruct a; simpl; [by apply staffed_worker_step|..];
      try (apply (staffed_keep s); [done|by intros []|done]).
    + unfold config_pull_begin. case_bool; [|done]. apply (staffed_keep s); [done|by intros []|done].
    + unfold config_pull_end. repeat (case_match || case_bool); try done; by apply (staffed_keep s); [|intros []|].
  - destruct Hch as [Hch _]. unfold shared_view in Hch. injection Hch as E1 E2 E3 _ _. apply (staffed_keep s); [done| |done].
    intros []; simpl; by rewrite ?E2, ?E3.
  - apply (staffed_keep s); [done| |done]. intros [] Hc; [|done]. destruct Hc as [Hc Hd]. simpl. by rewrite push_stopped.
  - apply (staffed_keep s); [done| |done]. intros [] Hc; [done|]. destruct Hc as [Hc Hd]. simpl. by rewrite push_stopped.
  - apply (staffed_keep s); [done| |done]. intros [] Hc; [|done]. by destruct Hc.
  - apply (staffed_keep s); [done| |done]. intros [] Hc; [done|]. by destruct Hc.
  - by apply (staffed_keep s); [|intros []|].
  - by apply (staffed_keep s); [|intros []|].
  - by apply (staffed_keep s); [|intros []|].
  - by apply (staffed_keep s); [|intros []|].
  - by apply (staffed_keep s); [|intros []|].
Qed.
End Workers.

(** ** States in which no worker has anything to do *)

Definition resting (w : Worker) : bool := match w_pc w with WIdle => true | _ => exited w end.

Record Calm (s : Server) : Prop := mkCalm {
  calm_requests : data_queue_ (request_queue_ s) = [];
  calm_auth : data_queue_ (auth_queue_ s) = [];
  calm_workers : Forall (λ w, resting w = true) (workers_ s);
}.

(** [s'] is as calm as [s], with the same responses and rejected connections waiting. *)
Definition as_calm (s s' : Server) : Prop :=
  Calm s' ∧ data_queue_ (response_queue_ s') = data_queue_ (response_queue_ s) ∧
  rejected_response_connections_ s' = rejected_response_connections_ s.

Section Calm.
Context `{JsonLib}.

Lemma calm_set_pc i pc s s1 :
  Calm s → workers_ s1 = workers_ s → data_queue_ (request_queue_ s1) = [] → data_queue_ (auth_queue_ s1) = [] →
  (∀ kind, resting (mkWorker kind pc) = true) → Calm (set_pc i pc s1).
Proof.
  intros [_ _ Hw] Ew Hr Ha Hp. split; [done..|]. simpl. rewrite Ew. apply Forall_forall.
  intros w (j & Hj)%list_elem_of_lookup. rewrite list_lookup_alter in Hj. case_decide.
  - apply fmap_Some in Hj as (w0 & _ & ->). apply Hp.
  - by eapply Forall_lookup in Hw.
Qed.

Lemma calm_worker_step i env s : Calm s → as_calm s (worker_step i env s).
Proof.
  intros Hc. unfold worker_step, as_calm. destruct (workers_ s !! i) as [[kind pc]|] eqn:Hi; [|done].
  assert (Hset : ∀ pc' s1, workers_ s1 = workers_ s → request_queue_ s1 = request_queue_ s →
    auth_queue_ s1 = auth_queue_ s → (∀ kind, resting (mkWorker kind pc') = true) → Calm (set_pc i pc' s1)).
  { intros pc' s1 E1 E2 E3 Hp. apply (calm_set_pc i pc' s); rewrite ?E2, ?E3; try done; apply Hc. }
  pose proof (proj1 (Forall_lookup _ _) (calm_workers _ Hc) _ _ Hi) as Hr. destruct pc; try done.
  - unfold worker_pop, pop. rewrite (calm_requests _ Hc), (calm_auth _ Hc).
    destruct kind; case_bool; try done; (split; [by apply Hset|done]).
  - unfold worker_exit. split; [|done]. by apply Hset; try done; case_bool.
  - split; [by apply Hset|done].
  - split; [by apply Hset|done].
Qed.

Lemma calm_action a s : Calm s → as_calm s (run_action a s).
Proof.
  intros Hc. destruct a; simpl; [by apply calm_worker_step|..]; try (by destruct Hc).
  - unfold config_pull_begin. case_bool; by destruct Hc.
  - unfold config_pull_end. repeat (case_match || case_bool); by destruct Hc.
Qed.

Lemma calm_change ch s s0 s' : stops ch → changes ch s s' → as_calm s0 s → as_calm s0 s'.
Proof.
  intros Hl Hch (Hc & E1 & E2). destruct ch; try done; simpl in Hch.
  - subst s'. destruct (calm_action a s Hc) as (? & E3 & E4). split_and!; congruence.
  - destruct Hch as [Hch _]. unfold shared_view in Hch. injection Hch as F1 F2 F3 F4 F5. unfold as_calm. rewrite F4, F5.
    split; [|done]. destruct Hc. by split; rewrite ?F1, ?F2, ?F3.
  - subst s'. split; [by destruct Hc|done].
  - subst s'. split; [by destruct Hc|done].
Qed.

Lemma calm_moves s s' : moves stops s s' → Calm s → as_calm s s'.
Proof. intros Hm Hc. apply (moves_invariant stops (as_calm s) s s'); [|done|done]. intros. by eapply calm_change. Qed.

(** Nothing is outstanding. *)
Definition drained (s : Server) : Prop :=
  Calm s ∧ data_queue_ (response_queue_ s) = [] ∧ rejected_response_connections_ s = ∅.

Lemma drained_change ch s s' : admits_none ch → changes ch s s' → drained s → drained s'.
Proof.
  intros Ho Hch (Hc & E1 & E2). destruct ch; try done; simpl in Hch; try subst s'.
  - destruct (calm_action a s Hc) as (? & E3 & E4). split; [done|]. by rewrite E3, E4.
  - destruct Hch as [Hch _]. unfold shared_view in Hch. injection Hch as F1 F2 F3 F4 F5. unfold drained. rewrite F4, F5.
    split; [|done]. destruct Hc. by split; rewrite ?F1, ?F2, ?F3.
  - split; [|done]. by destruct Hc.
  - split; [|done]. by destruct Hc.
  - split; [|done]. by destruct Hc.
  - split; [|done]. by destruct Hc.
  - split; [|done]. by destruct Hc.
  - split; [by destruct Hc|]. simpl. unfold tryPop. rewrite E1. by split.
  - split; [by destruct Hc|]. done.
Qed.

Lemma gather_resting {B} (f : Worker → list B) ws :
  (∀ w, resting w = true → f w = []) → Forall (λ w, resting w = true) ws → gather f ws = [].
Proof. intros Hf Hws. induction Hws as [|w ws Hw Hws IH]; [done|]. by rewrite gather_cons, Hf, IH. Qed.

Lemma drained_items s : drained s → items s = [] ∧ refused s = [].
Proof.
  intros ([H1 H2 H3] & H4 & H5). unfold items, refused. rewrite H1, H2, H4, H5, elements_empty.
  rewrite !gather_resting; try done; intros [k []] Hw; done.
Qed.

Context (E : Env).

Lemma drain_calm s0 fuel s :
  Calm s → rejected_response_connections_ s = rejected_response_connections_ s0 →
  (length (data_queue_ (response_queue_ s)) < fuel)%nat →
  ∃ s', drainResponseQueue E fuel s = Some s' ∧ Calm s' ∧ data_queue_ (response_queue_ s') = [] ∧
        rejected_response_connections_ s' = rejected_response_connections_ s0.
Proof.
  revert s. induction fuel as [|fuel IH]; intros s Hc Hr Hlt; [lia|]. cbn [drainResponseQueue]. cbv zeta.
  assert (Hs : as_calm s (sync E s)).
  { apply calm_moves; [|done]. apply M_sync; [by intros []|apply rtc_refl]. }
  destruct Hs as (Hc1 & E1 & E2). set (s1 := sync E s) in *. clearbody s1. rewrite <- E1 in Hlt. rewrite <- E2 in Hr.
  unfold tryPop. destruct (data_queue_ (response_queue_ s1)) as [|r data] eqn:Ed.
  - exists (set_response_queue_ (response_queue_ s1) s1). split_and!; try done. by destruct Hc1.
  - simpl in Hlt. set (s2 := set_response_queue_ _ s1).
    assert (Hs2 : as_calm s2 (applyResponse E r Worker_ s2)).
    { apply calm_moves; [|by destruct Hc1]. apply M_applyResponse; [by intros []|apply rtc_refl]. }
    destruct Hs2 as (Hc2 & F1 & F2). apply IH; [done|by rewrite F2|]. rewrite F1. simpl. lia.
Qed.

(** One iteration without new input from a calm state leaves nothing behind. *)
Lemma calm_iteration s evs drains s0 :
  Calm s → state_ s ≠ STOPPED → (length (data_queue_ (response_queue_ s)) < drains)%nat →
  handleEvents E evs (begin_iteration E s) = Some s0 → moves stops (begin_iteration E s) s0 →
  ∃ s', loop_iteration E (WaitEvents evs drains) s = Some s' ∧ drained s'.
Proof.
  intros Hc Hst Hlt He Hm. rewrite loop_iteration_unfold, bool_decide_eq_false_2 by done. cbv zeta. rewrite He.
  assert (Hb : as_calm s s0).
  { apply calm_moves; [|done]. etransitivity; [|exact Hm]. by apply M_begin_iteration; [|apply rtc_refl]. }
  destruct Hb as (Hc1 & E1 & _). set (s1 := s0) in *. clearbody s1. cbn [mbind option_bind].
  destruct (drain_calm s1 drains s1 Hc1 eq_refl) as (s2 & -> & Hc2 & E2 & _); [by rewrite E1|].
  cbn [mbind option_bind]. eexists. split; [done|].
  assert (Hd : drained (drainRejectedResponses E s2)).
  { unfold drainRejectedResponses. cbv zeta. set (s3 := sync E s2).
    assert (H3 : as_calm s2 s3) by (apply calm_moves; [apply M_sync; [by intros []|apply rtc_refl]|done]).
    destruct H3 as (Hc3 & E3 & _). set (s4 := set_rejected_response_connections_ ∅ s3).
    set (s5 := fold_left _ _ s4). assert (H5 : as_calm s4 s5).
    { apply calm_moves; [|by destruct Hc3]. apply M_fold; [|apply rtc_refl]. intros s6 key H6. unfold close_rejected.
      repeat case_match; try done. apply M_close; [by intros []|done]. }
    destruct H5 as (Hc5 & E5 & E6). split_and!; [done|rewrite E5; exact (eq_trans E3 E2)|by rewrite E6]. }
  eapply moves_invariant; [|apply (M_finish_draining E _ admits_none); [done|apply rtc_refl]|exact Hd].
  intros. by eapply drained_change.
Qed.
End Calm.

(** ** Theorems *)

Section Theorems.
Context `{JsonLib} (E : Env) (HE : env_ok E).

Lemma staffed_launched u s : setup_ok u → launched u s → Staffed s.
Proof.
  intros (Hl & He & Hv & N1 & N2 & N3 & Hwc & Hawc & Hsum & Hhw) (s0 & Hs & Hst).
  unfold newServer in Hs. destruct ((_ =? 0) || (_ >? 16)) eqn:Ea; [done|].
  destruct ((_ =? 0) || (_ >? 65536)); [done|]. injection Hs as <-. rewrite Z.gtb_ltb in Ea. bool_facts.
  unfold start in Hst. simpl in Hst. injection Hst as <-. unfold start_workers, markReady.
  destruct (su_ready_created u); simpl;
    set (n := if su_worker_count u =? 0 then _ else _);
    assert (Hn : 0 < n)
      by (subst n; destruct (Z.eqb_spec (su_worker_count u) 0); [destruct (Z.eqb_spec (su_hardware u) 0)|]; lia);
    clearbody n; (split; [intros []; [exists (mkWorker NormalWorker WIdle)|exists (mkWorker AuthWorker WIdle)]|]); simpl;
    rewrite ?elem_of_app, ?elem_of_replicate; try (split; [naive_solver lia|done]);
    intros w; rewrite elem_of_app, !elem_of_replicate; intros [[-> _]|[-> _]]; done.
Qed.

Lemma reachable_staffed u s : reachable E u s → Staffed s.
Proof.
  induction 1 as [s Hu Hl|w s s' _ IH _ Hi|a s _ IH _].
  - by eapply staffed_launched.
  - eapply (moves_invariant (λ _, True) Staffed s s'); [intros; by eapply staffed_change| |done].
    eapply loop_iteration_moves; [done|apply rtc_refl].
  - by apply (staffed_change (Act a) s).
Qed.

Lemma reachable_ids u s : reachable E u s → next_conn_id_ s < 2 ^ 64.
Proof.
  induction 1 as [s Hu Hl|w s s' Hr IH Hn Hi|a s _ IH _].
  - destruct (inv_launched u s Hu Hl) as (_ & _ & ->). lia.
  - destruct (reachable_running E HE u s Hr) as [HL _]. destruct (inv_loop_iteration E HE w s s' HL Hn Hi). lia.
  - pose proof (private_run_action a s) as Hv. unfold private_view, reactor_view in Hv.
    assert (next_conn_id_ (run_action a s) = next_conn_id_ s) by congruence. lia.
Qed.

(** When every worker is blocked, nothing is left in the queues they serve. *)
Lemma blocked_calm s : Staffed s → forallb (blocked s) (workers_ s) = true → Calm s.
Proof.
  intros [Hk Hx] Hb. rewrite forallb_forall in Hb.
  assert (Hb' : ∀ w, w ∈ workers_ s → blocked s w = true) by (intros w Hw; by apply Hb, list_elem_of_In).
  assert (Hq : ∀ kind, match kind with NormalWorker => data_queue_ (request_queue_ s) = []
                       | AuthWorker => data_queue_ (auth_queue_ s) = [] end).
  { intros kind. destruct (Hk kind) as ([k pc] & Hw & <-). specialize (Hb' _ Hw). specialize (Hx _ Hw).
    destruct k, pc; try done; simpl in *; try (by apply Hx); bool_facts; unfold pop in Hb';
      by destruct (data_queue_ _). }
  split; [apply (Hq NormalWorker)|apply (Hq AuthWorker)|]. apply Forall_forall. intros [k pc] Hw.
  specialize (Hb' _ Hw). by destruct k, pc.
Qed.

Definition serving (env : WorkerEnv) (a : Action) : Prop := ∃ i, a = AWorker i env.

(** The workers can always run until they are blocked. *)
Lemma workers_reach_rest env s :
  ∃ acts, Forall (serving env) acts ∧
    let s' := run_actions acts s in forallb (blocked s') (workers_ s') = true.
Proof.
  remember (Z.to_nat (work_left s)) as n eqn:En.
  assert (Hn : (Z.to_nat (work_left s) ≤ n)%nat) by lia. clear En. revert s Hn.
  induction n as [n IH] using lt_wf_ind. intros s Hn.
  destruct (forallb (blocked s) (workers_ s)) eqn:Eb; [by exists []|].
  assert (Hw : ∃ i w, workers_ s !! i = Some w ∧ blocked s w = false).
  { revert Eb. generalize (workers_ s) as ws. induction ws as [|w ws IHw]; [done|]. simpl.
    destruct (blocked s w) eqn:Ew; [|by exists 0%nat, w]. intros (i & w' & ? & ?)%IHw. by exists (S i), w'. }
  destruct Hw as (i & w & Hw & Hb). pose proof (worker_step_decreases i env s w Hw Hb).
  pose proof (work_left_range (worker_step i env s)).
  destruct (IH (Z.to_nat (work_left (worker_step i env s))) ltac:(lia) (worker_step i env s) ltac:(lia))
    as (acts & Hall & Hrest).
  exists (AWorker i env :: acts). split; [constructor; [by exists i|done]|done].
Qed.

(** Events without input make no request or AUTH task appear. *)
Lemma inputless_fixed n s s' ev :
  fixed_view s' = fixed_view (set_next_conn_id_ n s) → inputless s ev → inputless s' ev.
Proof.
  unfold fixed_view, inputless. simpl. intros [= V1 V2 V3 V4 V5 V6 V7 V8 V9 V10]. by rewrite V1, V3, V4.
Qed.

Lemma inputless_moves evs s s' :
  Inv (base false false) s → next_conn_id_ s + accepts evs < 2 ^ 64 → Forall (inputless s) evs →
  handleEvents E evs s = Some s' → moves stops s s'.
Proof.
  revert s. induction evs as [|ev evs IH]; intros s HI Hn Hq; [intros [= <-]; apply rtc_refl|].
  unfold accepts in *. rewrite gather_cons, zlen_app in Hn.
  pose proof (zlen_nonneg (ev_accept ev)). pose proof (zlen_nonneg (gather ev_accept evs)).
  apply Forall_cons in Hq as [Hq1 Hq]. cbn [handleEvents]. intros (s1 & He1 & He2)%bind_Some.
  destruct (inv_handleEvent E HE ev s s1 HI ltac:(lia) He1) as (HI1 & ? & Hv1).
  transitivity s1.
  - eapply M_inputless; [by intros []|exact Hq1|apply rtc_refl|exact He1].
  - apply IH; [done|unfold accepts; lia| |done]. eapply Forall_impl; [exact Hq|]. intros. by eapply inputless_fixed.
Qed.

Lemma begin_inputless s ev : refuses_work E s → inputless s ev → inputless (begin_iteration E s) ev.
Proof.
  intros Hq Hi. destruct (begin_iteration_spec E s Hq) as [_ [(_ & Hs & _)|Hf]].
  - unfold inputless. by rewrite Hs.
  - apply (inputless_fixed (next_conn_id_ s) s); [|done]. rewrite Hf. by destruct s.
Qed.

(** C5: Every admitted request is answered.  In a reachable server whose loop
    has not ended, every action of a worker that is not blocked decreases the
    work left, whatever the handlers and the control plane answer, so that
    the workers are all blocked after at most that many actions, and some
    schedule blocks them all.  Once they are, consider any iteration of the
    event loop that brings no new input: its events are those of the eventfd,
    of the listener, or of connections without new data.  If its handlers'
    system calls are answered to their end and the queue of responses is drained
    to its end, it completes and leaves no request outstanding: every
    connection that is still open has an in-flight counter of zero, and the
    requests admitted on it are exactly those answered. *)
Theorem work_completes u s :
  reachable E u s → state_ s ≠ STOPPED →
  (∀ i env w, workers_ s !! i = Some w → blocked s w = false →
     0 ≤ work_left (run_action (AWorker i env) s) < work_left s) ∧
  (∀ env, ∃ acts, Forall (serving env) acts ∧
     let s' := run_actions acts s in forallb (blocked s') (workers_ s') = true) ∧
  (forallb (blocked s) (workers_ s) = true →
   ∀ evs drains, Forall (inputless s) evs → is_Some (handleEvents E evs (begin_iteration E s)) →
   (length (data_queue_ (response_queue_ s)) < drains)%nat → next_conn_id_ s + accepts evs < 2 ^ 64 →
   ∃ s', loop_iteration E (WaitEvents evs drains) s = Some s' ∧ items s' = [] ∧
     (state_ s' ≠ STOPPED → ∀ fd c, connections_ s' !! fd = Some c →
        c_in_flight_work c = 0 ∧ admitted (c_conn_id c) (trace_ s') ≡ₚ answered (c_conn_id c) (trace_ s'))).
Proof.
  intros Hr Hst. split_and!.
  - intros i env w Hw Hb. split; [apply work_left_range|by eapply worker_step_decreases].
  - intros env. apply workers_reach_rest.
  - intros Hb evs drains Hin [s0 He] Hlt Hn. pose proof (blocked_calm s (reachable_staffed u s Hr) Hb) as Hc.
    destruct (reachable_running E HE u s Hr) as [(keys & HI & Hk) Hq]. rewrite Hk in HI by done.
    destruct (inv_begin_iteration E HE s HI) as [HI1 Hn1].
    assert (Hm : moves stops (begin_iteration E s) s0).
    { apply (inputless_moves evs); [|by rewrite Hn1| |done].
      - eapply inv_weaken; [..|exact HI1]; try done. by left.
      - eapply Forall_impl; [exact Hin|]. intros ev. by apply begin_inputless. }
    destruct (calm_iteration E s evs drains s0 Hc Hst Hlt He Hm) as (s' & Hi & Hd). exists s'. split; [done|].
    destruct (drained_items s' Hd) as [Ei Er]. split; [done|]. intros Hst' fd c Hf.
    assert (Hr' : reachable E u s') by (by eapply reach_step; [done| |exact Hi]).
    pose proof (reachable_idle E HE u s' Hr' Hst') as HI'. destruct (inv_account _ _ HI' fd c Hf) as [_ Hacc].
    rewrite Er, Ei in Hacc. destruct Hacc as [H1 H2]; [apply not_elem_of_nil|]. split; [done|].
    by rewrite H2, app_nil_r.
Qed.

(** ** The life cycle *)

(** Draining reads the clock when it begins. *)
Lemma beginDraining_ticks s :
  state_ s = RUNNING → (k_ticks s ≤ k_ticks (sync E s) < k_ticks (beginDraining E s))%nat.
Proof.
  intros Hs. split; [apply (moves_ticks (λ _, True)), M_sync; [done|apply rtc_refl]|].
  apply (moves_ticks stops (tick (set_state_ DRAINING (sync E s)))).
  by apply M_beginDraining_from; [|done|apply rtc_refl].
Qed.

Lemma begin_deadline s :
  refuses_work E s → state_ s = RUNNING → state_ (begin_iteration E s) ≠ RUNNING →
  ∃ n, (k_ticks s ≤ n < k_ticks (begin_iteration E s))%nat ∧
    shutdown_deadline_ (begin_iteration E s) = clock E n + shutdown_timeout_ s * 1000000.
Proof.
  intros Hq Hs Hne. destruct (begin_iteration_spec E s Hq) as [_ [(_ & _ & Ed & Eb)|Hf]];
    [|unfold fixed_view in Hf; congruence].
  exists (k_ticks (sync E (sync E s))). split; [|done]. rewrite Eb.
  assert (Hs1 : state_ (sync E s) = RUNNING) by (sync_view E s s1; congruence).
  pose proof (beginDraining_ticks _ Hs1) as Hk.
  assert ((k_ticks s ≤ k_ticks (sync E s))%nat) by (apply (moves_ticks (λ _, True)), M_sync; [done|apply rtc_refl]).
  set (s2 := beginDraining E (sync E s)) in *. clearbody s2.
  assert ((k_ticks s2 ≤ k_ticks (sync E (epollTimeoutMs E s2).2))%nat); [|lia].
  apply (moves_ticks (λ _, True)), M_sync; [done|]. unfold epollTimeoutMs, now. cbv zeta.
  case_bool; [apply rtc_refl|]. simpl. apply (M_same _ (λ _ _, I) s2 s2); [done|simpl; lia|apply rtc_refl].
Qed.

(** The last stage of an iteration reads the clock at one tick, which decides. *)
Lemma finish_deadline s :
  Inv idle s → refuses_work E s → state_ s = DRAINING →
  ((∀ n, (k_ticks s ≤ n < k_ticks (finish_draining E s))%nat → shutdown_deadline_ s ≤ clock E n) →
     state_ (finish_draining E s) = STOPPED) ∧
  (state_ (finish_draining E s) = STOPPED → connections_ (finish_draining E s) = ∅ ∨
     ∃ n, (k_ticks s ≤ n < k_ticks (finish_draining E s))%nat ∧ shutdown_deadline_ s ≤ clock E n).
Proof.
  intros HI Hq Hs. destruct (finish_draining_spec E HE s HI Hq) as (_ & _ & _ & Hstop & Hwhy).
  assert (Hk1 : (k_ticks s ≤ k_ticks (drainComplete E s).2)%nat).
  { apply (moves_ticks (λ _, True)), M_drainComplete; [done|apply rtc_refl]. }
  assert (Hk2 : (k_ticks (tick (drainComplete E s).2) ≤ k_ticks (stop_at_deadline E (tick (drainComplete E s).2)))%nat).
  { apply (moves_ticks (λ _, True)), M_stop_at_deadline; [done|apply rtc_refl]. }
  change (k_ticks (tick (drainComplete E s).2)) with (S (k_ticks (drainComplete E s).2)) in Hk2. split.
  - intros Hn. rewrite finish_draining_unfold, bool_decide_eq_true_2 in * by done.
    destruct (drainComplete E s) as [[|] s1]; [done|]. cbn [snd] in *.
    destruct (clock E (k_ticks s1) >=? shutdown_deadline_ s1); [done|].
    apply Hstop, Hn; [done|]. simpl. lia.
  - intros Es. destruct (Hwhy Hs Es) as [|[Hd ->]]; [by left|right]. eexists. split; [|exact Hd]. lia.
Qed.

(** What an iteration from [s] to [s'] does with the deadline; [events] says
    that it handled events. *)
Definition deadline_kept (events : Prop) (s s' : Server) : Prop :=
  let in_iteration n := (k_ticks s ≤ n < k_ticks s')%nat in
  (state_ s = RUNNING → state_ s' ≠ RUNNING →
     ∃ n, in_iteration n ∧ shutdown_deadline_ s' = clock E n + shutdown_timeout_ s * 1000000) ∧
  (state_ s = DRAINING → shutdown_deadline_ s' = shutdown_deadline_ s) ∧
  (state_ s = DRAINING → (∀ n, in_iteration n → shutdown_deadline_ s ≤ clock E n) → events → state_ s' = STOPPED) ∧
  (state_ s' = STOPPED → connections_ s' = ∅ ∨ ∃ n, in_iteration n ∧ shutdown_deadline_ s' ≤ clock E n).

Lemma deadline_events evs drains s s' :
  Running E s → next_conn_id_ s + accepts evs < 2 ^ 64 → loop_iteration E (WaitEvents evs drains) s = Some s' →
  deadline_kept True s s'.
Proof.
  intros [HL Hq] Hn Hi. destruct (begin_iteration_spec E s Hq) as [_ Hb]. pose proof (begin_deadline s Hq) as Hbd.
  assert (Hk1 : (k_ticks s ≤ k_ticks (begin_iteration E s))%nat).
  { apply (moves_ticks (λ _, True)), M_begin_iteration; [done|apply rtc_refl]. }
  destruct (iteration_stages E HE evs drains s s' (conj HL Hq) Hn Hi) as (s2 & s3 & H2 & H3 & -> & HI4 & Hq4 & Es & Ed).
  set (s4 := drainRejectedResponses E s3) in *.
  assert (Hk4 : (k_ticks (begin_iteration E s) ≤ k_ticks s4)%nat).
  { apply (moves_ticks (λ _, True)), M_drainRejected; [done|]. eapply M_drainResponseQueue; [done| |exact H3].
    eapply M_handleEvents; [done|apply rtc_refl|exact H2]. }
  assert (Hk5 : (k_ticks s4 ≤ k_ticks (finish_draining E s4))%nat).
  { apply (moves_ticks (λ _, True)), M_finish_draining; [done|apply rtc_refl]. }
  destruct (finish_draining_spec E HE s4 HI4 Hq4) as (_ & Hst & Ed' & _). unfold deadline_kept. rewrite Ed', Ed.
  pose proof (finish_deadline s4 HI4 Hq4) as Hfin. rewrite Ed in Hfin. clearbody s4. split_and!.
  - intros Hs Hne. destruct (Hbd Hs) as (n & Hn1 & Hn2); [|exists n; split; [lia|done]].
    intros Hrun. apply Hne. destruct Hst as [->|[? _]]; congruence.
  - intros Hs. destruct Hb as [(? & _)|Hf]; [congruence|]. unfold fixed_view in Hf. congruence.
  - intros Hs Hall _. destruct Hb as [(? & _)|Hf]; [congruence|]. unfold fixed_view in Hf.
    destruct Hfin as [Hstop _]; [congruence|]. apply Hstop. intros n Hn'.
    replace (shutdown_deadline_ (begin_iteration E s)) with (shutdown_deadline_ s) by congruence.
    apply Hall. lia.
  - intros Hs. assert (Hs4 : state_ s4 = DRAINING).
    { destruct Hst as [Hst|[? _]]; [|done]. rewrite Hs in Hst. destruct Hb as [(_ & ? & _)|Hf]; [congruence|].
      rewrite loop_iteration_unfold in Hi. case_bool; [done|]. bool_facts. unfold fixed_view in Hf. congruence. }
    destruct (Hfin Hs4) as [_ Hwhy]. destruct (Hwhy Hs) as [|(n & ? & ?)]; [by left|right]. exists n. split; [lia|done].
Qed.

(** An interrupted or failed wait; the second begins draining. *)
Lemma deadline_begin s : refuses_work E s → state_ s ≠ STOPPED → deadline_kept False s (begin_iteration E s).
Proof.
  intros Hq Hst. destruct (begin_iteration_spec E s Hq) as [_ Hb]. split_and!.
  - by apply begin_deadline.
  - intros Hs. destruct Hb as [(? & _)|Hf]; [congruence|]. unfold fixed_view in Hf. congruence.
  - done.
  - intros Hs. destruct Hb as [(_ & ? & _)|Hf]; [congruence|]. unfold fixed_view in Hf. congruence.
Qed.

Lemma deadline_wait_failed s :
  refuses_work E s → state_ s ≠ STOPPED → deadline_kept False s (beginDraining E (begin_iteration E s)).
Proof.
  intros Hq Hst. pose proof (deadline_begin s Hq Hst) as Hbegin. set (s1 := begin_iteration E s) in *.
  destruct (decide (state_ s1 = RUNNING)) as [Er|Er]; [|by rewrite beginDraining_skip].
  destruct (beginDraining_spec E s1 Er) as (Es & _ & _ & Ed). pose proof (beginDraining_ticks s1 Er).
  assert (Hk1 : (k_ticks s ≤ k_ticks s1)%nat) by (apply (moves_ticks (λ _, True)), M_begin_iteration; [done|apply rtc_refl]).
  destruct (begin_iteration_spec E s Hq) as [_ [(_ & ? & _)|Hf]]; [subst s1; congruence|].
  change (fixed_view s1 = fixed_view s) in Hf. unfold fixed_view in Hf. split_and!; [|congruence|done|congruence].
  intros _ _. exists (k_ticks (sync E s1)). split; [lia|]. rewrite Ed. congruence.
Qed.

(** C17: The life cycle.  The state moves only forwards; from the moment it
    leaves [RUNNING], the listener is closed, the readiness file is gone (unless it
    could not be removed) and no request is admitted any more.  Draining sets
    the deadline to the configured time after a reading of the clock made in
    the same iteration, and no later iteration moves it.  An iteration of a
    draining loop that handles events and during which the clock shows the
    deadline passed ends the loop, whatever work is left; and the loop ends
    only when no connection is left or when a reading of the clock in that
    iteration shows the deadline passed. *)
Theorem life_cycle u w s s' :
  reachable E u s → next_conn_id_ s + wait_accepts w < 2 ^ 64 → loop_iteration E w s = Some s' →
  let in_iteration n := (k_ticks s ≤ n < k_ticks s')%nat in
  (state_ s ≠ RUNNING → quiesced E s) ∧
  (state_ s' = RUNNING → state_ s = RUNNING) ∧
  (state_ s = RUNNING → state_ s' ≠ RUNNING →
     ∃ n, in_iteration n ∧ shutdown_deadline_ s' = clock E n + shutdown_timeout_ s * 1000000) ∧
  (state_ s = DRAINING → shutdown_deadline_ s' = shutdown_deadline_ s) ∧
  (state_ s = DRAINING → (∀ n, in_iteration n → shutdown_deadline_ s ≤ clock E n) →
     (∃ evs drains, w = WaitEvents evs drains) → state_ s' = STOPPED) ∧
  (state_ s' = STOPPED → connections_ s' = ∅ ∨ ∃ n, in_iteration n ∧ shutdown_deadline_ s' ≤ clock E n).
Proof.
  intros Hr Hn Hi. pose proof (reachable_running E HE _ _ Hr) as HR. cbv zeta.
  destruct (iteration_spec E HE w s s' HR Hn Hi) as (_ & Hfwd).
  split; [apply HR|]. split; [done|]. destruct w as [evs drains| |].
  - destruct (deadline_events evs drains s s' HR Hn Hi) as (? & ? & ? & ?). split_and!; auto.
  - rewrite loop_iteration_unfold in Hi. case_bool; [done|]. bool_facts. injection Hi as <-.
    destruct (deadline_begin s (proj2 HR)) as (? & ? & ? & ?); [done|]. split_and!; try done. intros _ _ (? & ? & ?). done.
  - rewrite loop_iteration_unfold in Hi. case_bool; [done|]. bool_facts. injection Hi as <-.
    destruct (deadline_wait_failed s (proj2 HR)) as (? & ? & ? & ?); [done|]. split_and!; try done. intros _ _ (? & ? & ?). done.
Qed.
End Theorems.

(** ** Witnesses *)

(** The AUTH worker of the sample has announced its response and waits again. *)
Definition rested_state : Server :=
  run_actions (H := sample_json) (replicate 2 (AWorker 1 sample_worker_env)) slow_state.

Lemma rested_state_reachable : reachable (H := sample_json) slow_gateway sample_setup rested_state.
Proof.
  unfold rested_state. cbn [replicate run_actions fold_left]. do 2 (apply reach_action; [|done]).
  apply slow_state_reachable.
Qed.

Definition eventfd_ready : ReadyEvent := mkReady 5 1 5 [] [] [].

Lemma work_completes_witness :
  length (data_queue_ (response_queue_ rested_state)) = 1%nat ∧ state_ rested_state = RUNNING ∧
  ∃ s', loop_iteration (H := sample_json) slow_gateway (WaitEvents [eventfd_ready] 5) rested_state = Some s' ∧ items s' = [] ∧
    (state_ s' ≠ STOPPED → ∀ fd c, connections_ s' !! fd = Some c →
       c_in_flight_work c = 0 ∧ admitted (c_conn_id c) (trace_ s') ≡ₚ answered (c_conn_id c) (trace_ s')).
Proof.
  split; [vm_compute; reflexivity|]. split; [vm_compute; reflexivity|].
  assert (Hst : state_ rested_state ≠ STOPPED) by (vm_compute; discriminate).
  apply (proj2 (proj2 (@work_completes sample_json slow_gateway slow_env_ok sample_setup rested_state
    rested_state_reachable Hst))).
  - vm_compute. reflexivity.
  - constructor; [|constructor]. intros _. left. vm_compute. reflexivity.
  - vm_compute. eexists. reflexivity.
  - vm_compute. lia.
  - vm_compute. reflexivity.
Defined.

(** Slow workers and a clock that jumps past the deadline after twenty answers
    of the environment: the server is draining and the AUTH task unanswered. *)
Definition late_gateway : Env :=
  mkEnv (λ n, if bool_decide (n < 20)%nat then Z.of_nat n * 1000 else 1000000000000) (λ _, true) (λ _, true) (λ _, []).

Lemma late_env_ok : env_ok late_gateway.
Proof. intros n. constructor. Qed.

Definition late_run (ws : list WaitAnswer) (s : Server) : Server :=
  default s (run_loop (H := sample_json) late_gateway ws s).

Definition late_draining : Server :=
  late_run [WaitIntr] (run_action (H := sample_json) AStopRequest (late_run (take 2 sample_script) sample_start)).

Lemma late_run_reachable ws s :
  reachable (H := sample_json) late_gateway sample_setup s →
  next_conn_id_ s + zlen (gather (λ w, replicate (Z.to_nat (wait_accepts w)) tt) ws) < 2 ^ 64 →
  reachable (H := sample_json) late_gateway sample_setup (late_run ws s).
Proof.
  intros Hr Hn. unfold late_run. destruct (run_loop late_gateway ws s) as [s'|] eqn:Hs; [|done].
  by eapply (run_loop_reachable (H := sample_json) late_gateway sample_setup ws s); [apply late_env_ok|..].
Qed.

Lemma late_draining_reachable : reachable (H := sample_json) late_gateway sample_setup late_draining.
Proof.
  apply late_run_reachable; [apply reach_action; [|done]; apply late_run_reachable|]; [|vm_compute; done..].
  apply reach_start; [by split_and!|]. eexists. split; reflexivity.
Qed.

Lemma life_cycle_witness :
  let s := late_draining in
  let s' := late_run [WaitEvents [] 5] s in
  state_ s = DRAINING ∧ map rq_type (map at_request (data_queue_ (auth_queue_ s))) = [AUTH] ∧
  state_ s' = STOPPED ∧ quiesced late_gateway s ∧ connections_ s' ≠ ∅.
Proof.
  assert (Hs : state_ late_draining = DRAINING) by (vm_compute; reflexivity).
  destruct (@life_cycle sample_json late_gateway late_env_ok sample_setup (WaitEvents [] 5) late_draining
    (late_run [WaitEvents [] 5] late_draining) late_draining_reachable) as (Hq & _ & _ & _ & Hstop & _).
  - vm_compute. reflexivity.
  - unfold late_run. vm_compute. reflexivity.
  - cbv zeta. split; [exact Hs|]. split; [vm_compute; reflexivity|]. split; [|split].
    + apply Hstop; [exact Hs| |eauto]. intros n [Hn _].
      assert (H20 : k_ticks late_draining = 20%nat) by (vm_compute; reflexivity). rewrite H20 in Hn.
      assert (Hd : shutdown_deadline_ late_draining = 5000014000) by (vm_compute; reflexivity). rewrite Hd.
      unfold late_gateway. cbn [clock]. rewrite bool_decide_eq_false_2 by lia. lia.
    + apply Hq. by rewrite Hs.
    + vm_compute. discriminate.
Defined.
