(* ===== verification/Metrics.v ===== *)
(** * The gauges and counters of a running gateway

    In every reachable state the counters are within their 64 bits, the number
    of active connections is the number of connections, the number of AUTH
    checks in flight is the number of workers that are at one, and the queue
    gauges are within the capacities.  The STATS report of a running server is
    a JSON object in which every member has the value its counter or gauge had
    when the handler read it; the reads are not one snapshot, since the other
    threads run between them. *)

From S2P Require Import Prelude Json Protocol BlockQueue Notifier ControlTypes Stats RuntimeConfig.
From S2P Require Import Logger Handlers Server Invariant Threads Reactor System Conservation.
#[local] Open Scope Z_scope.

Create HintDb metrics.

(** ** Counters *)

Definition counters (s : StatsManager) : list Z :=
  [total_requests_ s; total_log_messages_ s; total_errors_ s; total_bytes_read s; total_bytes_sent s;
   request_queue_rejected_ s; response_queue_rejected_ s; response_queue_rejected_normal_ s;
   response_queue_rejected_auth_ s; slow_client_closed_ s; stale_response_dropped_ s; auth_success_ s;
   auth_failure_ s; auth_queue_rejected_ s; auth_tasks_cancelled_before_start_ s; auth_allowed_ s;
   auth_denied_ s; auth_unavailable_ s; auth_duration_count_ s; auth_duration_total_us_ s].

Definition in_word (z : Z) : Prop := 0 ≤ z ≤ UINT64_MAX.
Definition counters_ok (s : StatsManager) : Prop := Forall in_word (counters s).

(** An operation that keeps the counters in range and does not touch the
    number of active connections. *)
Definition quiet (f : StatsManager → StatsManager) : Prop :=
  ∀ s, counters_ok s → counters_ok (f s) ∧ active_connections (f s) = active_connections s.

Lemma in_word_u64 z : in_word (u64 z).
Proof. unfold in_word, UINT64_MAX. pose proof (u64_range z). lia. Qed.

Ltac quiet_op :=
  intros s Hs; split; [|done]; unfold counters_ok, counters in *; simpl;
  repeat match type of Hs with Forall _ (_ :: _) => apply Forall_cons in Hs as [? Hs] end;
  repeat apply Forall_cons_2; try apply Forall_nil_2; try apply in_word_u64; assumption.

Lemma quiet_requests : quiet incrementRequests. Proof. quiet_op. Qed.
Lemma quiet_logs : quiet incrementLogMessages. Proof. quiet_op. Qed.
Lemma quiet_errors : quiet incrementErrors. Proof. quiet_op. Qed.
Lemma quiet_read n : quiet (incrementReadBytes n). Proof. quiet_op. Qed.
Lemma quiet_write n : quiet (incrementWriteBytes n). Proof. quiet_op. Qed.
Lemma quiet_request_rejected : quiet incrementRequestQueueRejected. Proof. quiet_op. Qed.
Lemma quiet_rejected_normal : quiet incrementResponseQueueRejectedNormal. Proof. quiet_op. Qed.
Lemma quiet_rejected_auth : quiet incrementResponseQueueRejectedAuth. Proof. quiet_op. Qed.
Lemma quiet_slow : quiet incrementSlowClientClosed. Proof. quiet_op. Qed.
Lemma quiet_stale : quiet incrementStaleResponseDropped. Proof. quiet_op. Qed.
Lemma quiet_success : quiet incrementAuthSuccess. Proof. quiet_op. Qed.
Lemma quiet_failure : quiet incrementAuthFailure. Proof. quiet_op. Qed.
Lemma quiet_auth_rejected : quiet incrementAuthQueueRejected. Proof. quiet_op. Qed.
Lemma quiet_cancelled : quiet incrementAuthTaskCancelledBeforeStart. Proof. quiet_op. Qed.
Lemma quiet_auth_result o us : quiet (recordAuthResult o us). Proof. destruct o; quiet_op. Qed.

#[export] Hint Resolve quiet_requests quiet_logs quiet_errors quiet_read quiet_write quiet_request_rejected
  quiet_rejected_normal quiet_rejected_auth quiet_slow quiet_stale quiet_success quiet_failure
  quiet_auth_rejected quiet_cancelled quiet_auth_result : metrics.

(** The handlers only make quiet calls. *)
Definition quiet_change (h h' : HState) : Prop :=
  counters_ok (hs_stats h) →
  counters_ok (hs_stats h') ∧ active_connections (hs_stats h') = active_connections (hs_stats h).

#[export] Instance quiet_change_preorder : PreOrder quiet_change.
Proof.
  split; [by intros h Hc|]. intros h1 h2 h3 H1 H2 Hc. destruct (H1 Hc) as [Hc2 E2]. destruct (H2 Hc2). split; congruence.
Qed.

Lemma quiet_with_stats f h : quiet f → quiet_change h (with_stats f h).
Proof. intros Hf Hc. by apply Hf. Qed.

Lemma quiet_log log h : quiet_change h (mkHState (hs_stats h) log).
Proof. by intros Hc. Qed.
#[export] Hint Resolve quiet_with_stats quiet_log : metrics.

Lemma handleLogPush_quiet `{JsonLib} env r h : quiet_change h (handleLogPush env r h).2.
Proof.
  unfold handleLogPush. repeat (case_bool; simpl; [by eauto with metrics|]).
  destruct (json_read _) as [j|[|]]; simpl; [|by eauto with metrics|done].
  case_bool; simpl; [by eauto with metrics|]. destruct (append _ _ _) as [[|] log]; simpl;
    (etransitivity; [apply (quiet_log log)|]; by eauto with metrics).
Qed.

Lemma dispatch_quiet `{JsonLib} env r h : quiet_change h (dispatch env r h).2.
Proof.
  unfold dispatch. assert (H0 : quiet_change h (with_stats incrementRequests h)) by eauto with metrics.
  destruct (rq_type r); simpl; try done; try (etransitivity; [exact H0|]; by eauto with metrics).
  etransitivity; [exact H0|]. apply handleLogPush_quiet.
Qed.

Lemma handleAuth_quiet `{JsonLib, ControlPlane} r not_after h : quiet_change h (handleAuth r not_after h).2.
Proof.
  unfold handleAuth. repeat (case_match; simpl); try done; eauto with metrics;
    (etransitivity; apply quiet_with_stats; eauto with metrics).
Qed.

(** ** The invariant *)

(** A worker that has counted itself in [auth_in_flight_] (the lifetime of the
    [AtomicCounterGuard] of [authWorkerLoop]). *)
Definition checking (w : Worker) : bool :=
  match w with
  | mkWorker AuthWorker (WAuth _ | WPush _ | WReject _ | WNotify | WLeave) => true
  | _ => false
  end.

Definition checks (ws : list Worker) : Z := zlen (filter (λ w, checking w = true) ws).

(** What a worker has read for a STATS request. *)
Definition reads_ok (r : Request) (loads : list (StatsLoad * Z)) : Prop :=
  rq_type r = STATS ∧ loads.*1 = take (length loads) stats_order ∧ Forall (λ lv, in_word lv.2) loads.

(** A normal worker holds no AUTH task, and an AUTH worker no other request. *)
Definition kind_ok (w : Worker) : Prop :=
  match w with
  | mkWorker NormalWorker (WCheck _ | WAuth _ | WLeave) | mkWorker AuthWorker (WNormal _ | WStats _ _) => False
  | mkWorker NormalWorker (WStats r loads) => reads_ok r loads
  | _ => True
  end.

Definition queue_tidy {T} (q : BlockQueue T) : Prop :=
  size q ≤ capacity q ∧ 0 ≤ peakSize q ≤ capacity q ∧ capacity q ≤ UINT64_MAX.

Definition conns (s : Server) : Z := Z.of_nat (base.size (connections_ s)).

Record Tidy (s : Server) : Prop := mkTidy {
  t_counters : counters_ok (hs_stats (hstate_ s));
  t_active : active_connections (hs_stats (hstate_ s)) = conns s;
  t_flight : auth_in_flight_ s = checks (workers_ s);
  t_kinds : Forall kind_ok (workers_ s);
  t_workers : zlen (workers_ s) < 2 ^ 32;
  t_next : 0 ≤ conns s < next_conn_id_ s;
  t_ids : next_conn_id_ s < 2 ^ 64;
  t_keyed : keyed s;
  t_open : ∀ fd c, connections_ s !! fd = Some c → fd ∈ k_open s;
  t_listen : listen_fd_ s ≠ -1 → listen_fd_ s ∈ k_open s ∧ connections_ s !! listen_fd_ s = None;
  t_queues : queue_tidy (request_queue_ s) ∧ queue_tidy (auth_queue_ s) ∧ queue_tidy (response_queue_ s);
}.

(** What the invariant looks at. *)
Definition tidy_view (s : Server) :=
  (hstate_ s, auth_in_flight_ s, workers_ s, connections_ s, next_conn_id_ s, k_open s, listen_fd_ s,
   request_queue_ s, auth_queue_ s, response_queue_ s).

Lemma tidy_same s s' : tidy_view s' = tidy_view s → Tidy s → Tidy s'.
Proof.
  intros Hv []. unfold tidy_view in Hv. injection Hv as E1 E2 E3 E4 E5 E6 E7 E8 E9 E10.
  constructor; unfold conns, keyed in *; rewrite ?E1, ?E2, ?E3, ?E4, ?E5, ?E6, ?E7, ?E8, ?E9, ?E10; done.
Qed.

Lemma tidy_hstate h s : quiet_change (hstate_ s) h → Tidy s → Tidy (set_hstate_ h s).
Proof. intros Hh []. destruct Hh as [Hc Ha]; [done|]. constructor; try done. simpl. by rewrite Ha. Qed.

Lemma tidy_stat f s : quiet f → Tidy s → Tidy (stat f s).
Proof. intros Hf. apply tidy_hstate. by apply quiet_with_stats. Qed.

(** ** Queues *)

Lemma push_tidy {T} (x : T) q : queue_tidy q → queue_tidy (push x q).2.
Proof.
  unfold queue_tidy, push, size, peakSize, capacity. intros (H1 & H2 & H3). pose proof (zlen_nonneg (data_queue_ q)).
  repeat case_bool; rewrite ?Z.geb_leb, ?Z.gtb_ltb in *; bool_facts; simpl; rewrite ?zlen_app, ?zlen_cons, ?zlen_nil in *;
    try case_bool; rewrite ?Z.gtb_ltb in *; bool_facts; lia.
Qed.

Lemma shrink_tidy {T} (q q' : BlockQueue T) :
  capacity_ q' = capacity_ q → peak_size_ q' = peak_size_ q → zlen (data_queue_ q') ≤ zlen (data_queue_ q) →
  queue_tidy q → queue_tidy q'.
Proof. unfold queue_tidy, size, peakSize, capacity. intros -> -> H (? & ? & ?). lia. Qed.

Lemma pop_tidy {T} (q : BlockQueue T) r q' : pop q = Some (r, q') → queue_tidy q → queue_tidy q'.
Proof.
  unfold pop. destruct (data_queue_ q) as [|x l] eqn:Ed; [case_bool; [|done]|];
    intros [= _ <-]; apply shrink_tidy; simpl; rewrite ?Ed; try done. rewrite zlen_cons. lia.
Qed.

Lemma tryPop_tidy {T} (q : BlockQueue T) : queue_tidy q → queue_tidy (tryPop q).2.
Proof.
  unfold tryPop. destruct (data_queue_ q) as [|x l] eqn:Ed; simpl; [done|].
  apply shrink_tidy; simpl; rewrite ?Ed; try done. rewrite zlen_cons. lia.
Qed.

Lemma stop_tidy {T} (q : BlockQueue T) : queue_tidy q → queue_tidy (stop q).
Proof. by apply shrink_tidy. Qed.

Lemma abort_tidy {T} (q : BlockQueue T) : queue_tidy q → queue_tidy (abort q).2.
Proof. apply shrink_tidy; try done. apply zlen_nonneg. Qed.
#[export] Hint Resolve push_tidy pop_tidy tryPop_tidy stop_tidy abort_tidy : metrics.

Lemma tidy_request_queue q s : queue_tidy q → Tidy s → Tidy (set_request_queue_ q s).
Proof. intros Hq []. constructor; try done. naive_solver. Qed.

Lemma tidy_auth_queue q s : queue_tidy q → Tidy s → Tidy (set_auth_queue_ q s).
Proof. intros Hq []. constructor; try done. naive_solver. Qed.

Lemma tidy_response_queue q s : queue_tidy q → Tidy s → Tidy (set_response_queue_ q s).
Proof. intros Hq []. constructor; try done. naive_solver. Qed.

(** ** The other threads *)

Definition b2z (b : bool) : Z := if b then 1 else 0.

Lemma checks_app l k : checks (l ++ k) = checks l + checks k.
Proof. unfold checks. by rewrite filter_app, zlen_app. Qed.

Lemma checks_cons w l : checks (w :: l) = b2z (checking w) + checks l.
Proof.
  unfold checks, b2z. rewrite filter_cons. case_decide as Hc; [rewrite Hc, zlen_cons; done|].
  by apply not_true_is_false in Hc as ->.
Qed.

Lemma checks_range ws : 0 ≤ checks ws ≤ zlen ws.
Proof.
  induction ws as [|w ws IH]; [done|]. rewrite checks_cons, zlen_cons. destruct (checking w); simpl; lia.
Qed.

(** A worker moves on; [n] is the new value of [auth_in_flight_]. *)
Lemma tidy_set_pc i kind pc pc' s s1 :
  workers_ s !! i = Some (mkWorker kind pc) → workers_ s1 = workers_ s → Tidy s →
  (Tidy (set_auth_in_flight_ (auth_in_flight_ s) s1)) → kind_ok (mkWorker kind pc') →
  auth_in_flight_ s1 = auth_in_flight_ s + b2z (checking (mkWorker kind pc')) - b2z (checking (mkWorker kind pc)) →
  Tidy (set_pc i pc' s1).
Proof.
  intros Hi Ew Ht Ht1 Hk Hf. destruct (set_pc_split i pc' s1 (mkWorker kind pc)) as (l1 & l2 & E1 & E2); [by rewrite Ew|].
  cbn [w_kind] in E2. destruct Ht1 as [T1 T2 T3 T4 T5 T6 T7 T8 T9 T10 T11]. pose proof (t_flight _ Ht) as Hfl.
  rewrite <- Ew, E1, checks_app, checks_cons in Hfl. simpl in T4, T5. rewrite E1 in T4, T5.
  apply Forall_app in T4 as [K1 [_ K2]%Forall_cons]. rewrite zlen_app, zlen_cons in T5.
  constructor; try done.
  - change (auth_in_flight_ (set_pc i pc' s1)) with (auth_in_flight_ s1). rewrite E2, checks_app, checks_cons. lia.
  - rewrite E2. apply Forall_app. split; [done|]. by constructor.
  - rewrite E2, zlen_app, zlen_cons. lia.
Qed.

(** A worker moves on without a change of [auth_in_flight_]. *)
Lemma tidy_move i kind pc pc' s s1 :
  workers_ s !! i = Some (mkWorker kind pc) → Tidy s → Tidy s1 → workers_ s1 = workers_ s →
  auth_in_flight_ s1 = auth_in_flight_ s → kind_ok (mkWorker kind pc') →
  checking (mkWorker kind pc') = checking (mkWorker kind pc) → Tidy (set_pc i pc' s1).
Proof.
  intros Hi Ht Ht1 Ew Ef Hk Hc. eapply tidy_set_pc; [done..| |done|rewrite Hc; lia].
  eapply tidy_same; [|exact Ht1]. unfold tidy_view. simpl. congruence.
Qed.

(** Every value that a STATS request reads is within 64 bits. *)
Definition words (s : Server) : Prop := ∀ load, in_word (load_value load s).

Lemma tidy_words s : Tidy s → words s.
Proof.
  intros Ht. pose proof (t_counters _ Ht) as Hc. pose proof (t_active _ Ht) as Ha.
  destruct (t_queues _ Ht) as ((A1 & A2 & A3) & (B1 & B2 & B3) & (C1 & C2 & C3)).
  pose proof (t_next _ Ht). pose proof (t_ids _ Ht). pose proof (t_workers _ Ht). pose proof (checks_range (workers_ s)).
  pose proof (t_flight _ Ht) as Hfl. unfold counters_ok, counters in Hc.
  repeat match type of Hc with Forall _ (_ :: _) => apply Forall_cons in Hc as [? Hc] end.
  assert (Hsz : ∀ T (q : BlockQueue T), 0 ≤ size q) by (intros; apply zlen_nonneg).
  pose proof (Hsz _ (request_queue_ s)). pose proof (Hsz _ (auth_queue_ s)). pose proof (Hsz _ (response_queue_ s)).
  intros load. destruct load as [| | | | | | | | | | | | | |member| | | |]; [..|destruct member|idtac|idtac|idtac|idtac];
    simpl; try assumption; unfold in_word, UINT64_MAX, getConnections, conns in *; lia.
Qed.

Section Threads.
Context `{JsonLib}.

Lemma tidy_worker_respond i r resp pc s h :
  workers_ s !! i = Some (mkWorker NormalWorker pc) → checking (mkWorker NormalWorker pc) = false →
  quiet_change (hstate_ s) h → Tidy s → Tidy (worker_respond i r resp (set_hstate_ h s)).
Proof.
  intros Hi Hk Hq Ht. destruct resp as [resp|]; simpl; (eapply tidy_move; [exact Hi|exact Ht| |done..]).
  - by apply tidy_hstate.
  - apply tidy_stat; [eauto with metrics|]. by apply tidy_hstate.
Qed.

Lemma tidy_worker_stats i env r loads kind s :
  workers_ s !! i = Some (mkWorker kind (WStats r loads)) → Tidy s → Tidy (worker_stats i env r loads s).
Proof.
  intros Hi Ht. pose proof (proj1 (Forall_lookup _ _) (t_kinds _ Ht) _ _ Hi) as Hk. destruct kind; [|done].
  destruct Hk as (Hty & Hl & Hv). unfold worker_stats. destruct (stats_order !! length loads) as [load|] eqn:El.
  - eapply tidy_move; [exact Hi|exact Ht|exact Ht|done..| |done]. split; [done|]. split.
    + rewrite fmap_app, Hl, length_app, Nat.add_1_r. by rewrite (take_S_r _ _ load).
    + apply Forall_app. split; [done|]. constructor; [|done]. by apply tidy_words.
  - replace s with (set_hstate_ (hstate_ s) s) at 1 by (by destruct s).
    by eapply tidy_worker_respond; [exact Hi|..].
Qed.

Lemma tidy_worker_dispatch i env r kind s :
  workers_ s !! i = Some (mkWorker kind (WNormal r)) → Tidy s → Tidy (worker_dispatch i env r s).
Proof.
  intros Hi Ht. pose proof (proj1 (Forall_lookup _ _) (t_kinds _ Ht) _ _ Hi) as Hk. destruct kind; [|done].
  unfold worker_dispatch. destruct (negb (we_throws env) && bool_decide (rq_type r = STATS)) eqn:Es.
  - bool_facts. eapply tidy_move; [exact Hi|exact Ht| |done..]. apply tidy_stat; [eauto with metrics|done].
  - set (p := if we_throws env then _ else _).
    assert (Hq : quiet_change (hstate_ s) p.2).
    { unfold p. case_bool; [done|]. apply dispatch_quiet. }
    destruct p as [resp h]. simpl in Hq. by eapply tidy_worker_respond; [exact Hi|..].
Qed.

Lemma tidy_worker_check i t kind s :
  workers_ s !! i = Some (mkWorker kind (WCheck t)) → Tidy s → Tidy (worker_check i t s).
Proof.
  intros Hi Ht. pose proof (proj1 (Forall_lookup _ _) (t_kinds _ Ht) _ _ Hi) as Hk. destruct kind; [done|].
  pose proof (t_workers _ Ht) as Hw. pose proof (checks_range (workers_ s)) as Hr. pose proof (t_flight _ Ht) as Hfl.
  unfold worker_check. case_bool.
  - eapply tidy_move; [exact Hi|exact Ht| |done..]. apply tidy_stat; [eauto with metrics|done].
  - eapply tidy_set_pc; [exact Hi|done|exact Ht| |done|].
    + apply (tidy_same (stat incrementRequests s)); [done|]. apply tidy_stat; [eauto with metrics|done].
    + simpl. unfold AtomicCounterGuard_enter. rewrite u64_small by lia. lia.
Qed.

Lemma tidy_worker_auth i env t kind s :
  workers_ s !! i = Some (mkWorker kind (WAuth t)) → Tidy s → Tidy (worker_auth i env t s).
Proof.
  intros Hi Ht. pose proof (proj1 (Forall_lookup _ _) (t_kinds _ Ht) _ _ Hi) as Hk. destruct kind; [done|].
  unfold worker_auth. case_bool.
  - eapply tidy_move; [exact Hi|exact Ht| |done..]. do 2 (apply tidy_stat; [eauto with metrics|]). done.
  - match goal with |- context [@handleAuth ?J ?C ?r ?n ?h] => pose proof (@handleAuth_quiet J C r n h) as Hq end.
    destruct (handleAuth _ _ _) as [handled h]. eapply tidy_move; [exact Hi|exact Ht| |done..].
    apply tidy_stat; [eauto with metrics|]. by apply tidy_hstate.
Qed.

Lemma tidy_worker_push i kind r s :
  workers_ s !! i = Some (mkWorker kind (WPush r)) → Tidy s → Tidy (worker_push i kind r s).
Proof.
  intros Hi Ht. unfold worker_push. pose proof (push_tidy r (response_queue_ s)) as Hp.
  destruct (t_queues _ Ht) as (_ & _ & Hq). specialize (Hp Hq). destruct (push r (response_queue_ s)) as [res q].
  simpl in Hp. pose proof (tidy_response_queue q s Hp Ht) as Ht1.
  destruct res, kind; (eapply tidy_move; [exact Hi|exact Ht| |done..]); try exact Ht1;
    do 2 (apply tidy_stat; [eauto with metrics|]); exact Ht1.
Qed.

Lemma tidy_worker_step i env s : Tidy s → Tidy (worker_step i env s).
Proof.
  intros Ht. unfold worker_step. destruct (workers_ s !! i) as [[kind pc]|] eqn:Hi; [|done].
  assert (Hmove : ∀ pc' s1, Tidy s1 → workers_ s1 = workers_ s → auth_in_flight_ s1 = auth_in_flight_ s →
    kind_ok (mkWorker kind pc') → checking (mkWorker kind pc') = checking (mkWorker kind pc) → Tidy (set_pc i pc' s1)).
  { intros. by eapply tidy_move. }
  destruct pc; try done.
  - unfold worker_pop. destruct kind.
    + destruct (pop (request_queue_ s)) as [[[r|] q]|] eqn:Ep; [|by apply Hmove|done].
      apply Hmove; try done. apply tidy_request_queue; [|done]. eapply pop_tidy; [done|apply (t_queues _ Ht)].
    + destruct (pop (auth_queue_ s)) as [[[t|] q]|] eqn:Ep; [|by apply Hmove|done].
      apply Hmove; try done. apply tidy_auth_queue; [|done]. eapply pop_tidy; [done|apply (t_queues _ Ht)].
  - by eapply tidy_worker_dispatch.
  - by eapply tidy_worker_stats.
  - by eapply tidy_worker_check.
  - by eapply tidy_worker_auth.
  - by apply tidy_worker_push.
  - apply Hmove; try done; [by apply (tidy_same s)|by destruct kind].
  - apply Hmove; try done; [by apply (tidy_same s)|by destruct kind..].
  - pose proof (proj1 (Forall_lookup _ _) (t_kinds _ Ht) _ _ Hi) as Hk. destruct kind; [done|].
    pose proof (t_workers _ Ht) as Hw. pose proof (checks_range (workers_ s)) as Hr. pose proof (t_flight _ Ht) as Hfl.
    eapply tidy_set_pc; [exact Hi|done|exact Ht|by apply (tidy_same s)|done|].
    assert (1 ≤ checks (workers_ s)).
    { apply list_elem_of_lookup_2, list_elem_of_split in Hi as (l1 & l2 & ->).
      rewrite checks_app, checks_cons. pose proof (checks_range l1). pose proof (checks_range l2). simpl. lia. }
    simpl. unfold AtomicCounterGuard_leave. rewrite u64_small by lia. lia.
  - unfold worker_exit. apply Hmove; try done; [by apply (tidy_same s)|case_bool; by destruct kind..].
  - apply Hmove; try done; [|by destruct kind..]. apply tidy_response_queue; [|done]. apply stop_tidy, (t_queues _ Ht).
  - apply Hmove; try done; [by apply (tidy_same s)|by destruct kind..].
Qed.

Lemma tidy_action a s : Tidy s → Tidy (run_action a s).
Proof.
  intros Ht. destruct a; simpl; try (by apply (tidy_same s)).
  - by apply tidy_worker_step.
  - unfold config_pull_begin. case_bool; [by apply (tidy_same s)|done].
  - unfold config_pull_end. repeat (case_match || case_bool); try done; by apply (tidy_same s).
Qed.

Lemma tidy_sync E s : Tidy s → Tidy (sync E s).
Proof.
  intros Ht. unfold sync. apply (tidy_same (run_actions (sched E (k_ticks s)) s)); [done|].
  generalize (sched E (k_ticks s)). intros l. unfold run_actions. revert s Ht.
  induction l as [|a l IH]; intros s Ht; [done|]. simpl. apply IH. by apply tidy_action.
Qed.
End Threads.

(** ** The reactor *)

Section Reactor.
Context `{JsonLib} (E : Env).

Ltac same s := apply (tidy_same s); [done|].

(** Replacing a connection by one with the same descriptor. *)
Lemma tidy_put c c0 s : connections_ s !! c_fd c = Some c0 → Tidy s → Tidy (put_connection c s).
Proof.
  intros Hc []. assert (Hs : conns (put_connection c s) = conns s).
  { unfold conns, put_connection. simpl. by rewrite map_size_insert_Some by eauto. }
  constructor; rewrite ?Hs; try done; unfold put_connection, keyed; simpl.
  - intros fd d [[<- <-]|[_ Hd]]%lookup_insert_Some; [done|by apply t_keyed0].
  - intros fd d [[<- <-]|[_ Hd]]%lookup_insert_Some; [by eapply t_open0|by eapply t_open0].
  - intros Hl. destruct (t_listen0 Hl) as [Ho Hn]. split; [done|]. rewrite lookup_insert_ne by congruence. done.
Qed.

Lemma tidy_close fd s : Tidy s → Tidy (closeConnection E fd s).
Proof.
  intros Ht. unfold closeConnection. destruct (connections_ s !! fd) as [c|] eqn:Hc; [|done].
  apply (tidy_sync E) in Ht. sync_view E s s1. rewrite <- Vconn in Hc. destruct Ht.
  assert (Hsz : conns s1 = 1 + Z.of_nat (base.size (delete fd (connections_ s1)))).
  { unfold conns. rewrite <- (insert_id (connections_ s1) fd c Hc), <- insert_delete_eq at 1.
    rewrite map_size_insert_None by apply lookup_delete_eq. lia. }
  assert (Hfin : ∀ s2, hstate_ s2 = with_stats decrementConnections (hstate_ s1) → auth_in_flight_ s2 = auth_in_flight_ s1 →
    workers_ s2 = workers_ s1 → next_conn_id_ s2 = next_conn_id_ s1 → connections_ s2 = delete fd (connections_ s1) →
    k_open s2 = k_open s1 ∖ {[fd]} → listen_fd_ s2 = listen_fd_ s1 → request_queue_ s2 = request_queue_ s1 →
    auth_queue_ s2 = auth_queue_ s1 → response_queue_ s2 = response_queue_ s1 → Tidy s2).
  { intros s2 E1 E2 E3 E4 E5 E6 E7 E8 E9 E10. unfold conns in *.
    assert (Ed : decrementConnections (hs_stats (hstate_ s1)) = set_active_connections (active_connections (hs_stats (hstate_ s1)) - 1) (hs_stats (hstate_ s1))).
    { unfold decrementConnections. rewrite Z.gtb_ltb, (proj2 (Z.ltb_lt _ _)) by lia. done. }
    constructor; unfold conns, keyed; rewrite ?E1, ?E2, ?E3, ?E4, ?E5, ?E6, ?E7, ?E8, ?E9, ?E10; try done; simpl; rewrite ?Ed; simpl.
    - exact t_counters0.
    - lia.
    - lia.
    - intros x d [_ Hd]%lookup_delete_Some. by apply t_keyed0.
    - intros x d [Hne Hd]%lookup_delete_Some. rewrite elem_of_difference, elem_of_singleton. split; [by eapply t_open0|done].
    - intros Hl. destruct (t_listen0 Hl) as [Ho Hn]. rewrite elem_of_difference, elem_of_singleton.
      split; [split; [done|congruence]|]. rewrite lookup_delete_ne by congruence. done. }
  destruct (c_auth_cancellation c); simpl; repeat (case_bool; simpl); by apply Hfin.
Qed.

Lemma tidy_modify fd events s : Tidy s → Tidy (modifyConnectionEvents E fd events s).2.
Proof.
  intros Ht. unfold modifyConnectionEvents. case_bool; simpl; [by apply (tidy_same s)|].
  apply tidy_close. by apply (tidy_same s).
Qed.

Lemma tidy_maybeClose fd s : Tidy s → Tidy (maybeCloseAfterDrain E fd s).
Proof. intros Ht. unfold maybeCloseAfterDrain. repeat case_match; try done. by apply tidy_close. Qed.

Lemma tidy_markReadEof fd s : Tidy s → Tidy (markReadEof E fd s).
Proof.
  intros Ht. unfold markReadEof. destruct (connections_ s !! fd) as [c|] eqn:Hc; [|done].
  case_bool; [by apply tidy_maybeClose|]. pose proof (t_keyed _ Ht fd c Hc) as Hk.
  assert (Ht1 : Tidy (put_connection (set_c_read_eof true c) s)) by (eapply tidy_put; [|done]; simpl; by rewrite Hk).
  case_bool; [by apply tidy_close|by apply tidy_modify].
Qed.

Lemma tidy_output_drained fd c s : Tidy s → Tidy (output_drained E fd c s).
Proof. intros Ht. unfold output_drained. case_bool; [by apply tidy_close|by apply tidy_modify]. Qed.

(** Responses. *)
Lemma tidy_snapshot s config s' : getRuntimeConfigSnapshot E s = (config, s') → Tidy s → Tidy s'.
Proof. intros [= _ <-]. apply tidy_sync. Qed.

Lemma tidy_apply_authentication config r c s r' c' s' :
  apply_authentication config r c s = (r', c', s') → Tidy s → Tidy s' ∧ c_fd c' = c_fd c ∧ connections_ s' = connections_ s.
Proof.
  intros Ha Ht. unfold apply_authentication in Ha. repeat (case_match || case_bool); injection Ha as <- <- <-;
    (split; [|done]); repeat (apply tidy_stat; [eauto with metrics|]); try done.
  apply (tidy_same (stat incrementAuthSuccess s)); [done|]. apply tidy_stat; [eauto with metrics|done].
Qed.

Lemma tidy_apply_output config r c c0 s :
  connections_ s !! c_fd c = Some c0 → Tidy s → Tidy (apply_output E config r c s).
Proof.
  intros Hc Ht. unfold apply_output. case_bool.
  - apply tidy_close. do 2 (apply tidy_stat; [eauto with metrics|]). done.
  - cbv zeta. apply tidy_modify. match goal with |- Tidy (emit ?e ?s1) => apply (tidy_same s1); [done|] end.
    eapply tidy_put; [|done]. simpl. case_bool; exact Hc.
Qed.

Lemma tidy_applyResponse r origin s : Tidy s → Tidy (applyResponse E r origin s).
Proof.
  intros Ht. unfold applyResponse. destruct (getRuntimeConfigSnapshot E s) as [config s1] eqn:Es.
  apply tidy_snapshot in Es; [|done]. clear Ht. destruct (connections_ s1 !! rs_fd r) as [c|] eqn:Hc;
    [|apply tidy_stat; [eauto with metrics|done]].
  case_bool; [apply tidy_stat; [eauto with metrics|done]|]. pose proof (t_keyed _ Es _ _ Hc) as Hk.
  match goal with |- context [let '(_, _) := ?x in _] => destruct x as [c1 s2] eqn:E1 end.
  assert (H1 : Tidy s2 ∧ c_fd c1 = c_fd c ∧ connections_ s2 = connections_ s1).
  { destruct origin; [|case_bool]; injection E1 as <- <-; (split; [|done]); by apply (tidy_same s1). }
  destruct H1 as (Ht2 & Ef & Em). set (c2 := if _ || _ then _ else c1).
  assert (Ef2 : c_fd c2 = c_fd c) by (subst c2; case_bool; done). clearbody c2.
  destruct (apply_authentication config r c2 s2) as [[r3 c3] s3] eqn:E3.
  destruct (tidy_apply_authentication _ _ _ _ _ _ _ E3 Ht2) as (Ht3 & Ef3 & Em3).
  assert (Hl : connections_ s3 !! c_fd c3 = Some c) by (rewrite Em3, Em, Ef3, Ef2, Hk; done).
  pose proof (tidy_put c3 c s3 Hl Ht3) as Ht4. case_bool; [by apply tidy_close|].
  eapply tidy_apply_output; [|done]. unfold put_connection. simpl. by rewrite lookup_insert_eq.
Qed.

Lemma tidy_drainResponseQueue fuel s s' : Tidy s → drainResponseQueue E fuel s = Some s' → Tidy s'.
Proof.
  revert s. induction fuel as [|fuel IH]; intros s Ht; [done|]. cbn [drainResponseQueue]. cbv zeta.
  apply (tidy_sync E) in Ht. set (s1 := sync E s) in *. clearbody s1.
  pose proof (tryPop_tidy (response_queue_ s1) ltac:(apply (t_queues _ Ht))) as Hq.
  destruct (tryPop (response_queue_ s1)) as [[r|] q]; simpl in Hq; [|intros [= <-]; by apply tidy_response_queue].
  apply IH, tidy_applyResponse. by apply tidy_response_queue.
Qed.

Lemma tidy_fold {A} (f : Server → A → Server) l s :
  (∀ s a, Tidy s → Tidy (f s a)) → Tidy s → Tidy (fold_left f l s).
Proof. intros Hf. revert s. induction l as [|a l IH]; intros s Ht; simpl; auto. Qed.

Lemma tidy_drainRejected s : Tidy s → Tidy (drainRejectedResponses E s).
Proof.
  intros Ht%(tidy_sync E). unfold drainRejectedResponses. apply tidy_fold.
  - intros s1 key H1. unfold close_rejected. repeat case_match; try done. by apply tidy_close.
  - by apply (tidy_same (sync E s)).
Qed.

(** Requests. *)
Lemma tidy_classify config decoded b s b' s' :
  classify E config decoded b s = (b', s') → Tidy s →
  Tidy s' ∧ c_fd (b_conn b') = c_fd (b_conn b) ∧ connections_ s' = connections_ s.
Proof.
  revert b s. induction decoded as [|r decoded IH]; intros b s; cbn [classify]; cbv zeta.
  { intros [= <- <-] Ht. done. }
  case_bool; [intros [= <- <-] Ht; split; [apply tidy_stat; [eauto with metrics|done]|done]|].
  case_bool.
  - case_bool; [intros [= <- <-] Ht; split; [apply tidy_stat; [eauto with metrics|done]|done]|].
    destruct (makeAuthTask _ _) as [task|].
    + intros Hc Ht. apply IH in Hc; [exact Hc|]. by apply (tidy_same s).
    + intros [= <- <-] Ht. split; [|done]. apply tidy_stat; [eauto with metrics|]. by apply (tidy_same s).
  - case_bool; [intros Hc Ht; by apply IH in Hc|]. destruct (allowRequestForClient _ _ _ _) as [allowed s1] eqn:Ea.
    assert (Hv : tidy_view s1 = tidy_view s).
    { unfold allowRequestForClient, now in Ea. repeat case_bool; by injection Ea as _ <-. }
    assert (Hm : connections_ s1 = connections_ s) by (unfold tidy_view in Hv; congruence).
    case_bool; intros Hc Ht; (apply IH in Hc as (H1 & H2 & H3); [split_and!; [done|done|simpl in H3; congruence]|]).
    + by apply (tidy_same s).
    + apply tidy_stat; [eauto with metrics|]. by apply (tidy_same s).
Qed.

Lemma tidy_count_in_flight key s : Tidy s → Tidy (count_in_flight key s).
Proof.
  intros Ht. unfold count_in_flight. destruct (connections_ s !! key.1) as [c|] eqn:Hc; [|done]. case_bool; [|done].
  eapply tidy_put; [|done]. simpl. by rewrite (t_keyed _ Ht _ _ Hc).
Qed.

Lemma tidy_enqueue_auth ts local s : Tidy s → Tidy (enqueue_auth E ts local s).2.
Proof.
  revert local s. induction ts as [|t ts IH]; intros local s Ht; [done|]. cbn [enqueue_auth]. cbv zeta.
  apply (tidy_sync E) in Ht. set (s1 := sync E s) in *. clearbody s1.
  pose proof (push_tidy t (auth_queue_ s1) ltac:(apply (t_queues _ Ht))) as Hq.
  destruct (push t (auth_queue_ s1)) as [res q]. simpl in Hq. pose proof (tidy_auth_queue q s1 Hq Ht) as Ht1.
  destruct res; apply IH; [|repeat (apply tidy_stat; [eauto with metrics|]); done..].
  apply tidy_count_in_flight. by apply (tidy_same (set_auth_queue_ q s1)).
Qed.

Lemma tidy_enqueue_requests rs local s : Tidy s → Tidy (enqueue_requests E rs local s).2.
Proof.
  revert local s. induction rs as [|r rs IH]; intros local s Ht; [done|]. cbn [enqueue_requests]. cbv zeta.
  apply (tidy_sync E) in Ht. set (s1 := sync E s) in *. clearbody s1.
  pose proof (push_tidy r (request_queue_ s1) ltac:(apply (t_queues _ Ht))) as Hq.
  destruct (push r (request_queue_ s1)) as [res q]. simpl in Hq. pose proof (tidy_request_queue q s1 Hq Ht) as Ht1.
  destruct res; apply IH; [|repeat (apply tidy_stat; [eauto with metrics|]); done..].
  apply tidy_count_in_flight. by apply (tidy_same (set_request_queue_ q s1)).
Qed.

Lemma tidy_decodeAndEnqueue fd eof s : Tidy s → Tidy (decodeAndEnqueue E fd eof s).2.
Proof.
  intros Ht. unfold decodeAndEnqueue. destruct (getRuntimeConfigSnapshot E s) as [config s1] eqn:Es.
  apply tidy_snapshot in Es; [|done]. clear Ht. destruct (connections_ s1 !! fd) as [c|] eqn:Hc; [|done].
  destruct (decode _ _ _ _ _) as [[status input] decoded]. cbv zeta.
  set (s2 := if bool_decide (status = INVALID_LENGTH) then _ else s1).
  assert (Ht2 : Tidy s2 ∧ connections_ s2 = connections_ s1).
  { subst s2. case_bool; (split; [|done]); [apply tidy_stat; [eauto with metrics|done]|done]. }
  clearbody s2. destruct Ht2 as [Ht2 Em].
  match goal with |- context [classify E config decoded ?b s2] => destruct (classify E config decoded b s2) as [b' s3] eqn:E3 end.
  apply tidy_classify in E3 as (Ht3 & Ef & Em3); [|done]. simpl in Ef.
  assert (Ht4 : Tidy (put_connection (b_conn b') s3)).
  { eapply tidy_put; [|done]. rewrite Ef, Em3, Em, (t_keyed _ Es _ _ Hc). exact Hc. }
  case_bool; [by apply tidy_close|].
  pose proof (tidy_enqueue_auth (b_auth_tasks b') (b_local b') _ Ht4) as Ht5.
  destruct (enqueue_auth _ _ _ _) as [local s5]. simpl in Ht5.
  pose proof (tidy_enqueue_requests (b_requests b') local _ Ht5) as Ht6.
  destruct (enqueue_requests _ _ _ _) as [local' s6]. simpl in Ht6 |- *.
  apply tidy_fold; [|done]. intros. by apply tidy_applyResponse.
Qed.

(** Socket I/O. *)
Lemma tidy_handleRead fd script s s' : Tidy s → handleRead E fd script s = Some s' → Tidy s'.
Proof.
  revert s. induction script as [|a script IH]; intros s Ht; cbn [handleRead];
    (case_bool; [by intros [= <-]|]); destruct (connections_ s !! fd) as [c|] eqn:Hc; try (by intros [= <-]);
    (case_bool; [by intros [= <-]|]); [done|].
  destruct a as [b| | | |].
  - case_bool; [done|]. set (s1 := emit _ _).
    assert (Ht1 : Tidy s1).
    { subst s1. match goal with |- Tidy (emit ?e ?x) => apply (tidy_same x); [done|] end.
      apply tidy_stat; [eauto with metrics|]. eapply tidy_put; [|done]. simpl. by rewrite (t_keyed _ Ht _ _ Hc). }
    clearbody s1. pose proof (tidy_decodeAndEnqueue fd false s1 Ht1) as Ht2.
    destruct (decodeAndEnqueue E fd false s1) as [[|] s2]; simpl in Ht2; [by apply IH|by intros [= <-]].
  - intros [= <-]. by apply tidy_markReadEof, tidy_decodeAndEnqueue.
  - by apply IH.
  - intros [= <-]. by apply tidy_decodeAndEnqueue.
  - intros [= <-]. by apply tidy_close.
Qed.

Lemma tidy_handleWrite fd script s s' : Tidy s → handleWrite E fd script s = Some s' → Tidy s'.
Proof.
  revert s. induction script as [|a script IH]; intros s Ht; cbn [handleWrite];
    destruct (connections_ s !! fd) as [c|] eqn:Hc; try (by intros [= <-]);
    (case_bool; [intros [= <-]; by apply tidy_output_drained|]); [done|].
  destruct a as [n| | |]; [|by apply IH|by intros [= <-]|intros [= <-]; by apply tidy_close].
  case_bool; [done|]. cbv zeta. set (s1 := emit _ _).
  assert (Ht1 : Tidy s1 ∧ connections_ s1 = connections_ s).
  { subst s1. split; [|done]. match goal with |- Tidy (emit ?e ?x) => apply (tidy_same x); [done|] end.
    apply tidy_stat; [eauto with metrics|done]. }
  clearbody s1. destruct Ht1 as [Ht1 Em]. pose proof (t_keyed _ Ht _ _ Hc) as Hk. rewrite <- Em, <- Hk in Hc.
  case_bool.
  - intros [= <-]. apply tidy_output_drained. by eapply tidy_put.
  - apply IH. by eapply tidy_put.
Qed.

Lemma tidy_handleAccept script s s' :
  Tidy s → next_conn_id_ s + zlen script < 2 ^ 64 → handleAccept E script s = Some s' → Tidy s'.
Proof.
  revert s. induction script as [|a script IH]; intros s Ht Hn; cbn [handleAccept]; (case_bool; [by intros [= <-]|]); [done|].
  rewrite zlen_cons in Hn. pose proof (zlen_nonneg script).
  destruct a as [fd| | |]; [|intros Hr; apply (IH s); [done|lia|done]|by intros [= <-]..].
  destruct ((fd <? 0) || bool_decide (fd ∈ k_open s)) eqn:Ef; [done|]. bool_facts. cbv zeta.
  pose proof (t_next _ Ht) as Hnx. rewrite u64_small by lia. case_bool.
  { intros Hr. eapply IH; [| |exact Hr]; [|simpl; lia]. destruct Ht. constructor; try done; simpl; [|lia].
    change (conns _) with (conns s). lia. }
  assert (Hnone : connections_ s !! fd = None).
  { destruct (connections_ s !! fd) as [c|] eqn:Hc; [|done]. by apply (t_open _ Ht) in Hc. }
  unfold emplace_connection. simpl (connections_ _). simpl (c_fd _). rewrite Hnone.
  intros Hr. eapply IH; [| |exact Hr]; [|simpl; lia]. destruct Ht.
  assert (Hsz : ∀ s2, connections_ s2 = <[fd := newConnection fd (next_conn_id_ s)]> (connections_ s) → conns s2 = conns s + 1).
  { intros s2 E2. unfold conns. rewrite E2, map_size_insert_None by done. lia. }
  constructor; rewrite ?Hsz by done; try done; simpl.
  - rewrite t_active0, u64_small by lia. done.
  - lia.
  - lia.
  - unfold keyed. simpl. intros x c [[<- <-]|[_ Hc]]%lookup_insert_Some; [done|by apply t_keyed0].
  - intros x c [[<- <-]|[_ Hc]]%lookup_insert_Some; [set_solver|]. apply t_open0 in Hc. set_solver.
  - intros Hl. destruct (t_listen0 Hl) as [Ho Hnl]. split; [set_solver|]. rewrite lookup_insert_ne by congruence. done.
Qed.

(** Draining. *)
Lemma tidy_closeListener s : Tidy s → Tidy (closeListener s).
Proof.
  intros Ht. unfold closeListener. case_bool; [done|]. bool_facts. destruct Ht.
  destruct (t_listen0 ltac:(done)) as [Ho Hn].
  case_bool; (constructor; try done; simpl; intros fd c Hc; assert (fd ≠ listen_fd_ s) by congruence;
    apply t_open0 in Hc; set_solver).
Qed.

Lemma tidy_beginDraining s : Tidy s → Tidy (beginDraining E s).
Proof.
  intros Ht. unfold beginDraining, now. case_bool; [done|]. cbv zeta. apply tidy_fold.
  { intros s1 [fd events] H1. unfold update_events. by apply tidy_modify. }
  apply (tidy_sync E) in Ht. apply tidy_auth_queue.
  - apply stop_tidy. apply t_queues, tidy_sync, tidy_request_queue; [apply stop_tidy, t_queues|]; apply tidy_sync, tidy_closeListener;
      unfold markNotReady; case_bool; by apply (tidy_same (sync E s)).
  - apply tidy_sync, tidy_request_queue; [apply stop_tidy, t_queues|]; apply tidy_sync, tidy_closeListener;
      unfold markNotReady; case_bool; by apply (tidy_same (sync E s)).
Qed.

Lemma tidy_all_hold checks s : Tidy s → Tidy (all_hold E checks s).2.
Proof.
  revert s. induction checks as [|f l IH]; intros s Ht; [done|]. simpl. apply (tidy_sync E) in Ht. case_bool; auto.
Qed.

Lemma tidy_drainComplete s : Tidy s → Tidy (drainComplete E s).2.
Proof.
  intros Ht. unfold drainComplete. pose proof (tidy_all_hold queues_drained s Ht) as H1.
  destruct (all_hold E queues_drained s) as [b s1]. simpl in H1. case_bool; simpl; [done|].
  apply tidy_fold; [|done]. intros. by apply tidy_close.
Qed.

Lemma tidy_finish_draining s : Tidy s → Tidy (finish_draining E s).
Proof.
  intros Ht. unfold finish_draining, now. case_bool; [|done]. pose proof (tidy_drainComplete s Ht) as H1.
  destruct (drainComplete E s) as [[|] s1]; simpl in H1; [by apply (tidy_same s1)|]. cbv zeta.
  assert (H2 : Tidy (tick s1)) by (by apply (tidy_same s1)). case_bool; [|done].
  apply (tidy_sync E) in H2. pose proof (tidy_request_queue _ _ (abort_tidy _ (proj1 (t_queues _ H2))) H2) as H3.
  apply (tidy_sync E) in H3. pose proof (tidy_auth_queue _ _ (abort_tidy _ (proj1 (proj2 (t_queues _ H3)))) H3) as H4.
  apply (tidy_sync E) in H4. pose proof (tidy_response_queue _ _ (abort_tidy _ (proj2 (proj2 (t_queues _ H4)))) H4) as H5.
  by eapply tidy_same; [|exact H5].
Qed.

Lemma tidy_reactor_consume fuel s s' : Tidy s → reactor_consume E fuel s = Some s' → Tidy s'.
Proof.
  revert s. induction fuel as [|fuel IH]; intros s Ht; cbn [reactor_consume]; (case_bool; [by intros [= <-]|]); [done|].
  cbv zeta. apply (tidy_sync E) in Ht. set (s1 := sync E s) in *. clearbody s1.
  destruct (eventfd_read _) as [[] c]; try (by intros [= <-]). apply IH. by apply (tidy_same s1).
Qed.

Lemma tidy_handleEvent ev s s' :
  Tidy s → next_conn_id_ s + zlen (ev_accept ev) < 2 ^ 64 → handleEvent E ev s = Some s' → Tidy s'.
Proof.
  intros Ht Hn. unfold handleEvent. cbv zeta. case_bool; [by apply tidy_reactor_consume|].
  case_bool; [case_bool; [by apply tidy_handleAccept|by intros [= <-]]|].
  case_bool; [intros [= <-]; by apply tidy_close|]. intros (s1 & H1 & H2)%bind_Some.
  assert (Ht1 : Tidy s1) by (destruct (_ && _); [by eapply tidy_handleRead|by injection H1 as <-]).
  destruct (connections_ s1 !! ev_fd ev); [|by injection H2 as <-]. set (s2 := if has_flag _ _ then _ else s1) in H2.
  assert (Ht2 : Tidy s2) by (unfold s2; case_bool; [by apply tidy_markReadEof|done]). clearbody s2.
  destruct (has_flag _ EPOLLOUT); [by eapply tidy_handleWrite|by injection H2 as <-].
Qed.

Lemma tidy_handleEvents evs s s' :
  Settled s → Tidy s → next_conn_id_ s + accepts evs < 2 ^ 64 → handleEvents E evs s = Some s' → Tidy s'.
Proof.
  unfold accepts. revert s. induction evs as [|ev evs IH]; intros s HF Ht Hn.
  { by intros [= <-]. }
  rewrite gather_cons, zlen_app in Hn. pose proof (zlen_nonneg (gather ev_accept evs)).
  intros (s1 & H1 & H2)%bind_Some. destruct (handleEvent_flow E ev s s1 HF ltac:(lia) H1).
  apply (IH s1); [done| |lia|done]. eapply tidy_handleEvent; [done| |done]. lia.
Qed.

Lemma tidy_loop_iteration w s s' :
  Settled s → Tidy s → next_conn_id_ s + wait_accepts w < 2 ^ 64 → loop_iteration E w s = Some s' → Tidy s'.
Proof.
  intros HF Ht Hn. rewrite loop_iteration_unfold. case_bool; [done|]. cbv zeta.
  destruct (carries_settled _ _ (begin_iteration_carries E s) HF) as [HF1 En].
  assert (Ht1 : Tidy (begin_iteration E s)).
  { unfold begin_iteration, epollTimeoutMs, now. apply (tidy_sync E) in Ht. cbv zeta.
    repeat (case_bool; simpl); apply tidy_sync; try (match goal with |- Tidy (tick ?x) => apply (tidy_same x); [done|] end);
      by try apply tidy_beginDraining. }
  set (s1 := begin_iteration E s) in *. clearbody s1. destruct w as [evs drains| |]; cbn [wait_accepts] in Hn.
  - intros (s2 & H2 & (s3 & H3 & [= <-])%bind_Some)%bind_Some. apply tidy_finish_draining, tidy_drainRejected.
    eapply tidy_drainResponseQueue; [|exact H3]. eapply tidy_handleEvents; [exact HF1|exact Ht1| |exact H2]. lia.
  - by intros [= <-].
  - intros [= <-]. by apply tidy_beginDraining.
Qed.
End Reactor.

(** ** Reachable states *)

Definition caps_ok (u : Setup) : Prop :=
  su_request_queue_capacity u ≤ UINT64_MAX ∧ su_response_queue_capacity u ≤ UINT64_MAX ∧
  su_auth_queue_capacity u ≤ UINT64_MAX.

Lemma new_queue_tidy {T} n : n ≤ UINT64_MAX → queue_tidy (@newBlockQueue T (Z.max n 1)).
Proof. intros Hn. unfold queue_tidy, size, peakSize, capacity, UINT64_MAX in *. simpl. rewrite zlen_nil. lia. Qed.

Lemma new_checks n m :
  checks (replicate n (mkWorker NormalWorker WIdle) ++ replicate m (mkWorker AuthWorker WIdle)) = 0.
Proof.
  assert (Hk : ∀ k l, checks (replicate l (mkWorker k WIdle)) = 0).
  { intros k l. induction l as [|l IH]; [done|]. simpl replicate. rewrite checks_cons, IH. by destruct k. }
  by rewrite checks_app, !Hk.
Qed.

Lemma tidy_launched u s : setup_ok u → caps_ok u → launched u s → Tidy s.
Proof.
  intros (Hl & He & Hv & N1 & N2 & N3 & Hwc & Hawc & Hsum & Hhw) (Q1 & Q2 & Q3) (s0 & Hs & Hst).
  unfold newServer in Hs. destruct ((_ =? 0) || (_ >? 16)) eqn:Ea; [done|].
  destruct ((_ =? 0) || (_ >? 65536)); [done|]. injection Hs as <-. rewrite Z.gtb_ltb in Ea. bool_facts.
  unfold start in Hst. simpl in Hst. injection Hst as <-. unfold start_workers, markReady.
  destruct (su_ready_created u); simpl;
    set (n := if su_worker_count u =? 0 then _ else _);
    assert (Hn : 0 ≤ n ∧ n + su_auth_worker_count u < 2 ^ 32)
      by (subst n; destruct (Z.eqb_spec (su_worker_count u) 0); [destruct (su_hardware u =? 0)|]; lia);
    clearbody n; constructor; simpl; unfold conns, keyed; simpl; rewrite ?map_size_empty; try done;
    try (apply new_queue_tidy; assumption); try (split_and!; by apply new_queue_tidy).
  all: try (by rewrite new_checks).
  all: try (apply Forall_app; split; by apply Forall_replicate).
  all: try (rewrite zlen_app; unfold zlen; rewrite !length_replicate; lia).
  all: try (intros fd c; by rewrite lookup_empty).
  all: try (split; [set_solver|by rewrite lookup_empty]).
  all: repeat apply Forall_cons_2; try apply Forall_nil_2; done.
Qed.

Section Reachable.
Context `{JsonLib} (E : Env).

Lemma reachable_tidy u s : caps_ok u → reachable E u s → Tidy s.
Proof.
  intros Hc Hr. induction Hr as [s Hu Hl|w s s' Hr IH Hn Hi|a s Hr IH Ha].
  - by eapply tidy_launched.
  - eapply tidy_loop_iteration; [by eapply reachable_settled|done..].
  - by apply tidy_action.
Qed.
End Reachable.

(** ** The reads of a STATS request *)

Section Reads.
Context `{JsonLib}.

(** From [s] to [s'], worker [i] acts in the states [acted], in this order,
    and its handler does not throw.  In between, any other thread takes any
    step: none changes the program counter of worker [i]. *)
Inductive acts_of (i : nat) : Server → list Server → Server → Prop :=
  | acts_done s : acts_of i s [] s
  | acts_worker env s acted s' :
      we_throws env = false → acts_of i (worker_step i env s) acted s' → acts_of i s (s :: acted) s'
  | acts_other s s1 acted s' :
      workers_ s1 !! i = workers_ s !! i → acts_of i s1 acted s' → acts_of i s acted s'.

Lemma acts_none i s s' : acts_of i s [] s' → workers_ s' !! i = workers_ s !! i.
Proof.
  intros Hr. remember [] as acted eqn:Ea. induction Hr as [| |s s1 acted s' Hs Hr IH]; [done|done|].
  rewrite (IH Ea). done.
Qed.

(** The reads made in the states [xs]. *)
Definition reads_in (order : list StatsLoad) (xs : list Server) : list (StatsLoad * Z) :=
  zip_with (λ load x, (load, load_value load x)) order xs.

Lemma loaded_reads order xs k load x :
  NoDup order → order !! k = Some load → xs !! k = Some x → loaded (reads_in order xs) load = load_value load x.
Proof.
  intros Hn. revert xs k. induction Hn as [|a order Ha Hn IH]; intros [|y xs] [|k] Hk Hx; try done.
  - injection Hk as ->. injection Hx as ->. unfold loaded. simpl. by rewrite bool_decide_eq_true_2.
  - simpl in *. unfold loaded. simpl. rewrite bool_decide_eq_false_2; [by apply (IH xs k)|].
    intros ->. apply Ha. by eapply list_elem_of_lookup_2.
Qed.

(** What docs and clients call the quantities of a gateway: each member of the
    STATS report and the quantity of the server that it reports. *)
Definition quantities : list (bytes * (Server → Z)) :=
  let stat f (s : Server) := f (hs_stats (hstate_ s)) in
  [(lit "total_requests", stat total_requests_);
   (lit "total_logs", stat total_log_messages_);
   (lit "total_errors", stat total_errors_);
   (lit "total_recv_bytes", stat total_bytes_read);
   (lit "total_sent_bytes", stat total_bytes_sent);
   (lit "active_connections", stat active_connections);
   (lit "total_request_queue_backlog", λ s, zlen (data_queue_ (request_queue_ s)));
   (lit "total_response_queue_backlog", λ s, zlen (data_queue_ (response_queue_ s)));
   (lit "request_queue_capacity", λ s, capacity_ (request_queue_ s));
   (lit "response_queue_capacity", λ s, capacity_ (response_queue_ s));
   (lit "request_queue_peak", λ s, peak_size_ (request_queue_ s));
   (lit "response_queue_peak", λ s, peak_size_ (response_queue_ s));
   (lit "request_queue_rejected", stat request_queue_rejected_);
   (lit "response_queue_rejected", stat response_queue_rejected_);
   (lit "auth_queue_capacity", λ s, capacity_ (auth_queue_ s));
   (lit "auth_queue_backlog", λ s, zlen (data_queue_ (auth_queue_ s)));
   (lit "auth_queue_peak", λ s, peak_size_ (auth_queue_ s));
   (lit "auth_queue_rejected", stat auth_queue_rejected_);
   (lit "auth_in_flight", auth_in_flight_);
   (lit "auth_tasks_cancelled_before_start", stat auth_tasks_cancelled_before_start_);
   (lit "auth_allowed", stat auth_allowed_);
   (lit "auth_denied", stat auth_denied_);
   (lit "auth_unavailable", stat auth_unavailable_);
   (lit "auth_duration_count", stat auth_duration_count_);
   (lit "auth_duration_total_us", stat auth_duration_total_us_);
   (lit "response_queue_rejected_normal", stat response_queue_rejected_normal_);
   (lit "response_queue_rejected_auth", stat response_queue_rejected_auth_);
   (lit "slow_client_closed", stat slow_client_closed_);
   (lit "stale_response_dropped", stat stale_response_dropped_)].

(** Each member is read from the quantity it names. *)
Lemma quantities_read name quantity :
  (name, quantity) ∈ quantities →
  ∃ load, (name, load) ∈ stats_members ∧ ∀ s, load_value load s = quantity s.
Proof.
  intros Hq.
  assert (Hall : Forall2 (λ m q : bytes * _, m.1 = q.1 ∧ ∀ s, load_value m.2 s = q.2 s) stats_members quantities)
    by (repeat (constructor; [split; reflexivity|]); constructor).
  apply list_elem_of_lookup in Hq as [k Hk].
  destruct (Forall2_lookup_r _ _ _ _ _ Hall Hk) as ([name' load] & Hm & Hn & Hl). simpl in *. subst name'.
  exists load. split; [by eapply list_elem_of_lookup_2|done].
Qed.

Lemma stats_order_nodup : NoDup stats_order.
Proof. apply (bool_decide_unpack _). by vm_compute. Qed.

(** Every member of the report is read. *)
Lemma stats_members_read name load : (name, load) ∈ stats_members → load ∈ stats_order.
Proof.
  assert (Hall : Forall (λ m : bytes * StatsLoad, m.2 ∈ stats_order) stats_members).
  { apply (bool_decide_unpack _). by vm_compute. }
  rewrite Forall_forall in Hall. apply (Hall (name, load)).
Qed.

Lemma stats_response r xs :
  Forall words xs → length xs = length stats_order →
  ∀ timestamp io_ok, ∃ resp j,
    handleStats (mkHandlerEnv timestamp io_ok (loaded (reads_in stats_order xs))) r = Some resp ∧
    rs_request_id resp = rq_request_id r ∧ json_read (rs_payload resp) = Parsed j ∧
    ∀ k load x name, stats_order !! k = Some load → xs !! k = Some x → (name, load) ∈ stats_members →
      json_at name j = Some (JUnsigned (load_value load x)).
Proof.
  intros Hw Hlen timestamp io_ok. set (env := mkHandlerEnv _ _ _).
  assert (Hread : ∀ name load, (name, load) ∈ stats_members → in_word (he_loads env load)).
  { intros name load (k & Hk)%stats_members_read%list_elem_of_lookup.
    destruct (lookup_lt_is_Some_2 xs k) as [x Hx]; [rewrite Hlen; by eapply lookup_lt_Some|].
    change (he_loads env load) with (loaded (reads_in stats_order xs) load).
    rewrite (loaded_reads _ _ _ _ _ stats_order_nodup Hk Hx). by apply (Forall_lookup_1 _ _ _ _ Hw Hx). }
  destruct (handleStats_spec env r) as (resp & j & H1 & H2 & H3 & H4).
  { unfold report_ok, stats_fields. apply Forall_map, Forall_forall. intros [name load]. apply Hread. }
  exists resp, j. split_and!; [done..|]. intros k load x name Hk Hx Hm. rewrite (H4 name load Hm).
  change (he_loads env load) with (loaded (reads_in stats_order xs) load).
  by rewrite (loaded_reads _ _ _ _ _ stats_order_nodup Hk Hx).
Qed.

Lemma reads_in_length order xs : (length xs ≤ length order)%nat → length (reads_in order xs) = length xs.
Proof. intros Hl. unfold reads_in. rewrite length_zip_with. lia. Qed.

Lemma reads_in_snoc order xs load x :
  order !! length xs = Some load → reads_in order (xs ++ [x]) = reads_in order xs ++ [(load, load_value load x)].
Proof.
  revert xs. induction order as [|a order IH]; intros [|y xs] Hl; try done.
  - injection Hl as ->. by destruct order.
  - simpl in *. unfold reads_in in *. simpl. by rewrite IH.
Qed.

(** A worker that has made its first reads in the states [xs]. *)
Lemma stats_reads_kept i r acted s s' xs :
  workers_ s !! i = Some (mkWorker NormalWorker (WStats r (reads_in stats_order xs))) →
  acts_of i s acted s' → (length xs ≤ length stats_order)%nat →
  (length xs + length acted = S (length stats_order))%nat →
  Forall words xs → Forall words acted →
  ∃ resp j,
    workers_ s' !! i = Some (mkWorker NormalWorker (WPush resp)) ∧
    rs_request_id resp = rq_request_id r ∧ json_read (rs_payload resp) = Parsed j ∧
    ∀ k load x name, stats_order !! k = Some load → (xs ++ acted) !! k = Some x → (name, load) ∈ stats_members →
      json_at name j = Some (JUnsigned (load_value load x)).
Proof.
  intros Hi Hrun. revert xs Hi. induction Hrun as [s|env s acted s' Hth Hrun IH|s s1 acted s' Hsame Hrun IH];
    intros xs Hi Hle Hlen Hx Hw.
  - cbn [length] in Hlen. lia.
  - apply Forall_cons in Hw as [Hs Hw]. cbn [length] in Hlen. unfold worker_step in Hrun, IH. rewrite Hi in Hrun, IH.
    unfold worker_stats in Hrun, IH. rewrite reads_in_length in Hrun, IH by done.
    destruct (stats_order !! length xs) as [load|] eqn:El.
    + destruct (IH (xs ++ [s])) as (resp & j & H1 & H2 & H3 & H4).
      * rewrite (reads_in_snoc _ _ load) by done. simpl. by rewrite list_lookup_alter, decide_True, Hi.
      * rewrite length_app, Nat.add_1_r. by apply lookup_lt_Some in El.
      * rewrite length_app, Nat.add_1_r. lia.
      * apply Forall_app. split; [done|by constructor].
      * done.
      * exists resp, j. rewrite <- app_assoc in H4. by split_and!.
    + apply lookup_ge_None in El. destruct acted as [|x acted]; [|cbn [length] in Hlen; lia]. clear IH.
      rewrite Hth in Hrun. destruct (stats_response r xs Hx ltac:(lia) (we_timestamp env) (we_log_io_ok env))
        as (resp & j & Hr & H2 & H3 & H4). rewrite Hr in Hrun. apply acts_none in Hrun. exists resp, j. split_and!; [|done..|].
      * rewrite Hrun. simpl. by rewrite list_lookup_alter, decide_True, Hi.
      * intros k load x name Hk. rewrite lookup_app_l; [by apply H4|]. apply lookup_lt_Some in Hk. lia.
  - apply (IH xs); [by rewrite Hsame|done..].
Qed.
End Reads.

(** ** Theorems *)

Section Theorems.
Context `{JsonLib} (E : Env).

(** C15: The gauges of a running gateway are exact: in every reachable state
    the number of active connections is the number of connections of the
    reactor, the number of AUTH checks in flight is the number of AUTH workers
    between the two ends of a check (so the unsigned counter never wraps
    below zero), each queue and its recorded peak are within the queue's capacity, and
    every counter is within its 64 bits. *)
Theorem gauges_exact u s :
  caps_ok u → reachable E u s →
  active_connections (hs_stats (hstate_ s)) = Z.of_nat (base.size (connections_ s)) ∧
  auth_in_flight_ s = checks (workers_ s) ∧
  (size (request_queue_ s) ≤ capacity (request_queue_ s) ∧ peakSize (request_queue_ s) ≤ capacity (request_queue_ s)) ∧
  (size (auth_queue_ s) ≤ capacity (auth_queue_ s) ∧ peakSize (auth_queue_ s) ≤ capacity (auth_queue_ s)) ∧
  (size (response_queue_ s) ≤ capacity (response_queue_ s) ∧
   peakSize (response_queue_ s) ≤ capacity (response_queue_ s)) ∧
  Forall in_word (counters (hs_stats (hstate_ s))).
Proof.
  intros Hc Hr. destruct (reachable_tidy E u s Hc Hr) as [T1 T2 T3 _ _ _ _ _ _ _ ((A & ? & _) & (B & ? & _) & (C & ? & _))].
  split_and!; first [done|lia].
Qed.

(** C16: A STATS request is answered truthfully, whatever the other threads do
    meanwhile.  Let a worker that is about to dispatch a STATS request act
    [2 + length stats_order] times, other threads changing anything but its
    program counter in between.  Then it has made a response to that request,
    whose payload is a JSON text that parses to an object in which every member
    of the report has, exactly, the value that its counter, queue length,
    capacity or peak had when the worker made its read: the [k]-th read in
    [stats_order], which is the worker's [k+1]-st action after the dispatch.
    (The reads are not one snapshot.)  In particular the member "active_connections"
    is the number of connections in one of these states, and so for each of the
    29 [quantities] by its name.  The values are assumed to be within their
    64 bits at the reads, as they are in every reachable state. *)
Theorem stats_answer_truthful :
  (∀ i s acted s' r,
     workers_ s !! i = Some (mkWorker NormalWorker (WNormal r)) → rq_type r = STATS →
     acts_of i s acted s' → length acted = (2 + length stats_order)%nat → Forall words acted →
     ∃ resp j,
       workers_ s' !! i = Some (mkWorker NormalWorker (WPush resp)) ∧
       rs_request_id resp = rq_request_id r ∧ json_read (rs_payload resp) = Parsed j ∧
       (∀ k load x name,
         stats_order !! k = Some load → acted !! S k = Some x → (name, load) ∈ stats_members →
         json_at name j = Some (JUnsigned (load_value load x))) ∧
       ∀ name quantity, (name, quantity) ∈ quantities →
         ∃ x, x ∈ acted ∧ json_at name j = Some (JUnsigned (quantity x))) ∧
  (∀ u s, caps_ok u → reachable E u s → words s).
Proof.
  split; [|intros u s Hc Hr; by eapply tidy_words, reachable_tidy].
  intros i s acted s' r Hi Hty Hrun. induction Hrun as [s|env s acted s' Hth Hrun _|s s1 acted s' Hsame Hrun IH]; [done|..].
  - intros [= Hlen] [_ Hw]%Forall_cons. unfold worker_step in Hrun. rewrite Hi in Hrun. unfold worker_dispatch in Hrun.
    rewrite Hth, bool_decide_eq_true_2 in Hrun by done. cbn [negb andb] in Hrun.
    destruct (stats_reads_kept i r acted (set_pc i (WStats r []) (stat incrementRequests s)) s' []) as (resp & j & H1 & H2 & H3 & H4);
      [simpl; by rewrite list_lookup_alter, decide_True, Hi|done|simpl; lia|simpl; lia|done|done|].
    assert (Hat : ∀ k load x name, stats_order !! k = Some load → (s :: acted) !! S k = Some x →
      (name, load) ∈ stats_members → json_at name j = Some (JUnsigned (load_value load x)))
      by (intros k load x name Hk Hx Hm; by apply (H4 k load x name)).
    exists resp, j. split_and!; [done..|]. intros name quantity (load & Hm & Hl)%quantities_read.
    destruct (proj1 (list_elem_of_lookup _ _) (stats_members_read _ _ Hm)) as [k Hk].
    destruct (lookup_lt_is_Some_2 acted k) as [x Hx]; [apply lookup_lt_Some in Hk; rewrite Hlen; exact (Nat.lt_lt_succ_r _ _ Hk)|].
    exists x. split; [by apply (list_elem_of_lookup_2 _ (S k))|]. rewrite <- Hl. by apply (Hat k load x).
  - apply IH. by rewrite Hsame.
Qed.
End Theorems.

(** ** Witnesses *)

(** The client of the sample asks for the statistics, and the slow normal
    worker has just taken the request. *)
Definition stats_script : list WaitAnswer := [
  WaitEvents [mkReady 5 1 5 [] [] []] 5;
  WaitEvents [mkReady 6 5 5 [] [RecvData (frame STATS 2 []); RecvAgain] [SendBytes 42]] 5].

Definition stats_run : Server :=
  default slow_state (run_loop (H := sample_json) slow_gateway stats_script
    (run_actions (H := sample_json) (replicate 2 (AWorker 1 sample_worker_env)) slow_state)).

Definition stats_state : Server := run_action (H := sample_json) (AWorker 0 sample_worker_env) stats_run.

Definition stats_request : Request :=
  match workers_ stats_state !! 0%nat with
  | Some (mkWorker _ (WNormal r)) => r
  | _ => mkRequest 0 0 1 PING 0 []
  end.

Lemma stats_state_reachable : reachable (H := sample_json) slow_gateway sample_setup stats_state.
Proof.
  apply reach_action; [|done].
  assert (Hs : is_Some (run_loop (H := sample_json) slow_gateway stats_script
    (run_actions (H := sample_json) (replicate 2 (AWorker 1 sample_worker_env)) slow_state))) by (vm_compute; eauto).
  destruct Hs as [s Hs]. unfold stats_run. rewrite Hs.
  eapply (run_loop_reachable (H := sample_json) slow_gateway sample_setup stats_script
    (run_actions (H := sample_json) (replicate 2 (AWorker 1 sample_worker_env)) slow_state));
    [apply slow_env_ok| |vm_compute; done|exact Hs].
  cbn [replicate run_actions fold_left]. do 2 (apply reach_action; [|done]). apply slow_state_reachable.
Qed.

Lemma gauges_exact_witness :
  active_connections (hs_stats (hstate_ slow_state)) = 1 ∧ auth_in_flight_ slow_state = 1 ∧
  checks (workers_ slow_state) = 1.
Proof.
  assert (Hc : caps_ok sample_setup) by (vm_compute; repeat split; discriminate).
  destruct (@gauges_exact sample_json slow_gateway sample_setup slow_state Hc slow_state_reachable)
    as (-> & -> & _). vm_compute. auto.
Defined.

(** The slow worker acts [n] times: the states it acts in, and the last one. *)
Fixpoint act_times (n : nat) (s : Server) : list Server * Server :=
  match n with
  | O => ([], s)
  | S n => let '(l, s') := act_times n (@worker_step sample_json 0 sample_worker_env s) in (s :: l, s')
  end.

Lemma act_times_reachable n s :
  reachable (H := sample_json) slow_gateway sample_setup s →
  reachable (H := sample_json) slow_gateway sample_setup (act_times n s).2 ∧
  Forall (reachable (H := sample_json) slow_gateway sample_setup) (act_times n s).1.
Proof.
  revert s. induction n as [|n IH]; intros s Hr; simpl; [by split|].
  assert (Hr1 : reachable (H := sample_json) slow_gateway sample_setup (@worker_step sample_json 0 sample_worker_env s))
    by (apply (@reach_action sample_json slow_gateway sample_setup (AWorker 0 sample_worker_env)); done).
  specialize (IH _ Hr1). destruct (act_times n _) as [l s']. simpl in *. destruct IH. split; [done|by constructor].
Qed.

Lemma acts_of_times n s l s' :
  @acts_of sample_json 0 (act_times n s).2 l s' → @acts_of sample_json 0 s ((act_times n s).1 ++ l) s'.
Proof.
  revert s. induction n as [|n IH]; intros s Ha; [done|]. cbn [act_times] in *.
  specialize (IH (@worker_step sample_json 0 sample_worker_env s)). destruct (act_times n _) as [l0 s0]. simpl in *.
  apply (acts_worker 0 sample_worker_env); [done|auto].
Qed.

(** After the worker's first four actions another client connects, before the
    number of connections is read. *)
Definition stats_first : list Server * Server := act_times 4 stats_state.
Definition stats_accepted : Server :=
  default (stats_first.2) (loop_iteration (H := sample_json) slow_gateway
    (WaitEvents [mkReady 3 1 5 [AcceptFd 7; AcceptAgain] [] []] 5) (stats_first.2)).
Definition stats_second : list Server * Server := act_times 36 stats_accepted.

Lemma stats_accepted_reachable : reachable (H := sample_json) slow_gateway sample_setup stats_accepted.
Proof.
  pose proof (proj1 (act_times_reachable 4 stats_state stats_state_reachable)) as Hr. unfold stats_accepted.
  destruct (loop_iteration slow_gateway _ _) as [s|] eqn:Hs; [|exact Hr]. simpl.
  eapply reach_step; [exact Hr| |exact Hs]. vm_compute. reflexivity.
Qed.

Lemma stats_acts : @acts_of sample_json 0 stats_state (stats_first.1 ++ stats_second.1) stats_second.2.
Proof.
  apply acts_of_times. eapply acts_other; [|rewrite <- (app_nil_r stats_second.1); apply acts_of_times, acts_done].
  vm_compute. reflexivity.
Qed.

Lemma stats_words : Forall words (stats_first.1 ++ stats_second.1).
Proof.
  assert (Hc : caps_ok sample_setup) by (vm_compute; repeat split; discriminate).
  apply Forall_app. split; (eapply Forall_impl; [apply act_times_reachable|]).
  - apply stats_state_reachable.
  - intros s Hr. by eapply tidy_words, (@reachable_tidy sample_json).
  - apply stats_accepted_reachable.
  - intros s Hr. by eapply tidy_words, (@reachable_tidy sample_json).
Qed.

Lemma stats_answer_truthful_witness :
  base.size (connections_ stats_state) = 1%nat ∧
  ∃ resp j,
    workers_ (stats_second.2) !! 0%nat = Some (mkWorker NormalWorker (WPush resp)) ∧
    json_read (JsonLib := sample_json) (rs_payload resp) = Parsed j ∧
    json_at (lit "active_connections") j = Some (JUnsigned 2) ∧
    json_at (lit "total_requests") j = Some (JUnsigned 2).
Proof.
  split; [vm_compute; reflexivity|].
  destruct (proj1 (@stats_answer_truthful sample_json slow_gateway) 0%nat stats_state (stats_first.1 ++ stats_second.1)
    (stats_second.2) stats_request) as (resp & j & Hw & _ & Hj & Hat & _).
  - vm_compute. reflexivity.
  - vm_compute. reflexivity.
  - exact stats_acts.
  - vm_compute. reflexivity.
  - exact stats_words.
  - exists resp, j. split; [exact Hw|]. split; [exact Hj|].
    assert (Hx : load_value Load_connections <$> (stats_first.1 ++ stats_second.1) !! 6%nat = Some 2) by (vm_compute; reflexivity).
    assert (Hy : load_value Load_total_requests <$> (stats_first.1 ++ stats_second.1) !! 1%nat = Some 2) by (vm_compute; reflexivity).
    destruct ((stats_first.1 ++ stats_second.1) !! 6%nat) as [x|] eqn:Ex; [|discriminate Hx].
    destruct ((stats_first.1 ++ stats_second.1) !! 1%nat) as [y|] eqn:Ey; [|discriminate Hy].
    cbn [fmap option_fmap option_map] in Hx, Hy. apply Some_inj in Hx, Hy. split.
    + rewrite <- Hx. apply (Hat 5%nat Load_connections x); [reflexivity|exact Ex|].
      apply (bool_decide_unpack _). vm_compute. exact I.
    + rewrite <- Hy. apply (Hat 0%nat Load_total_requests y); [reflexivity|exact Ey|].
      apply (bool_decide_unpack _). vm_compute. exact I.
Defined.
