(* ===== verification/Startup.v ===== *)
(** * Startup

    Models [include/control/StartupConfig.hpp],
    [src/control/StartupConfig.cpp] and [src/main.cpp]: the configuration read
    from the environment and the construction and start of the server.  The
    environment is a function from names to values; an exception is
    [None]. *)

From S2P Require Import Prelude Text ControlTypes Json Protocol BlockQueue Notifier Stats RuntimeConfig.
From S2P Require Import Logger HttpParser Socket Handlers Server Client System.
#[local] Open Scope Z_scope.

Record StartupConfig := mkStartupConfig {
  app_environment : bytes;
  gateway_port : Z;
  control_plane_host : bytes;
  control_plane_port : Z;
  control_plane_timeout_ms : Z;
  gateway_token : bytes;
  request_queue_capacity : Z;
  response_queue_capacity : Z;
  shutdown_timeout_ms : Z;
  worker_count : Z;
  auth_worker_count : Z;
  auth_queue_capacity : Z;
}.

(** The default member initialisers. *)
Definition defaultStartupConfig : StartupConfig :=
  mkStartupConfig (lit "production") 9000 (lit "127.0.0.1") 8080 1000 [] 4096 4096 5000 0 2 32.

Definition SHUTDOWN_SAFETY_MARGIN_MS : Z := 100.

(** [std::from_chars] for a [uint64_t] in base ten: the longest prefix of
    digits; an error if it is empty or its value does not fit.  On success,
    the value and the number of characters consumed. *)
Fixpoint digit_prefix (text : bytes) : bytes :=
  match text with
  | c :: rest => if is_digit c then c :: digit_prefix rest else []
  | [] => []
  end.

Definition from_chars (text : bytes) : option (Z * nat) :=
  let digits := digit_prefix text in
  let value := dec_value digits in
  if (zlen digits =? 0) || (value >? UINT64_MAX) then None else Some (value, length digits).

Section Startup.
Context (getenv : bytes → option bytes).

Definition readString (name default_value : bytes) (allow_empty : bool) : option bytes :=
  match getenv name with
  | None => Some default_value
  | Some value => if negb allow_empty && (zlen value =? 0) then None else Some value
  end.

Definition readUnsigned (name : bytes) (default_value minimum maximum : Z) : option Z :=
  match getenv name with
  | None => Some default_value
  | Some text =>
    match from_chars text with
    | None => None
    | Some (value, consumed) =>
        if (zlen text =? 0) || negb (consumed =? length text)%nat
           || (value <? minimum) || (value >? maximum)
        then None else Some value
    end
  end.

Definition readApplicationEnvironment : option bytes :=
  environment ← readString (lit "APP_ENV") (lit "production") false;
  let environment := lowerAscii (strip isspace environment) in
  if negb (bool_decide (environment = lit "development")) && negb (bool_decide (environment = lit "test"))
     && negb (bool_decide (environment = lit "staging"))
     && negb (bool_decide (environment = lit "production"))
  then None else Some environment.

Definition isBlank (value : bytes) : bool := (zlen value =? 0) || forallb isspace value.

Definition parseStartupConfig : option StartupConfig :=
  let d := defaultStartupConfig in
  environment ← readApplicationEnvironment;
  port ← readUnsigned (lit "GATEWAY_PORT") (gateway_port d) 1 65535;
  host ← readString (lit "CONTROL_PLANE_HOST") (control_plane_host d) false;
  cp_port ← readUnsigned (lit "CONTROL_PLANE_PORT") (control_plane_port d) 1 65535;
  timeout ← readUnsigned (lit "CONTROL_PLANE_TIMEOUT_MS") (control_plane_timeout_ms d) 100 30000;
  token ← readString (lit "GATEWAY_SHARED_TOKEN") [] true;
  if negb (bool_decide (environment = lit "development")) && isBlank token then None
  else
    requests ← readUnsigned (lit "REQUEST_QUEUE_CAPACITY") (request_queue_capacity d) 1 65536;
    responses ← readUnsigned (lit "RESPONSE_QUEUE_CAPACITY") (response_queue_capacity d) 1 65536;
    shutdown ← readUnsigned (lit "SHUTDOWN_TIMEOUT_MS") (shutdown_timeout_ms d) 1 300000;
    workers ← readUnsigned (lit "WORKER_COUNT") (worker_count d) 0 1024;
    auth_workers ← readUnsigned (lit "AUTH_WORKER_COUNT") (auth_worker_count d) 1 16;
    auth_queue ← readUnsigned (lit "AUTH_QUEUE_CAPACITY") (auth_queue_capacity d) 1 65536;
    if shutdown <? u64 (2 * timeout + SHUTDOWN_SAFETY_MARGIN_MS) then None
    else Some (mkStartupConfig environment port host cp_port timeout token requests responses shutdown
                 workers auth_workers auth_queue).

(** The objects [main] constructs; [None] when an exception ends it. *)
Definition construct (log : LogStorage) (logger : Logger) : option (ControlPlaneClient * Server) :=
  config ← parseStartupConfig;
  client ← newClient (control_plane_host config) (control_plane_port config)
             (control_plane_timeout_ms config) (gateway_token config);
  server ← newServer (gateway_port config) (request_queue_capacity config)
             (response_queue_capacity config) (shutdown_timeout_ms config) (worker_count config)
             (auth_worker_count config) (auth_queue_capacity config) log logger;
  Some (client, server).

(** [main] up to the event loop: the client and the running server; [None]
    when an exception ends it with exit code 1. *)
Definition main_start (log : LogStorage) (logger : Logger) (init : InitAnswer) (ready_created : bool)
    (hardware : Z) : option (ControlPlaneClient * Server) :=
  '(client, server) ← construct log logger;
  match start init ready_created hardware server with
  | (true, s) => Some (client, s)
  | (false, _) => None
  end.
End Startup.

(** ** Lemmas *)

Lemma digit_prefix_all text : length (digit_prefix text) = length text ↔ Forall (λ c, is_digit c = true) text.
Proof.
  induction text as [|c text IH]; simpl; [by split; [constructor|]|].
  destruct (is_digit c) eqn:Ed; simpl.
  - rewrite Forall_cons, <- IH. split; [intros [= ->]; done|]. intros [_ ->]. done.
  - rewrite Forall_cons. split; [done|]. intros [? _]. congruence.
Qed.

Lemma digit_prefix_id text : Forall (λ c, is_digit c = true) text → digit_prefix text = text.
Proof. induction 1 as [|c text Hc _ IH]; simpl; [done|]. by rewrite Hc, IH. Qed.

Lemma readUnsigned_spec getenv name d lo hi v :
  0 ≤ hi ≤ UINT64_MAX →
  readUnsigned getenv name d lo hi = Some v ↔
  match getenv name with
  | None => v = d
  | Some text => text ≠ [] ∧ Forall (λ c, is_digit c = true) text ∧ v = dec_value text ∧ lo ≤ v ≤ hi
  end.
Proof.
  intros Hhi. unfold readUnsigned, from_chars. destruct (getenv name) as [text|]; [|split; congruence].
  split.
  - destruct (_ || (dec_value (digit_prefix text) >? UINT64_MAX)) eqn:E1; [done|].
    destruct (_ || (_ >? hi)) eqn:E2; [done|]. intros [= <-].
    apply orb_false_iff in E2 as [[[E2 E3]%orb_false_iff E4]%orb_false_iff E5].
    apply negb_false_iff, Nat.eqb_eq, digit_prefix_all in E3. rewrite (digit_prefix_id _ E3) in *.
    rewrite Z.gtb_ltb in E5. apply Z.eqb_neq in E2. rewrite zlen_0 in E2. split_and!; done || lia.
  - intros (Hne & Hd & -> & Hr). rewrite digit_prefix_id by done.
    assert (zlen text =? 0 = false) as -> by (apply Z.eqb_neq; by rewrite zlen_0). cbn [orb].
    rewrite Z.gtb_ltb. destruct (Z.ltb_spec UINT64_MAX (dec_value text)); [lia|].
    rewrite Nat.eqb_refl, Z.gtb_ltb. destruct (Z.ltb_spec (dec_value text) lo); [lia|].
    destruct (Z.ltb_spec hi (dec_value text)); [lia|]. done.
Qed.

Lemma readUnsigned_range getenv name d lo hi v :
  0 ≤ hi ≤ UINT64_MAX → lo ≤ d ≤ hi → readUnsigned getenv name d lo hi = Some v → lo ≤ v ≤ hi.
Proof.
  intros Hhi Hd Hv%readUnsigned_spec; [|done]. destruct (getenv name); [apply Hv|by subst].
Qed.

(** What an accepted configuration guarantees. *)
Definition startup_ok (c : StartupConfig) : Prop :=
  app_environment c ∈ [lit "development"; lit "test"; lit "staging"; lit "production"] ∧
  1 ≤ gateway_port c ≤ 65535 ∧ control_plane_host c ≠ [] ∧
  1 ≤ control_plane_port c ≤ 65535 ∧ 100 ≤ control_plane_timeout_ms c ≤ 30000 ∧
  (app_environment c = lit "development" ∨ ∃ x, x ∈ gateway_token c ∧ isspace x = false) ∧
  1 ≤ request_queue_capacity c ≤ 65536 ∧ 1 ≤ response_queue_capacity c ≤ 65536 ∧
  2 * control_plane_timeout_ms c + SHUTDOWN_SAFETY_MARGIN_MS ≤ shutdown_timeout_ms c ≤ 300000 ∧
  0 ≤ worker_count c ≤ 1024 ∧ 1 ≤ auth_worker_count c ≤ 16 ∧ 1 ≤ auth_queue_capacity c ≤ 65536.

Lemma isBlank_false v : isBlank v = false → ∃ x, x ∈ v ∧ isspace x = false.
Proof.
  unfold isBlank. intros Hb. apply orb_false_iff in Hb as [_ Hb].
  induction v as [|c v IH]; [done|]. simpl in Hb. destruct (isspace c) eqn:Ec.
  - destruct IH as (x & ? & ?); [done|]. exists x. split; [by right|done].
  - exists c. split; [by left|done].
Qed.

Lemma readApplicationEnvironment_ok getenv e :
  readApplicationEnvironment getenv = Some e →
  e ∈ [lit "development"; lit "test"; lit "staging"; lit "production"].
Proof.
  unfold readApplicationEnvironment. intros (raw & _ & H)%bind_Some. cbv zeta in H.
  case_bool; [done|]. injection H as <-.
  rewrite !andb_false_iff, !negb_false_iff, !bool_decide_eq_true in E.
  rewrite !elem_of_cons. tauto.
Qed.

Lemma readString_nonempty getenv name d v :
  d ≠ [] → readString getenv name d false = Some v → v ≠ [].
Proof.
  unfold readString. destruct (getenv name) as [t|]; [|congruence]. cbn [negb andb].
  destruct (Z.eqb_spec (zlen t) 0) as [|Hz]; [done|]. intros _ [= <-]. by rewrite zlen_0 in Hz.
Qed.

Lemma parseStartupConfig_ok getenv c : parseStartupConfig getenv = Some c → startup_ok c.
Proof.
  unfold parseStartupConfig. intros Hp.
  apply bind_Some in Hp as (e & He%readApplicationEnvironment_ok & Hp).
  apply bind_Some in Hp as (port & Hport & Hp). apply bind_Some in Hp as (host & Hhost & Hp).
  apply bind_Some in Hp as (cp & Hcp & Hp). apply bind_Some in Hp as (t & Ht & Hp).
  apply bind_Some in Hp as (token & _ & Hp).
  destruct (negb (bool_decide (e = lit "development")) && isBlank token) eqn:Eb; [done|].
  apply bind_Some in Hp as (rq & Hrq & Hp). apply bind_Some in Hp as (rs & Hrs & Hp).
  apply bind_Some in Hp as (sd & Hsd & Hp). apply bind_Some in Hp as (wc & Hwc & Hp).
  apply bind_Some in Hp as (aw & Haw & Hp). apply bind_Some in Hp as (aq & Haq & Hp).
  destruct (Z.ltb_spec sd (u64 (2 * t + SHUTDOWN_SAFETY_MARGIN_MS))) as [|Hlt]; [done|].
  injection Hp as <-. unfold startup_ok.
  cbn [app_environment gateway_port control_plane_host control_plane_port control_plane_timeout_ms
       gateway_token request_queue_capacity response_queue_capacity shutdown_timeout_ms worker_count
       auth_worker_count auth_queue_capacity].
  apply readUnsigned_range in Hport, Hcp, Ht, Hrq, Hrs, Hsd, Hwc, Haw, Haq;
    try (unfold UINT64_MAX; simpl; lia).
  rewrite u64_small in Hlt by (unfold SHUTDOWN_SAFETY_MARGIN_MS; lia).
  split; [done|]. split; [lia|]. split; [by eapply readString_nonempty; [|exact Hhost]|].
  split; [lia|]. split; [lia|]. split.
  { apply andb_false_iff in Eb as [Eb|Eb]; [left; by bool_facts|right; by apply isBlank_false]. }
  lia.
Qed.

(** The value of a variable that holds a number, and of one that holds a text. *)
Definition number_of (getenv : bytes → option bytes) (name : bytes) (d lo hi v : Z) : Prop :=
  match getenv name with
  | None => v = d
  | Some text => text ≠ [] ∧ Forall (λ c, is_digit c = true) text ∧ v = dec_value text ∧ lo ≤ v ≤ hi
  end.

Definition text_of (getenv : bytes → option bytes) (name d v : bytes) : Prop :=
  v = default d (getenv name).

(** The configuration an environment asks for. *)
Record configured (getenv : bytes → option bytes) (c : StartupConfig) : Prop := mkConfigured {
  cf_environment : ∃ raw, text_of getenv (lit "APP_ENV") (lit "production") raw ∧ raw ≠ [] ∧
    app_environment c = lowerAscii (strip isspace raw) ∧
    app_environment c ∈ [lit "development"; lit "test"; lit "staging"; lit "production"];
  cf_port : number_of getenv (lit "GATEWAY_PORT") 9000 1 65535 (gateway_port c);
  cf_host : text_of getenv (lit "CONTROL_PLANE_HOST") (lit "127.0.0.1") (control_plane_host c) ∧ control_plane_host c ≠ [];
  cf_control_port : number_of getenv (lit "CONTROL_PLANE_PORT") 8080 1 65535 (control_plane_port c);
  cf_timeout : number_of getenv (lit "CONTROL_PLANE_TIMEOUT_MS") 1000 100 30000 (control_plane_timeout_ms c);
  cf_token : text_of getenv (lit "GATEWAY_SHARED_TOKEN") [] (gateway_token c) ∧
    (app_environment c = lit "development" ∨ ∃ x, x ∈ gateway_token c ∧ isspace x = false);
  cf_requests : number_of getenv (lit "REQUEST_QUEUE_CAPACITY") 4096 1 65536 (request_queue_capacity c);
  cf_responses : number_of getenv (lit "RESPONSE_QUEUE_CAPACITY") 4096 1 65536 (response_queue_capacity c);
  cf_shutdown : number_of getenv (lit "SHUTDOWN_TIMEOUT_MS") 5000 1 300000 (shutdown_timeout_ms c) ∧
    2 * control_plane_timeout_ms c + 100 ≤ shutdown_timeout_ms c;
  cf_workers : number_of getenv (lit "WORKER_COUNT") 0 0 1024 (worker_count c);
  cf_auth_workers : number_of getenv (lit "AUTH_WORKER_COUNT") 2 1 16 (auth_worker_count c);
  cf_auth_queue : number_of getenv (lit "AUTH_QUEUE_CAPACITY") 32 1 65536 (auth_queue_capacity c);
}.

Lemma readString_spec getenv name d v :
  readString getenv name d true = Some v ↔ text_of getenv name d v.
Proof. unfold readString, text_of. destruct (getenv name); simpl; split; congruence. Qed.

Lemma readString_nonempty_spec getenv name d v :
  d ≠ [] → readString getenv name d false = Some v ↔ text_of getenv name d v ∧ v ≠ [].
Proof.
  intros Hd. unfold readString, text_of. destruct (getenv name) as [t|]; simpl; [|split; [intros [= <-]|intros [-> _]]; done].
  destruct (Z.eqb_spec (zlen t) 0) as [Hz|Hz]; rewrite zlen_0 in Hz; split; naive_solver congruence.
Qed.

Lemma isBlank_spec v : isBlank v = false ↔ ∃ x, x ∈ v ∧ isspace x = false.
Proof.
  split; [apply isBlank_false|]. intros (x & Hx & Hs). unfold isBlank. apply orb_false_iff. split.
  - apply Z.eqb_neq. rewrite zlen_0. by destruct v; [apply not_elem_of_nil in Hx|].
  - apply not_true_is_false. rewrite forallb_forall. intros Hall. apply list_elem_of_In in Hx. rewrite (Hall _ Hx) in Hs. done.
Qed.

Lemma readApplicationEnvironment_spec getenv e :
  readApplicationEnvironment getenv = Some e ↔
  ∃ raw, text_of getenv (lit "APP_ENV") (lit "production") raw ∧ raw ≠ [] ∧ e = lowerAscii (strip isspace raw) ∧
    e ∈ [lit "development"; lit "test"; lit "staging"; lit "production"].
Proof.
  split.
  - intros He. pose proof (readApplicationEnvironment_ok _ _ He) as Hin. unfold readApplicationEnvironment in He.
    apply bind_Some in He as (raw & [Hr Hne]%readString_nonempty_spec & He); [|done]. cbv zeta in He. case_bool; [done|].
    injection He as <-. by exists raw.
  - intros (raw & Hr & Hne & -> & Hin). unfold readApplicationEnvironment.
    assert (Hs : readString getenv (lit "APP_ENV") (lit "production") false = Some raw) by (by apply readString_nonempty_spec).
    rewrite Hs. cbn [mbind option_bind]. case_bool; [|done].
    exfalso. bool_facts. rewrite !elem_of_cons in Hin. by destruct Hin as [?|[?|[?|[?|?%not_elem_of_nil]]]].
Qed.

Lemma parseStartupConfig_spec getenv c : parseStartupConfig getenv = Some c ↔ configured getenv c.
Proof.
  assert (Hn : ∀ name d lo hi v, 0 ≤ hi ≤ UINT64_MAX → readUnsigned getenv name d lo hi = Some v ↔ number_of getenv name d lo hi v).
  { intros. by apply readUnsigned_spec. }
  split.
  - intros Hp. pose proof (parseStartupConfig_ok _ _ Hp) as (_ & _ & _ & _ & Ht & _ & _ & _ & Hsd & _). unfold parseStartupConfig in Hp.
    apply bind_Some in Hp as (e & He%readApplicationEnvironment_spec & Hp).
    apply bind_Some in Hp as (port & Hport & Hp). apply bind_Some in Hp as (host & Hhost%readString_nonempty_spec & Hp); [|done].
    apply bind_Some in Hp as (cp & Hcp & Hp). apply bind_Some in Hp as (t & Htm & Hp).
    apply bind_Some in Hp as (token & Htk%readString_spec & Hp). case_bool; [done|].
    apply bind_Some in Hp as (rq & Hrq & Hp). apply bind_Some in Hp as (rs & Hrs & Hp).
    apply bind_Some in Hp as (sd & Hs & Hp). apply bind_Some in Hp as (wc & Hwc & Hp).
    apply bind_Some in Hp as (aw & Haw & Hp). apply bind_Some in Hp as (aq & Haq & Hp).
    case_bool; [done|]. injection Hp as <-. apply Hn in Hport, Hcp, Htm, Hrq, Hrs, Hs, Hwc, Haw, Haq; try (unfold UINT64_MAX; lia).
    cbn in Ht, Hsd. constructor; cbn; try done; (split; [done|]); [|unfold SHUTDOWN_SAFETY_MARGIN_MS in Hsd; lia].
    apply andb_false_iff in E as [Eb|Eb]; [left; by bool_facts|right; by apply isBlank_spec].
  - intros [He Hport Hhost Hcp Ht [Htk Hb] Hrq Hrs [Hs Hsd] Hwc Haw Haq]. destruct c; cbn in *.
    assert (0 ≤ 2 * control_plane_timeout_ms0 + 100 < 2 ^ 64).
    { apply Hn, readUnsigned_range in Ht; unfold UINT64_MAX; lia. }
    apply Hn in Hport, Hcp, Ht, Hrq, Hrs, Hs, Hwc, Haw, Haq; try (unfold UINT64_MAX; lia).
    apply readApplicationEnvironment_spec in He. apply readString_nonempty_spec in Hhost; [|done]. apply readString_spec in Htk.
    unfold parseStartupConfig. cbn. rewrite He, Hport, Hhost, Hcp, Ht, Htk. cbn [mbind option_bind].
    case_bool; [bool_facts; destruct Hb as [Hb|Hb]; [done|]; apply isBlank_spec in Hb; congruence|].
    rewrite Hrq, Hrs, Hs, Hwc, Haw, Haq. cbn [mbind option_bind]. unfold SHUTDOWN_SAFETY_MARGIN_MS.
    rewrite u64_small by lia. case_bool; [bool_facts; lia|done].
Qed.

(** The parameters of the server that [main] creates. *)
Definition setup_of (c : StartupConfig) (log : LogStorage) (logger : Logger) (listener epoll event : Z)
    (ready_created : bool) (hardware : Z) : Setup :=
  mkSetup (gateway_port c) (request_queue_capacity c) (response_queue_capacity c)
    (shutdown_timeout_ms c) (worker_count c) (auth_worker_count c) (auth_queue_capacity c)
    log logger listener epoll event ready_created hardware.

(** The descriptors of the listener, the epoll instance and the eventfd. *)
Definition distinct_fds (listener epoll event : Z) : Prop :=
  0 ≤ listener ∧ 0 ≤ epoll ∧ 0 ≤ event ∧ listener ≠ epoll ∧ listener ≠ event ∧ epoll ≠ event.

Lemma setup_of_ok getenv c log logger listener epoll event ready_created hardware :
  parseStartupConfig getenv = Some c → distinct_fds listener epoll event → 0 ≤ hardware →
  setup_ok (setup_of c log logger listener epoll event ready_created hardware).
Proof.
  intros (_ & _ & _ & _ & _ & _ & _ & _ & _ & Hwc & Haw & _)%parseStartupConfig_ok (? & ? & ? & ? & ? & ?) Hhw.
  unfold setup_ok. cbn. split_and!; done || lia.
Qed.

(** ** Properties *)

(** C39: Exactly the documented configurations are accepted, with exactly the
    documented values.  [parseStartupConfig] returns a configuration if and
    only if each of its fields is the value of its own environment variable,
    or that field's default where the variable is not set: a number only from
    a plain string of decimal digits whose value is within the range of that
    variable, the environment name trimmed and in lower case and one of the
    four known ones, the host not empty, the token (outside development) with
    a character that is not white space, and a shutdown timeout that leaves
    room for two control-plane calls and the safety margin.  Every accepted
    configuration, defaults included, is within the documented limits. *)
Theorem startup_validates (getenv : bytes → option bytes) (c : StartupConfig) :
  (parseStartupConfig getenv = Some c ↔ configured getenv c) ∧
  (parseStartupConfig getenv = Some c → startup_ok c).
Proof. split; [apply parseStartupConfig_spec|apply parseStartupConfig_ok]. Qed.

(** An accepted configuration starts: unless the host or the token
    contains a carriage return or a line feed, neither constructor throws,
    and when the three descriptors are obtained [main] reaches the event loop
    with the server started from exactly these parameters, all of which are
    within the bounds the running gateway relies on. *)
Theorem startup_launches (getenv : bytes → option bytes) (c : StartupConfig) (log : LogStorage)
    (logger : Logger) (listener epoll event : Z) (ready_created : bool) (hardware : Z)
    (Hc : parseStartupConfig getenv = Some c)
    (Hhost : validateHeaderValue (control_plane_host c) = true)
    (Htoken : validateHeaderValue (gateway_token c) = true)
    (Hfds : distinct_fds listener epoll event) (Hhw : 0 ≤ hardware) :
  let u := setup_of c log logger listener epoll event ready_created hardware in
  ∃ client s,
    main_start getenv log logger (InitOk listener epoll event) ready_created hardware = Some (client, s) ∧
    client_ok client ∧ timeout_ms_ client = control_plane_timeout_ms c ∧
    launched u s ∧ setup_ok u.
Proof.
  pose proof (parseStartupConfig_ok _ _ Hc) as (_ & Hport & Hne & Hcp & Ht & _ & Hrq & Hrs & Hsd & Hwc & Haw & Haq).
  unfold main_start, construct. rewrite Hc. cbn [mbind option_bind].
  assert (Hcl : newClient (control_plane_host c) (control_plane_port c) (control_plane_timeout_ms c)
    (gateway_token c) = Some (mkClient (control_plane_host c) (control_plane_port c)
      (control_plane_timeout_ms c) (gateway_token c))).
  { unfold newClient. rewrite Hhost, Htoken, Z.gtb_ltb. rewrite <- zlen_0 in Hne.
    rewrite (proj2 (Z.eqb_neq _ _) Hne). cbn [negb].
    destruct (Z.ltb_spec (control_plane_port c) 1); [lia|].
    destruct (Z.ltb_spec 65535 (control_plane_port c)); [lia|].
    destruct (Z.leb_spec (control_plane_timeout_ms c) 0); [lia|done]. }
  rewrite Hcl. cbn [mbind option_bind]. apply newClient_ok in Hcl as [Hok _].
  destruct (newServer (gateway_port c) (request_queue_capacity c) (response_queue_capacity c)
    (shutdown_timeout_ms c) (worker_count c) (auth_worker_count c) (auth_queue_capacity c) log logger)
    as [s0|] eqn:Es.
  2:{ unfold newServer in Es. rewrite !Z.gtb_ltb in Es.
      destruct (Z.eqb_spec (auth_worker_count c) 0); [lia|].
      destruct (Z.ltb_spec 16 (auth_worker_count c)); [lia|].
      destruct (Z.eqb_spec (auth_queue_capacity c) 0); [lia|].
      destruct (Z.ltb_spec 65536 (auth_queue_capacity c)); [lia|done]. }
  assert (Hst : (start (InitOk listener epoll event) ready_created hardware s0).1 = true).
  { unfold newServer in Es. repeat (case_bool; [done|]). injection Es as <-. reflexivity. }
  cbn [mbind option_bind]. destruct (start _ _ _ s0) as [ok s] eqn:Er. cbn [fst] in Hst. subst ok.
  eexists _, s. split; [reflexivity|]. split; [exact Hok|]. split; [reflexivity|]. split; [by exists s0|].
  by eapply setup_of_ok.
Qed.

(** ** Witnesses *)

Definition sample_getenv (name : bytes) : option bytes :=
  if bool_decide (name = lit "APP_ENV") then Some (lit " Staging ")
  else if bool_decide (name = lit "GATEWAY_SHARED_TOKEN") then Some (lit "secret")
  else if bool_decide (name = lit "GATEWAY_PORT") then Some (lit "0080")
  else if bool_decide (name = lit "REQUEST_QUEUE_CAPACITY") then Some (lit "16")
  else None.

Definition sample_config : StartupConfig :=
  mkStartupConfig (lit "staging") 80 (lit "127.0.0.1") 8080 1000 (lit "secret") 16 4096 5000 0 2 32.

Lemma startup_validates_witness :
  configured sample_getenv sample_config ∧ startup_ok sample_config ∧
  parseStartupConfig (λ name, if bool_decide (name = lit "WORKER_COUNT") then Some (lit "2x") else sample_getenv name) = None.
Proof.
  destruct (startup_validates sample_getenv sample_config) as [Hs Hok].
  assert (Hp : parseStartupConfig sample_getenv = Some sample_config) by (vm_compute; reflexivity).
  split; [apply Hs, Hp|]. split; [apply Hok, Hp|vm_compute; reflexivity].
Defined.

Lemma startup_launches_witness :
  let log := newLogStorage None false true true in
  ∃ client s,
    main_start sample_getenv log (newLogger None) (InitOk 3 4 5) true 8 = Some (client, s) ∧
    client_ok client ∧ timeout_ms_ client = 1000 ∧
    launched (setup_of sample_config log (newLogger None) 3 4 5 true 8) s ∧ setup_ok (setup_of sample_config log (newLogger None) 3 4 5 true 8).
Proof.
  refine (startup_launches sample_getenv sample_config (newLogStorage None false true true) (newLogger None) 3 4 5 true 8 _ _ _ _ _);
    [vm_compute; reflexivity..|unfold distinct_fds; lia|lia].
Defined.
