(* ===== verification/Main.v ===== *)
(** * The whole program

    [main] from the environment to the exit code: the configuration, the two
    constructors, [TcpServer::start] with its event loop and
    [finishShutdown], and the destructor.  However it ends, nothing is left
    open. *)

From S2P Require Import Prelude Text Json Protocol BlockQueue Notifier ControlTypes Stats RuntimeConfig.
From S2P Require Import Logger HttpParser Socket Client Handlers Server Invariant Threads Reactor System Lifecycle Startup.
#[local] Open Scope Z_scope.

Section Main.
Context `{JsonLib} (E : Env).

(** [loop]: [ws] are the answers of [epoll_wait]; [None] when they end before
    the loop does. *)
Definition loop (ws : list WaitAnswer) (s : Server) : option Server :=
  s ← run_loop E ws s;
  if bool_decide (state_ s = STOPPED) then Some s else None.

(** [TcpServer::start] as a whole; the flag is false when it throws. *)
Definition start_and_serve (init : InitAnswer) (ready_created : bool) (hardware : Z)
    (ws : list WaitAnswer) (joins : list Action) (s : Server) : option (bool * Server) :=
  match start init ready_created hardware s with
  | (false, s) => Some (false, s)
  | (true, s) =>
      s ← loop ws s;
      s ← finishShutdown E joins s;
      Some (true, s)
  end.

(** [TcpServer::~TcpServer], on the thread that ran the loop. *)
Definition destroy (s : Server) : Server := (stop_server true 0 s).2.

(** [main]: the exit code, and the server at its destruction if it was
    constructed; [None] when the scripts end before the program does. *)
Definition main (getenv : bytes → option bytes) (log : LogStorage) (logger : Logger) (init : InitAnswer)
    (ready_created : bool) (hardware : Z) (ws : list WaitAnswer) (joins : list Action)
    : option (Z * option Server) :=
  match construct getenv log logger with
  | None => Some (1, None)
  | Some (_, server) =>
      '(ok, s) ← start_and_serve init ready_created hardware ws joins server;
      Some (if ok : bool then 0 else 1, Some (destroy s))
  end.

(** The descriptors the kernel returns are not negative, and distinct. *)
Definition kernel_fds (a : InitAnswer) : Prop :=
  match a with
  | InitOk l e v => distinct_fds l e v
  | _ => Forall (λ fd, 0 ≤ fd) (opened_by a)
  end.

(** Nothing is left of the server. *)
Definition gone (s : Server) : Prop :=
  k_open s = ∅ ∧ listen_fd_ s = -1 ∧ epfd_ s = -1 ∧ nf_fd (notifier_ s) = -1 ∧ connections_ s = ∅ ∧
  forallb worker_done (workers_ s) = true ∧ state_ s = STOPPED ∧ not_ready E s.

(** Fewer connections are accepted than there are connection ids. *)
Definition few_accepts (ws : list WaitAnswer) : Prop :=
  1 + zlen (gather (λ w, replicate (Z.to_nat (wait_accepts w)) tt) ws) < 2 ^ 64.

Lemma construct_Some getenv log logger client s0 :
  construct getenv log logger = Some (client, s0) →
  ∃ c, parseStartupConfig getenv = Some c ∧
    newServer (gateway_port c) (request_queue_capacity c) (response_queue_capacity c) (shutdown_timeout_ms c)
      (worker_count c) (auth_worker_count c) (auth_queue_capacity c) log logger = Some s0.
Proof.
  unfold construct. intros (c & Hc & (cl & _ & (s & Hs & [= <- <-])%bind_Some)%bind_Some)%bind_Some. eauto.
Qed.

Lemma new_unstarted a b c d e f g log logger s0 : newServer a b c d e f g log logger = Some s0 → started_ s0 = false.
Proof. unfold newServer. repeat (case_bool; [done|]). by intros [= <-]. Qed.

(** A construction that initialises is launched. *)
Lemma start_launched getenv log logger client s0 listener epoll event ready hw s :
  construct getenv log logger = Some (client, s0) → distinct_fds listener epoll event → 0 ≤ hw →
  start (InitOk listener epoll event) ready hw s0 = (true, s) →
  ∃ u, setup_ok u ∧ launched u s.
Proof.
  intros (c & Hc & Hn)%construct_Some Hfd Hhw Hs.
  exists (setup_of c log logger listener epoll event ready hw). split; [by eapply setup_of_ok|by exists s0].
Qed.

Lemma start_succeeds a ready hw s0 s :
  start a ready hw s0 = (true, s) → ∃ l e v, a = InitOk l e v.
Proof. unfold start. case_bool; [done|]. destruct a; simpl; intros [=]; eauto. Qed.

Lemma init_starts l e v ready hw s0 : started_ s0 = false → ∃ s, start (InitOk l e v) ready hw s0 = (true, s).
Proof. intros Hs. unfold start. rewrite Hs. simpl. eauto. Qed.

Lemma gone_destroy s : shutdown_finished_ s = true ∨ started_ s = false → gone s → gone (destroy s).
Proof.
  intros Hf Hg. unfold destroy, stop_server. destruct (started_ s) eqn:Es; simpl.
  - destruct Hf as [-> |]; done.
  - by destruct Hg as (? & ? & ? & ? & ? & ? & ? & ?).
Qed.

Context (HE : env_ok E).

(** The event loop of a constructed server, from its start to its end. *)
Lemma served getenv log logger client s0 listener epoll event ready hw s ws s' :
  construct getenv log logger = Some (client, s0) → distinct_fds listener epoll event → 0 ≤ hw →
  start (InitOk listener epoll event) ready hw s0 = (true, s) → few_accepts ws → loop ws s = Some s' →
  (∃ keys, Inv (pending keys true true) s') ∧ state_ s' = STOPPED.
Proof.
  intros Hc Hfd Hhw Hs Hf (s1 & Hl & Hst)%bind_Some. case_bool; [|done]. injection Hst as <-. bool_facts.
  destruct (start_launched _ _ _ _ _ _ _ _ _ _ _ Hc Hfd Hhw Hs) as (u & Hu & Hla).
  destruct (inv_launched u s Hu Hla) as (_ & _ & Hn). split; [|done].
  eapply reachable_inv, (run_loop_reachable E u ws s s1); try done; [by apply reach_start|].
  unfold few_accepts in Hf. lia.
Qed.

(** C19: The program ends clean.  Whatever the environment variables, the calls
    of the initialisation, the events and the other threads do, when [main]
    returns its exit code is 0 or 1, it is 0 exactly if the configuration and
    the constructors were accepted and every call of the initialisation
    succeeded, and at the end every descriptor and connection is closed, every worker
    has ended and the readiness file is gone (unless it could not be
    removed).  And it does return: once the event loop has ended, the threads
    can be joined. *)
Theorem main_ends_clean getenv log logger init ready hw ws :
  kernel_fds init → 0 ≤ hw → few_accepts ws →
  (∀ joins code final, Forall action_ok joins →
     main getenv log logger init ready hw ws joins = Some (code, final) →
     (code = 0 ∨ code = 1) ∧
     (code = 0 ↔ is_Some (construct getenv log logger) ∧ ∃ l e v, init = InitOk l e v) ∧
     (∀ s, final = Some s → gone s)) ∧
  (∀ client s0 s s', construct getenv log logger = Some (client, s0) →
     start init ready hw s0 = (true, s) → loop ws s = Some s' →
     ∃ joins final, Forall action_ok joins ∧ main getenv log logger init ready hw ws joins = Some (0, Some final)).
Proof.
  intros Hk Hhw Hf. split.
  - intros joins code final Hj Hm. unfold main in Hm.
    destruct (construct getenv log logger) as [[client s0]|] eqn:Hc.
    2:{ injection Hm as <- <-. split_and!; [by right| |done]. split; [done|]. by intros [[? ?] _]. }
    apply bind_Some in Hm as ([ok s2] & Hs & [= <- <-]). unfold start_and_serve in Hs.
    pose proof (construct_Some _ _ _ _ _ Hc) as (c & Hcfg & Hnew).
    destruct (start init ready hw s0) as [[] s1] eqn:Est.
    + apply bind_Some in Hs as (s3 & Hl & (s4 & Hfin & [= <- <-])%bind_Some).
      destruct (start_succeeds _ _ _ _ _ Est) as (l & e & v & ->). split; [by left|]. split.
      { split; [|done]. intros _. split; [done|by exists l, e, v]. }
      intros s [= <-]. destruct (served _ _ _ _ _ _ _ _ _ _ _ _ _ Hc Hk Hhw Est Hf Hl) as [[keys HI] Hst].
      destruct (finishShutdown_spec E HE keys joins s3 s4 HI Hst Hj Hfin) as ((R1 & R2 & R3 & R4) & R5 & _ & R6 & R7 & R8 & R9).
      apply gone_destroy; [by left|]. by split_and!.
    + injection Hs as <- <-. split; [by right|]. split.
      { split; [done|]. intros [_ (l & e & v & ->)]. destruct (init_starts l e v ready hw s0 (new_unstarted _ _ _ _ _ _ _ _ _ _ Hnew)). congruence. }
      intros s [= <-]. assert (Hpos : Forall (λ fd, 0 ≤ fd) (opened_by init)).
      { destruct init; try done. destruct Hk as (? & ? & ? & _). repeat constructor; done. }
      pose proof (start_spec _ _ _ _ _ _ _ _ _ s0 init ready hw Hnew Hpos) as Hr. rewrite Est in Hr.
      destruct Hr as [Hr _]. destruct Hr as (R1 & R2 & R3 & R4 & R5 & R6 & R7 & R8 & R9); [done|].
      apply gone_destroy; [by right|]. split_and!; try done; [by rewrite R6|by intros _].
  - intros client s0 s s' Hc Hs Hl. destruct (start_succeeds _ _ _ _ _ Hs) as (l & e & v & ->).
    destruct (served _ _ _ _ _ _ _ _ _ _ _ _ _ Hc Hk Hhw Hs Hf Hl) as [[keys HI] Hst].
    destruct (finishShutdown_returns E HE sample_worker_env keys s' HI Hst) as (joins & s2 & Hj & Hfin).
    exists joins. eexists. split; [done|]. unfold main. rewrite Hc. unfold start_and_serve. rewrite Hs, Hl.
    cbn [mbind option_bind]. by rewrite Hfin.
Qed.
End Main.

(** ** Witness *)

(** The sample configuration, and a stop request that arrives at once. *)
Definition stop_gateway : Env :=
  mkEnv (λ n, Z.of_nat n * 1000) (λ _, true) (λ _, true)
    (λ _, AStopRequest :: concat (replicate 5 (map (λ i, AWorker i sample_worker_env) (seq 0 6)))).

Lemma stop_env_ok : env_ok stop_gateway.
Proof. intros n. repeat constructor. Qed.

Lemma main_ends_clean_witness :
  let run := main (H := sample_json) stop_gateway sample_getenv (newLogStorage None false true true)
               (newLogger None) (InitOk 3 4 5) true 8 [WaitEvents [] 5] [] in
  ∃ s, run = Some (0, Some s) ∧ gone stop_gateway s.
Proof.
  destruct (@main_ends_clean sample_json stop_gateway stop_env_ok sample_getenv (newLogStorage None false true true)
    (newLogger None) (InitOk 3 4 5) true 8 [WaitEvents [] 5]) as [Hm _];
    [unfold kernel_fds, distinct_fds; lia|lia|vm_compute; reflexivity|].
  assert (Hr : ∃ s, main (H := sample_json) stop_gateway sample_getenv (newLogStorage None false true true)
    (newLogger None) (InitOk 3 4 5) true 8 [WaitEvents [] 5] [] = Some (0, Some s)) by (eexists; vm_compute; reflexivity).
  destruct Hr as [s Hr]. exists s. split; [exact Hr|]. eapply Hm; [constructor|exact Hr|reflexivity].
Defined.
